(* ===== verification/_CoqProject ===== *)
-Q . S2P
Prelude.v
Crypto.v
Quant.v
BlockAccounting.v
CborCodec.v
Errors.v
RootInput.v
RecordImport.v
Evm.v
Hook.v
B1Update.v
PairBinding.v
B1Cbor.v
B1Membership.v
B1Registry.v
B1Certificate.v
B1Batch.v
RegistryTransition.v
StoreCodec.v
CompanionStore.v
EthConsensus.v
BlockJob.v
BlockExecutor.v
ParentAccountings.v
Retention.v
UnicityConsensus.v
Recovery.v
SealJobs.v
B2Cbor.v
B2Semantics.v
B2Quiet.v
B2Lineage.v
B2Samples.v
BridgeAbi.v
Bridge.v
BridgeSafety.v
BridgeSound.v
BridgeSamples.v
