(* ===== verification/Prelude.v ===== *)
(** * The Unicity execution client

    A verification of the Unicity crates of this repository, a fork of the Ethereum client reth:
    [crates/unicity/execution], [b1], [b2], [bridge], [store] and [payload], and of the parts of [crates/consensus],
    [crates/ethereum] and [crates/payload] whose rules they call.  Paths below are relative to [src/].

    ** The program

    Two chains run in pairs.  A root chain certifies shard inputs; this client executes the shard's
    blocks.  For every block a local peer supplies a _root input_ (round, epoch, origin seal, technical
    record, hashes of two companions), the _B1 update_ (new committees of the root chain), the _record
    import_ and a _pair binding_ that ties them to one parent.  The client
    - decodes and admits these bytes ([wire.rs], [update.rs], [records.rs], [pairing.rs]);
    - executes the block: a privileged transition of an on-chain registry ([lib.rs]), the stock
      pre-execution changes, mandatory hooks ([hook.rs]), then ordinary transactions up to a reserved
      capacity ([block_executor.rs]), with a base fee computed from ordinary gas alone ([block.rs]);
    - mints, for each completed block, a _token_ that carries the split of its gas to the block's
      children, publishes it durably, and leases it to builds and imports ([payload/src/registry.rs]);
    - keeps the companions of its blocks in a sidecar database ([store]), prunes them
      ([payload/src/prune.rs]) and, after a restart, admits tokens again only after re-checking the
      bindings ([payload/src/recovery.rs]);
    - answers contracts that ask, through precompiles, whether a certificate was sealed by a quorum of
      a registered committee ([b1]), whether a token's history redeems what was locked for it ([b2]),
      and both together with the proofs that tie one to the other ([bridge]).

    ** The files

    Foundations.
    - [Prelude]: results and readers (state passing with an error), bytes, machine integers with their
      checked, saturating and wrapping operations, shared list lemmas, the tactics [inv_ok], [ulia].
    - [Crypto], [Evm]: third-party primitives as classes, with what is relied on as laws, and a concrete
      instance of each.
    - [Errors]: the error enumerations.

    Decoding and admission ([crates/unicity/execution]).
    - [CborCodec] (writers of [lib.rs], [Decoder] of [wire.rs]), [RootInput] ([RootInputV2], epoch
      transitions, envelopes), [PairBinding] ([pairing.rs]), [RecordImport] ([records.rs]), [B1Update]
      ([update.rs]), [Quant] ([quant.rs]).  The theorems say that each decoder accepts exactly the
      canonical encodings of well-formed values, at the documented price, and what an admitted value
      satisfies; commitments bind their input unless two of the byte strings hashed collide.

    Execution.
    - [BlockAccounting] ([block.rs]): gas split, reconciliation and the base-fee rule; never
      overflows, stays in range, moves in the direction of demand.
    - [Hook] ([hook.rs]) and [RegistryTransition] ([lib.rs]): the privileged calls.  A success is
      described completely (which calls, on which states, with which gas); no run panics.
    - [EthConsensus]: the stock header, body and post-execution rules, with their declarative form.
    - [BlockJob], [BlockExecutor] ([block_executor.rs]): what a job fixes of its block, on the build and
      on the import path; the executor as a state machine under arbitrary calls, executing
      and committing a transaction apart; build and replay.

    The B1 kernel ([crates/unicity/b1]).
    - [B1Cbor] (borrowed CBOR scan), [B1Membership] (sparse Merkle membership), [B1Registry] (registry
      reads), [B1Certificate] (claims and certificates), [B1Batch] (the batch precompile): exact
      acceptance, prices that bound the work, no panics, one value per key and shard unless two of
      the byte strings hashed collide, and quorum intersection.

    The B2 kernel ([crates/unicity/b2]).
    - [B2Cbor] ([cbor.rs], the errors of [lib.rs]), [B2Semantics] ([semantics.rs], [abi.rs], [lib.rs],
      [provider.rs]): the token relation.  A redemption is accepted exactly when a certified mint of
      the locked amount is followed by a chain of certified transfers that ends in a return burn; a
      call never panics and costs what the schedule says.
    - [B2Lineage] ([lineage.rs]): redemption of a part of a split token.  A lineage spends no state
      twice and redeems at most what was locked, the outputs of one split are worth at most their
      parent unless two byte strings its proofs hash collide, the walk ends, and without a split it is the relation of
      [B2Semantics] under an item ceiling.  [B2Quiet]: the relation itself never reports a lack of
      gas.  [B2Samples]: a concrete split token.

    The bridge ([crates/unicity/bridge]).
    - [BridgeAbi] ([abi.rs], the statuses of [lib.rs]): the input has one encoding.  [Bridge]
      ([cfg.rs], [compose.rs], [lib.rs], [provider.rs]): the composition as stages over a meter and a
      verdict.  [BridgeSafety]: every call ends, without a panic, within its gas and with a well-formed
      output.  [BridgeSound]: what an accepted call rests on, down to the quorum that certified the
      record each leaf is a member of.  [BridgeSamples]: a concrete accepted call.

    Storage and the node ([crates/unicity/store], [crates/unicity/payload]).
    - [StoreCodec], [CompanionStore]: record formats, and the store as transactions over an MDBX
      parameter, shown to refine a finite-map specification ([Spec], [represents]).
    - [ParentAccountings]: the bounded token registry, its critical sections as steps of
      [registry_step]; an invariant of all interleavings, what a lease is worth, what eviction keeps.
    - [Retention]: the retention pass and its loop; what may be lost, on every outcome.
    - [UnicityConsensus]: the node's verdict on a child header, and its agreement with the jobs.
    - [Recovery]: hydration and admission after a restart, over a provider that may change between any
      two reads; a token admitted at a height whose block changed meanwhile need not be of the block
      whose binding was checked.
    - [SealJobs]: payload ids, build jobs and their registry.

    Data keep the names of the source; a name the source uses twice carries its type or file.  [Record]s
    are structs, [Inductive]s enums, fallible functions return [result], and a method on [&mut self]
    takes and returns the state.  A panic of the source (an index, an [expect], an overflow of checked
    builds) is a value of the error type, so that its absence is a theorem.

    ** Parameters

    Hash functions and signature recovery ([Crypto], and [K256] for the curve of the token kernel); the
    EVM, its database and the ABI encoder ([Evm],
    [Abi]); MDBX ([MdbxEnv]); the stock block executor, assembler, tries and state roots ([EthExecutor],
    [Chain], [Primitives]); header hashes ([HeaderHash]); fork activation and protocol constants
    ([ChainSpec], [ConsensusConstants]); the journal of the precompiles ([RegistryRead]); the chain
    provider ([ChainReader], [ProviderView]); the meter of a lineage, an argument of
    [lineage_relation]; sender recovery and RLP ([SenderRecovery],
    [PayloadPrimitives]).  Laws are classes of their own ([EvmLaws], [MdbxLaws], [EthExecutorLaws],
    [ChainLaws]) with instances for the concrete functions; no law concerns collisions.  The anchor
    verdict of the bridge is an interface of the source ([Verdict], with [VerdictLaws]); the registry
    of [B1Batch] is its instance, and the theorems on calls are about that instance.

    ** Fuel and bounds

    Recursion is on the data, or on the source's own limit where it has one (the depth of a CBOR tree).
    Four kinds of loops carry fuel: the child iterator of the borrowed CBOR (every child takes a byte,
    so the unread length is enough), the walk of a lineage (an embedded token is shorter than the one
    that carries it, so the length of the history is enough), the cursor loops of the store (the number
    of entries is enough, and the refinement theorems exclude divergence), and the eviction loop of the
    token registry (likewise).
    Unsigned integers are [Z] with the source's checks, saturation or wrap-around written out; [u128]
    intermediates of the fee rule are bounded in [BlockAccounting].

    ** Not modelled

    - [execution/src/node_evm.rs], [evm_factory.rs]: the lookup of a bound input by commitment and the
      registration of precompiles with revm types.
    - [payload/src/rpc.rs], [node.rs], [engine.rs], [gossip.rs], [bin/]: JSON-RPC, asynchronous
      services, networking and configuration.  The functions they call are modelled where they live.
    - The bodies of the payload builders in [payload/src/lib.rs] that drive the stock builder.
    - The names of the bridge's statuses, and the construction and identifiers of its precompiles.
    - Opening and sizing the database, logging, metrics, and poisoning of mutexes.
    - The rest of reth, which these crates reach only through its traits.

    This file holds the shared vocabulary: results, bytes, machine integers. *)
From stdpp Require Export base tactics list numbers option countable strings.
From Stdlib Require Export ZArith Lia.
From Stdlib Require Export Strings.Byte.
#[global] Open Scope Z_scope.

(** ** Results: Rust's [Result] and the state-passing reader monad *)

Inductive result (E A : Type) : Type :=
| Ok (a : A)
| Err (e : E).
Arguments Ok {E A} a.
Arguments Err {E A} e.

Definition rbind {E A B} (c : result E A) (k : A -> result E B) : result E B :=
  match c with Ok a => k a | Err e => Err e end.

Definition map_err {E F A} (f : E -> F) (c : result E A) : result F A :=
  match c with Ok a => Ok a | Err e => Err (f e) end.

Definition ok_or {E A} (o : option A) (e : E) : result E A :=
  match o with Some a => Ok a | None => Err e end.

Definition is_ok {E A} (c : result E A) : bool :=
  match c with Ok _ => true | Err _ => false end.

(** A computation that threads a reader state [S] and may fail with [E]. *)
Definition reader (S E A : Type) : Type := S -> result E (A * S).

Definition sret {S E A} (a : A) : reader S E A := fun s => Ok (a, s).
Definition fail {S E A} (e : E) : reader S E A := fun _ => Err e.
Definition sbind {S E A B} (c : reader S E A) (k : A -> reader S E B) : reader S E B :=
  fun s => match c s with Ok (a, s') => k a s' | Err e => Err e end.
Definition lift {S E A} (c : result E A) : reader S E A :=
  fun s => match c with Ok a => Ok (a, s) | Err e => Err e end.

(** [.map_err(f)?] on a reader. *)
Definition via {S E F A} (f : E -> F) (p : reader S E A) : reader S F A := fun s => map_err f (p s).

Declare Scope unicity_scope.
Delimit Scope unicity_scope with unicity.
Notation "'let?' x ':=' c 'in' k" := (rbind c (fun x => k))
  (at level 10, x pattern, c at level 200, k at level 200,
   format "'[v' 'let?'  x  ':='  c  'in' '/' k ']'") : unicity_scope.
Notation "'let*' x ':=' c 'in' k" := (sbind c (fun x => k))
  (at level 10, x pattern, c at level 200, k at level 200,
   format "'[v' 'let*'  x  ':='  c  'in' '/' k ']'") : unicity_scope.
#[global] Open Scope unicity_scope.

(** Runs [f] over a list, left to right, stopping at the first error. *)
Fixpoint each {E A} (f : A -> result E ()) (l : list A) : result E () :=
  match l with
  | [] => Ok ()
  | a :: l => let? _ := f a in each f l
  end.

(** [for _ in 0..n] around a reader, collecting what each round returns. *)
Fixpoint repeat_reader {S E A} (n : nat) (p : reader S E A) : reader S E (list A) :=
  match n with
  | O => sret []
  | S n => let* a := p in let* l := repeat_reader n p in sret (a :: l)
  end.

(** ** Bytes *)

Abbreviation bytes := (list byte).

Definition b2z (b : byte) : Z := Z.of_N (Byte.to_N b).
Definition z2b (z : Z) : byte :=
  match Byte.of_N (Z.to_N (z mod 256)) with Some b => b | None => Byte.x00 end.

#[global] Instance byte_eq_decision : EqDecision byte := Byte.byte_eq_dec.
#[global] Program Instance byte_countable : Countable byte :=
  inj_countable Byte.to_N Byte.of_N _.
Next Obligation. intros b. apply Byte.of_to_N. Qed.

Definition zlen {A} (l : list A) : Z := Z.of_nat (length l).

(** Rust's [slice.get(a..b)]. *)
Definition get_range (l : bytes) (a b : Z) : option bytes :=
  if (0 <=? a) && (a <=? b) && (b <=? zlen l)
  then Some (take (Z.to_nat (b - a)) (drop (Z.to_nat a) l)) else None.

(** [u64::from_be_bytes] and its siblings at any width. *)
Definition be_val (l : bytes) : Z := fold_left (fun v b => v * 256 + b2z b) l 0.

(** [to_be_bytes] at a width of [n] bytes. *)
Fixpoint be_bytes (n : nat) (z : Z) : bytes :=
  match n with
  | O => []
  | S n => be_bytes n (z / 256) ++ [z2b z]
  end.

(** The loop [fold(0, |v, b| (v << 8) | b)] on a [u64] accumulator. *)
Definition shift_fold (l : bytes) : Z :=
  fold_left (fun v b => Z.lor (Z.shiftl v 8 mod 2 ^ 64) (b2z b)) l 0.

(** Rust's lexicographic order on byte slices. *)
Fixpoint bytes_ltb (a b : bytes) : bool :=
  match a, b with
  | [], [] => false
  | [], _ :: _ => true
  | _ :: _, [] => false
  | x :: a, y :: b =>
      if b2z x <? b2z y then true
      else if b2z y <? b2z x then false
      else bytes_ltb a b
  end.
Definition bytes_lt (a b : bytes) : Prop := bytes_ltb a b = true.

Definition ZERO32 : bytes := replicate 32 Byte.x00.
Definition ascii (s : String.string) : bytes := String.list_byte_of_string s.

(** [core::str::from_utf8(..).is_ok()]: the well-formed sequences of RFC 3629. *)
Definition in_rangeb (lo hi : Z) (b : byte) : bool := (lo <=? b2z b) && (b2z b <=? hi).
Definition utf8_second (b0 b1 : byte) : bool :=
  if b2z b0 =? 0xE0 then in_rangeb 0xA0 0xBF b1
  else if b2z b0 =? 0xED then in_rangeb 0x80 0x9F b1
  else if b2z b0 =? 0xF0 then in_rangeb 0x90 0xBF b1
  else if b2z b0 =? 0xF4 then in_rangeb 0x80 0x8F b1
  else in_rangeb 0x80 0xBF b1.
Fixpoint utf8_valid (l : bytes) : bool :=
  match l with
  | [] => true
  | b0 :: l1 =>
      if in_rangeb 0 0x7F b0 then utf8_valid l1
      else match l1 with
      | [] => false
      | b1 :: l2 =>
          if in_rangeb 0xC2 0xDF b0 then utf8_second b0 b1 && utf8_valid l2
          else match l2 with
          | [] => false
          | b2 :: l3 =>
              if in_rangeb 0xE0 0xEF b0
              then utf8_second b0 b1 && in_rangeb 0x80 0xBF b2 && utf8_valid l3
              else match l3 with
              | [] => false
              | b3 :: l4 =>
                  in_rangeb 0xF0 0xF4 b0 && utf8_second b0 b1 && in_rangeb 0x80 0xBF b2
                  && in_rangeb 0x80 0xBF b3 && utf8_valid l4
              end
          end
      end
  end.

(** ** Machine integers *)

Definition u8_max : Z := 255.
Definition u16_max : Z := 65535.
Definition u32_max : Z := 4294967295.
Definition u64_max : Z := 18446744073709551615.
Definition u128_max : Z := 340282366920938463463374607431768211455.
(** [usize] of the 64-bit targets the node supports. *)
Definition usize_max : Z := u64_max.
(** The largest length of a Rust slice, [isize::MAX]. *)
Definition slice_max : Z := 9223372036854775807.

Definition is_u64 (z : Z) : Prop := 0 <= z <= u64_max.
Definition is_word (w : bytes) : Prop := length w = 32%nat.

Definition wrap64 (z : Z) : Z := z mod 18446744073709551616.
Definition checked_add (a b : Z) : option Z := if a + b <=? u64_max then Some (a + b) else None.
Definition checked_sub (a b : Z) : option Z := if b <=? a then Some (a - b) else None.
Definition checked_mul (a b : Z) : option Z := if a * b <=? u64_max then Some (a * b) else None.
Definition saturating_add (a b : Z) : Z := Z.min u64_max (a + b).
Definition saturating_mul (a b : Z) : Z := Z.min u64_max (a * b).
Definition saturating_sub (a b : Z) : Z := Z.max 0 (a - b).
Definition sum_z (l : list Z) : Z := fold_right Z.add 0 l.

Lemma sum_z_cons v x : sum_z (v :: x) = v + sum_z x.
Proof. done. Qed.

(** ** Automation *)

Create HintDb unicity.
#[export] Hint Unfold is_u64 is_word u8_max u16_max u32_max u64_max usize_max slice_max : unicity.

(** Linear arithmetic over machine-width quantities and boolean comparisons. *)
Ltac ulia :=
  unfold is_u64, is_word, zlen, u8_max, u16_max, u32_max, usize_max, u64_max, slice_max in *; lia.

(** Decides every conditional of the goal whose test is a closed boolean. *)
Ltac eval_ifs :=
  repeat match goal with
  | |- context [if ?b then _ else _] =>
      let v := eval vm_compute in b in
      match v with
      | true => change b with true
      | false => change b with false
      end; cbv iota
  end.

(** ** Result and reader lemmas *)

Lemma rbind_ok_inv {E A B} (c : result E A) (k : A -> result E B) b :
  rbind c k = Ok b -> exists a, c = Ok a /\ k a = Ok b.
Proof. destruct c; simpl; [eauto | discriminate]. Qed.

Lemma sbind_ok_inv {S E A B} (c : reader S E A) (k : A -> reader S E B) s r :
  sbind c k s = Ok r -> exists a s', c s = Ok (a, s') /\ k a s' = Ok r.
Proof. unfold sbind. destruct (c s) as [[a s']|]; [eauto | discriminate]. Qed.

Lemma sbind_ok {S E A B} (c : reader S E A) (k : A -> reader S E B) s a s' :
  c s = Ok (a, s') -> sbind c k s = k a s'.
Proof. unfold sbind. by intros ->. Qed.

Lemma ok_or_inv {E A} (o : option A) (e : E) a : ok_or o e = Ok a -> o = Some a.
Proof. destruct o; simpl; congruence. Qed.

Lemma lift_ok_inv {S E A} (c : result E A) (s : S) r :
  lift c s = Ok r -> exists a, c = Ok a /\ r = (a, s).
Proof. unfold lift. destruct c; [intros [= <-]; eauto | discriminate]. Qed.

Lemma sbind_lift_inv {S E A B} (c : result E A) (k : A -> reader S E B) (s : S) r :
  sbind (lift c) k s = Ok r -> exists a, c = Ok a /\ k a s = Ok r.
Proof. unfold sbind, lift. destruct c; [eauto | discriminate]. Qed.

Lemma map_err_ok_inv {E F A} (f : E -> F) (c : result E A) a :
  map_err f c = Ok a -> c = Ok a.
Proof. destruct c; simpl; congruence. Qed.

Lemma sbind_lift_ok {S E A B} (c : result E A) (k : A -> reader S E B) s a :
  c = Ok a -> sbind (lift c) k s = k a s.
Proof. by intros ->. Qed.

(** Inverts every step of a successful computation in [H]. *)
Ltac inv_ok H :=
  repeat (cbv beta in H;
    lazymatch type of H with
    | rbind _ _ = Ok _ =>
        let a := fresh "a" in let Ha := fresh "Hok" in
        apply rbind_ok_inv in H as (a & Ha & H)
    | sbind (lift _) _ _ = Ok _ =>
        let a := fresh "a" in let Ha := fresh "Hok" in
        apply sbind_lift_inv in H as (a & Ha & H)
    | sbind _ _ _ = Ok _ =>
        let a := fresh "a" in let s := fresh "s" in let Ha := fresh "Hok" in
        apply sbind_ok_inv in H as (a & s & Ha & H)
    | lift _ _ = Ok _ =>
        let a := fresh "a" in let Ha := fresh "Hok" in
        apply lift_ok_inv in H as (a & Ha & H)
    | map_err _ _ = Ok _ => apply map_err_ok_inv in H
    | ok_or _ _ = Ok _ => apply ok_or_inv in H
    | Ok _ = Ok _ => injection H as H
    | Err _ = Ok _ => discriminate H
    | fail _ _ = Ok _ => discriminate H
    | sret _ _ = Ok _ => unfold sret in H; injection H as H
    | (if ?b then _ else _) = Ok _ => destruct b eqn:?; try discriminate H
    | (if ?b then _ else _) _ = Ok _ => destruct b eqn:?; try discriminate H
    | (let (_, _) := ?p in _) = Ok _ => destruct p eqn:?
    | (let (_, _) := ?p in _) _ = Ok _ => destruct p eqn:?
    end).

Lemma each_ok_Forall {E A} (f : A -> result E ()) (l : list A) :
  each f l = Ok () <-> Forall (fun a => f a = Ok ()) l.
Proof.
  induction l as [|a l IH]; simpl; [by split|].
  rewrite Forall_cons, <- IH. destruct (f a) as [[]|]; simpl; [tauto|]. split; [done | by intros [? _]].
Qed.

Lemma repeat_reader_length {S E A} n (p : reader S E A) s l s' :
  repeat_reader n p s = Ok (l, s') -> length l = n.
Proof.
  revert s l s'. induction n as [|n IH]; simpl; intros s l s' H.
  - inv_ok H. by subst.
  - inv_ok H. apply IH in Hok0. by subst.
Qed.

(** [errs p P]: every error of the reader satisfies [P]. *)
Definition errs {S E A} (p : reader S E A) (P : E -> Prop) : Prop := forall s e, p s = Err e -> P e.

Lemma errs_sret {S E A} (a : A) (P : E -> Prop) : errs (S := S) (sret a) P.
Proof. by intros s e. Qed.

Lemma errs_fail {S E A} (e : E) (P : E -> Prop) : P e -> errs (S := S) (A := A) (fail e) P.
Proof. by intros ? s e' [= <-]. Qed.

Lemma errs_bind {S E A B} (p : reader S E A) (k : A -> reader S E B) (P : E -> Prop) :
  errs p P -> (forall a, errs (k a) P) -> errs (sbind p k) P.
Proof.
  intros Hp Hk s e. unfold sbind. destruct (p s) as [[a s']|e'] eqn:Hs; [apply Hk|].
  intros [= ->]. by apply (Hp s).
Qed.

Lemma errs_bind_lift {S E A B} (c : result E A) (k : A -> reader S E B) (P : E -> Prop) a :
  c = Ok a -> errs (k a) P -> errs (sbind (lift c) k) P.
Proof. intros -> Hk s e. apply Hk. Qed.

Lemma errs_lift {S E A} (c : result E A) (P : E -> Prop) :
  (forall e, c = Err e -> P e) -> errs (S := S) (lift c) P.
Proof. intros Hc s e. unfold lift. destruct c; [done|]. intros [= ->]. by apply Hc. Qed.

Lemma errs_via {S E F A} (f : E -> F) (p : reader S E A) (P : F -> Prop) :
  (forall e, P (f e)) -> errs (via f p) P.
Proof. intros Hf s e. unfold via. destruct (p s); simpl; [done|]. intros [= <-]. apply Hf. Qed.

Lemma errs_if {S E A} (b : bool) (p q : reader S E A) (P : E -> Prop) :
  errs p P -> errs q P -> errs (if b then p else q) P.
Proof. by destruct b. Qed.

Lemma errs_repeat {S E A} n (p : reader S E A) (P : E -> Prop) : errs p P -> errs (repeat_reader n p) P.
Proof.
  intros Hp. induction n as [|n IH]; simpl; [apply errs_sret|].
  apply errs_bind; [done|]. intros a. apply errs_bind; [done|]. intros l. apply errs_sret.
Qed.
#[export] Hint Resolve errs_sret errs_fail errs_bind errs_lift errs_via errs_if errs_repeat : unicity.

(** ** Bytes and big-endian integers *)

Lemma b2z_range b : 0 <= b2z b < 256.
Proof. unfold b2z. pose proof (Byte.to_N_bounded b). lia. Qed.

Lemma b2z_inj a b : b2z a = b2z b -> a = b.
Proof.
  unfold b2z. intros H%N2Z.inj.
  pose proof (Byte.of_to_N a). pose proof (Byte.of_to_N b). congruence.
Qed.

Lemma b2z_z2b z : b2z (z2b z) = z mod 256.
Proof.
  unfold z2b. pose proof (Z.mod_pos_bound z 256 ltac:(lia)).
  destruct (Byte.of_N (Z.to_N (z mod 256))) eqn:E.
  - apply Byte.to_of_N in E. unfold b2z. rewrite E. lia.
  - apply Byte.of_N_None_iff in E. lia.
Qed.

Lemma z2b_b2z b : z2b (b2z b) = b.
Proof. apply b2z_inj. rewrite b2z_z2b. apply Z.mod_small, b2z_range. Qed.

Lemma b2z_z2b_small z : 0 <= z < 256 -> b2z (z2b z) = z.
Proof. intros. rewrite b2z_z2b. by apply Z.mod_small. Qed.

Lemma be_val_snoc l b : be_val (l ++ [b]) = be_val l * 256 + b2z b.
Proof. unfold be_val. by rewrite fold_left_app. Qed.

Lemma be_bytes_length n z : length (be_bytes n z) = n.
Proof.
  revert z. induction n as [|n IH]; intros z; simpl; [done|].
  rewrite length_app, IH. simpl. lia.
Qed.

Lemma be_val_bytes n z : 0 <= z < 256 ^ Z.of_nat n -> be_val (be_bytes n z) = z.
Proof.
  revert z. induction n as [|n IH]; intros z Hz; simpl be_bytes.
  - simpl in Hz. assert (z = 0) by lia. by subst.
  - rewrite Nat2Z.inj_succ, Z.pow_succ_r in Hz by lia.
    rewrite be_val_snoc, IH, b2z_z2b.
    + pose proof (Z.div_mod z 256). lia.
    + split; [apply Z.div_pos; lia | apply Z.div_lt_upper_bound; lia].
Qed.

Lemma be_val_range l : 0 <= be_val l < 256 ^ zlen l.
Proof.
  induction l as [|b l IH] using rev_ind; [by vm_compute|].
  rewrite be_val_snoc. unfold zlen in *. rewrite length_app. simpl length.
  rewrite Nat2Z.inj_add, Z.pow_add_r by lia.
  pose proof (b2z_range b). simpl (256 ^ _). lia.
Qed.

Lemma be_bytes_val l : be_bytes (length l) (be_val l) = l.
Proof.
  induction l as [|b l IH] using rev_ind; [done|].
  rewrite length_app, Nat.add_comm. simpl. rewrite be_val_snoc.
  pose proof (b2z_range b).
  rewrite Z.div_add_l, (Z.div_small (b2z b)), Z.add_0_r, IH by lia.
  f_equal. f_equal. apply b2z_inj. rewrite b2z_z2b, Z.add_comm, Z.mod_add by lia.
  apply Z.mod_small; lia.
Qed.

Lemma be_bytes_val_n n l : length l = n -> be_bytes n (be_val l) = l.
Proof. intros <-. apply be_bytes_val. Qed.

Lemma be_bytes_inj n x y :
  0 <= x < 256 ^ Z.of_nat n -> 0 <= y < 256 ^ Z.of_nat n ->
  be_bytes n x = be_bytes n y -> x = y.
Proof. intros Hx Hy H. rewrite <- (be_val_bytes n x), H by done. by apply be_val_bytes. Qed.

Lemma be_bytes_split (a b : nat) n :
  be_bytes (a + b) n = be_bytes a (n / 256 ^ Z.of_nat b) ++ be_bytes b n.
Proof.
  assert (Hs : forall m z, be_bytes (S m) z = be_bytes m (z / 256) ++ [z2b z]) by done.
  revert n. induction b as [|b IH]; intros n.
  - rewrite Nat.add_0_r, Z.div_1_r. simpl. by rewrite app_nil_r.
  - rewrite Nat.add_succ_r, !Hs. rewrite IH, app_assoc, Nat2Z.inj_succ.
    rewrite Z.div_div, <- Z.pow_succ_r by lia. done.
Qed.

Lemma lor_shiftl_add v n x :
  0 <= n -> 0 <= x < 2 ^ n -> Z.lor (Z.shiftl v n) x = v * 2 ^ n + x.
Proof.
  intros Hn Hx. rewrite <- Z.shiftl_mul_pow2 by lia. rewrite <- Z.add_lor_land.
  assert (Hand : Z.land (Z.shiftl v n) x = 0); [|lia].
  apply Z.bits_inj'. intros i Hi. rewrite Z.land_spec, Z.bits_0, Z.shiftl_spec by lia.
  destruct (Z.ltb_spec i n).
  - by rewrite Z.testbit_neg_r by lia.
  - rewrite <- (Z.mod_small x (2 ^ n)) by lia.
    by rewrite Z.mod_pow2_bits_high, andb_false_r by lia.
Qed.

Lemma lor_shift_byte v b : Z.lor (Z.shiftl v 8) (b2z b) = v * 256 + b2z b.
Proof. apply lor_shiftl_add; [lia | apply b2z_range]. Qed.

(** The shift-and-or loop reads at most eight bytes without losing a bit. *)
Lemma shift_fold_be_val l : (length l <= 8)%nat -> shift_fold l = be_val l.
Proof.
  induction l as [|b l IH] using rev_ind; [done|]. rewrite length_app. simpl. intros Hl.
  rewrite be_val_snoc. unfold shift_fold in *. rewrite fold_left_app. simpl.
  rewrite IH by lia. pose proof (be_val_range l) as Hr.
  assert (be_val l < 2 ^ 56).
  { eapply Z.lt_le_trans; [apply Hr|]. change (2 ^ 56) with (256 ^ 7).
    apply Z.pow_le_mono_r; ulia. }
  rewrite Z.mod_small; [apply lor_shift_byte|].
  rewrite Z.shiftl_mul_pow2 by lia. change (2 ^ 64) with (2 ^ 56 * 2 ^ 8). lia.
Qed.

(** ** Ranges *)

Lemma zlen_nonneg {A} (l : list A) : 0 <= zlen l.
Proof. ulia. Qed.

Lemma zlen_app {A} (a b : list A) : zlen (a ++ b) = zlen a + zlen b.
Proof. unfold zlen. rewrite length_app. lia. Qed.

Lemma zlen_nil_inv {A} (l : list A) : zlen l = 0 -> l = [].
Proof. destruct l; [done | intros H; unfold zlen in H; simpl in H; lia]. Qed.

Lemma zlen_nil {A} : zlen (@nil A) = 0.
Proof. done. Qed.

Lemma zlen_cons {A} (a : A) l : zlen (a :: l) = 1 + zlen l.
Proof. unfold zlen. simpl. lia. Qed.

Lemma get_range_some l a b x :
  get_range l a b = Some x <->
  0 <= a <= b /\ b <= zlen l /\ x = take (Z.to_nat (b - a)) (drop (Z.to_nat a) l).
Proof.
  unfold get_range. destruct (_ && _) eqn:E.
  - apply andb_prop in E as [[E1 E2]%andb_prop E3]. split; [intros [= <-] | intros (_ & _ & ->)];
      [repeat split; lia | done].
  - split; [done|]. intros (? & ? & _). exfalso.
    apply not_true_iff_false in E. apply E. rewrite !andb_true_iff. lia.
Qed.

Lemma take_length_app {A} n (a b : list A) : length a = n -> take n (a ++ b) = a.
Proof. intros <-. by rewrite take_app_length. Qed.

Lemma drop_length_app {A} n (a b : list A) : length a = n -> drop n (a ++ b) = b.
Proof. intros <-. by rewrite drop_app_length. Qed.

(** ** The lexicographic order *)

Lemma bytes_ltb_irrefl a : bytes_ltb a a = false.
Proof. induction a; simpl; [done|]. by rewrite Z.ltb_irrefl. Qed.

#[global] Instance bytes_lt_strict : StrictOrder bytes_lt.
Proof.
  split.
  - intros a H. unfold bytes_lt in H. by rewrite bytes_ltb_irrefl in H.
  - intros a. unfold bytes_lt. induction a as [|x a IH]; intros [|y b] [|z c]; simpl; try done.
    repeat case_match; try done; try lia; eauto.
Qed.

Lemma bytes_lt_total a b : bytes_lt a b \/ a = b \/ bytes_lt b a.
Proof.
  revert b. unfold bytes_lt. induction a as [|x a IH]; intros [|y b]; simpl; auto.
  destruct (Z.ltb_spec (b2z x) (b2z y)), (Z.ltb_spec (b2z y) (b2z x)); auto; try lia.
  destruct (IH b) as [H1 | [-> | H1]]; auto.
  right; left. f_equal. apply b2z_inj. lia.
Qed.

(** Fixed-width big-endian keys compare as the numbers they encode. *)
Lemma bytes_ltb_snoc a b x y :
  length a = length b ->
  bytes_ltb (a ++ [x]) (b ++ [y]) = bytes_ltb a b || (bool_decide (a = b) && (b2z x <? b2z y)).
Proof.
  revert b. induction a as [|u a IH]; intros [|v b] Hl; simpl in Hl |- *; try lia.
  - destruct (b2z x <? b2z y); [done|]. by destruct (b2z y <? b2z x).
  - destruct (Z.ltb_spec (b2z u) (b2z v)); [done|].
    destruct (Z.ltb_spec (b2z v) (b2z u)).
    + rewrite bool_decide_false; [done|]. intros [= -> ->]. lia.
    + assert (u = v) as -> by (apply b2z_inj; lia). rewrite IH by lia.
      f_equal. f_equal. by apply bool_decide_ext; split; [intros ->|intros [= ->]].
Qed.

Lemma be_bytes_ltb n x y :
  0 <= x < 256 ^ Z.of_nat n -> 0 <= y < 256 ^ Z.of_nat n ->
  bytes_ltb (be_bytes n x) (be_bytes n y) = (x <? y).
Proof.
  revert x y. induction n as [|n IH]; intros x y Hx Hy; cbn [be_bytes].
  - simpl in Hx, Hy. simpl. symmetry. apply Z.ltb_ge. lia.
  - rewrite Nat2Z.inj_succ, Z.pow_succ_r in Hx, Hy by lia.
    assert (Hd : forall z, 0 <= z < 256 * 256 ^ Z.of_nat n -> 0 <= z / 256 < 256 ^ Z.of_nat n).
    { intros z Hz. split; [apply Z.div_pos; lia | apply Z.div_lt_upper_bound; lia]. }
    rewrite bytes_ltb_snoc by (by rewrite !be_bytes_length). rewrite IH, !b2z_z2b by auto.
    pose proof (Z.div_mod x 256). pose proof (Z.div_mod y 256).
    pose proof (Z.mod_pos_bound x 256). pose proof (Z.mod_pos_bound y 256).
    destruct (decide (x / 256 = y / 256)) as [E|E].
    + rewrite E, bool_decide_true by done. rewrite Z.ltb_irrefl. simpl. lia.
    + rewrite bool_decide_false by (intros ?%be_bytes_inj; auto). simpl.
      rewrite orb_false_r. lia.
Qed.

Lemma bytes_ltb_app a b x y :
  length a = length b ->
  bytes_ltb (a ++ x) (b ++ y) = bytes_ltb a b || (bool_decide (a = b) && bytes_ltb x y).
Proof.
  revert b. induction a as [|u a IH]; intros [|v b] Hl; simpl in Hl |- *; try lia.
  - done.
  - destruct (Z.ltb_spec (b2z u) (b2z v)); [done|].
    destruct (Z.ltb_spec (b2z v) (b2z u)).
    + rewrite bool_decide_false; [done|]. intros [= -> ->]. lia.
    + assert (u = v) as -> by (apply b2z_inj; lia). rewrite IH by lia.
      f_equal. f_equal. by apply bool_decide_ext; split; [intros ->|intros [= ->]].
Qed.

#[global] Arguments be_bytes : simpl never.
#[global] Arguments be_val : simpl never.

(** A slice without a non-zero byte is all zero. *)
Lemma all_zero l n :
  length l = n -> existsb (fun b => negb (bool_decide (b = Byte.x00))) l = false ->
  l = replicate n Byte.x00.
Proof.
  intros <-. induction l as [|b l IH]; simpl; [done|].
  intros [Hb%negb_false_iff%bool_decide_eq_true Hl]%orb_false_iff. by rewrite Hb, <- IH.
Qed.
