(* ===== verification/Crypto.v ===== *)
(** The third-party primitives the program calls: SHA-256 ([sha2]), Keccak-256 ([alloy_primitives])
    and the secp256k1 operations of the [secp256k1] crate.

    They are parameters of the model.  What the program relies on is their documented shape: both
    hashes return 32 bytes.  Nothing is assumed about collisions; theorems that depend on collision
    resistance find the colliding inputs among those the program hashed ([collision_among]).
    [toy_crypto] is a concrete instance, used where a statement is evaluated on concrete data. *)
From S2P Require Import Prelude.

Class Crypto := {
  (** [Sha256::digest]. *)
  sha256 : bytes -> bytes;
  (** [keccak256]. *)
  keccak256 : bytes -> bytes;
  (** [secp256k1::PublicKey] and its parser [PublicKey::from_slice]. *)
  PublicKey : Type;
  public_key_eq_decision :: EqDecision PublicKey;
  public_key_from_slice : bytes -> option PublicKey;
  (** [RecoverableSignature::from_compact(sig, id).is_ok()]. *)
  compact_ok : bytes -> Z -> bool;
  (** [normalize_s] leaves the signature unchanged. *)
  low_s : bytes -> bool;
  (** [Secp256k1::recover_ecdsa] of a digest and a compact signature with its recovery id. *)
  recover_ecdsa : bytes -> bytes -> Z -> option PublicKey;
  sha256_word : forall x, is_word (sha256 x);
  keccak256_word : forall x, is_word (keccak256 x) }.

Lemma cons_subset {A} (x : A) l1 l2 : x :: l1 ⊆ l2 <-> x ∈ l2 /\ l1 ⊆ l2.
Proof.
  split; [intros Hl; split; [|intros y Hy]; apply Hl; by constructor|].
  intros [Hx Hl] y [-> | Hy]%elem_of_cons; [done | by apply Hl].
Qed.

Lemma app_subset {A} (l1 l2 l : list A) : l1 ++ l2 ⊆ l <-> l1 ⊆ l /\ l2 ⊆ l.
Proof.
  split; [intros Hl; split; intros y Hy; apply Hl, elem_of_app; tauto|].
  intros [H1 H2] y [Hy | Hy]%elem_of_app; [by apply H1 | by apply H2].
Qed.

(** Two different byte strings of [l] have one digest.  The statements that rest on a hash name in
    [l] the byte strings the program hashes: that some two byte strings collide is true of every
    hash, a collision among a few given ones can be computed. *)
Definition collision_among (h : bytes -> bytes) (l : list bytes) : Prop :=
  exists x y, x ∈ l /\ y ∈ l /\ x <> y /\ h x = h y.

#[global] Instance collision_among_dec h l : Decision (collision_among h l).
Proof.
  refine (cast_if (decide (Exists (fun x => Exists (fun y => x <> y /\ h x = h y) l) l))).
  - abstract (apply Exists_exists in e as (x & Hx & (y & Hy & Hc)%Exists_exists); by exists x, y).
  - abstract (intros (x & y & Hx & Hy & Hc); apply n, Exists_exists; exists x; split; [done|];
      apply Exists_exists; by exists y).
Defined.

Lemma collision_mono h l l' : l ⊆ l' -> collision_among h l -> collision_among h l'.
Proof. intros Hl (x & y & Hx & Hy & Hc). exists x, y. by split_and!; [apply Hl..|apply Hc|apply Hc]. Qed.

Lemma digest_inj h l x y : x ∈ l -> y ∈ l -> h x = h y -> x = y \/ collision_among h l.
Proof. intros Hx Hy Heq. destruct (decide (x = y)); [by left|]. right. by exists x, y. Qed.

(** A checksum that mixes the length and every byte: enough to run the definitions. *)
Definition toy_hash (x : bytes) : bytes :=
  be_bytes 32 (fold_left (fun h b => (h * 1000003 + b2z b + 1) mod 2 ^ 64) x 7).

Lemma toy_hash_word x : is_word (toy_hash x).
Proof. apply be_bytes_length. Qed.

(** In the toy instance a key is its 33 bytes and a signature recovers to its own first 33 bytes. *)
Definition toy_crypto : Crypto := {|
  sha256 := toy_hash;
  keccak256 := toy_hash;
  PublicKey := bytes;
  public_key_eq_decision := _;
  public_key_from_slice := fun raw => if zlen raw =? 33 then Some raw else None;
  compact_ok := fun raw id => zlen raw =? 64;
  low_s := fun _ => true;
  recover_ecdsa := fun digest raw id => Some (take 33 raw);
  sha256_word := toy_hash_word;
  keccak256_word := toy_hash_word |}.
