(* ===== verification/Quant.v ===== *)
(** The weight quantization rule of [crates/unicity/execution/src/quant.rs].

    [quantize] derives the committed weights of a committee from its bonded weights.  The theorems
    are the promises of the module documentation: the committed total never exceeds the cap, every
    member keeps at least one unit and never gains, the raw order is preserved, the share of any
    subset of members moves by less than [2n/Q], and the committed total stays above [(B+1)/2 - n]. *)
From S2P Require Import Prelude.

Definition WEIGHT_CAP_B : Z := 65536.

Inductive QuantError :=
| Committee
| ZeroWeight
| Overflow.

(** The checking loop: [for &v in x { ... total = total.checked_add(v)? }]. *)
Fixpoint total_weight (x : list Z) (total : Z) : result QuantError Z :=
  match x with
  | [] => Ok total
  | v :: x =>
      if v =? 0 then Err ZeroWeight else
      let? total := ok_or (checked_add total v) Overflow in
      total_weight x total
  end.

(** [u64::div_ceil]. *)
Definition div_ceil (a b : Z) : Z := if a mod b =? 0 then a / b else a / b + 1.

(** The weight of one member under the divisor [s]. *)
Definition scale (s v : Z) : Z := Z.max (v / s) 1.

Definition quantize (x : list Z) (b : Z) : result QuantError (list Z * Z) :=
  let n := zlen x in
  if (n =? 0) || (b <=? n) then Err Committee else
  let? total := total_weight x 0 in
  if total <=? b then Ok (x, 1) else
  let room := b - n in
  let s := div_ceil total room in
  Ok (map (scale s) x, s).

(** The weight of the members a mask selects. *)
Definition weight_of (mask : list bool) (w : list Z) : Z :=
  sum_z (zip_with (fun (keep : bool) v => if keep then v else 0) mask w).

(** ** The checking loop *)

Lemma total_weight_ok x t r :
  total_weight x t = Ok r -> r = t + sum_z x /\ Forall (fun v => v <> 0) x /\ (t <= u64_max -> r <= u64_max).
Proof.
  revert t. induction x as [|v x IH]; simpl; intros t H.
  - injection H as <-. split_and!; [lia | constructor | lia].
  - inv_ok H. unfold checked_add in Hok. case_match; [|done]. injection Hok as <-.
    apply IH in H as (-> & ? & ?). split_and!; [lia | constructor; [lia | done] | lia].
Qed.

Lemma total_weight_complete x t :
  Forall (fun v => 0 < v) x -> 0 <= t -> t + sum_z x <= u64_max -> total_weight x t = Ok (t + sum_z x).
Proof.
  revert t. induction x as [|v x IH]; simpl; intros t Hx Ht Hs.
  - f_equal. lia.
  - apply Forall_cons in Hx as [Hv Hx].
    assert (0 <= sum_z x) by (clear -Hx; induction Hx; simpl; lia).
    rewrite (proj2 (Z.eqb_neq _ _)) by lia.
    unfold checked_add. rewrite (proj2 (Z.leb_le _ _)) by lia. simpl.
    rewrite IH by (done || lia). f_equal. lia.
Qed.

Lemma sum_nonneg x : Forall (fun v => 0 <= v) x -> 0 <= sum_z x.
Proof. induction 1; simpl; lia. Qed.

(** ** The divisor *)

Lemma div_ceil_bounds a b :
  0 < b -> 0 <= a -> a <= div_ceil a b * b /\ div_ceil a b * b < a + b.
Proof.
  intros. unfold div_ceil. pose proof (Z.div_mod a b). pose proof (Z.mod_pos_bound a b).
  destruct (Z.eqb_spec (a mod b) 0); nia.
Qed.

(** Every quantized weight is within one unit of the exact quotient. *)
Lemma scaled_bounds s v : 0 < s -> 0 < v -> v - s < scale s v * s < v + s.
Proof.
  intros. unfold scale. pose proof (Z.div_mod v s). pose proof (Z.mod_pos_bound v s).
  destruct (Z.max_spec (v / s) 1) as [[? ->] | [? ->]]; nia.
Qed.

Lemma scale_sum_upper s x :
  0 < s -> Forall (fun v => 0 < v) x -> sum_z (map (scale s) x) * s <= sum_z x + zlen x * s.
Proof.
  intros Hs. induction 1 as [|v x Hv Hx IH]; [unfold zlen; simpl; lia|].
  rewrite map_cons, zlen_cons, !sum_z_cons, ?Z.mul_add_distr_r.
  pose proof (scaled_bounds s v Hs Hv). lia.
Qed.

Lemma scale_sum_lower s x :
  0 < s -> Forall (fun v => 0 < v) x -> sum_z x - zlen x * s <= sum_z (map (scale s) x) * s.
Proof.
  intros Hs. induction 1 as [|v x Hv Hx IH]; [unfold zlen; simpl; lia|].
  rewrite map_cons, zlen_cons, !sum_z_cons, ?Z.mul_add_distr_r.
  pose proof (scaled_bounds s v Hs Hv). lia.
Qed.

Lemma scale_sum_strict s x :
  0 < s -> Forall (fun v => 0 < v) x -> x <> [] ->
  - (zlen x * s) < sum_z (map (scale s) x) * s - sum_z x < zlen x * s.
Proof.
  intros Hs Hx Hne. destruct Hx as [|v x Hv Hx]; [done|].
  rewrite map_cons, zlen_cons, !sum_z_cons, ?Z.mul_add_distr_r.
  pose proof (scaled_bounds s v Hs Hv). pose proof (scale_sum_upper s x Hs Hx).
  pose proof (scale_sum_lower s x Hs Hx). lia.
Qed.

Lemma weight_of_cons b mask v w :
  weight_of (b :: mask) (v :: w) = (if b then v else 0) + weight_of mask w.
Proof. done. Qed.

Lemma weight_of_bounds mask x :
  Forall (fun v => 0 < v) x -> 0 <= weight_of mask x <= sum_z x.
Proof.
  intros Hx. revert mask. induction Hx as [|v x Hv Hx IH]; intros mask.
  - by destruct mask.
  - destruct mask as [|b mask].
    + pose proof (IH []) as Hn. change (weight_of [] (v :: x)) with 0.
      change (weight_of [] x) with 0 in Hn. rewrite sum_z_cons. lia.
    + rewrite weight_of_cons, sum_z_cons. specialize (IH mask). destruct b; lia.
Qed.

(** The quantized weight of a subset is within one unit per member of its exact share. *)
Lemma subset_scale s mask x :
  0 < s -> Forall (fun v => 0 < v) x ->
  - (zlen x * s) <= weight_of mask (map (scale s) x) * s - weight_of mask x <= zlen x * s.
Proof.
  intros Hs Hx. revert mask. induction Hx as [|v x Hv Hx IH]; intros mask.
  - change (zlen []) with 0. change (map (scale s) []) with (@nil Z).
    assert (weight_of mask [] = 0) as -> by (by destruct mask). lia.
  - rewrite zlen_cons. destruct mask as [|b mask].
    + change (weight_of [] (map (scale s) (v :: x))) with 0.
      change (weight_of [] (v :: x)) with 0. pose proof (zlen_nonneg x). nia.
    + rewrite map_cons, !weight_of_cons, ?Z.mul_add_distr_r. specialize (IH mask).
      pose proof (scaled_bounds s v Hs Hv). pose proof (zlen_nonneg x). destruct b; nia.
Qed.

(** A success is one of the two branches of the rule. *)
Lemma quantize_inv x b q s :
  Forall is_u64 x -> quantize x b = Ok (q, s) ->
  0 < zlen x < b /\ Forall (fun v => 0 < v) x /\ sum_z x <= u64_max /\
  ((sum_z x <= b /\ q = x /\ s = 1) \/
   (b < sum_z x /\ s = div_ceil (sum_z x) (b - zlen x) /\ q = map (scale s) x)).
Proof.
  intros Hu H. unfold quantize in H. inv_ok H.
  - apply total_weight_ok in Hok as (-> & Hnz & Hmax).
    pose proof (zlen_nonneg x). split_and!; [lia..| | |].
    + clear -Hnz Hu. induction Hu; inversion Hnz; subst; constructor; [ulia | auto].
    + ulia.
    + left. split_and!; [lia | congruence..].
  - apply total_weight_ok in Hok as (-> & Hnz & Hmax).
    pose proof (zlen_nonneg x). split_and!; [lia..| | |].
    + clear -Hnz Hu. induction Hu; inversion Hnz; subst; constructor; [ulia | auto].
    + ulia.
    + right. subst. split_and!; [lia | done..].
Qed.

(** The committed weights.  Whenever the rule is defined, the committed total stays within the
    profile cap, every member keeps between one unit and its bonded weight, and a total already
    within the cap is committed unchanged. *)
Theorem quantize_bounds x b q s :
  Forall is_u64 x -> quantize x b = Ok (q, s) ->
  sum_z q <= b /\ length q = length x /\ Forall2 (fun qi xi => 1 <= qi <= xi) q x /\
  (sum_z x <= b -> q = x).
Proof.
  intros Hu H. destruct (quantize_inv _ _ _ _ Hu H) as (Hn & Hx & Hmax & [(? & -> & ->) | (Hb & Hs & ->)]).
  - split_and!; [lia | done | | done]. apply Forall_Forall2_diag.
    eapply Forall_impl; [apply Hx|]. simpl. lia.
  - destruct (div_ceil_bounds (sum_z x) (b - zlen x) ltac:(lia) ltac:(lia)) as [Hlo Hhi].
    rewrite <- Hs in Hlo, Hhi. assert (Hs0 : 0 < s) by nia.
    pose proof (scale_sum_upper s x Hs0 Hx). split_and!; [nia | by rewrite length_map | | lia].
    clear -Hx Hs0. induction Hx as [|v x Hv Hx IH]; constructor; [|done].
    unfold scale. split; [lia|].
    apply Z.max_lub; [|lia]. apply Z.div_le_upper_bound; nia.
Qed.

Lemma quantize_bounds_witness :
  Forall is_u64 [100000; 7; 30000] /\
  quantize [100000; 7; 30000] WEIGHT_CAP_B = Ok ([50000; 3; 15000], 2) /\
  sum_z [50000; 3; 15000] <= WEIGHT_CAP_B.
Proof.
  assert (Hu : Forall is_u64 [100000; 7; 30000]) by (repeat constructor; ulia).
  assert (Hq : quantize [100000; 7; 30000] WEIGHT_CAP_B = Ok ([50000; 3; 15000], 2)) by reflexivity.
  split; [done|]. split; [done|]. exact (proj1 (quantize_bounds _ _ _ _ Hu Hq)).
Defined.

(** The security premise.  For every subset of the members, the committed share of the subset
    differs from its bonded share by less than [2n/Q]: with [Q] and [X] the committed and the bonded
    total, [|q(S)/Q - x(S)/X| < 2n/Q], stated without division.  And the committed total itself stays
    above [(B+1)/2 - n] whenever it was reduced, for every committee with [4n + 3 <= B]. *)
Theorem quantize_share x b q s mask :
  Forall is_u64 x -> quantize x b = Ok (q, s) ->
  Z.abs (weight_of mask q * sum_z x - weight_of mask x * sum_z q) < 2 * zlen x * sum_z x /\
  (b < sum_z x -> 4 * zlen x + 3 <= b -> b + 1 < 2 * (sum_z q + zlen x)).
Proof.
  intros Hu H. destruct (quantize_inv _ _ _ _ Hu H) as (Hn & Hx & Hmax & [(? & -> & ->) | (Hb & Hs & ->)]).
  - pose proof (weight_of_bounds mask x Hx). split; [|lia].
    rewrite Z.sub_diag. simpl. destruct Hx as [|v x Hv Hx]; [unfold zlen in Hn; simpl in Hn; lia|].
    pose proof (weight_of_bounds [] x Hx) as [Hp Hq]. change (weight_of [] x) with 0 in *.
    rewrite sum_z_cons. nia.
  - destruct (div_ceil_bounds (sum_z x) (b - zlen x) ltac:(lia) ltac:(lia)) as [Hlo Hhi].
    rewrite <- Hs in Hlo, Hhi. assert (Hs0 : 0 < s) by nia. clear Hs.
    pose proof (subset_scale s mask x Hs0 Hx) as Ha.
    assert (Hne : x <> []) by (intros ->; unfold zlen in Hn; simpl in Hn; lia).
    pose proof (scale_sum_strict s x Hs0 Hx Hne) as HA.
    pose proof (weight_of_bounds mask x Hx) as Hw.
    set (X := sum_z x) in *. set (Q := sum_z (map (scale s) x)) in *.
    set (qS := weight_of mask (map (scale s) x)) in *. set (xS := weight_of mask x) in *.
    set (n := zlen x) in *. clearbody X Q qS xS n. clear Hx Hne Hu H.
    split.
    + apply Z.abs_lt. assert (HX : 0 < X) by lia.
      assert (E : s * (qS * X - xS * Q) = (qS * s - xS) * X - xS * (Q * s - X)) by ring.
      assert (xS * (Q * s - X) < n * s * X /\ - (n * s * X) < xS * (Q * s - X)).
      { destruct (Z.eq_dec xS 0) as [->|]; [split; nia | split; nia]. }
      assert ((qS * s - xS) * X <= n * s * X /\ - (n * s * X) <= (qS * s - xS) * X) by (split; nia).
      split; nia.
    + intros _ Hbig. destruct (Z.le_gt_cases s 2).
      * assert (s = 2 \/ s = 1) as [-> | ->] by lia; nia.
      * nia.
Qed.

Lemma quantize_share_witness :
  Forall is_u64 [100000; 7; 30000] /\
  quantize [100000; 7; 30000] WEIGHT_CAP_B = Ok ([50000; 3; 15000], 2) /\
  Z.abs (weight_of [true; false; true] [50000; 3; 15000] * 130007
         - weight_of [true; false; true] [100000; 7; 30000] * 65003) < 2 * 3 * 130007.
Proof.
  assert (Hu : Forall is_u64 [100000; 7; 30000]) by (repeat constructor; ulia).
  assert (Hq : quantize [100000; 7; 30000] WEIGHT_CAP_B = Ok ([50000; 3; 15000], 2)) by reflexivity.
  split; [done|]. split; [done|]. exact (proj1 (quantize_share _ _ _ _ [true; false; true] Hu Hq)).
Defined.

(** When the rule is defined.  [quantize] succeeds on exactly the committees with at least one
    member, fewer members than the cap, only positive weights and a total that fits 64 bits; and
    where it succeeds the committed weights keep the order of the bonded weights. *)
Theorem quantize_defined x b :
  Forall is_u64 x ->
  ((exists q s, quantize x b = Ok (q, s)) <->
     0 < zlen x < b /\ Forall (fun v => 0 < v) x /\ sum_z x <= u64_max) /\
  (forall q s i j xi xj qi qj, quantize x b = Ok (q, s) ->
     x !! i = Some xi -> x !! j = Some xj -> q !! i = Some qi -> q !! j = Some qj ->
     xi <= xj -> qi <= qj).
Proof.
  intros Hu. split; [split|].
  - intros (q & s & H). apply quantize_inv in H as (? & ? & ? & _); auto.
  - intros (Hn & Hx & Hmax). unfold quantize.
    rewrite (proj2 (Z.eqb_neq _ _)), (proj2 (Z.leb_gt _ _)) by lia. simpl.
    rewrite total_weight_complete by (done || lia). simpl. case_match; eauto.
  - intros q s i j xi xj qi qj H Hi Hj Hqi Hqj Hle.
    destruct (quantize_inv _ _ _ _ Hu H) as (Hn & Hx & Hmax & [(? & -> & ->) | (Hb & Hs & ->)]);
      [by simplify_eq|].
    rewrite list_lookup_fmap in Hqi, Hqj. rewrite Hi in Hqi. rewrite Hj in Hqj. simplify_eq/=.
    destruct (div_ceil_bounds (sum_z x) (b - zlen x) ltac:(lia) ltac:(lia)) as [Hlo _].
    unfold scale. apply Z.max_le_compat_r, Z.div_le_mono; nia.
Qed.

Lemma quantize_defined_witness :
  Forall is_u64 [5; 6] /\ exists q s, quantize [5; 6] 100 = Ok (q, s).
Proof.
  assert (Hu : Forall is_u64 [5; 6]) by (repeat constructor; ulia). split; [done|].
  apply (quantize_defined [5; 6] 100 Hu). 
  split; [by vm_compute|]. split; [by repeat constructor | by vm_compute].
Defined.
