(* ===== verification/BlockAccounting.v ===== *)
(** Block accounting: [crates/unicity/execution/src/block.rs].

    The profile fixes the header gas limit, the system reservation and the fee parameters of a
    deployment.  [derive] splits a block's gas, [reconcile] rebuilds the split of a parent from its
    header gas, and [next_base_fee] computes the base fee of the next block from the ordinary gas
    alone.  The theorems show that a reconciled parent always has a next base fee (the checked wide
    arithmetic never overflows), that it stays inside the profile's range, moves by at most one
    [change_denominator]-th and in the direction of the demand. *)
From S2P Require Import Prelude.

Definition MAX_BASE_FEE : Z := Z.shiftl 1 62.

Record BlockProfile := {
  max_gas : Z;
  system_gas : Z;
  base_fee_floor : Z;
  elasticity : Z;
  change_denominator : Z }.
#[global] Instance block_profile_eq_decision : EqDecision BlockProfile.
Proof. solve_decision. Defined.

Inductive BlockAccountingError :=
| ZeroParameter
| UnsupportedProfile
| NoOrdinaryCapacity
| Overflow
| CapacityExceeded
| ParentGasMismatch
| InvalidParentBaseFee
| UpdateHashMismatch
| RecordsHashMismatch
| B1Profile.

Definition validate (p : BlockProfile) : result BlockAccountingError BlockProfile :=
  if (max_gas p =? 0) || (system_gas p =? 0) || (base_fee_floor p =? 0) || (elasticity p =? 0)
     || (change_denominator p =? 0) then Err ZeroParameter else
  if max_gas p <=? system_gas p then Err NoOrdinaryCapacity else
  if MAX_BASE_FEE <? base_fee_floor p then Err InvalidParentBaseFee else
  let ordinary_capacity := max_gas p - system_gas p in
  if negb (elasticity p =? 2) || negb (ordinary_capacity mod elasticity p =? 0)
  then Err UnsupportedProfile else Ok p.

Definition ordinary_capacity (p : BlockProfile) : result BlockAccountingError Z :=
  let? _ := validate p in Ok (max_gas p - system_gas p).

Record BlockGasAccounting := { system : Z; ordinary : Z; header : Z }.

Definition derive (profile : BlockProfile) (sys ord : Z)
    : result BlockAccountingError BlockGasAccounting :=
  let? capacity := ordinary_capacity profile in
  if (system_gas profile <? sys) || (capacity <? ord) then Err CapacityExceeded else
  let? hdr := ok_or (checked_add sys ord) Overflow in
  if max_gas profile <? hdr then Err CapacityExceeded else
  Ok {| system := sys; ordinary := ord; header := hdr |}.

Record ParentExecutionOutcome := {
  profile : BlockProfile;
  parent_hash : bytes;
  gas : BlockGasAccounting;
  base_fee : Z }.

Definition reconcile (p : BlockProfile) (hash : bytes) (header_gas sys fee : Z)
    : result BlockAccountingError ParentExecutionOutcome :=
  let? _ := validate p in
  if (fee <? base_fee_floor p) || (MAX_BASE_FEE <? fee) then Err InvalidParentBaseFee else
  let? ord := ok_or (checked_sub header_gas sys) ParentGasMismatch in
  let? g := derive p sys ord in
  if negb (header g =? header_gas) then Err ParentGasMismatch else
  Ok {| profile := p; parent_hash := hash; gas := g; base_fee := fee |}.

Definition ordinary_gas (o : ParentExecutionOutcome) : Z := ordinary (gas o).

(** [u128::checked_mul]. *)
Definition checked_mul128 (a b : Z) : option Z := if a * b <=? u128_max then Some (a * b) else None.
(** [u64::try_from(u128)]. *)
Definition u64_try_from (z : Z) : option Z := if z <=? u64_max then Some z else None.
(** [u64::clamp]. *)
Definition clamp (z lo hi : Z) : Z := if z <? lo then lo else if hi <? z then hi else z.

Definition next_base_fee (parent : ParentExecutionOutcome) : result BlockAccountingError Z :=
  let p := profile parent in
  let? capacity := ordinary_capacity p in
  let target := capacity / elasticity p in
  if target =? 0 then Err NoOrdinaryCapacity else
  let used := ordinary_gas parent in
  let base := base_fee parent in
  let? next :=
    (if used =? target then Ok base else
     let numerator := Z.abs (used - target) in
     let? product := ok_or (checked_mul128 base numerator) Overflow in
     let delta := product / target / change_denominator p in
     let? delta := ok_or (u64_try_from delta) Overflow in
     if target <? used then ok_or (checked_add base (Z.max delta 1)) Overflow
     else Ok (saturating_sub base delta)) in
  Ok (clamp next (base_fee_floor p) MAX_BASE_FEE).

(** The idle chain: the base fee after [n] blocks without ordinary transactions. *)
Definition idle_parent (p : BlockProfile) (fee : Z) : ParentExecutionOutcome :=
  {| profile := p; parent_hash := ZERO32;
     gas := {| system := system_gas p; ordinary := 0; header := system_gas p |}; base_fee := fee |}.
Fixpoint idle_fee (p : BlockProfile) (n : nat) (fee : Z) : result BlockAccountingError Z :=
  match n with
  | O => Ok fee
  | S n => let? fee := next_base_fee (idle_parent p fee) in idle_fee p n fee
  end.

(** ** Profiles *)

Definition profile_typed (p : BlockProfile) : Prop :=
  is_u64 (max_gas p) /\ is_u64 (system_gas p) /\ is_u64 (base_fee_floor p) /\
  is_u64 (elasticity p) /\ is_u64 (change_denominator p).

Lemma max_base_fee_value : MAX_BASE_FEE = 4611686018427387904.
Proof. done. Qed.

(** What an accepted profile guarantees. *)
Definition profile_valid (p : BlockProfile) : Prop :=
  0 < system_gas p < max_gas p /\ 0 < base_fee_floor p <= MAX_BASE_FEE /\ elasticity p = 2 /\
  0 < change_denominator p /\ (max_gas p - system_gas p) mod 2 = 0.

Lemma validate_ok p q : profile_typed p -> validate p = Ok q <-> q = p /\ profile_valid p.
Proof.
  intros (H1 & H2 & H3 & H4 & H5). unfold validate, profile_valid.
  destruct (max_gas p =? 0) eqn:?, (system_gas p =? 0) eqn:?, (base_fee_floor p =? 0) eqn:?,
    (elasticity p =? 0) eqn:?, (change_denominator p =? 0) eqn:?; simpl;
    try (split; [discriminate | ulia]).
  destruct (Z.leb_spec (max_gas p) (system_gas p)); [split; [discriminate | lia]|].
  destruct (Z.ltb_spec MAX_BASE_FEE (base_fee_floor p)); [split; [discriminate | lia]|].
  destruct (Z.eqb_spec (elasticity p) 2) as [E|E]; simpl; [|split; [discriminate | lia]].
  rewrite E. destruct (Z.eqb_spec ((max_gas p - system_gas p) mod 2) 0); simpl.
  - split; [intros [= <-]; split; [done | ulia] | by intros [-> _]].
  - split; [discriminate | lia].
Qed.

(** The even, positive ordinary capacity and its half, the fee target. *)
Lemma valid_capacity p :
  profile_typed p -> profile_valid p ->
  ordinary_capacity p = Ok (max_gas p - system_gas p) /\
  exists target, 0 < target /\ (max_gas p - system_gas p) / elasticity p = target /\
    max_gas p - system_gas p = 2 * target.
Proof.
  intros Ht Hv. unfold ordinary_capacity.
  rewrite (proj2 (validate_ok p p Ht)) by done. split; [done|].
  destruct Hv as (? & ? & -> & ? & Hm). exists ((max_gas p - system_gas p) / 2).
  pose proof (Z.div_mod (max_gas p - system_gas p) 2). lia.
Qed.

Lemma ordinary_capacity_inv p c :
  profile_typed p -> ordinary_capacity p = Ok c -> profile_valid p /\ c = max_gas p - system_gas p.
Proof.
  intros Ht H. unfold ordinary_capacity in H. inv_ok H.
  by apply (validate_ok p _ Ht) in Hok as [-> Hv].
Qed.

(** ** Gas *)

Lemma derive_ok p sys ord g :
  profile_typed p -> is_u64 sys -> is_u64 ord ->
  derive p sys ord = Ok g <->
  profile_valid p /\ sys <= system_gas p /\ ord <= max_gas p - system_gas p /\
  g = {| system := sys; ordinary := ord; header := sys + ord |}.
Proof.
  intros Ht Hs Ho. split.
  - intros H. unfold derive in H. inv_ok H.
    apply (ordinary_capacity_inv p _ Ht) in Hok as [Hv ->]. unfold checked_add in Hok0.
    case_match; [|done]. injection Hok0 as <-. subst. split_and!; (done || lia).
  - intros (Hv & H1 & H2 & ->). unfold derive.
    destruct (valid_capacity p Ht Hv) as [-> _]. simpl.
    rewrite !(proj2 (Z.ltb_ge _ _)) by lia. simpl. unfold checked_add.
    destruct Ht as (Hm & _). rewrite (proj2 (Z.leb_le _ _)) by ulia. simpl.
    by rewrite (proj2 (Z.ltb_ge _ _)) by lia.
Qed.

Lemma reconcile_ok p h hdr sys fee o :
  profile_typed p -> is_u64 hdr -> is_u64 sys ->
  reconcile p h hdr sys fee = Ok o <->
  profile_valid p /\ base_fee_floor p <= fee <= MAX_BASE_FEE /\ sys <= hdr /\
  sys <= system_gas p /\ hdr - sys <= max_gas p - system_gas p /\
  o = {| profile := p; parent_hash := h; base_fee := fee;
         gas := {| system := sys; ordinary := hdr - sys; header := hdr |} |}.
Proof.
  intros Ht Hh Hs. split.
  - intros H. unfold reconcile in H. inv_ok H. apply (validate_ok p _ Ht) in Hok as [-> Hv].
    unfold checked_sub in Hok0. case_match; [|done]. injection Hok0 as <-.
    apply derive_ok in Hok1 as (_ & ? & ? & ->); [|done..|ulia]. simpl in *.
    subst. replace (sys + (hdr - sys)) with hdr by lia. split_and!; (done || lia).
  - intros (Hv & Hf & H1 & H2 & H3 & ->). unfold reconcile.
    rewrite (proj2 (validate_ok p p Ht)) by done. simpl.
    rewrite !(proj2 (Z.ltb_ge _ _)) by lia. simpl. unfold checked_sub.
    rewrite (proj2 (Z.leb_le _ _)) by lia. simpl.
    rewrite (proj2 (derive_ok p sys (hdr - sys) _ Ht Hs ltac:(ulia)) (conj Hv (conj H2 (conj H3 eq_refl)))).
    simpl. replace (sys + (hdr - sys)) with hdr by lia. by rewrite Z.eqb_refl.
Qed.

(** ** The fee rule *)

Lemma clamp_range z lo hi : lo <= hi -> lo <= clamp z lo hi <= hi.
Proof. intros. unfold clamp. repeat case_match; lia. Qed.

Lemma clamp_id z lo hi : lo <= z <= hi -> clamp z lo hi = z.
Proof. intros. unfold clamp. by rewrite !(proj2 (Z.ltb_ge _ _)) by lia. Qed.

(** The checked computation, without its overflow tests: they never fire on a parent whose ordinary
    gas fits the capacity. *)
Lemma next_base_fee_eq o target :
  profile_typed (profile o) -> profile_valid (profile o) ->
  max_gas (profile o) - system_gas (profile o) = 2 * target ->
  0 <= ordinary_gas o <= 2 * target -> 0 <= base_fee o <= MAX_BASE_FEE ->
  let d := base_fee o * Z.abs (ordinary_gas o - target) / target / change_denominator (profile o) in
  0 <= d <= base_fee o / change_denominator (profile o) /\
  next_base_fee o = Ok (clamp
    (if ordinary_gas o =? target then base_fee o
     else if target <? ordinary_gas o then base_fee o + Z.max d 1 else base_fee o - d)
    (base_fee_floor (profile o)) MAX_BASE_FEE).
Proof.
  intros Ht Hv Hc Hu Hb d.
  destruct (valid_capacity _ Ht Hv) as [Hcap (t' & Ht0 & Hdiv & Ht2)].
  assert (t' = target) as -> by lia.
  set (num := Z.abs (ordinary_gas o - target)) in *.
  assert (Hnum : 0 <= num <= target) by lia.
  destruct Hv as (_ & _ & _ & Hden & _).
  assert (Hd : 0 <= d <= base_fee o / change_denominator (profile o)).
  { unfold d. split; [apply Z.div_pos, Hden; apply Z.div_pos; nia|].
    apply Z.div_le_mono; [done|]. apply Z.div_le_upper_bound; nia. }
  assert (Hbd : base_fee o / change_denominator (profile o) <= base_fee o).
  { apply Z.div_le_upper_bound; nia. }
  split; [done|]. unfold next_base_fee. rewrite Hcap. simpl. rewrite Hdiv.
  rewrite (proj2 (Z.eqb_neq target 0)) by lia.
  destruct (Z.eqb_spec (ordinary_gas o) target); [done|].
  rewrite max_base_fee_value in *.
  assert (base_fee o * num <= u128_max).
  { destruct Ht as (Hm & Hs & _).
    transitivity (4611686018427387904 * u64_max); [apply Z.mul_le_mono_nonneg; ulia | by vm_compute]. }
  unfold checked_mul128. fold num. rewrite (proj2 (Z.leb_le _ _)) by done. simpl. fold d.
  unfold u64_try_from. rewrite (proj2 (Z.leb_le d u64_max)) by ulia. simpl.
  destruct (Z.ltb_spec target (ordinary_gas o)).
  - unfold checked_add. by rewrite (proj2 (Z.leb_le _ _)) by ulia.
  - unfold saturating_sub. by rewrite Z.max_r by lia.
Qed.

(** A reconciled parent has a next base fee in the profile's range. *)
Lemma reconciled_next_fee p h hdr sys fee o :
  profile_typed p -> is_u64 hdr -> is_u64 sys -> reconcile p h hdr sys fee = Ok o ->
  exists f, next_base_fee o = Ok f /\ base_fee_floor p <= f <= MAX_BASE_FEE.
Proof.
  intros Ht Hh Hs H. apply reconcile_ok in H as (Hv & Hf & Hle & Hsys & Hord & ->); [|done..].
  destruct (valid_capacity _ Ht Hv) as [_ (t & Ht0 & _ & Ht2)].
  set (o := {| profile := p |}).
  pose proof (next_base_fee_eq o t Ht Hv Ht2 ltac:(unfold ordinary_gas; simpl; lia)
                ltac:(simpl; destruct Hv; lia)) as [_ Hn].
  eexists. split; [exact Hn|]. apply clamp_range. destruct Hv as (_ & ? & _). simpl. lia.
Qed.

(** The next base fee.  For every parent that reconciles, the checked wide arithmetic succeeds;
    the result stays between the profile floor and the global maximum, differs from the parent's fee
    by at most one change-denominator-th (and at least one unit upwards under excess demand, unless
    the maximum is reached), and moves in the direction of the parent's ordinary demand. *)
Theorem next_base_fee_total p h hdr sys fee o :
  profile_typed p -> is_u64 hdr -> is_u64 sys ->
  reconcile p h hdr sys fee = Ok o ->
  let target := (max_gas p - system_gas p) / 2 in
  exists f, next_base_fee o = Ok f /\ base_fee_floor p <= f <= MAX_BASE_FEE /\
    fee - fee / change_denominator p <= f <= fee + Z.max (fee / change_denominator p) 1 /\
    (hdr - sys = target -> f = fee) /\
    (target < hdr - sys -> fee < f \/ f = MAX_BASE_FEE) /\
    (hdr - sys < target -> f <= fee).
Proof.
  intros Ht Hh Hs H target. apply reconcile_ok in H as (Hv & Hf & Hle & Hsys & Hord & ->); [|done..].
  destruct (valid_capacity _ Ht Hv) as [_ (t' & Ht0 & Hdiv & Ht2)].
  assert (t' = target) as ->.
  { unfold target. destruct Hv as (_ & _ & He & _). by rewrite He in Hdiv. }
  set (o := {| profile := p |}).
  pose proof (next_base_fee_eq o target Ht Hv Ht2 ltac:(unfold ordinary_gas; simpl; lia)
                ltac:(simpl; destruct Hv; lia)) as [Hd Hn].
  unfold ordinary_gas in *. cbn [gas ordinary profile base_fee o] in *. rewrite Hn.
  set (d := fee * _ / target / change_denominator p) in Hd |- *. clearbody d. clear Hn o.
  assert (fee / change_denominator p <= fee).
  { apply Z.div_le_upper_bound; destruct Hv as (_ & ? & _ & ? & _); nia. }
  eexists. split; [done|]. split; [apply clamp_range; lia|].
  destruct (Z.eqb_spec (hdr - sys) target); [rewrite clamp_id by lia; lia|].
  destruct (Z.ltb_spec target (hdr - sys)); unfold clamp; repeat case_match; lia.
Qed.

Definition sample_profile : BlockProfile := {|
  max_gas := 30000000; system_gas := 2000000; base_fee_floor := 1000000; elasticity := 2;
  change_denominator := 8 |}.

Lemma sample_profile_typed : profile_typed sample_profile.
Proof. unfold profile_typed. simpl. ulia. Qed.

Lemma next_base_fee_total_witness :
  exists o, reconcile sample_profile ZERO32 29800000 1800000 10000000 = Ok o /\
  exists f, next_base_fee o = Ok f /\ base_fee_floor sample_profile <= f <= MAX_BASE_FEE /\ f = 11250000.
Proof.
  eexists. split; [reflexivity|].
  destruct (next_base_fee_total sample_profile ZERO32 29800000 1800000 10000000 _
    sample_profile_typed ltac:(ulia) ltac:(ulia) eq_refl) as (f & Hf & Hr & _).
  exists f. split; [done|]. split; [done|]. vm_compute in Hf. congruence.
Defined.

(** Splitting and reconciling are inverse.  A gas split within the profile's two capacities
    reconciles from its header gas and its system gas, and every header gas that reconciles is the
    sum of a split that [derive] accepts, so the ordinary gas that feeds the next fee is determined
    by the header and the system work. *)
Theorem reconcile_derive p h hdr sys fee o :
  profile_typed p -> is_u64 hdr -> is_u64 sys ->
  (reconcile p h hdr sys fee = Ok o <->
   base_fee_floor p <= fee <= MAX_BASE_FEE /\ profile o = p /\ parent_hash o = h /\ base_fee o = fee /\
   header (gas o) = hdr /\ derive p sys (ordinary_gas o) = Ok (gas o) /\ is_u64 (ordinary_gas o)).
Proof.
  intros Ht Hh Hs. rewrite reconcile_ok by done. split.
  - intros (Hv & Hf & H1 & H2 & H3 & ->). unfold ordinary_gas. simpl.
    split_and!; try done; try ulia. apply derive_ok; [done..|ulia|].
    split_and!; try done. f_equal. lia.
  - intros (Hf & <- & <- & <- & <- & Hd & Hu).
    apply derive_ok in Hd as (Hv & H1 & H2 & Hg); [|done..].
    destruct o as [p h [s' o' h'] f]. unfold ordinary_gas in *. simpl in *.
    injection Hg as -> ->. split_and!; try done; try ulia. repeat f_equal. lia.
Qed.

Lemma reconcile_derive_witness :
  derive sample_profile 1800000 14000000 =
    Ok {| system := 1800000; ordinary := 14000000; header := 15800000 |} /\
  is_ok (reconcile sample_profile ZERO32 15800000 1800000 10000000) = true.
Proof.
  split; [reflexivity|].
  assert (H : reconcile sample_profile ZERO32 15800000 1800000 10000000 =
    Ok {| profile := sample_profile; parent_hash := ZERO32; base_fee := 10000000;
          gas := {| system := 1800000; ordinary := 14000000; header := 15800000 |} |}).
  { apply (reconcile_derive sample_profile ZERO32 15800000 1800000 10000000 _
      sample_profile_typed ltac:(ulia) ltac:(ulia)).
    split_and!; try reflexivity; unfold ordinary_gas; simpl; rewrite ?max_base_fee_value; ulia. }
  by rewrite H.
Defined.

(** ** Idle chains *)

Lemma idle_step p fee :
  profile_typed p -> profile_valid p -> base_fee_floor p <= fee <= MAX_BASE_FEE ->
  next_base_fee (idle_parent p fee) =
    Ok (Z.max (fee - fee / change_denominator p) (base_fee_floor p)).
Proof.
  intros Ht Hv Hf. destruct (valid_capacity _ Ht Hv) as [_ (t & Ht0 & _ & Ht2)].
  pose proof (next_base_fee_eq (idle_parent p fee) t Ht Hv Ht2
    ltac:(unfold ordinary_gas; simpl; lia) ltac:(simpl; destruct Hv; lia)) as [Hd Hn].
  rewrite Hn. unfold ordinary_gas, idle_parent in *. cbn [gas ordinary profile base_fee] in *.
  rewrite (proj2 (Z.eqb_neq 0 t)), (proj2 (Z.ltb_ge t 0)) by lia. f_equal.
  replace (fee * Z.abs (0 - t) / t) with fee.
  2:{ replace (Z.abs (0 - t)) with t by lia. by rewrite Z.div_mul by lia. }
  assert (0 <= fee / change_denominator p).
  { apply Z.div_pos; destruct Hv as (_ & ? & _ & ? & _); lia. }
  unfold clamp. repeat case_match; lia.
Qed.

(** Idle chains come to rest at the floor.  When the floor is at least the change denominator,
    any starting fee reaches the floor after finitely many blocks without ordinary transactions and
    stays there; the drift below a configured floor, and the accidental fixed point of the stock
    recurrence, cannot occur. *)
Theorem idle_fee_reaches_floor p fee :
  profile_typed p -> profile_valid p -> change_denominator p <= base_fee_floor p ->
  base_fee_floor p <= fee <= MAX_BASE_FEE ->
  exists n, forall m, (n <= m)%nat -> idle_fee p m fee = Ok (base_fee_floor p).
Proof.
  intros Ht Hv Hd Hf.
  assert (Hstay : forall m, idle_fee p m (base_fee_floor p) = Ok (base_fee_floor p)).
  { induction m as [|m IH]; [done|]. simpl. rewrite idle_step by (done || lia). simpl.
    rewrite Z.max_r; [done|].
    enough (0 <= base_fee_floor p / change_denominator p) by lia.
    apply Z.div_pos; destruct Hv as (_ & ? & _ & ? & _); lia. }
  remember (Z.to_nat (fee - base_fee_floor p)) as k eqn:Hk. revert fee Hf Hk.
  induction (lt_wf k) as [k _ IH]. intros fee Hf Hk.
  destruct (Z.eq_dec fee (base_fee_floor p)) as [->|Hne]; [by exists 0%nat|].
  set (fee' := Z.max (fee - fee / change_denominator p) (base_fee_floor p)).
  assert (Hlt : base_fee_floor p <= fee' < fee).
  { destruct Hv as (_ & ? & _ & ? & _).
    assert (1 <= fee / change_denominator p) by (apply Z.div_le_lower_bound; lia). lia. }
  destruct (IH (Z.to_nat (fee' - base_fee_floor p)) ltac:(lia) fee' ltac:(lia) eq_refl) as (n & Hn).
  exists (S n). intros [|m] Hm; [lia|]. simpl. rewrite idle_step by (done || lia). simpl.
  apply Hn. lia.
Qed.

Lemma idle_fee_reaches_floor_witness :
  exists n, forall m, (n <= m)%nat -> idle_fee sample_profile m 1000000000 = Ok 1000000.
Proof.
  apply (idle_fee_reaches_floor sample_profile 1000000000 sample_profile_typed).
  - by vm_compute.
  - simpl. lia.
  - rewrite max_base_fee_value. simpl. lia.
Defined.
