(* ===== verification/CborCodec.v ===== *)
(** The canonical CBOR primitives of [crates/unicity/execution]: the encoders of [lib.rs] and the
    strict [Decoder] of [wire.rs].

    The encoders append to a [Vec<u8>]; here each returns the bytes it appends, and a sequence of
    calls is their concatenation.  The decoder keeps the source's input and offset.

    A [Codec] instance says that a reader and an encoder are inverse to each other, in both
    directions, on a set of values.  The two directions are what the module documentation of
    [wire.rs] promises for root inputs, and every message format of the crate is built from the
    instances below. *)
From S2P Require Import Prelude.

(** ** Encoders ([lib.rs]) *)

Definition major (kind value : Z) : bytes :=
  let m := Z.shiftl kind 5 in
  if value <=? 23 then [z2b (Z.lor m value)]
  else if value <=? 0xff then [z2b (Z.lor m 24); z2b value]
  else if value <=? 0xffff then z2b (Z.lor m 25) :: be_bytes 2 value
  else if value <=? 0xffffffff then z2b (Z.lor m 26) :: be_bytes 4 value
  else z2b (Z.lor m 27) :: be_bytes 8 value.

Definition array (len : Z) : bytes := major 4 len.
Definition byte_string (value : bytes) : bytes := major 2 (zlen value) ++ value.
Definition text (value : bytes) : bytes := major 3 (zlen value) ++ value.
Definition uint (value : Z) : bytes := major 0 value.
Definition nullable_word (value : option bytes) : bytes :=
  match value with Some word => byte_string word | None => [Byte.xf6] end.

(** ** The decoder ([wire.rs]) *)

Inductive CanonicalCborError :=
| UnexpectedEof
| TrailingBytes
| IndefiniteLength
| ReservedAdditionalInfo (info : Z)
| NonMinimalLength
| UnexpectedItem (major : Z) (expected : string)
| WrongArity (expected found : Z)
| WrongByteStringLength (expected found : Z)
| LengthOutOfRange
| InvalidUtf8
| TooLarge (what : string) (len limit : Z)
| InvalidRootInput (reason : string).

Record Decoder := { input : bytes; offset : Z }.

Definition new_decoder (raw : bytes) : Decoder := {| input := raw; offset := 0 |}.

Definition take_bytes (length : Z) : reader Decoder CanonicalCborError bytes := fun d =>
  match checked_add (offset d) length with
  | None => Err LengthOutOfRange
  | Some stop =>
      match get_range (input d) (offset d) stop with
      | None => Err UnexpectedEof
      | Some slice => Ok (slice, {| input := input d; offset := stop |})
      end
  end.

Definition usize_try_from (n : Z) : result CanonicalCborError Z :=
  if n <=? usize_max then Ok n else Err LengthOutOfRange.

Definition read_u8 : reader Decoder CanonicalCborError Z :=
  let* slice := take_bytes 1 in
  match slice with
  | b :: _ => sret (b2z b)
  | [] => fail UnexpectedEof
  end.

Definition peek : reader Decoder CanonicalCborError byte := fun d =>
  match input d !! Z.to_nat (offset d) with
  | Some b => Ok (b, d)
  | None => Err UnexpectedEof
  end.

Definition finish : reader Decoder CanonicalCborError () := fun d =>
  if offset d =? zlen (input d) then Ok ((), d) else Err TrailingBytes.

Definition read_head : reader Decoder CanonicalCborError (Z * Z) :=
  let* initial := read_u8 in
  let major := Z.shiftr initial 5 in
  let info := Z.land initial 0x1f in
  let* argument :=
    (if info <=? 23 then sret info
     else if info =? 24 then
       let* value := read_u8 in
       if value <? 24 then fail NonMinimalLength else sret value
     else if info =? 25 then
       let* raw := take_bytes 2 in
       let value := be_val raw in
       if value <=? u8_max then fail NonMinimalLength else sret value
     else if info =? 26 then
       let* raw := take_bytes 4 in
       let value := be_val raw in
       if value <=? u16_max then fail NonMinimalLength else sret value
     else if info =? 27 then
       let* raw := take_bytes 8 in
       let value := be_val raw in
       if value <=? u32_max then fail NonMinimalLength else sret value
     else if info =? 31 then fail IndefiniteLength
     else fail (ReservedAdditionalInfo info)) in
  sret (major, argument).

Definition read_uint : reader Decoder CanonicalCborError Z :=
  let* (major, value) := read_head in
  if major =? 0 then sret value else fail (UnexpectedItem major "unsigned integer").

Definition read_bytes : reader Decoder CanonicalCborError bytes :=
  let* (major, length) := read_head in
  if major =? 2 then
    let* length := lift (usize_try_from length) in
    take_bytes length
  else fail (UnexpectedItem major "byte string").

Definition read_text : reader Decoder CanonicalCborError bytes :=
  let* (major, length) := read_head in
  let* raw :=
    (if major =? 3 then
       let* length := lift (usize_try_from length) in
       take_bytes length
     else fail (UnexpectedItem major "text string")) in
  if utf8_valid raw then sret raw else fail InvalidUtf8.

Definition read_bounded_bytes (what : string) (limit : Z) : reader Decoder CanonicalCborError bytes :=
  let* (major, length) := read_head in
  if major =? 2 then
    let* length := lift (usize_try_from length) in
    if limit <? length then fail (TooLarge what length limit) else
    take_bytes length
  else fail (UnexpectedItem major "byte string").

Definition read_bounded_text (what : string) (limit : Z) : reader Decoder CanonicalCborError bytes :=
  let* (major, length) := read_head in
  if major =? 3 then
    let* length := lift (usize_try_from length) in
    if limit <? length then fail (TooLarge what length limit) else
    let* raw := take_bytes length in
    if utf8_valid raw then sret raw else fail InvalidUtf8
  else fail (UnexpectedItem major "text string").

Definition read_array : reader Decoder CanonicalCborError Z :=
  let* (major, length) := read_head in
  if major =? 4 then lift (usize_try_from length)
  else fail (UnexpectedItem major "array").

Definition read_word : reader Decoder CanonicalCborError bytes :=
  let* raw := read_bytes in
  if negb (zlen raw =? 32) then fail (WrongByteStringLength 32 (zlen raw)) else sret raw.

Definition read_nullable_word : reader Decoder CanonicalCborError (option bytes) :=
  let* b := peek in
  if bool_decide (b = Byte.xf6)
  then fun d => Ok (None, {| input := input d; offset := offset d + 1 |})
  else let* word := read_word in sret (Some word).

(** ** The remaining input *)

(** [at_rest d rest]: the decoder is inside a Rust slice and [rest] is what it has not read. *)
Definition at_rest (d : Decoder) (rest : bytes) : Prop :=
  0 <= offset d <= zlen (input d) /\ zlen (input d) <= slice_max /\
  drop (Z.to_nat (offset d)) (input d) = rest.

(** A reader and an encoder that are inverse to each other on the values [ok] allows. *)
Class Codec {E A} (p : reader Decoder E A) (enc : A -> bytes) (ok : A -> Prop) : Prop := {
  codec_complete : forall v d rest, ok v -> at_rest d (enc v ++ rest) ->
    exists d', p d = Ok (v, d') /\ at_rest d' rest /\ input d' = input d;
  codec_sound : forall v d d' rest, at_rest d rest -> p d = Ok (v, d') ->
    exists rest', rest = enc v ++ rest' /\ at_rest d' rest' /\ input d' = input d /\ ok v }.

Lemma at_rest_new raw : zlen raw <= slice_max -> at_rest (new_decoder raw) raw.
Proof. intros H. pose proof (zlen_nonneg raw). split_and!; simpl; try lia. done. Qed.

Lemma at_rest_length d rest : at_rest d rest -> zlen rest = zlen (input d) - offset d.
Proof. intros (H1 & H2 & <-). unfold zlen in *. rewrite length_drop. lia. Qed.

Lemma at_rest_slice d rest : at_rest d rest -> zlen rest <= slice_max.
Proof. intros H. pose proof (at_rest_length d rest H). destruct H. ulia. Qed.

(** Reading [n] bytes moves past exactly the next [n] bytes of the rest. *)
Lemma take_bytes_complete d x rest :
  at_rest d (x ++ rest) ->
  exists d', take_bytes (zlen x) d = Ok (x, d') /\ at_rest d' rest /\ input d' = input d.
Proof.
  intros Hat. pose proof (at_rest_length _ _ Hat) as Hlen. rewrite zlen_app in Hlen.
  pose proof (zlen_nonneg x). pose proof (zlen_nonneg rest).
  destruct Hat as (H1 & H2 & Hdrop).
  exists {| input := input d; offset := offset d + zlen x |}. split_and!; [|split_and!|done].
  - unfold take_bytes, checked_add.
    rewrite (proj2 (Z.leb_le _ _)) by ulia.
    replace (get_range _ _ _) with (Some x); [done|]. symmetry.
    apply get_range_some. split_and!; [lia..|].
    rewrite Hdrop. symmetry. apply take_length_app. ulia.
  - simpl. lia.
  - simpl. lia.
  - done.
  - cbn [offset input]. rewrite Z2Nat.inj_add, <- drop_drop, Hdrop by lia.
    apply drop_length_app. ulia.
Qed.

Lemma take_bytes_sound n d d' x rest :
  0 <= n -> at_rest d rest -> take_bytes n d = Ok (x, d') ->
  exists rest', rest = x ++ rest' /\ zlen x = n /\ at_rest d' rest' /\ input d' = input d.
Proof.
  intros Hn (H1 & H2 & Hdrop). unfold take_bytes, checked_add.
  destruct (Z.leb_spec (offset d + n) u64_max); [|done].
  destruct (get_range _ _ _) as [y|] eqn:Hg; [|done]. intros [= -> <-].
  apply get_range_some in Hg as (Ha & Hb & ->).
  rewrite Hdrop in *. exists (drop (Z.to_nat n) rest).
  replace (offset d + n - offset d) with n by lia.
  split; [by rewrite take_drop|]. split; [|split; [|done]].
  - unfold zlen in *. rewrite length_take, <- Hdrop, length_drop. lia.
  - split_and!; simpl; try lia. rewrite Z2Nat.inj_add, <- drop_drop, Hdrop by lia. done.
Qed.

Lemma read_u8_complete d b rest :
  at_rest d (b :: rest) ->
  exists d', read_u8 d = Ok (b2z b, d') /\ at_rest d' rest /\ input d' = input d.
Proof.
  intros Hat. destruct (take_bytes_complete d [b] rest Hat) as (d' & Ht & ?).
  exists d'. split; [|done]. unfold read_u8. by rewrite (sbind_ok _ _ _ _ _ Ht).
Qed.

Lemma read_u8_sound d d' v rest :
  at_rest d rest -> read_u8 d = Ok (v, d') ->
  exists b rest', rest = b :: rest' /\ v = b2z b /\ at_rest d' rest' /\ input d' = input d.
Proof.
  intros Hat H. unfold read_u8 in H. inv_ok H.
  destruct (take_bytes_sound 1 _ _ _ _ ltac:(lia) Hat Hok) as (rest' & -> & Hlen & Hat' & Hin).
  destruct a as [|b [|]]; try (unfold zlen in Hlen; simpl in Hlen; lia).
  inv_ok H. subst. eauto 10.
Qed.

Lemma finish_ok d d' rest :
  at_rest d rest -> finish d = Ok ((), d') -> rest = [] /\ d' = d.
Proof.
  intros Hat. unfold finish. destruct (Z.eqb_spec (offset d) (zlen (input d))); [|done].
  intros [= <-]. split; [|done]. apply zlen_nil_inv. rewrite (at_rest_length _ _ Hat). lia.
Qed.

Lemma finish_complete d : at_rest d [] -> finish d = Ok ((), d).
Proof.
  intros Hat%at_rest_length. change (zlen []) with 0 in Hat. unfold finish.
  by rewrite (proj2 (Z.eqb_eq _ _)) by lia.
Qed.

(** ** Heads *)

Lemma head_byte kind info :
  0 <= kind < 8 -> 0 <= info < 32 ->
  b2z (z2b (Z.lor (Z.shiftl kind 5) info)) = kind * 32 + info.
Proof.
  intros. rewrite lor_shiftl_add by lia. change (2 ^ 5) with 32. apply b2z_z2b_small. lia.
Qed.

Lemma head_byte_major kind info :
  0 <= info < 32 -> Z.shiftr (kind * 32 + info) 5 = kind.
Proof.
  intros. rewrite Z.shiftr_div_pow2 by lia. change (2 ^ 5) with 32.
  rewrite Z.div_add_l, Z.div_small by lia. lia.
Qed.

Lemma head_byte_info kind info :
  0 <= info < 32 -> Z.land (kind * 32 + info) 0x1f = info.
Proof.
  intros. change 0x1f with (Z.ones 5). rewrite Z.land_ones by lia. change (2 ^ 5) with 32.
  rewrite Z.add_comm, Z.mod_add by lia. apply Z.mod_small. lia.
Qed.

(** Every byte is the head byte of its own major type and additional information. *)
Lemma head_byte_split b :
  let kind := Z.shiftr (b2z b) 5 in
  let info := Z.land (b2z b) 0x1f in
  0 <= kind < 8 /\ 0 <= info < 32 /\ b = z2b (Z.lor (Z.shiftl kind 5) info).
Proof.
  cbv zeta. pose proof (b2z_range b) as Hb.
  change 0x1f with (Z.ones 5). rewrite Z.land_ones, Z.shiftr_div_pow2 by lia.
  change (2 ^ 5) with 32.
  assert (0 <= b2z b / 32 < 8).
  { split; [apply Z.div_pos; lia | apply Z.div_lt_upper_bound; lia]. }
  pose proof (Z.mod_pos_bound (b2z b) 32 ltac:(lia)).
  split_and!; try lia. apply b2z_inj. rewrite head_byte by lia.
  pose proof (Z.div_mod (b2z b) 32 ltac:(lia)). lia.
Qed.

Definition head_ok (h : Z * Z) : Prop := 0 <= h.1 < 8 /\ is_u64 h.2.

(** What [read_head] reads after the initial byte, for each additional-information class. *)
Lemma take_value_complete d n w value rest :
  w = Z.of_nat n -> 0 <= value < 256 ^ w -> at_rest d (be_bytes n value ++ rest) ->
  exists raw d', take_bytes w d = Ok (raw, d') /\ be_val raw = value /\
    at_rest d' rest /\ input d' = input d.
Proof.
  intros -> Hv Hat. destruct (take_bytes_complete _ _ _ Hat) as (d' & Ht & ? & ?).
  unfold zlen in Ht. rewrite be_bytes_length in Ht.
  exists (be_bytes n value), d'. rewrite be_val_bytes by done. done.
Qed.

Lemma take_value_sound d d' n w raw rest :
  w = Z.of_nat n -> at_rest d rest -> take_bytes w d = Ok (raw, d') ->
  exists rest', rest = be_bytes n (be_val raw) ++ rest' /\
    0 <= be_val raw < 256 ^ w /\ at_rest d' rest' /\ input d' = input d.
Proof.
  intros -> Hat Ht.
  destruct (take_bytes_sound (Z.of_nat n) _ _ _ _ ltac:(lia) Hat Ht)
    as (rest' & -> & Hlen & ? & ?).
  exists rest'. unfold zlen in Hlen. rewrite be_bytes_val_n by lia.
  pose proof (be_val_range raw) as Hr. unfold zlen in Hr. rewrite Hlen in Hr. done.
Qed.

Lemma read_head_complete kind value d rest :
  0 <= kind < 8 -> is_u64 value -> at_rest d (major kind value ++ rest) ->
  exists d', read_head d = Ok ((kind, value), d') /\ at_rest d' rest /\ input d' = input d.
Proof.
  intros Hk Hv Hat. unfold major in Hat. unfold read_head.
  assert (Hgo : forall info tail, 0 <= info < 32 ->
    at_rest d (z2b (Z.lor (Z.shiftl kind 5) info) :: tail) ->
    exists d1, read_u8 d = Ok (kind * 32 + info, d1) /\ at_rest d1 tail /\ input d1 = input d).
  { intros info tail Hi Hat1. destruct (read_u8_complete _ _ _ Hat1) as (d1 & Hu1 & ? & ?).
    rewrite head_byte in Hu1 by done. eauto. }
  repeat case_match; apply Hgo in Hat as (d1 & Hu1 & Hat & Hin1); try (ulia);
    rewrite (sbind_ok _ _ _ _ _ Hu1); cbv zeta;
    rewrite head_byte_major, head_byte_info by ulia.
  - rewrite (proj2 (Z.leb_le _ _)) by ulia. exists d1. done.
  - eval_ifs.
    destruct (read_u8_complete _ _ _ Hat) as (d2 & Hu2 & Hat2 & Hin2).
    rewrite b2z_z2b_small in Hu2 by ulia. exists d2. unfold sbind. rewrite Hu2.
    rewrite (proj2 (Z.ltb_ge _ _)) by lia. split; [done | split; [done | congruence]].
  - eval_ifs.
    destruct (take_value_complete d1 2 2 value rest eq_refl ltac:(ulia) Hat) as (raw & d2 & Hu2 & Hval & ? & ?).
    exists d2. unfold sbind. rewrite Hu2, Hval, (proj2 (Z.leb_gt _ _)) by ulia. split; [done | split; [done | congruence]].
  - eval_ifs.
    destruct (take_value_complete d1 4 4 value rest eq_refl ltac:(ulia) Hat) as (raw & d2 & Hu2 & Hval & ? & ?).
    exists d2. unfold sbind. rewrite Hu2, Hval, (proj2 (Z.leb_gt _ _)) by ulia. split; [done | split; [done | congruence]].
  - eval_ifs.
    destruct (take_value_complete d1 8 8 value rest eq_refl ltac:(ulia) Hat) as (raw & d2 & Hu2 & Hval & ? & ?).
    exists d2. unfold sbind. rewrite Hu2, Hval, (proj2 (Z.leb_gt _ _)) by ulia. split; [done | split; [done | congruence]].
Qed.

(** The encoding of each class of arguments. *)
Lemma major_small k v : v <= 23 -> major k v = [z2b (Z.lor (Z.shiftl k 5) v)].
Proof. intros. unfold major. by rewrite (proj2 (Z.leb_le _ _)). Qed.

Lemma major_1 k v : 24 <= v <= 255 -> major k v = [z2b (Z.lor (Z.shiftl k 5) 24); z2b v].
Proof.
  intros. unfold major. rewrite (proj2 (Z.leb_gt v 23)) by lia.
  by rewrite (proj2 (Z.leb_le v 255)) by lia.
Qed.

Lemma major_2 k v :
  256 <= v <= 65535 -> major k v = z2b (Z.lor (Z.shiftl k 5) 25) :: be_bytes 2 v.
Proof.
  intros. unfold major. rewrite (proj2 (Z.leb_gt v 23)), (proj2 (Z.leb_gt v 255)) by lia.
  by rewrite (proj2 (Z.leb_le v 65535)) by lia.
Qed.

Lemma major_4 k v :
  65536 <= v <= 4294967295 -> major k v = z2b (Z.lor (Z.shiftl k 5) 26) :: be_bytes 4 v.
Proof.
  intros. unfold major.
  rewrite (proj2 (Z.leb_gt v 23)), (proj2 (Z.leb_gt v 255)), (proj2 (Z.leb_gt v 65535)) by lia.
  by rewrite (proj2 (Z.leb_le v 4294967295)) by lia.
Qed.

Lemma major_8 k v :
  4294967296 <= v -> major k v = z2b (Z.lor (Z.shiftl k 5) 27) :: be_bytes 8 v.
Proof.
  intros. unfold major.
  rewrite (proj2 (Z.leb_gt v 23)), (proj2 (Z.leb_gt v 255)), (proj2 (Z.leb_gt v 65535)),
    (proj2 (Z.leb_gt v 4294967295)) by lia. done.
Qed.

Lemma read_head_sound kind value d d' rest :
  at_rest d rest -> read_head d = Ok ((kind, value), d') ->
  exists rest', rest = major kind value ++ rest' /\ at_rest d' rest' /\
    input d' = input d /\ head_ok (kind, value).
Proof.
  intros Hat H. unfold read_head in H. inv_ok H.
  destruct (read_u8_sound _ _ _ _ Hat Hok) as (b & tail & -> & -> & Hat1 & Hin1).
  destruct (head_byte_split b) as (Hk & Hi & Hb).
  set (k := Z.shiftr (b2z b) 5) in *. set (i := Z.land (b2z b) 31) in *.
  clearbody k i. subst b kind d' a0. unfold head_ok. cbn [fst snd].
  inv_ok Hok0; subst; rewrite ?Z.eqb_eq in *.
  - rewrite major_small by lia. exists tail. split_and!; try done; ulia.
  - destruct (read_u8_sound _ _ _ _ Hat1 Hok1) as (b & tail' & -> & -> & ? & ?).
    pose proof (b2z_range b). rewrite major_1, z2b_b2z by lia. subst i.
    exists tail'. split_and!; try done; try ulia; congruence.
  - destruct (take_value_sound _ _ 2 2 _ _ eq_refl Hat1 Hok1) as (tail' & -> & ? & ? & ?).
    rewrite major_2 by ulia. subst i. exists tail'. split_and!; try done; try ulia; congruence.
  - destruct (take_value_sound _ _ 4 4 _ _ eq_refl Hat1 Hok1) as (tail' & -> & ? & ? & ?).
    rewrite major_4 by ulia. subst i. exists tail'. split_and!; try done; try ulia; congruence.
  - destruct (take_value_sound _ _ 8 8 _ _ eq_refl Hat1 Hok1) as (tail' & -> & ? & ? & ?).
    rewrite major_8 by ulia. subst i. exists tail'. split_and!; try done; try ulia; congruence.
Qed.

#[global] Instance head_codec : Codec read_head (fun h => major h.1 h.2) head_ok.
Proof.
  split.
  - intros [k v] d rest [Hk Hv]. by apply read_head_complete.
  - intros [k v] d d' rest. apply read_head_sound.
Qed.

(** ** Composing codecs *)

Section compose.
Context {E A B : Type} {p : reader Decoder E A} {enc : A -> bytes} {ok : A -> Prop}.
Context `{!Codec p enc ok}.

Lemma codec_step (k : A -> reader Decoder E B) v d rest :
  at_rest d (enc v ++ rest) -> ok v ->
  exists d', sbind p k d = k v d' /\ at_rest d' rest /\ input d' = input d.
Proof.
  intros Hat Hv. destruct (codec_complete v d rest Hv Hat) as (d' & Hp & Hat' & Hin).
  exists d'. by rewrite (sbind_ok _ _ _ _ _ Hp).
Qed.

(** Encodings are prefix free. *)
Lemma codec_prefix v w r1 r2 :
  zlen (enc v ++ r1) <= slice_max -> ok v -> ok w -> enc v ++ r1 = enc w ++ r2 -> v = w /\ r1 = r2.
Proof.
  intros Hlen Hv Hw Heq. pose proof (at_rest_new _ Hlen) as Hat.
  destruct (codec_complete v _ r1 Hv Hat) as (d1 & H1 & (_ & _ & E1) & _).
  destruct (codec_complete w (new_decoder (enc v ++ r1)) r2 Hw) as (d2 & H2 & (_ & _ & E2) & _).
  { by rewrite <- Heq. }
  rewrite H1 in H2. injection H2 as -> ->. by rewrite <- E1, <- E2.
Qed.

Lemma codec_bind_sound (k : A -> reader Decoder E B) d rest r :
  at_rest d rest -> sbind p k d = Ok r ->
  exists v rest' d', rest = enc v ++ rest' /\ at_rest d' rest' /\ input d' = input d /\
    ok v /\ k v d' = Ok r.
Proof.
  intros Hat H. apply sbind_ok_inv in H as (v & d' & Hp & Hk).
  destruct (codec_sound _ _ _ _ Hat Hp) as (rest' & -> & ? & ? & ?). eauto 10.
Qed.

#[global] Instance via_codec {F} (f : E -> F) : Codec (via f p) enc ok.
Proof.
  split; unfold via.
  - intros v d rest Hv Hat. destruct (codec_complete v d rest Hv Hat) as (d' & Hp & ?).
    exists d'. by rewrite Hp.
  - intros v d d' rest Hat Hp%map_err_ok_inv. by apply (codec_sound v d d').
Qed.
End compose.

(** One forward step: the decoder meets the encoding of the next field, whose side condition [tac]
    proves. *)
Ltac codec_fwd Hat tac :=
  lazymatch goal with
  | |- context [sbind ?p ?k ?d] =>
      let d' := fresh "d" in let Hs := fresh "Hs" in
      let Hat' := fresh "Hat" in let Hin := fresh "Hin" in
      edestruct (codec_step (p := p) k _ d _ Hat) as (d' & Hs & Hat' & Hin);
      [ solve [tac] | rewrite Hs; clear Hs Hat; rename Hat' into Hat; cbv beta ]
  end.

(** One backward step: a successful read exposes the encoding it consumed. *)
Ltac codec_bwd Hat H :=
  lazymatch type of H with
  | sbind ?p ?k ?d = Ok _ =>
      let v := fresh "v" in let rest := fresh "rest" in let d' := fresh "d" in
      let Heq := fresh "Heq" in let Hat' := fresh "Hat" in
      let Hin := fresh "Hin" in let Hv := fresh "Hv" in let H' := fresh "H'" in
      destruct (codec_bind_sound (p := p) k d _ _ Hat H)
        as (v & rest & d' & Heq & Hat' & Hin & Hv & H');
      clear H; rename H' into H; cbv beta in H; clear Hat; rename Hat' into Hat
  end.

(** Runs all forward steps of a decoder on the concatenation of the encodings of its fields. *)
Ltac codec_run Hat tac :=
  rewrite <- ?app_assoc in Hat;
  repeat (first [ codec_fwd Hat tac | progress eval_ifs ]; rewrite <- ?app_assoc in Hat).

(** Inverts all steps of a successful decoder. *)
Ltac codec_inv Hat H :=
  repeat first
    [ lazymatch type of H with
      | sbind (lift _) _ _ = Ok _ =>
          let a := fresh "a" in let Ha := fresh "Hok" in
          apply sbind_lift_inv in H as (a & Ha & H); cbv beta in H
      | (if negb (?x =? ?n) then _ else _) _ = Ok _ =>
          destruct (Z.eqb_spec x n); [try subst x | discriminate H];
          change (negb true) with false in H; cbv iota in H
      | (if negb (bool_decide (?x = ?n)) then _ else _) _ = Ok _ =>
          destruct (bool_decide_reflect (x = n)); [try subst x | discriminate H];
          change (negb true) with false in H; cbv iota in H
      | (if ?b then fail _ else _) _ = Ok _ => destruct b eqn:?; [discriminate H|]
      end
    | codec_bwd Hat H ].

(** ** Instances for the value kinds of the profile *)

Lemma usize_ok n : is_u64 n -> usize_try_from n = Ok n.
Proof. intros. unfold usize_try_from. by rewrite (proj2 (Z.leb_le _ _)) by ulia. Qed.

Lemma string_complete m x d rest :
  0 <= m < 8 -> at_rest d ((major m (zlen x) ++ x) ++ rest) ->
  exists d1 d2, read_head d = Ok ((m, zlen x), d1) /\ usize_try_from (zlen x) = Ok (zlen x) /\
    take_bytes (zlen x) d1 = Ok (x, d2) /\ at_rest d2 rest /\ input d2 = input d.
Proof.
  intros Hm Hat. rewrite <- app_assoc in Hat.
  assert (Hx : is_u64 (zlen x)).
  { apply at_rest_slice in Hat. rewrite !zlen_app in Hat.
    pose proof (zlen_nonneg rest). pose proof (zlen_nonneg (major m (zlen x))). ulia. }
  destruct (read_head_complete _ _ _ _ Hm Hx Hat) as (d1 & H1 & Hat1 & Hin1).
  destruct (take_bytes_complete _ _ _ Hat1) as (d2 & H2 & Hat2 & Hin2).
  exists d1, d2. rewrite usize_ok by done. split_and!; try done. congruence.
Qed.

Lemma string_sound m n x d d1 d2 rest :
  at_rest d rest -> read_head d = Ok ((m, n), d1) -> take_bytes n d1 = Ok (x, d2) ->
  exists rest', rest = (major m (zlen x) ++ x) ++ rest' /\ zlen x = n /\
    at_rest d2 rest' /\ input d2 = input d.
Proof.
  intros Hat H1 H2.
  destruct (read_head_sound _ _ _ _ _ Hat H1) as (r1 & -> & Hat1 & Hin1 & [_ Hn]).
  destruct (take_bytes_sound n _ _ _ _ (proj1 Hn) Hat1 H2) as (r2 & -> & <- & ? & ?).
  exists r2. rewrite <- app_assoc. split_and!; try done. congruence.
Qed.

Ltac solve_string_complete m H :=
  let d1 := fresh "d1" in let d2 := fresh "d2" in
  destruct (string_complete m _ _ _ ltac:(lia) H) as (d1 & d2 & H1 & H2 & H3 & ? & ?);
  exists d2; unfold sbind, lift; rewrite H1; cbn [Z.eqb Pos.eqb]; rewrite H2; rewrite ?H3.

Ltac inv_usize :=
  match goal with
  | H : usize_try_from ?n = Ok ?m |- _ =>
      unfold usize_try_from in H; destruct (n <=? usize_max); [injection H as <- | discriminate H]
  end.

#[global] Instance uint_codec : Codec read_uint uint is_u64.
Proof.
  split.
  - intros v d rest Hv Hat.
    destruct (read_head_complete 0 v d rest ltac:(lia) Hv Hat) as (d' & H & ? & ?).
    exists d'. unfold read_uint, sbind. by rewrite H.
  - intros v d d' rest Hat H. unfold read_uint in H. inv_ok H. subst.
    apply Z.eqb_eq in Heqb. subst.
    destruct (read_head_sound _ _ _ _ _ Hat Hok) as (rest' & -> & ? & ? & [_ ?]).
    by exists rest'.
Qed.

#[global] Instance bytes_codec : Codec read_bytes byte_string (fun _ => True).
Proof.
  split.
  - intros v d rest _ Hat. unfold read_bytes. by solve_string_complete 2 Hat.
  - intros v d d' rest Hat H. unfold read_bytes in H. inv_ok H. subst.
    apply Z.eqb_eq in Heqb. subst. inv_usize.
    destruct (string_sound _ _ _ _ _ _ _ Hat Hok H) as (r & -> & _ & ? & ?). by exists r.
Qed.

#[global] Instance text_codec : Codec read_text text (fun x => utf8_valid x = true).
Proof.
  split.
  - intros v d rest Hv Hat. unfold read_text. solve_string_complete 3 Hat. by rewrite Hv.
  - intros v d d' rest Hat H. unfold read_text in H. inv_ok H. subst.
    inv_ok Hok0. apply Z.eqb_eq in Heqb0. subst. inv_usize.
    destruct (string_sound _ _ _ _ _ _ _ Hat Hok Hok0) as (r & -> & _ & ? & ?). by exists r.
Qed.

#[global] Instance bounded_bytes_codec what limit :
  Codec (read_bounded_bytes what limit) byte_string (fun x => zlen x <= limit).
Proof.
  split.
  - intros v d rest Hv Hat. unfold read_bounded_bytes. solve_string_complete 2 Hat.
    by rewrite (proj2 (Z.ltb_ge _ _)), H3 by done.
  - intros v d d' rest Hat H. unfold read_bounded_bytes in H. inv_ok H. subst.
    apply Z.eqb_eq in Heqb. subst. inv_usize.
    destruct (string_sound _ _ _ _ _ _ _ Hat Hok H) as (r & -> & <- & ? & ?).
    exists r. split_and!; try done. lia.
Qed.

#[global] Instance bounded_text_codec what limit :
  Codec (read_bounded_text what limit) text (fun x => zlen x <= limit /\ utf8_valid x = true).
Proof.
  split.
  - intros v d rest [Hv Hu] Hat. unfold read_bounded_text. solve_string_complete 3 Hat.
    by rewrite (proj2 (Z.ltb_ge _ _)), H3, Hu by done.
  - intros v d d' rest Hat H. unfold read_bounded_text in H. inv_ok H. subst.
    apply Z.eqb_eq in Heqb. subst. inv_usize.
    destruct (string_sound _ _ _ _ _ _ _ Hat Hok Hok1) as (r & -> & <- & ? & ?).
    exists r. split_and!; try done. lia.
Qed.

#[global] Instance array_codec : Codec read_array array is_u64.
Proof.
  split.
  - intros v d rest Hv Hat.
    destruct (read_head_complete 4 v d rest ltac:(lia) Hv Hat) as (d' & H & ? & ?).
    exists d'. unfold read_array, sbind. rewrite H. cbn. unfold lift. by rewrite usize_ok.
  - intros v d d' rest Hat H. unfold read_array in H. inv_ok H. subst.
    apply Z.eqb_eq in Heqb. subst.
    destruct (read_head_sound _ _ _ _ _ Hat Hok) as (rest' & -> & ? & ? & [_ ?]).
    injection H as -> ->. inv_usize. by exists rest'.
Qed.

#[global] Instance word_codec : Codec read_word byte_string is_word.
Proof.
  split.
  - intros v d rest Hv Hat. destruct (codec_complete v d rest I Hat) as (d' & H & ? & ?).
    exists d'. unfold read_word, sbind. rewrite H.
    by rewrite (proj2 (Z.eqb_eq _ _)) by ulia.
  - intros v d d' rest Hat H. unfold read_word in H. inv_ok H. subst.
    destruct (codec_sound _ _ _ _ Hat Hok) as (r & -> & ? & ? & _).
    exists r. split_and!; try done. apply negb_false_iff in Heqb. ulia.
Qed.

Lemma byte_string_head x : is_word x -> byte_string x = Byte.x58 :: Byte.x20 :: x.
Proof. intros H. unfold byte_string, zlen. by rewrite H. Qed.

#[global] Instance nullable_word_codec :
  Codec read_nullable_word nullable_word (fun w => match w with Some w => is_word w | None => True end).
Proof.
  split.
  - intros v d rest Hv Hat. pose proof Hat as (H1 & H2 & Hd).
    destruct v as [w|]; unfold read_nullable_word, sbind, peek.
    + rewrite <- (Nat.add_0_r (Z.to_nat _)), <- lookup_drop, Hd. simpl nullable_word in *.
      assert (Hh : (byte_string w ++ rest) !! 0%nat = Some Byte.x58)
        by (by rewrite byte_string_head).
      rewrite Hh. rewrite bool_decide_false by done.
      destruct (codec_complete w d rest Hv Hat) as (d' & H & ? & ?). exists d'. by rewrite H.
    + rewrite <- (Nat.add_0_r (Z.to_nat _)), <- lookup_drop, Hd. simpl.
      eexists. split; [done|]. pose proof (at_rest_length _ _ Hat) as Hl.
      cbn [nullable_word app] in Hl, Hd. rewrite zlen_cons in Hl. pose proof (zlen_nonneg rest).
      split; [|done]. split_and!; simpl; try lia.
      rewrite Z2Nat.inj_add, <- drop_drop, Hd by lia. done.
  - intros v d d' rest Hat H. pose proof Hat as (H1 & H2 & Hd). unfold read_nullable_word in H.
    inv_ok H.
    + unfold peek in Hok. destruct (input d !! Z.to_nat (offset d)) as [b|] eqn:Hb; [|done].
      injection Hok as -> ->. apply bool_decide_eq_true in Heqb. subst a d' v.
      rewrite <- (Nat.add_0_r (Z.to_nat _)), <- lookup_drop, Hd in Hb.
      destruct rest as [|b rest]; [done|]. injection Hb as ->. exists rest.
      apply at_rest_length in Hat. rewrite zlen_cons in Hat. pose proof (zlen_nonneg rest).
      split; [done|]. split; [|done]. split_and!; cbn [offset input]; try lia.
      rewrite Z2Nat.inj_add, <- drop_drop, Hd by lia. done.
    + unfold peek in Hok. destruct (input d !! Z.to_nat (offset d)) as [b|] eqn:Hb; [|done].
      injection Hok as -> ->. subst.
      destruct (codec_sound _ _ _ _ Hat Hok0) as (r & -> & ? & ? & ?). by exists r.
Qed.

Arguments major : simpl never.
Arguments array : simpl never.
Arguments byte_string : simpl never.
Arguments text : simpl never.
Arguments uint : simpl never.
Arguments nullable_word : simpl never.

(** Arrays whose length was read before: [n] rounds of one codec. *)
Lemma repeat_codec {E A} (p : reader Decoder E A) enc ok n :
  Codec p enc ok ->
  Codec (repeat_reader n p) (fun l => concat (map enc l)) (fun l => length l = n /\ Forall ok l).
Proof.
  intros Hp. induction n as [|n IH].
  - split.
    + intros l d rest [Hl _] Hat. destruct l; [|done]. by exists d.
    + intros l d d' rest Hat [= <- <-]. by exists rest.
  - split.
    + intros l d rest [Hl Hf] Hat. destruct l as [|x l]; [done|]. injection Hl as Hl.
      apply Forall_cons in Hf as [Hx Hf]. simpl in Hat. rewrite <- app_assoc in Hat. simpl.
      destruct (codec_step (fun a => let* l := repeat_reader n p in sret (a :: l)) _ _ _ Hat)
        as (d1 & -> & Hat1 & Hin1); [done|].
      destruct (codec_step (p := repeat_reader n p) (fun l => sret (x :: l)) l _ rest Hat1)
        as (d2 & -> & Hat2 & Hin2); [done|].
      exists d2. split_and!; try done. congruence.
    + intros l d d' rest Hat H. simpl in H.
      codec_bwd Hat H. codec_bwd Hat H. unfold sret in H. injection H as <- <-. subst.
      destruct Hv0 as [<- Hf]. exists rest1. simpl. rewrite <- app_assoc.
      split_and!; try done; [congruence | by constructor].
Qed.

(** ** Sizes *)

Lemma major_length k v : zlen (major k v) <= 9.
Proof. unfold major. repeat case_match; unfold zlen; simpl length; rewrite ?be_bytes_length; lia. Qed.

Lemma uint_length v : zlen (uint v) <= 9.
Proof. apply major_length. Qed.

Lemma array_length v : zlen (array v) <= 9.
Proof. apply major_length. Qed.

Lemma byte_string_length x : zlen (byte_string x) <= 9 + zlen x.
Proof. unfold byte_string. rewrite zlen_app. pose proof (major_length 2 (zlen x)). lia. Qed.

Lemma text_length x : zlen (text x) <= 9 + zlen x.
Proof. unfold text. rewrite zlen_app. pose proof (major_length 3 (zlen x)). lia. Qed.

Lemma word_string_length x : is_word x -> zlen (byte_string x) = 34.
Proof. intros H. rewrite byte_string_head by done. unfold zlen. simpl. rewrite H. done. Qed.

Lemma nullable_word_length w :
  match w with Some w => is_word w | None => True end -> zlen (nullable_word w) <= 34.
Proof. destruct w; unfold nullable_word; intros; [rewrite word_string_length by done; lia | done]. Qed.

(** Bounds every encoded field of a size goal, and fixes the length of every word. *)
Ltac bound_sizes :=
  rewrite ?zlen_app;
  repeat match goal with
  | |- context [zlen (uint ?v)] =>
      let n := fresh "n" in pose proof (uint_length v); set (n := zlen (uint v)) in *; clearbody n
  | |- context [zlen (array ?v)] =>
      let n := fresh "n" in pose proof (array_length v); set (n := zlen (array v)) in *; clearbody n
  | |- context [zlen (text ?v)] =>
      let n := fresh "n" in pose proof (text_length v); set (n := zlen (text v)) in *; clearbody n
  | |- context [zlen (byte_string ?v)] =>
      let n := fresh "n" in
      pose proof (byte_string_length v); set (n := zlen (byte_string v)) in *; clearbody n
  | |- context [zlen (nullable_word ?v)] =>
      let n := fresh "n" in pose proof (nullable_word_length v ltac:(assumption));
      set (n := zlen (nullable_word v)) in *; clearbody n
  end.

Ltac words_32 :=
  repeat match goal with
  | H : is_word ?w |- _ =>
      let Hw := fresh "Hw" in assert (Hw : zlen w = 32) by (unfold zlen; by rewrite H); clear H
  end.

(** The side conditions of a codec step, from the context. *)
Ltac side := first [assumption | ulia | done | split; assumption ].
