(* ===== verification/Errors.v ===== *)
(** The error enumerations of [crates/unicity/execution]: one module per enumeration, so that
    [UpdateE.TooLarge] reads like the source's [UpdateError::TooLarge].  A [String] that only
    carries a formatted message of another library is kept as an opaque string. *)
From S2P Require Import Prelude CborCodec.

(** [hook.rs] *)
Module HookE.
Inductive HookError :=
| Profile (reason : string)
| Call (what : string) (message : string)
| BadReturn (what : string)
| BadOutcome (outcome : Z)
| Inconsistent (cursor count target : Z)
| CursorMoved (before applied after : Z)
| HExceedsMaxBatch (h_records max_batch : Z)
| Budget.
End HookE.
Abbreviation HookError := HookE.HookError.

(** [update.rs] *)
Module UpdateE.
Inductive UpdateError :=
| UnmeasuredEpochs (b : Z)
| EpochsBelowSpan (b : Z)
| Overflow
| TooLarge (len limit : Z)
| ScanBudget
| MemberBudget
| Encoding
| UpdateHashMismatch
| NetworkMismatch
| RootGenesisMismatch
| ChainMismatch
| ProfileMismatch
| ParentMismatch
| BlockNumberMismatch
| OriginEpochMismatch
| OriginRoundMismatch
| OriginIdentityMismatch
| EntryIdentity
| MembersNotSorted
| InvalidKey
| DuplicateKey
| ZeroWeight
| WeightOverflow
| WeightCap
| EmptyInterval
| GenesisKindInUpdate
| EpochNotNewer
| StartAfterOrigin
| EndAfterOrigin
| NotContiguous
| OldTipEndMismatch
| TailNotOrigin
| EmptyUpdateMismatch.
End UpdateE.
Abbreviation UpdateError := UpdateE.UpdateError.

(** [records.rs] *)
Module ImportE.
Inductive ImportError :=
| TooLarge (len : Z)
| ScanBudget
| EntryBudget
| Encoding (error : CanonicalCborError)
| Domain
| TooManyEntries (n : Z)
| UnknownKind (kind : Z)
| PayloadWidth (kind len : Z)
| ClosedEpochOnNonClosure
| ZeroTargetTip
| TooManyTokens
| HashMismatch
| Overflow.
End ImportE.
Abbreviation ImportError := ImportE.ImportError.

(** [lib.rs] *)
Module ExecE.
Inductive ExecutionError :=
| InvalidInput (reason : string)
| Database (message : string)
| OpenFailed (message : string)
| RegistryEpochRefused (assigned received : Z)
| ImportFailed (message : string)
| FinalizeFailed (message : string)
| RecordImport (error : ImportError)
| B1Update (error : UpdateError)
| B1ProfileMismatch (what : string)
| Hook (error : HookError)
| GasBudgetExceeded (spent limit : Z).
End ExecE.
Abbreviation ExecutionError := ExecE.ExecutionError.
