(* ===== verification/RootInput.v ===== *)
(** Root inputs: [RootInputV2] of [crates/unicity/execution/src/lib.rs] and its codec in [wire.rs].

    The root input is the structured value a block commits to.  [origin_class] is its validation,
    [canonical_cbor] its encoder, [from_canonical_cbor] the strict decoder, [decode_epoch_transition]
    the decoder of the compact transition body it may carry, and the two JSON envelopes bind the
    companion bytes to it.  The theorems are the documentation's promise that decoder and encoder
    are inverse (with the field bounds the decoder adds), that commitments bind, what an accepted
    epoch transition satisfies, and what an accepted envelope carries. *)
From S2P Require Import Prelude CborCodec Crypto Errors.

Definition MAX_EPOCH_TRANSITION_BYTES : Z := 16 * 1024.
Definition MAX_SUPERSESSION_SPAN : Z := 2.
Definition MAX_ROOT_TRANSITIONS : Z := 1.
Definition MAX_ROOT_INPUT_BYTES : Z := 32 * 1024.
Definition MAX_SHARD_ID_BYTES : Z := 32.
Definition MAX_LEADER_BYTES : Z := 256.

(** ** The records *)

Record InputRecordV2 := {
  ir_round : Z;
  ir_epoch : Z;
  ir_previous_hash : option bytes;
  ir_state_hash : option bytes;
  ir_timestamp : Z;
  ir_block_hash : option bytes }.

Record RootOriginV2 := {
  ro_network_id : Z;
  ro_root_round : Z;
  ro_root_epoch : Z;
  ro_reference_time : Z;
  ro_tree_root : bytes;
  ro_input_record_version : Z;
  ro_input_record : InputRecordV2;
  ro_tr_hash : bytes;
  ro_shard_conf_hash : bytes }.

Record TechnicalRecordV2 := {
  tr_round : Z;
  tr_epoch : Z;
  tr_leader : bytes;
  tr_stat_hash : bytes;
  tr_fee_hash : bytes }.

Record RootInputV2 := {
  ri_version : Z;
  ri_network_id : Z;
  ri_partition_id : Z;
  ri_shard_id : bytes;
  ri_authorized_round : Z;
  ri_certified_epoch : Z;
  ri_authorized_epoch : Z;
  ri_parent_hash : bytes;
  ri_origin : RootOriginV2;
  ri_technical : TechnicalRecordV2;
  ri_transitions : list bytes;
  ri_b1_update_hash : bytes;
  ri_root_records_hash : bytes }.

#[global] Instance input_record_eq_decision : EqDecision InputRecordV2.
Proof. solve_decision. Defined.
#[global] Instance root_origin_eq_decision : EqDecision RootOriginV2.
Proof. solve_decision. Defined.
#[global] Instance technical_record_eq_decision : EqDecision TechnicalRecordV2.
Proof. solve_decision. Defined.
#[global] Instance root_input_eq_decision : EqDecision RootInputV2.
Proof. solve_decision. Defined.

Record EpochTransition := {
  et_old_root_epoch : Z;
  et_new_root_epoch : Z;
  et_old_shard_epoch : Z;
  et_new_shard_epoch : Z;
  et_old_active_conf_hash : bytes;
  et_new_active_conf_hash : bytes;
  et_supersession_span : Z;
  et_supersession_commitment : bytes;
  et_body_id : bytes;
  et_genesis_id : bytes;
  et_frozen_id : bytes;
  et_commit_id : bytes;
  et_frozen_parent : bytes;
  et_successor_tr : bytes;
  et_evm_round : Z }.

Inductive OriginClass := Bootstrap | FirstCertified | Ordinary.

(** ** The epoch transition decoder ([wire.rs]) *)

(** Runs a reader on a whole input. *)
Definition decode_with {A} (p : reader Decoder CanonicalCborError A) (raw : bytes)
    : result CanonicalCborError A :=
  let? (a, _) := p (new_decoder raw) in Ok a.

Definition TRANSITION_DOMAIN : bytes := ascii "UNICITY_HANDOFF_EVM_TRANSITION".
Definition ACK_DOMAIN : bytes := ascii "UNICITY_HANDOFF_ACK".

(** The acknowledgement body: frozen and commit identities, the two parents, the successor
    technical record and the round. *)
Definition decode_ack : reader Decoder CanonicalCborError (bytes * bytes * bytes * bytes * bytes * Z) :=
  let* arity := read_array in
  if negb (arity =? 8) then fail (WrongArity 8 arity) else
  let* domain := read_text in
  if negb (bool_decide (domain = ACK_DOMAIN))
  then fail (InvalidRootInput "invalid acknowledgement domain or version") else
  let* version := read_uint in
  if negb (version =? 2)
  then fail (InvalidRootInput "invalid acknowledgement domain or version") else
  let* frozen_id := read_word in
  let* commit_id := read_word in
  let* frozen_parent := read_word in
  let* successor_parent := read_word in
  let* successor_tr := read_word in
  let* evm_round := read_uint in
  let* _ := finish in
  sret (frozen_id, commit_id, frozen_parent, successor_parent, successor_tr, evm_round).

(** The span rules: a renewal, a first assignment, or a bounded supersession. *)
Definition span_ok (t : EpochTransition) : bool :=
  let root_delta := checked_sub (et_new_root_epoch t) (et_old_root_epoch t) in
  let shard_delta := checked_sub (et_new_shard_epoch t) (et_old_shard_epoch t) in
  let conf_changed := negb (bool_decide (et_new_active_conf_hash t = et_old_active_conf_hash t)) in
  let assignment_changed :=
    negb (et_new_shard_epoch t =? et_old_shard_epoch t) || conf_changed in
  match root_delta with
  | Some delta =>
      if (delta =? 1) && negb assignment_changed then
        bool_decide (shard_delta = Some 0) && (et_supersession_span t =? 0) &&
        bool_decide (et_supersession_commitment t = ZERO32)
      else if delta =? 1 then
        bool_decide (shard_delta = Some 1) && conf_changed && (et_supersession_span t =? 0) &&
        bool_decide (et_supersession_commitment t = ZERO32)
      else if 1 <? delta then
        bool_decide (shard_delta = Some delta) && conf_changed && (et_supersession_span t =? delta)
        && negb (bool_decide (et_supersession_commitment t = ZERO32))
      else false
  | None => false
  end.

(** The checks on the decoded fields; [successor_parent] is not retained. *)
Definition check_transition (t : EpochTransition) (successor_parent : bytes)
    : result CanonicalCborError EpochTransition :=
  let root_delta := checked_sub (et_new_root_epoch t) (et_old_root_epoch t) in
  if match root_delta with Some delta => MAX_SUPERSESSION_SPAN <? delta | None => false end
  then Err (InvalidRootInput "supersession span exceeds bound") else
  if negb (span_ok t)
     || bool_decide (et_old_active_conf_hash t = ZERO32)
     || bool_decide (et_new_active_conf_hash t = ZERO32)
     || bool_decide (ZERO32 ∈ [et_body_id t; et_genesis_id t; et_frozen_id t; et_commit_id t;
                               et_frozen_parent t; et_successor_tr t])
     || negb (bool_decide (et_frozen_parent t = successor_parent))
     || (et_evm_round t =? 0)
  then Err (InvalidRootInput "invalid epoch transition fields") else Ok t.

(** The outer body, with the acknowledgement decoded from its embedded byte string. *)
Definition decode_transition_body : reader Decoder CanonicalCborError EpochTransition :=
  let* arity := read_array in
  if negb (arity =? 13) then fail (WrongArity 13 arity) else
  let* domain := read_text in
  if negb (bool_decide (domain = TRANSITION_DOMAIN))
  then fail (InvalidRootInput "invalid epoch transition domain or version") else
  let* version := read_uint in
  if negb (version =? 3)
  then fail (InvalidRootInput "invalid epoch transition domain or version") else
  let* old_root_epoch := read_uint in
  let* new_root_epoch := read_uint in
  let* old_shard_epoch := read_uint in
  let* new_shard_epoch := read_uint in
  let* old_active_conf_hash := read_word in
  let* new_active_conf_hash := read_word in
  let* supersession_span := read_uint in
  let* supersession_commitment := read_word in
  let* body_id := read_word in
  let* genesis_id := read_word in
  let* ack_bytes := read_bytes in
  let* _ := finish in
  let* (frozen_id, commit_id, frozen_parent, successor_parent, successor_tr, evm_round) :=
    lift (decode_with decode_ack ack_bytes) in
  lift (check_transition {|
    et_old_root_epoch := old_root_epoch;
    et_new_root_epoch := new_root_epoch;
    et_old_shard_epoch := old_shard_epoch;
    et_new_shard_epoch := new_shard_epoch;
    et_old_active_conf_hash := old_active_conf_hash;
    et_new_active_conf_hash := new_active_conf_hash;
    et_supersession_span := supersession_span;
    et_supersession_commitment := supersession_commitment;
    et_body_id := body_id;
    et_genesis_id := genesis_id;
    et_frozen_id := frozen_id;
    et_commit_id := commit_id;
    et_frozen_parent := frozen_parent;
    et_successor_tr := successor_tr;
    et_evm_round := evm_round |} successor_parent).

Definition decode_epoch_transition (raw : bytes) : result CanonicalCborError EpochTransition :=
  if MAX_EPOCH_TRANSITION_BYTES <? zlen raw
  then Err (InvalidRootInput "epoch transition exceeds size limit") else
  decode_with decode_transition_body raw.

(** ** Encoders ([lib.rs]) *)

Definition encode_input_record (ir : InputRecordV2) : bytes :=
  array 6 ++ uint (ir_round ir) ++ uint (ir_epoch ir) ++ nullable_word (ir_previous_hash ir) ++
  nullable_word (ir_state_hash ir) ++ uint (ir_timestamp ir) ++ nullable_word (ir_block_hash ir).

Definition encode_origin (o : RootOriginV2) : bytes :=
  array 8 ++ uint (ro_network_id o) ++ uint (ro_root_round o) ++ uint (ro_root_epoch o) ++
  uint (ro_reference_time o) ++ byte_string (ro_tree_root o) ++
  encode_input_record (ro_input_record o) ++
  byte_string (ro_tr_hash o) ++ byte_string (ro_shard_conf_hash o).

Definition encode_technical (r : TechnicalRecordV2) : bytes :=
  array 5 ++ uint (tr_round r) ++ uint (tr_epoch r) ++ text (tr_leader r) ++
  byte_string (tr_stat_hash r) ++ byte_string (tr_fee_hash r).

Definition encode_transitions (ts : list bytes) : bytes :=
  array (zlen ts) ++ concat (map byte_string ts).

(** The thirteen fields of the canonical tuple, in order. *)
Definition encode_root_input (v : RootInputV2) : bytes :=
  array 13 ++ uint (ri_version v) ++ uint (ri_network_id v) ++ uint (ri_partition_id v) ++
  byte_string (ri_shard_id v) ++ uint (ri_authorized_round v) ++ uint (ri_certified_epoch v) ++
  uint (ri_authorized_epoch v) ++ byte_string (ri_parent_hash v) ++ encode_origin (ri_origin v) ++
  encode_technical (ri_technical v) ++ encode_transitions (ri_transitions v) ++
  byte_string (ri_b1_update_hash v) ++ byte_string (ri_root_records_hash v).

(** ** Decoders ([wire.rs]) *)

Definition decode_origin : reader Decoder CanonicalCborError RootOriginV2 :=
  let* arity := read_array in
  if negb (arity =? 8) then fail (WrongArity 8 arity) else
  let* network_id := read_uint in
  let* root_round := read_uint in
  let* root_epoch := read_uint in
  let* reference_time := read_uint in
  let* tree_root := read_word in
  let* record_arity := read_array in
  if negb (record_arity =? 6) then fail (WrongArity 6 record_arity) else
  let* round := read_uint in
  let* epoch := read_uint in
  let* previous_hash := read_nullable_word in
  let* state_hash := read_nullable_word in
  let* timestamp := read_uint in
  let* block_hash := read_nullable_word in
  let input_record := {| ir_round := round; ir_epoch := epoch; ir_previous_hash := previous_hash;
    ir_state_hash := state_hash; ir_timestamp := timestamp; ir_block_hash := block_hash |} in
  let* tr_hash := read_word in
  let* shard_conf_hash := read_word in
  sret {| ro_network_id := network_id; ro_root_round := root_round; ro_root_epoch := root_epoch;
    ro_reference_time := reference_time; ro_tree_root := tree_root; ro_input_record_version := 1;
    ro_input_record := input_record; ro_tr_hash := tr_hash; ro_shard_conf_hash := shard_conf_hash |}.

Definition decode_technical : reader Decoder CanonicalCborError TechnicalRecordV2 :=
  let* arity := read_array in
  if negb (arity =? 5) then fail (WrongArity 5 arity) else
  let* round := read_uint in
  let* epoch := read_uint in
  let* leader := read_bounded_text "leader" MAX_LEADER_BYTES in
  let* stat_hash := read_word in
  let* fee_hash := read_word in
  sret {| tr_round := round; tr_epoch := epoch; tr_leader := leader; tr_stat_hash := stat_hash;
    tr_fee_hash := fee_hash |}.

Definition decode_byte_string_array : reader Decoder CanonicalCborError (list bytes) :=
  let* length := read_array in
  if MAX_ROOT_TRANSITIONS <? length
  then fail (TooLarge "transition count" length MAX_ROOT_TRANSITIONS) else
  repeat_reader (Z.to_nat length) (read_bounded_bytes "transition" MAX_EPOCH_TRANSITION_BYTES).

Definition decode_root_input : reader Decoder CanonicalCborError RootInputV2 :=
  let* arity := read_array in
  if negb (arity =? 13) then fail (WrongArity 13 arity) else
  let* version := read_uint in
  let* network_id := read_uint in
  let* partition_id := read_uint in
  let* shard_id := read_bounded_bytes "shard id" MAX_SHARD_ID_BYTES in
  let* authorized_round := read_uint in
  let* certified_epoch := read_uint in
  let* authorized_epoch := read_uint in
  let* parent_hash := read_word in
  let* origin := decode_origin in
  let* technical := decode_technical in
  let* transitions := decode_byte_string_array in
  let* b1_update_hash := read_word in
  let* root_records_hash := read_word in
  sret {| ri_version := version; ri_network_id := network_id; ri_partition_id := partition_id;
    ri_shard_id := shard_id; ri_authorized_round := authorized_round;
    ri_certified_epoch := certified_epoch; ri_authorized_epoch := authorized_epoch;
    ri_parent_hash := parent_hash; ri_origin := origin; ri_technical := technical;
    ri_transitions := transitions; ri_b1_update_hash := b1_update_hash;
    ri_root_records_hash := root_records_hash |}.

Section hashed.
Context `{Crypto}.

Definition technical_record_hash (record : TechnicalRecordV2) : bytes :=
  sha256 (encode_technical record).

Definition invalid {A} (reason : string) : result ExecutionError A := Err (ExecE.InvalidInput reason).

(** The transition a root input carries must match its own context. *)
Definition transition_context_ok (v : RootInputV2) (t : EpochTransition) : bool :=
  (et_evm_round t =? ri_authorized_round v) &&
  (et_new_root_epoch t =? ro_root_epoch (ri_origin v)) &&
  bool_decide (et_frozen_parent t = ri_parent_hash v) &&
  (ri_certified_epoch v =? et_old_shard_epoch t) &&
  (ri_authorized_epoch v =? et_new_shard_epoch t) &&
  (ir_epoch (ro_input_record (ri_origin v)) =? et_old_shard_epoch t) &&
  bool_decide (ro_shard_conf_hash (ri_origin v) = et_new_active_conf_hash t).

(** The class of an origin, from its nullable fields. *)
Definition classify (ir : InputRecordV2) : result ExecutionError OriginClass :=
  match ir_previous_hash ir, ir_state_hash ir, ir_block_hash ir with
  | None, None, None =>
      if (ir_round ir =? 0) && (ir_timestamp ir =? 0) then
        if ir_epoch ir =? 0 then Ok Bootstrap
        else invalid "bootstrap input-record epoch must be zero"
      else invalid "invalid v2 origin shape"
  | None, Some _, Some _ =>
      if 0 <? ir_round ir then Ok FirstCertified else invalid "invalid v2 origin shape"
  | Some previous, Some state, None =>
      if (0 <? ir_round ir) && bool_decide (previous = state) then Ok Ordinary
      else invalid "invalid v2 origin shape"
  | Some previous, Some state, Some _ =>
      if (0 <? ir_round ir) && negb (bool_decide (previous = state)) then Ok Ordinary
      else invalid "invalid v2 origin shape"
  | _, _, _ => invalid "invalid v2 origin shape"
  end.

Definition origin_class (v : RootInputV2) : result ExecutionError OriginClass :=
  let origin := ri_origin v in
  let ir := ro_input_record origin in
  if negb (ri_version v =? 2) then invalid "profile version must be 2" else
  if bool_decide (ri_b1_update_hash v = ZERO32) then invalid "B1 update hash must be non-zero" else
  if bool_decide (ri_root_records_hash v = ZERO32)
  then invalid "root records hash must be non-zero" else
  if negb (ro_input_record_version origin =? 1) then invalid "input record version must be 1" else
  if (ri_authorized_round v =? 0) || negb (tr_round (ri_technical v) =? ri_authorized_round v)
  then invalid "authorized round must be positive and equal the technical-record round" else
  if negb (ri_certified_epoch v =? ir_epoch ir)
  then invalid "certified epoch must match the authenticated input-record epoch" else
  if negb (tr_epoch (ri_technical v) =? ri_authorized_epoch v)
  then invalid "technical-record epoch must match the authorized epoch" else
  if negb (ri_network_id v =? ro_network_id origin) then invalid "network identity mismatch" else
  if 1 <? zlen (ri_transitions v) then invalid "only one epoch transition is supported" else
  let? _ := match ri_transitions v with
    | raw :: _ =>
        let? t := map_err (fun _ => ExecE.InvalidInput "invalid epoch transition encoding")
                    (decode_epoch_transition raw) in
        if negb (transition_context_ok v t) then invalid "epoch transition context mismatch"
        else Ok ()
    | [] =>
        if negb (ri_certified_epoch v =? ri_authorized_epoch v)
        then invalid "ordinary execution must use one certified and authorized shard epoch"
        else Ok ()
    end in
  if negb (bool_decide (technical_record_hash (ri_technical v) = ro_tr_hash origin))
  then invalid "technical record hash mismatch" else
  classify ir.

Definition canonical_cbor (v : RootInputV2) : result ExecutionError bytes :=
  let? _ := origin_class v in Ok (encode_root_input v).

Definition input_commitment (v : RootInputV2) : result ExecutionError bytes :=
  let? raw := canonical_cbor v in Ok (sha256 raw).

Definition origin_identity (v : RootInputV2) : result ExecutionError bytes :=
  let? _ := origin_class v in Ok (sha256 (encode_origin (ri_origin v))).

Definition from_canonical_cbor (raw : bytes) : result CanonicalCborError RootInputV2 :=
  if MAX_ROOT_INPUT_BYTES <? zlen raw
  then Err (TooLarge "root input" (zlen raw) MAX_ROOT_INPUT_BYTES) else
  let? value := decode_with (let* value := decode_root_input in
                             let* _ := finish in sret value) raw in
  match origin_class value with
  | Ok _ => Ok value
  | Err (ExecE.InvalidInput reason) => Err (InvalidRootInput reason)
  | Err _ => Err (InvalidRootInput "root input failed profile validation")
  end.

Definition check_update (v : RootInputV2) (update : bytes) : result CanonicalCborError () :=
  if negb (bool_decide (sha256 update = ri_b1_update_hash v))
  then Err (InvalidRootInput "B1 update does not hash to the committed value") else Ok ().

Definition check_records (v : RootInputV2) (records : bytes) : result CanonicalCborError () :=
  if negb (bool_decide (sha256 records = ri_root_records_hash v))
  then Err (InvalidRootInput "root-record import does not hash to the committed value") else Ok ().
End hashed.

(** ** Envelopes ([wire.rs]) *)

Record SealBuildInput := {
  sb_root_input : bytes;
  sb_transitions : list bytes;
  sb_b1_update : bytes;
  sb_records : bytes;
  sb_pair_binding : bytes }.

Record SealCompanion := {
  sc_root_input : bytes;
  sc_b1_update : bytes;
  sc_records : bytes;
  sc_pair_binding : bytes;
  sc_witnesses : list bytes;
  sc_provenance : bytes }.

Definition build_decode_root_input `{Crypto} (e : SealBuildInput)
    : result CanonicalCborError RootInputV2 :=
  if MAX_ROOT_TRANSITIONS <? zlen (sb_transitions e)
  then Err (TooLarge "envelope transition count" (zlen (sb_transitions e)) MAX_ROOT_TRANSITIONS) else
  let? root := from_canonical_cbor (sb_root_input e) in
  if negb (zlen (ri_transitions root) =? zlen (sb_transitions e))
     || existsb (fun '(a, b) => negb (bool_decide (a = b)))
          (zip (ri_transitions root) (sb_transitions e))
  then Err (InvalidRootInput "build transition envelope does not match root input") else
  let? _ := check_update root (sb_b1_update e) in
  let? _ := check_records root (sb_records e) in
  Ok root.

Definition companion_decode_root_input `{Crypto} (c : SealCompanion)
    : result CanonicalCborError RootInputV2 :=
  let? root := from_canonical_cbor (sc_root_input c) in
  let? _ := check_update root (sc_b1_update c) in
  let? _ := check_records root (sc_records c) in
  Ok root.

(** ** Values of the Rust types *)

Definition opt_word (w : option bytes) : Prop := match w with Some w => is_word w | None => True end.

Definition input_record_typed (ir : InputRecordV2) : Prop :=
  is_u64 (ir_round ir) /\ is_u64 (ir_epoch ir) /\ opt_word (ir_previous_hash ir) /\
  opt_word (ir_state_hash ir) /\ is_u64 (ir_timestamp ir) /\ opt_word (ir_block_hash ir).

Definition origin_typed (o : RootOriginV2) : Prop :=
  is_u64 (ro_network_id o) /\ is_u64 (ro_root_round o) /\ is_u64 (ro_root_epoch o) /\
  is_u64 (ro_reference_time o) /\ is_word (ro_tree_root o) /\ input_record_typed (ro_input_record o) /\
  is_word (ro_tr_hash o) /\ is_word (ro_shard_conf_hash o).

Definition technical_typed (r : TechnicalRecordV2) : Prop :=
  is_u64 (tr_round r) /\ is_u64 (tr_epoch r) /\ utf8_valid (tr_leader r) = true /\
  is_word (tr_stat_hash r) /\ is_word (tr_fee_hash r).

Definition root_typed (v : RootInputV2) : Prop :=
  is_u64 (ri_version v) /\ is_u64 (ri_network_id v) /\ is_u64 (ri_partition_id v) /\
  is_u64 (ri_authorized_round v) /\ is_u64 (ri_certified_epoch v) /\ is_u64 (ri_authorized_epoch v) /\
  is_word (ri_parent_hash v) /\ origin_typed (ri_origin v) /\ technical_typed (ri_technical v) /\
  is_word (ri_b1_update_hash v) /\ is_word (ri_root_records_hash v).

(** The field bounds the decoder adds to the types. *)
Definition root_bounded (v : RootInputV2) : Prop :=
  zlen (ri_shard_id v) <= MAX_SHARD_ID_BYTES /\ zlen (tr_leader (ri_technical v)) <= MAX_LEADER_BYTES.

(** ** The codecs of the composite fields *)

#[global] Instance origin_codec :
  Codec decode_origin encode_origin (fun o => origin_typed o /\ ro_input_record_version o = 1).
Proof.
  split.
  - intros o d rest [Ht Hver] Hat. unfold origin_typed, input_record_typed in Ht. destruct_and!.
    unfold decode_origin. unfold encode_origin, encode_input_record in Hat.
    codec_run Hat side. destruct o as [? ? ? ? ? ? [] ? ?]. simpl in Hver. subst.
    eexists. split; [done|]. split; [done | congruence].
  - intros o d d' rest Hat H. unfold decode_origin in H. codec_inv Hat H.
    unfold sret in H.
 injection H as <- <-. subst.
    unfold encode_origin, encode_input_record. eexists. rewrite <- !app_assoc.
    split; [reflexivity|]. split; [done|]. split; [congruence|]. by split_and!.
Qed.

#[global] Instance technical_codec :
  Codec decode_technical encode_technical
    (fun r => technical_typed r /\ zlen (tr_leader r) <= MAX_LEADER_BYTES).
Proof.
  split.
  - intros r d rest [Ht Hlen] Hat. unfold technical_typed in Ht. destruct_and!.
    unfold decode_technical. unfold encode_technical in Hat.
    codec_run Hat side. destruct r. eexists. split; [done|]. split; [done | congruence].
  - intros r d d' rest Hat H. unfold decode_technical in H. codec_inv Hat H.
    unfold sret in H. injection H as <- <-. subst. destruct_and!.
    unfold encode_technical. eexists. rewrite <- !app_assoc.
    split; [reflexivity|]. split; [done|]. split; [congruence|]. by split_and!.
Qed.

#[global] Instance transitions_codec :
  Codec decode_byte_string_array encode_transitions
    (fun l => zlen l <= MAX_ROOT_TRANSITIONS /\
      Forall (fun raw => zlen raw <= MAX_EPOCH_TRANSITION_BYTES) l).
Proof.
  pose proof (fun n => repeat_codec (read_bounded_bytes "transition" MAX_EPOCH_TRANSITION_BYTES)
    byte_string _ n _) as Hrep.
  split.
  - intros l d rest [Hl Hf] Hat. unfold decode_byte_string_array.
    unfold encode_transitions in Hat. rewrite <- app_assoc in Hat.
    codec_fwd Hat ltac:(unfold MAX_ROOT_TRANSITIONS in *; ulia).
    rewrite (proj2 (Z.ltb_ge _ _)) by done.
    assert (Hn : length l = Z.to_nat (zlen l)) by ulia.
    destruct (codec_complete (Codec := Hrep (Z.to_nat (zlen l))) l _ rest (conj Hn Hf) Hat)
      as (d2 & ? & ? & ?).
    exists d2. split; [done|]. split; [done | congruence].
  - intros l d d' rest Hat H. unfold decode_byte_string_array in H. codec_bwd Hat H.
    destruct (Z.ltb_spec MAX_ROOT_TRANSITIONS v); [done|].
    destruct (codec_sound (Codec := Hrep (Z.to_nat v)) _ _ _ _ Hat H) as (r & -> & ? & ? & Hl & ?).
    assert (v = zlen l) as -> by ulia.
    eexists. unfold encode_transitions. rewrite <- app_assoc. subst.
    split; [done|]. split; [done|]. split; [congruence|]. by split_and!.
Qed.

(** ** The codec of the root input *)

Definition transitions_bounded (v : RootInputV2) : Prop :=
  zlen (ri_transitions v) <= MAX_ROOT_TRANSITIONS /\
  Forall (fun raw => zlen raw <= MAX_EPOCH_TRANSITION_BYTES) (ri_transitions v).

Definition root_ok (v : RootInputV2) : Prop :=
  root_typed v /\ root_bounded v /\ ro_input_record_version (ri_origin v) = 1 /\
  transitions_bounded v.

#[global] Instance root_codec : Codec decode_root_input encode_root_input root_ok.
Proof.
  split.
  - intros v d rest (Ht & Hb & Hver & Htr) Hat. unfold root_typed, root_bounded in *. destruct_and!.
    unfold decode_root_input. unfold encode_root_input in Hat.
    codec_run Hat side. destruct v. eexists. split; [done|]. split; [done | congruence].
  - intros v d d' rest Hat H. unfold decode_root_input in H. codec_inv Hat H.
    unfold sret in H. injection H as <- <-. subst. destruct_and!.
    unfold encode_root_input. eexists. rewrite <- !app_assoc.
    split; [reflexivity|]. split; [done|]. split; [congruence|]. by split_and!.
Qed.

(** A whole-input decoder from a codec: exactly the encodings of its values. *)
Lemma decode_whole_sound {A} (p : reader Decoder CanonicalCborError A) enc ok raw v :
  Codec p enc ok -> zlen raw <= slice_max ->
  decode_with (let* v := p in let* _ := finish in sret v) raw = Ok v -> raw = enc v /\ ok v.
Proof.
  intros Hc Hlen H. unfold decode_with in H. inv_ok H. inv_ok Hok.
  destruct (codec_sound _ _ _ _ (at_rest_new raw Hlen) Hok0) as (rest & -> & Hat & _ & Hv).
  destruct a2, (finish_ok _ _ _ Hat Hok1) as [-> _]. subst. by rewrite app_nil_r.
Qed.

Lemma decode_whole_complete {A} (p : reader Decoder CanonicalCborError A) enc ok v :
  Codec p enc ok -> zlen (enc v) <= slice_max -> ok v ->
  decode_with (let* v := p in let* _ := finish in sret v) (enc v) = Ok v.
Proof.
  intros Hc Hlen Hv. pose proof (at_rest_new _ Hlen) as Hat. rewrite <- (app_nil_r (enc v)) in Hat at 2.
  destruct (codec_complete v _ [] Hv Hat) as (d & Hp & Hat' & _).
  unfold decode_with. rewrite (sbind_ok _ _ _ _ _ Hp).
  by rewrite (sbind_ok _ _ _ _ _ (finish_complete d Hat')).
Qed.

(** ** Sizes *)

Lemma encode_origin_length o : origin_typed o -> zlen (encode_origin o) <= 400.
Proof.
  intros Ht. unfold origin_typed, input_record_typed in Ht. destruct_and!.
  unfold encode_origin, encode_input_record. bound_sizes. words_32. lia.
Qed.

Lemma encode_technical_length r :
  technical_typed r -> zlen (encode_technical r) <= 150 + zlen (tr_leader r).
Proof.
  intros Ht. unfold technical_typed in Ht. destruct_and!.
  unfold encode_technical. bound_sizes. words_32. lia.
Qed.

Lemma encode_transitions_length ts :
  zlen ts <= MAX_ROOT_TRANSITIONS -> Forall (fun raw => zlen raw <= MAX_EPOCH_TRANSITION_BYTES) ts ->
  zlen (encode_transitions ts) <= 18 + MAX_EPOCH_TRANSITION_BYTES.
Proof.
  intros Hl Hf. unfold MAX_ROOT_TRANSITIONS, MAX_EPOCH_TRANSITION_BYTES, encode_transitions in *.
  destruct ts as [|t [|]].
  - cbn [map concat]. rewrite app_nil_r. bound_sizes. lia.
  - cbn [map concat]. rewrite app_nil_r. apply Forall_cons in Hf as [Ht _]. bound_sizes. lia.
  - unfold zlen in Hl. simpl in Hl. lia.
Qed.

Lemma encode_root_input_length v :
  root_typed v -> transitions_bounded v ->
  zlen (encode_root_input v) <=
    800 + zlen (ri_shard_id v) + zlen (tr_leader (ri_technical v)) + 18 + MAX_EPOCH_TRANSITION_BYTES.
Proof.
  intros Ht [Hl Hf]. unfold root_typed in Ht. destruct_and!. unfold encode_root_input.
  pose proof (encode_origin_length _ ltac:(eassumption)).
  pose proof (encode_technical_length _ ltac:(eassumption)).
  pose proof (encode_transitions_length _ Hl Hf).
  bound_sizes. words_32. lia.
Qed.

Section root_theorems.
Context `{Crypto}.

(** What validation establishes about the transitions and the record version. *)
Lemma origin_class_transitions v c :
  origin_class v = Ok c -> transitions_bounded v /\ ro_input_record_version (ri_origin v) = 1.
Proof.
  unfold origin_class. intros Hc. inv_ok Hc.
  repeat match goal with
  | Hn : negb _ = false |- _ => apply negb_false_iff in Hn
  | He : (_ =? _) = true |- _ => apply Z.eqb_eq in He
  | He : (_ <? _) = false |- _ => apply Z.ltb_ge in He
  end.
  split; [|done]. split; [done|].
  destruct (ri_transitions v) as [|raw [|]]; [constructor| |].
  - inv_ok Hok. unfold decode_epoch_transition in Hok0.
    constructor; [|constructor]. inv_ok Hok0. by apply Z.ltb_ge.
  - unfold zlen in *. simpl in *. lia.
Qed.

(** Decoding yields a well-typed, bounded, valid value whose encoding is exactly the input. *)
Lemma from_canonical_cbor_inv raw v :
  from_canonical_cbor raw = Ok v ->
  raw = encode_root_input v /\ root_ok v /\ exists c, origin_class v = Ok c.
Proof.
  intros Hd. unfold from_canonical_cbor in Hd. inv_ok Hd.
  apply Z.ltb_ge in Heqb.
  destruct (decode_whole_sound decode_root_input _ _ raw a _
    ltac:(unfold MAX_ROOT_INPUT_BYTES, slice_max in *; lia) Hok) as [-> Ha].
  destruct (origin_class a) as [c|e] eqn:Hc; [|by destruct e].
  injection Hd as <-. eauto.
Qed.

(** Every valid value within the decoder's field bounds decodes from its own encoding. *)
Lemma from_canonical_cbor_encode v c :
  root_typed v -> root_bounded v -> origin_class v = Ok c ->
  from_canonical_cbor (encode_root_input v) = Ok v.
Proof.
  intros Ht Hb Hc. destruct (origin_class_transitions v c Hc) as [Htr Hver].
  pose proof (encode_root_input_length v Ht Htr) as Hlen. pose proof Hb as [Hb1 Hb2].
  unfold MAX_SHARD_ID_BYTES, MAX_LEADER_BYTES, MAX_EPOCH_TRANSITION_BYTES in *.
  unfold from_canonical_cbor. rewrite (proj2 (Z.ltb_ge _ _)) by (unfold MAX_ROOT_INPUT_BYTES; lia).
  rewrite (decode_whole_complete decode_root_input encode_root_input root_ok v _)
    by (first [unfold slice_max; lia | done]).
  simpl. by rewrite Hc.
Qed.

(** C5: root inputs have one canonical encoding: the strict decoder accepts exactly the bytes that
    [canonical_cbor] produces for the value it returns, so no two byte strings decode to one value
    and re-encoding a decoded root input always reproduces the input. *)
Theorem root_input_decode_encode raw v :
  from_canonical_cbor raw = Ok v -> canonical_cbor v = Ok raw.
Proof.
  intros (-> & _ & c & Hc)%from_canonical_cbor_inv. unfold canonical_cbor. by rewrite Hc.
Qed.

(** C6: conversely a valid root input whose fields have their Rust types decodes from its canonical
    encoding exactly when its shard id is at most 32 bytes and its leader at most 256 bytes; within
    those bounds the encoding also respects the 32 KiB limit.  Validation does not impose the two
    bounds, so they are a real side condition of the round trip. *)
Theorem root_input_encode_decode v raw :
  root_typed v -> canonical_cbor v = Ok raw -> (from_canonical_cbor raw = Ok v <-> root_bounded v).
Proof.
  intros Ht Hc. unfold canonical_cbor in Hc. inv_ok Hc. subst. split.
  - by intros (_ & (_ & ? & _) & _)%from_canonical_cbor_inv.
  - intros. by apply (from_canonical_cbor_encode v a).
Qed.

(** Input commitments bind: two decoded root inputs with the same commitment are the same
    value, or their canonical encodings are an explicit SHA-256 collision. *)
Theorem input_commitment_binding raw1 raw2 v1 v2 h :
  from_canonical_cbor raw1 = Ok v1 -> from_canonical_cbor raw2 = Ok v2 ->
  input_commitment v1 = Ok h -> input_commitment v2 = Ok h ->
  v1 = v2 \/ (raw1 <> raw2 /\ sha256 raw1 = sha256 raw2).
Proof.
  intros H1 H2 Hh1 Hh2.
  pose proof (from_canonical_cbor_inv _ _ H1) as (E1 & _ & c1 & Hc1).
  pose proof (from_canonical_cbor_inv _ _ H2) as (E2 & _ & c2 & Hc2).
  unfold input_commitment, canonical_cbor in *. rewrite Hc1 in Hh1. rewrite Hc2 in Hh2.
  simpl in *. destruct (decide (raw1 = raw2)) as [->|]; [left | right]; [|split; [done|]]; congruence.
Qed.
End root_theorems.

(** ** Epoch transitions *)

(** The reference encoder of the acknowledgement and of the transition body. *)
Definition encode_ack (t : EpochTransition) : bytes :=
  array 8 ++ text ACK_DOMAIN ++ uint 2 ++ byte_string (et_frozen_id t) ++
  byte_string (et_commit_id t) ++ byte_string (et_frozen_parent t) ++
  byte_string (et_frozen_parent t) ++ byte_string (et_successor_tr t) ++ uint (et_evm_round t).

Definition encode_epoch_transition (t : EpochTransition) : bytes :=
  array 13 ++ text TRANSITION_DOMAIN ++ uint 3 ++ uint (et_old_root_epoch t) ++
  uint (et_new_root_epoch t) ++ uint (et_old_shard_epoch t) ++ uint (et_new_shard_epoch t) ++
  byte_string (et_old_active_conf_hash t) ++ byte_string (et_new_active_conf_hash t) ++
  uint (et_supersession_span t) ++ byte_string (et_supersession_commitment t) ++
  byte_string (et_body_id t) ++ byte_string (et_genesis_id t) ++ byte_string (encode_ack t).

Definition transition_typed (t : EpochTransition) : Prop :=
  is_u64 (et_old_root_epoch t) /\ is_u64 (et_new_root_epoch t) /\ is_u64 (et_old_shard_epoch t) /\
  is_u64 (et_new_shard_epoch t) /\ is_word (et_old_active_conf_hash t) /\
  is_word (et_new_active_conf_hash t) /\ is_u64 (et_supersession_span t) /\
  is_word (et_supersession_commitment t) /\ is_word (et_body_id t) /\ is_word (et_genesis_id t) /\
  is_word (et_frozen_id t) /\ is_word (et_commit_id t) /\ is_word (et_frozen_parent t) /\
  is_word (et_successor_tr t) /\ is_u64 (et_evm_round t).

(** What an accepted transition satisfies: the root epoch moves one step, or two by supersession,
    and the shard assignment either stays as it is (one step only) or moves with the root epoch to
    another configuration; no identity is zero and the round is positive. *)
Record transition_valid (t : EpochTransition) : Prop := {
  tv_root_step : let delta := et_new_root_epoch t - et_old_root_epoch t in delta = 1 \/ delta = 2;
  tv_shard_step :
    (et_new_shard_epoch t = et_old_shard_epoch t /\
     et_new_active_conf_hash t = et_old_active_conf_hash t /\
     et_new_root_epoch t = et_old_root_epoch t + 1) \/
    (et_new_shard_epoch t - et_old_shard_epoch t = et_new_root_epoch t - et_old_root_epoch t /\
     et_new_active_conf_hash t <> et_old_active_conf_hash t);
  tv_span : et_supersession_span t =
    (if et_new_root_epoch t - et_old_root_epoch t =? 1 then 0
     else et_new_root_epoch t - et_old_root_epoch t);
  tv_commitment : et_supersession_commitment t = ZERO32 <-> et_supersession_span t = 0;
  tv_nonzero : Forall (fun w => w <> ZERO32)
    [et_old_active_conf_hash t; et_new_active_conf_hash t; et_body_id t; et_genesis_id t;
     et_frozen_id t; et_commit_id t; et_frozen_parent t; et_successor_tr t];
  tv_round : et_evm_round t <> 0 }.

Lemma checked_sub_some a b c : checked_sub a b = Some c <-> c = a - b /\ b <= a.
Proof. unfold checked_sub. case_match; split; intros; simplify_eq; try split; try lia; f_equal; lia. Qed.

Lemma checked_sub_none a b : checked_sub a b = None <-> a < b.
Proof. unfold checked_sub. case_match; split; intros; simplify_eq; try done; lia. Qed.

(** The span rules, with the bound on the root-epoch step, as the four clauses of [transition_valid]. *)
Lemma span_ok_spec t :
  (match checked_sub (et_new_root_epoch t) (et_old_root_epoch t) with
   | Some delta => MAX_SUPERSESSION_SPAN <? delta | None => false end = false /\ span_ok t = true) <->
  (let delta := et_new_root_epoch t - et_old_root_epoch t in delta = 1 \/ delta = 2) /\
  ((et_new_shard_epoch t = et_old_shard_epoch t /\
    et_new_active_conf_hash t = et_old_active_conf_hash t /\
    et_new_root_epoch t = et_old_root_epoch t + 1) \/
   (et_new_shard_epoch t - et_old_shard_epoch t = et_new_root_epoch t - et_old_root_epoch t /\
    et_new_active_conf_hash t <> et_old_active_conf_hash t)) /\
  et_supersession_span t = (if et_new_root_epoch t - et_old_root_epoch t =? 1 then 0
                            else et_new_root_epoch t - et_old_root_epoch t) /\
  (et_supersession_commitment t = ZERO32 <-> et_supersession_span t = 0).
Proof.
  cbv zeta. unfold span_ok, MAX_SUPERSESSION_SPAN.
  destruct (checked_sub (et_new_root_epoch t) _) as [delta|] eqn:Hr.
  2:{ apply checked_sub_none in Hr. split; [by intros [_ ?] | intros ([?|?] & _); lia]. }
  apply checked_sub_some in Hr as [-> Hle].
  set (delta := et_new_root_epoch t - et_old_root_epoch t).
  destruct (bool_decide_reflect (et_new_active_conf_hash t = et_old_active_conf_hash t)) as [He|He];
  destruct (Z.eqb_spec (et_new_shard_epoch t) (et_old_shard_epoch t)) as [Hs|Hs];
  destruct (Z.eqb_spec delta 1) as [Hd|Hd]; destruct (Z.ltb_spec 1 delta); simpl;
  rewrite ?andb_true_iff, ?negb_true_iff, ?bool_decide_eq_true, ?bool_decide_eq_false,
    ?checked_sub_some, ?Z.eqb_eq, ?Z.ltb_ge; intuition (try congruence; lia).
Qed.

Lemma check_transition_spec t successor_parent t' :
  check_transition t successor_parent = Ok t' <->
  t' = t /\ successor_parent = et_frozen_parent t /\ transition_valid t.
Proof.
  unfold check_transition. pose proof (span_ok_spec t) as Hspan.
  destruct (match checked_sub _ _ with Some _ => _ | None => _ end) eqn:Hb.
  { split; [done|]. intros (-> & -> & [? ? ? ? _ _]).
    assert (true = false /\ span_ok t = true) as [? _] by (apply Hspan; done). done. }
  destruct (negb (span_ok t) || _ || _ || _ || _ || _) eqn:Hc.
  - split; [done|]. intros (-> & -> & [? ? ? ? Hz Hr]).
    assert (false = false /\ span_ok t = true) as [_ Hok] by (apply Hspan; done).
    rewrite Hok in Hc. rewrite !Forall_cons in Hz. destruct_and!.
    rewrite !orb_true_iff, !negb_true_iff, !bool_decide_eq_true, bool_decide_eq_false in Hc.
    rewrite !elem_of_cons, elem_of_nil, Z.eqb_eq in Hc. clear Hspan Hb. intuition congruence.
  - rewrite !orb_false_iff, !bool_decide_eq_false, !negb_false_iff, bool_decide_eq_true in Hc.
    rewrite !elem_of_cons, elem_of_nil, Z.eqb_neq in Hc. destruct_and!.
    destruct (proj1 Hspan ltac:(done)) as (? & ? & ? & ?). split; [|by intros (-> & _)]. intros [= <-]. split_and!; [done..|].
    split; try done. clear Hspan Hb. rewrite !Forall_cons, Forall_nil. intuition congruence.
Qed.

Definition ack_of (t : EpochTransition) : bytes * bytes * bytes * bytes * bytes * Z :=
  (et_frozen_id t, et_commit_id t, et_frozen_parent t, et_frozen_parent t, et_successor_tr t,
   et_evm_round t).

(** The acknowledgement reader accepts exactly the encodings with its own domain and version. *)
Lemma decode_ack_sound raw frozen_id commit_id frozen_parent successor_parent successor_tr round :
  zlen raw <= slice_max ->
  decode_with decode_ack raw
    = Ok (frozen_id, commit_id, frozen_parent, successor_parent, successor_tr, round) ->
  raw = array 8 ++ text ACK_DOMAIN ++ uint 2 ++ byte_string frozen_id ++ byte_string commit_id ++
    byte_string frozen_parent ++ byte_string successor_parent ++ byte_string successor_tr ++ uint round
  /\ is_word frozen_id /\ is_word commit_id /\ is_word frozen_parent /\ is_word successor_tr /\
  is_u64 round.
Proof.
  intros Hlen Hd. unfold decode_with in Hd. inv_ok Hd. subst. simplify_eq.
  pose proof (at_rest_new _ Hlen) as Hat. unfold decode_ack in Hok. codec_inv Hat Hok.
  inv_ok Hok. subst. destruct a, (finish_ok _ _ _ Hat Hok0) as [-> _]. simplify_eq.
  by rewrite app_nil_r.
Qed.

Lemma decode_ack_complete t :
  transition_typed t -> zlen (encode_ack t) <= slice_max ->
  decode_with decode_ack (encode_ack t) = Ok (ack_of t).
Proof.
  intros Ht Hlen. unfold transition_typed in Ht. destruct_and!.
  pose proof (at_rest_new _ Hlen) as Hat. unfold decode_with, decode_ack.
  unfold encode_ack in Hat at 2. rewrite <- (app_nil_r (uint (et_evm_round t))) in Hat.
  codec_run Hat side. rewrite (sbind_ok _ _ _ _ _ (finish_complete _ Hat)). done.
Qed.

Lemma encode_epoch_transition_length t :
  transition_typed t -> zlen (encode_ack t) <= 300 /\ zlen (encode_epoch_transition t) <= 1000.
Proof.
  intros Ht. unfold transition_typed in Ht. destruct_and!.
  assert (zlen ACK_DOMAIN = 19 /\ zlen TRANSITION_DOMAIN = 30) as [? ?] by done.
  assert (zlen (encode_ack t) <= 300) by (unfold encode_ack; bound_sizes; words_32; lia).
  split; [done|]. unfold encode_epoch_transition. bound_sizes. words_32. lia.
Qed.

Lemma decode_transition_body_sound raw t :
  zlen raw <= slice_max -> decode_with decode_transition_body raw = Ok t ->
  raw = encode_epoch_transition t /\ transition_typed t /\ transition_valid t.
Proof.
  intros Hlen Hd. unfold decode_with in Hd. inv_ok Hd. subst.
  pose proof (at_rest_new _ Hlen) as Hat. unfold decode_transition_body in Hok. codec_inv Hat Hok.
  apply sbind_ok_inv in Hok as ([] & ? & Hf & Hok).
  destruct (finish_ok _ _ _ Hat Hf) as [-> ->]. rewrite app_nil_r in *.
  inv_ok Hok. subst. apply check_transition_spec in Hok1 as (-> & -> & Hvalid).
  apply decode_ack_sound in Hok0 as (-> & ?).
  - simplify_eq. split; [done|]. split; [|done]. destruct_and!. by split_and!.
  - simplify_eq. clear -Hlen. unfold zlen in *. rewrite !length_app in Hlen.
    unfold byte_string in Hlen. rewrite !length_app in Hlen. lia.
Qed.

Lemma decode_transition_body_complete t :
  transition_typed t -> transition_valid t ->
  decode_with decode_transition_body (encode_epoch_transition t) = Ok t.
Proof.
  intros Ht Hvalid. destruct (encode_epoch_transition_length t Ht) as [Hl1 Hl2].
  assert (Hlen : zlen (encode_epoch_transition t) <= slice_max) by (unfold slice_max; lia).
  pose proof (decode_ack_complete t Ht ltac:(unfold slice_max; lia)) as Hack.
  pose proof (at_rest_new _ Hlen) as Hat. 
  unfold decode_with at 1, decode_transition_body. unfold encode_epoch_transition in Hat at 2.
  rewrite <- (app_nil_r (byte_string (encode_ack t))) in Hat.
  unfold transition_typed in Ht. destruct_and!. codec_run Hat side.
  rewrite (sbind_ok _ _ _ _ _ (finish_complete _ Hat)). unfold sbind, lift.
  pose proof (proj2 (check_transition_spec t _ _) (conj eq_refl (conj eq_refl Hvalid))) as Hcheck.
  rewrite Hack. destruct t; simpl in *. by rewrite Hcheck.
Qed.

(** The epoch-transition decoder accepts exactly the canonical bodies of valid transitions: the
    bytes determine the transition, the transition the bytes, and every accepted transition moves
    the root epoch by one or (superseding) two steps, never leaves the shard assignment behind, and
    carries non-zero identities. *)
Theorem decode_epoch_transition_spec raw t :
  decode_epoch_transition raw = Ok t <->
  raw = encode_epoch_transition t /\ transition_typed t /\ transition_valid t.
Proof.
  unfold decode_epoch_transition, MAX_EPOCH_TRANSITION_BYTES. split.
  - intros Hd. inv_ok Hd. apply Z.ltb_ge in Heqb.
    apply decode_transition_body_sound; [unfold slice_max; lia | done].
  - intros (-> & Ht & Hv). destruct (encode_epoch_transition_length t Ht).
    rewrite (proj2 (Z.ltb_ge _ _)) by lia. by apply decode_transition_body_complete.
Qed.

(** ** Envelopes *)

Section envelope_theorems.
Context `{Crypto}.

Lemma zip_all_eq (l1 l2 : list bytes) :
  length l1 = length l2 ->
  existsb (fun '(a, b) => negb (bool_decide (a = b))) (zip l1 l2) = false -> l1 = l2.
Proof.
  revert l2. induction l1 as [|a l1 IH]; intros [|b l2]; simpl; try done.
  intros [= Hl] [Hab%negb_false_iff%bool_decide_eq_true Hr]%orb_false_iff. f_equal; auto.
Qed.

Lemma check_hash_ok v update records :
  check_update v update = Ok () -> check_records v records = Ok () ->
  sha256 update = ri_b1_update_hash v /\ sha256 records = ri_root_records_hash v.
Proof.
  unfold check_update, check_records. intros H1 H2. inv_ok H1. inv_ok H2.
  by apply negb_false_iff, bool_decide_eq_true in Heqb, Heqb0.
Qed.

(** An accepted build envelope carries the canonical bytes of a valid root input together with
    exactly its transitions and preimages of both companion hashes it commits to; nothing in the
    envelope besides the pair binding is left unbound by the root input. *)
Theorem build_envelope_bound e v :
  build_decode_root_input e = Ok v ->
  canonical_cbor v = Ok (sb_root_input e) /\ sb_transitions e = ri_transitions v /\
  sha256 (sb_b1_update e) = ri_b1_update_hash v /\ sha256 (sb_records e) = ri_root_records_hash v.
Proof.
  unfold build_decode_root_input. intros Hd. inv_ok Hd. subst.
  apply from_canonical_cbor_inv in Hok as (-> & _ & c & Hc).
  apply orb_false_iff in Heqb0 as [Hlen%negb_false_iff%Z.eqb_eq Hz].
  destruct a0, a1. apply (check_hash_ok v _ _ Hok0) in Hok1 as [? ?].
  unfold canonical_cbor. rewrite Hc. split_and!; try done.
  symmetry. apply zip_all_eq; [unfold zlen in Hlen; lia | done].
Qed.
End envelope_theorems.

(** ** Samples *)

Definition word_of (n : Z) : bytes := be_bytes 32 n.

Lemma word_of_word n : is_word (word_of n).
Proof. apply be_bytes_length. Qed.

Definition sample_technical : TechnicalRecordV2 := {|
  tr_round := 7; tr_epoch := 0; tr_leader := ascii "node-1";
  tr_stat_hash := word_of 11; tr_fee_hash := word_of 12 |}.

(** A bootstrap input with the given shard id. *)
Definition sample_root (shard_id : bytes) : RootInputV2 := {|
  ri_version := 2; ri_network_id := 3; ri_partition_id := 8; ri_shard_id := shard_id;
  ri_authorized_round := 7; ri_certified_epoch := 0; ri_authorized_epoch := 0;
  ri_parent_hash := word_of 21;
  ri_origin := {|
    ro_network_id := 3; ro_root_round := 5; ro_root_epoch := 1; ro_reference_time := 1700000000;
    ro_tree_root := word_of 31; ro_input_record_version := 1;
    ro_input_record := {| ir_round := 0; ir_epoch := 0; ir_previous_hash := None;
      ir_state_hash := None; ir_timestamp := 0; ir_block_hash := None |};
    ro_tr_hash := technical_record_hash (H := toy_crypto) sample_technical;
    ro_shard_conf_hash := word_of 33 |};
  ri_technical := sample_technical; ri_transitions := [];
  ri_b1_update_hash := toy_hash (ascii "update"); ri_root_records_hash := toy_hash (ascii "records") |}.

Definition sample_encoding (shard_id : bytes) : bytes := encode_root_input (sample_root shard_id).

Definition sample_envelope : SealBuildInput := {|
  sb_root_input := sample_encoding [z2b 1]; sb_transitions := []; sb_b1_update := ascii "update";
  sb_records := ascii "records"; sb_pair_binding := [] |}.

(** A long shard id: valid, but beyond what the decoder admits. *)
Definition long_shard : bytes := repeat (z2b 9) 33.

Lemma sample_root_typed shard_id : root_typed (sample_root shard_id).
Proof.
  unfold root_typed, origin_typed, technical_typed, input_record_typed. simpl.
  split_and!; first [apply word_of_word | apply toy_hash_word | ulia | done].
Qed.

Lemma root_input_decode_encode_witness :
  canonical_cbor (H := toy_crypto) (sample_root [z2b 1]) = Ok (sample_encoding [z2b 1]).
Proof. apply root_input_decode_encode. vm_compute. reflexivity. Defined.

Lemma root_input_encode_decode_witness :
  (from_canonical_cbor (H := toy_crypto) (sample_encoding [z2b 1]) = Ok (sample_root [z2b 1]) <->
     root_bounded (sample_root [z2b 1])) /\
  (from_canonical_cbor (H := toy_crypto) (sample_encoding long_shard) = Ok (sample_root long_shard) <->
     root_bounded (sample_root long_shard)) /\
  ~ root_bounded (sample_root long_shard).
Proof.
  split; [|split].
  - apply root_input_encode_decode; [apply sample_root_typed | vm_compute; reflexivity].
  - apply root_input_encode_decode; [apply sample_root_typed | vm_compute; reflexivity].
  - intros [Hs _]. vm_compute in Hs. by apply Hs.
Defined.

Lemma input_commitment_binding_witness :
  sample_root [z2b 1] = sample_root [z2b 1] \/
  (sample_encoding [z2b 1] <> sample_encoding [z2b 1] /\
   toy_hash (sample_encoding [z2b 1]) = toy_hash (sample_encoding [z2b 1])).
Proof.
  apply (input_commitment_binding (H := toy_crypto) (sample_encoding [z2b 1]) (sample_encoding [z2b 1])
    (sample_root [z2b 1]) (sample_root [z2b 1]) (toy_hash (sample_encoding [z2b 1])));
  vm_compute; reflexivity.
Defined.

Lemma build_envelope_bound_witness :
  canonical_cbor (H := toy_crypto) (sample_root [z2b 1]) = Ok (sb_root_input sample_envelope) /\
  sb_transitions sample_envelope = ri_transitions (sample_root [z2b 1]) /\
  toy_hash (sb_b1_update sample_envelope) = ri_b1_update_hash (sample_root [z2b 1]) /\
  toy_hash (sb_records sample_envelope) = ri_root_records_hash (sample_root [z2b 1]).
Proof. apply (build_envelope_bound (H := toy_crypto)). vm_compute. reflexivity. Defined.
