(* ===== verification/RecordImport.v ===== *)
(** The mandatory root-record import of a block: [crates/unicity/execution/src/records.rs].

    [admit_import] admits the companion bytes in the staged order of the module documentation: byte
    cap, scan charge, structural walk, entry charge, decoding walk, hash.  The walk keeps the
    source's token counter and its optional collecting vector.  The theorems: admission accepts
    exactly the canonical encodings of well-formed imports, at the documented price, and the token
    bound never decides. *)
From S2P Require Import Prelude CborCodec Crypto Errors.

Definition IMPORT_DOMAIN : bytes := ascii "UNICITY_P85_RECORD_IMPORT".
Definition MAX_IMPORT_BYTES : Z := 16384.
Definition MAX_IMPORT_ENTRIES : Z := 32.
Definition MAX_IMPORT_TOKENS : Z := 512.
Definition SCAN_BASE_GAS : Z := 2000.
Definition SCAN_BYTE_GAS : Z := 16.
Definition ENTRY_GAS : Z := 1000.
Definition MAX_ADMISSION_GAS : Z :=
  SCAN_BASE_GAS + SCAN_BYTE_GAS * MAX_IMPORT_BYTES + ENTRY_GAS * MAX_IMPORT_ENTRIES.
Definition ENTRY_TOKENS : Z := 9.

Record RecordEntry := {
  re_index : Z;
  re_record_id : bytes;
  re_predecessor : bytes;
  re_kind : Z;
  re_progress : Z;
  re_uc_time : Z;
  re_data : bytes;
  re_closed_epoch : Z }.

Record RecordImport := {
  rec_progress : Z;
  rec_uc_time : Z;
  rec_target_count : Z;
  rec_target_tip : bytes;
  rec_entries : list RecordEntry }.

Record AdmittedImport := { ai_import : RecordImport; ai_gas : Z }.

Definition payload_width (kind : Z) : option Z :=
  if kind =? 1 then Some 32
  else if kind =? 2 then Some 128
  else if kind =? 3 then Some 288
  else if kind =? 4 then Some 192
  else if kind =? 5 then Some 96
  else None.

Definition scan_gas (len : Z) : option Z :=
  match checked_mul SCAN_BYTE_GAS len with
  | Some bytes => checked_add SCAN_BASE_GAS bytes
  | None => None
  end.

Record Header := {
  hd_progress : Z;
  hd_uc_time : Z;
  hd_target_count : Z;
  hd_target_tip : bytes;
  hd_entries : Z }.

(** The closure [token]: counts and bounds. *)
Definition token (tokens count : Z) : result ImportError Z :=
  let? tokens := ok_or (checked_add tokens count) ImportE.Overflow in
  if MAX_IMPORT_TOKENS <? tokens then Err ImportE.TooManyTokens else Ok tokens.

(** A primitive of the decoder, its error wrapped as an encoding error. *)
Definition dec {A} (p : reader Decoder CanonicalCborError A) : reader Decoder ImportError A :=
  via ImportE.Encoding p.

(** The body of the entry loop. *)
Definition walk_entry : reader Decoder ImportError RecordEntry :=
  let* arity := dec read_array in
  if negb (arity =? 8) then fail (ImportE.Encoding (WrongArity 8 arity)) else
  let* index := dec read_uint in
  let* record_id := dec read_word in
  let* predecessor := dec read_word in
  let* kind := dec read_uint in
  let* width := lift (ok_or (payload_width kind) (ImportE.UnknownKind kind)) in
  let* progress := dec read_uint in
  let* uc_time := dec read_uint in
  let* data := dec (read_bounded_bytes "record payload" width) in
  if negb (zlen data =? width) then fail (ImportE.PayloadWidth (kind mod 256) (zlen data)) else
  let* closed_epoch := dec read_uint in
  if negb (kind =? 4) && negb (closed_epoch =? 0) then fail ImportE.ClosedEpochOnNonClosure else
  sret {| re_index := index; re_record_id := record_id; re_predecessor := predecessor;
    re_kind := kind mod 256; re_progress := progress; re_uc_time := uc_time; re_data := data;
    re_closed_epoch := closed_epoch |}.

(** The entry loop; [collect] is the vector that is pushed to when it is present. *)
Fixpoint walk_entries (n : nat) (tokens : Z) (collect : option (list RecordEntry))
    : reader Decoder ImportError (option (list RecordEntry)) :=
  match n with
  | O => sret collect
  | S n =>
      let* tokens := lift (token tokens ENTRY_TOKENS) in
      let* entry := walk_entry in
      walk_entries n tokens (option_map (fun out => out ++ [entry]) collect)
  end.

Definition walk_header (collect : option (list RecordEntry))
    : reader Decoder ImportError (Header * option (list RecordEntry)) :=
  let* arity := dec read_array in
  let* tokens := lift (token 0 1) in
  if negb (arity =? 6) then fail (ImportE.Encoding (WrongArity 6 arity)) else
  let* tokens := lift (token tokens 1) in
  let* domain := dec read_text in
  if negb (bool_decide (domain = IMPORT_DOMAIN)) then fail ImportE.Domain else
  let* tokens := lift (token tokens 4) in
  let* progress := dec read_uint in
  let* uc_time := dec read_uint in
  let* target_count := dec read_uint in
  let* target_tip := dec read_word in
  if (target_count =? 0) && negb (bool_decide (target_tip = ZERO32))
  then fail ImportE.ZeroTargetTip else
  let* tokens := lift (token tokens 1) in
  let* entries := dec read_array in
  if MAX_IMPORT_ENTRIES <? entries then fail (ImportE.TooManyEntries entries) else
  let* collected := walk_entries (Z.to_nat entries) tokens collect in
  let* _ := dec finish in
  sret ({| hd_progress := progress; hd_uc_time := uc_time; hd_target_count := target_count;
    hd_target_tip := target_tip; hd_entries := entries |}, collected).

Definition walk (raw : bytes) (collect : option (list RecordEntry))
    : result ImportError (Header * option (list RecordEntry)) :=
  let? (out, _) := walk_header collect (new_decoder raw) in Ok out.

Section hashed.
Context `{Crypto}.

Definition admit_import (raw committed_hash : bytes) (budget : Z) : result ImportError AdmittedImport :=
  if MAX_IMPORT_BYTES <? zlen raw then Err (ImportE.TooLarge (zlen raw)) else
  let? scan := ok_or (scan_gas (zlen raw)) ImportE.Overflow in
  if budget <? scan then Err ImportE.ScanBudget else
  let? (header, _) := walk raw None in
  let? entries_gas := ok_or (checked_mul ENTRY_GAS (hd_entries header)) ImportE.Overflow in
  if budget - scan <? entries_gas then Err ImportE.EntryBudget else
  let? (decoded, entries) := walk raw (Some []) in
  if negb (bool_decide (sha256 raw = committed_hash)) then Err ImportE.HashMismatch else
  Ok {| ai_import := {|
          rec_progress := hd_progress decoded; rec_uc_time := hd_uc_time decoded;
          rec_target_count := hd_target_count decoded; rec_target_tip := hd_target_tip decoded;
          rec_entries := default [] entries |};
        ai_gas := scan + entries_gas |}.
End hashed.

(** ** The encoder *)

Definition entry_to_bytes (e : RecordEntry) : bytes :=
  array 8 ++ uint (re_index e) ++ byte_string (re_record_id e) ++ byte_string (re_predecessor e) ++
  uint (re_kind e) ++ uint (re_progress e) ++ uint (re_uc_time e) ++ byte_string (re_data e) ++
  uint (re_closed_epoch e).

Definition import_to_bytes (i : RecordImport) : bytes :=
  array 6 ++ text IMPORT_DOMAIN ++ uint (rec_progress i) ++ uint (rec_uc_time i) ++
  uint (rec_target_count i) ++ byte_string (rec_target_tip i) ++ array (zlen (rec_entries i)) ++
  concat (map entry_to_bytes (rec_entries i)).

(** ** Well-formed imports *)

Definition entry_ok (e : RecordEntry) : Prop :=
  is_u64 (re_index e) /\ is_word (re_record_id e) /\ is_word (re_predecessor e) /\
  is_u64 (re_progress e) /\ is_u64 (re_uc_time e) /\ is_u64 (re_closed_epoch e) /\
  payload_width (re_kind e) = Some (zlen (re_data e)) /\
  (re_kind e <> 4 -> re_closed_epoch e = 0).

Definition import_ok (i : RecordImport) : Prop :=
  is_u64 (rec_progress i) /\ is_u64 (rec_uc_time i) /\ is_u64 (rec_target_count i) /\
  is_word (rec_target_tip i) /\ (rec_target_count i = 0 -> rec_target_tip i = ZERO32) /\
  zlen (rec_entries i) <= MAX_IMPORT_ENTRIES /\ Forall entry_ok (rec_entries i).

Definition admission_gas (i : RecordImport) : Z :=
  SCAN_BASE_GAS + SCAN_BYTE_GAS * zlen (import_to_bytes i) + ENTRY_GAS * zlen (rec_entries i).

(** ** The codec of one entry *)

Lemma payload_width_some kind w : payload_width kind = Some w -> 1 <= kind <= 5 /\ 0 <= w <= 288.
Proof. unfold payload_width. intros. repeat case_match; simplify_eq; lia. Qed.

#[global] Instance dec_codec {A} (p : reader Decoder CanonicalCborError A) enc ok :
  Codec p enc ok -> Codec (dec p) enc ok.
Proof. intros. apply via_codec. Qed.

#[global] Instance entry_codec : Codec walk_entry entry_to_bytes entry_ok.
Proof.
  split.
  - intros e d rest He Hat. unfold entry_ok in He. destruct He as (? & ? & ? & ? & ? & ? & Hw & Hc).
    destruct (payload_width_some _ _ Hw) as [Hk _].
    unfold walk_entry. unfold entry_to_bytes in Hat. codec_run Hat side.
    unfold sbind at 1, lift, ok_or. rewrite Hw. codec_run Hat side.
    rewrite Z.eqb_refl. simpl negb. cbv iota. codec_run Hat side.
    replace (negb (re_kind e =? 4) && negb (re_closed_epoch e =? 0)) with false.
    + rewrite Z.mod_small by lia. destruct e. eexists. split; [done|]. split; [done | congruence].
    + destruct (Z.eqb_spec (re_kind e) 4); [done|]. by rewrite Hc.
  - intros e d d' rest Hat H. unfold walk_entry in H. codec_inv Hat H.
    unfold sret in H. injection H as <- <-. apply ok_or_inv in Hok.
    destruct (payload_width_some _ _ Hok) as [Hk _].
    assert (Hm : v2 mod 256 = v2) by (apply Z.mod_small; lia).
    unfold entry_to_bytes, entry_ok. cbn [re_kind re_data re_closed_epoch]. rewrite Hm.
    eexists. rewrite <- !app_assoc. subst. split; [reflexivity|]. split; [done|].
    split; [congruence|]. split_and!; try done. intros Hne.
    apply andb_false_iff in Heqb as [Hb|Hb]; apply negb_false_iff, Z.eqb_eq in Hb; [done|lia].
Qed.

(** ** The walk *)

Lemma token_ok tokens count : tokens + count <= MAX_IMPORT_TOKENS -> token tokens count = Ok (tokens + count).
Proof.
  intros Hle. unfold token, checked_add, MAX_IMPORT_TOKENS in *.
  rewrite (proj2 (Z.leb_le _ _)) by ulia. simpl. by rewrite (proj2 (Z.ltb_ge _ _)).
Qed.

Lemma token_inv tokens count t : token tokens count = Ok t -> t = tokens + count.
Proof.
  unfold token, checked_add. intros Ht. inv_ok Ht. subst. apply ok_or_inv in Hok. by case_match; simplify_eq.
Qed.

(** Seven envelope tokens and nine per entry stay within the bound for any admissible count. *)
Lemma walk_entries_spec n tokens collect :
  tokens + ENTRY_TOKENS * Z.of_nat n <= MAX_IMPORT_TOKENS ->
  forall d, walk_entries n tokens collect d =
    (let* es := repeat_reader n walk_entry in sret (option_map (fun out => out ++ es) collect)) d.
Proof.
  unfold ENTRY_TOKENS. revert tokens collect. induction n as [|n IH]; intros tokens collect Hle d.
  - simpl. unfold sret, sbind. destruct collect; simpl; by rewrite ?app_nil_r.
  - simpl. unfold sbind at 1, lift. rewrite token_ok by (unfold ENTRY_TOKENS; lia).
    unfold sbind. destruct (walk_entry d) as [[e d']|err]; [|done].
    rewrite IH by (unfold ENTRY_TOKENS; lia). unfold sbind. destruct (repeat_reader n walk_entry d') as [[es d'']|]; [|done].
    unfold sret. destruct collect; simpl; by rewrite <- ?app_assoc.
Qed.

Definition header_of (i : RecordImport) : Header := {|
  hd_progress := rec_progress i; hd_uc_time := rec_uc_time i; hd_target_count := rec_target_count i;
  hd_target_tip := rec_target_tip i; hd_entries := zlen (rec_entries i) |}.

Lemma header_of_import i :
  {| rec_progress := hd_progress (header_of i); rec_uc_time := hd_uc_time (header_of i);
     rec_target_count := hd_target_count (header_of i); rec_target_tip := hd_target_tip (header_of i);
     rec_entries := rec_entries i |} = i.
Proof. by destruct i. Qed.

Lemma walk_sound raw collect h out :
  zlen raw <= slice_max -> walk raw collect = Ok (h, out) ->
  exists i, raw = import_to_bytes i /\ import_ok i /\ h = header_of i /\
    out = option_map (fun out => out ++ rec_entries i) collect.
Proof.
  intros Hlen H. unfold walk in H. inv_ok H. subst.
  pose proof (at_rest_new _ Hlen) as Hat. unfold walk_header in Hok.
  codec_inv Hat Hok.
  repeat match goal with Ht : token _ _ = Ok _ |- _ => apply token_inv in Ht end. subst.
  apply Z.ltb_ge in Heqb0. unfold MAX_IMPORT_ENTRIES in Heqb0.
  apply sbind_ok_inv in Hok as (c & d7 & Hw & Hok).
  rewrite walk_entries_spec in Hw by (unfold ENTRY_TOKENS, MAX_IMPORT_TOKENS; ulia).
  pose proof (repeat_codec walk_entry entry_to_bytes entry_ok (Z.to_nat v3) _).
  codec_bwd Hat Hw. unfold sret in Hw. injection Hw as <- <-. destruct Hv6 as [Hnum Hes].
  apply sbind_ok_inv in Hok as ([] & d9 & Hf%map_err_ok_inv & [= <- <- <-]).
  destruct (finish_ok _ _ _ Hat Hf) as [-> _]. rewrite app_nil_r in *.
  assert (v3 = zlen v4) as -> by ulia.
  exists {| rec_progress := v; rec_uc_time := v0; rec_target_count := v1; rec_target_tip := v2;
            rec_entries := v4 |}.
  split; [by subst|]. split; [|done]. unfold import_ok. simpl. split_and!; try done.
  intros ->. simpl in Heqb. by apply negb_false_iff, bool_decide_eq_true in Heqb.
Qed.

Ltac run_tokens Hat :=
  repeat first
    [ progress codec_run Hat side
    | erewrite sbind_lift_ok by (apply token_ok; vm_compute; discriminate) ].

Lemma walk_complete i collect :
  import_ok i -> zlen (import_to_bytes i) <= slice_max ->
  walk (import_to_bytes i) collect =
    Ok (header_of i, option_map (fun out => out ++ rec_entries i) collect).
Proof.
  intros (? & ? & ? & ? & Htip & Hn & Hes) Hlen. pose proof (at_rest_new _ Hlen) as Hat.
  unfold walk, walk_header. unfold import_to_bytes in Hat at 2.
  rewrite <- (app_nil_r (concat _)) in Hat. run_tokens Hat.
  replace ((rec_target_count i =? 0) && negb (bool_decide (rec_target_tip i = ZERO32))) with false.
  2:{ destruct (Z.eqb_spec (rec_target_count i) 0); [|done]. by rewrite bool_decide_true by auto. }
  run_tokens Hat.
  codec_fwd Hat ltac:(unfold MAX_IMPORT_ENTRIES in Hn; ulia).
  rewrite (proj2 (Z.ltb_ge _ _)) by done.
  unfold sbind at 1. rewrite walk_entries_spec
    by (unfold ENTRY_TOKENS, MAX_IMPORT_TOKENS, MAX_IMPORT_ENTRIES in *; ulia).
  pose proof (repeat_codec walk_entry entry_to_bytes entry_ok (Z.to_nat (zlen (rec_entries i))) _).
  codec_fwd Hat ltac:(split; [ulia | done]).
  unfold sret at 1. unfold sbind, dec, via. by rewrite (finish_complete _ Hat).
Qed.

(** The walk never fails by its token counter. *)
Definition counted (e : ImportError) : Prop := e <> ImportE.TooManyTokens /\ e <> ImportE.Overflow.

Lemma walk_entry_errs : errs walk_entry counted.
Proof.
  unfold walk_entry, dec.
  repeat first [ apply errs_bind; [|intros] | apply errs_if | apply errs_via | apply errs_fail
               | apply errs_sret | apply errs_lift ]; try done.
  intros e. by destruct (payload_width _); intros [= <-].
Qed.

Lemma walk_entries_errs n collect :
  7 + ENTRY_TOKENS * Z.of_nat n <= MAX_IMPORT_TOKENS -> errs (walk_entries n 7 collect) counted.
Proof.
  intros Hn s e. rewrite walk_entries_spec by done. revert s e.
  apply errs_bind; [apply errs_repeat, walk_entry_errs | intros; apply errs_sret].
Qed.

Lemma walk_errs raw collect e : walk raw collect = Err e -> counted e.
Proof.
  unfold walk. destruct (walk_header _ _) as [[]|e'] eqn:Hw; [done|]. intros [= <-].
  revert Hw. generalize (new_decoder raw), e'. change (errs (walk_header collect) counted).
  unfold walk_header, dec.
  repeat first [ eapply errs_bind_lift; [vm_compute; reflexivity|] | apply errs_bind; [|intros]
               | apply errs_via | apply errs_fail | apply errs_sret
               | match goal with |- errs (if ?b then _ else _) _ => destruct b eqn:? end ]; try done.
  apply walk_entries_errs. apply Z.ltb_ge in Heqb2.
  unfold ENTRY_TOKENS, MAX_IMPORT_TOKENS, MAX_IMPORT_ENTRIES in *. lia.
Qed.

(** ** Admission *)

Lemma scan_gas_small len :
  0 <= len <= MAX_IMPORT_BYTES -> scan_gas len = Some (SCAN_BASE_GAS + SCAN_BYTE_GAS * len).
Proof.
  unfold scan_gas, checked_mul, checked_add, MAX_IMPORT_BYTES, SCAN_BASE_GAS, SCAN_BYTE_GAS. intros.
  rewrite (proj2 (Z.leb_le _ _)) by ulia. by rewrite (proj2 (Z.leb_le _ _)) by ulia.
Qed.

Lemma entry_gas_small n : 0 <= n <= MAX_IMPORT_ENTRIES -> checked_mul ENTRY_GAS n = Some (ENTRY_GAS * n).
Proof.
  unfold checked_mul, MAX_IMPORT_ENTRIES, ENTRY_GAS. intros. by rewrite (proj2 (Z.leb_le _ _)) by ulia.
Qed.

Section admission.
Context `{Crypto}.

(** C11: admission accepts exactly the canonical companions.  [admit_import] returns an import
    and a price if and only if the bytes are [to_bytes] of that import, the import is well formed
    (at most 32 entries, known kinds with their exact payload widths, closed epochs only on
    closures, zero tip for an empty log), the bytes are within the cap and hash to the committed
    value, and the price is [2000 + 16*C + 1000*N] and fits the budget. *)
Theorem admit_import_spec raw h budget i g :
  admit_import raw h budget = Ok {| ai_import := i; ai_gas := g |} <->
  raw = import_to_bytes i /\ import_ok i /\ zlen raw <= MAX_IMPORT_BYTES /\ h = sha256 raw /\
  g = admission_gas i /\ g <= budget.
Proof.
  unfold admit_import, admission_gas. split.
  - intros Ha. inv_ok Ha. apply Z.ltb_ge in Heqb, Heqb0, Heqb1. subst.
    assert (Hs : zlen raw <= slice_max) by (unfold slice_max, MAX_IMPORT_BYTES in *; lia).
    destruct (walk_sound _ _ _ _ Hs Hok2) as (i1 & -> & Hi1 & -> & ->).
    rewrite (walk_complete i1 None Hi1 Hs) in Hok0. injection Hok0 as <- <-.
    pose proof (zlen_nonneg (import_to_bytes i1)). pose proof (zlen_nonneg (rec_entries i1)).
    pose proof Hi1 as (_ & _ & _ & _ & _ & Hn & _).
    apply ok_or_inv in Hok, Hok1. rewrite scan_gas_small in Hok by lia. cbn [hd_entries header_of] in Hok1.
    rewrite entry_gas_small in Hok1 by lia.
    simplify_eq.
    apply negb_false_iff, bool_decide_eq_true in Heqb2. subst.
    cbn [option_map default app]. rewrite header_of_import. split; [done|]. split; [done|].
    split; [done|]. split; [done|]. split; [lia|]. lia.
  - intros (-> & Hi & Hlen & -> & -> & Hb).
    assert (Hs : zlen (import_to_bytes i) <= slice_max) by (unfold slice_max, MAX_IMPORT_BYTES in *; lia).
    pose proof (zlen_nonneg (import_to_bytes i)). pose proof (zlen_nonneg (rec_entries i)).
    pose proof Hi as (_ & _ & _ & _ & _ & Hn & _).
    rewrite (proj2 (Z.ltb_ge _ _)), scan_gas_small by lia. cbn [ok_or rbind].
    rewrite (proj2 (Z.ltb_ge _ _)) by (unfold ENTRY_GAS in *; lia).
    rewrite !walk_complete by done. cbn [rbind header_of hd_entries]. rewrite entry_gas_small by lia.
    cbn [ok_or rbind].
    rewrite (proj2 (Z.ltb_ge _ _)), bool_decide_true by (done || lia).
    cbn [option_map default app]. by rewrite header_of_import.
Qed.

(** The admission price is bounded by the companion alone: whatever is admitted costs between
    2000 and [MAX_ADMISSION_GAS]; and neither the token bound nor an arithmetic overflow ever decides
    an admission, for any bytes, hash and budget. *)
Theorem admit_import_bounds raw h budget :
  (forall a, admit_import raw h budget = Ok a -> SCAN_BASE_GAS <= ai_gas a <= MAX_ADMISSION_GAS) /\
  admit_import raw h budget <> Err ImportE.TooManyTokens /\
  admit_import raw h budget <> Err ImportE.Overflow.
Proof.
  pose proof (zlen_nonneg raw) as H0. unfold admit_import.
  destruct (Z.ltb_spec MAX_IMPORT_BYTES (zlen raw)); [by split_and!|].
  rewrite scan_gas_small by done. cbn [ok_or rbind]. case_match; [by split_and!|].
  destruct (walk raw None) as [[hd out]|e] eqn:Hw; cbn [rbind].
  2:{ apply walk_errs in Hw as [??]. split; [done|]. split; by intros [= ->]. }
  assert (Hs : zlen raw <= slice_max) by (unfold slice_max, MAX_IMPORT_BYTES in *; lia).
  destruct (walk_sound _ _ _ _ Hs Hw) as (i & -> & Hi & -> & ->).
  pose proof Hi as (_ & _ & _ & _ & _ & Hn & _). pose proof (zlen_nonneg (rec_entries i)).
  cbn [hd_entries header_of]. rewrite entry_gas_small by lia. cbn [ok_or rbind].
  case_match; [by split_and!|]. rewrite walk_complete by done. cbn [rbind].
  case_match; [by split_and!|]. split; [|done]. intros a [= <-]. cbn [ai_gas].
  unfold MAX_ADMISSION_GAS, SCAN_BYTE_GAS, ENTRY_GAS. lia.
Qed.
End admission.
