(* ===== verification/Evm.v ===== *)
(** The execution engine the program calls: [revm]'s database traits and privileged system calls, and
    the ABI encoder of [alloy_sol_types].

    Both are third-party and parameters of the model.  A system call takes the block environment, the
    caller, the destination, the data and the gas limit; its outcome carries what the code reads of
    it and the state the code obtains by committing the call's journal.  The one law the program
    relies on is stated in [EvmLaws]: a call never spends more gas than its limit. *)
From S2P Require Import Prelude.

Class Evm := {
  (** A database, [Database + DatabaseCommit]. *)
  Db : Type;
  (** The configuration and block environment of a call. *)
  Env : Type;
  (** [Context::mainnet()] at the Cancun specification, default block. *)
  mainnet_env : Env;
  (** What an executed call returns: success, gross gas, refund, output, state after commit, and the
      debug text of the result. *)
  CallResult : Type;
  is_success : CallResult -> bool;
  total_gas_spent : CallResult -> Z;
  gas_refunded : CallResult -> Z;
  output : CallResult -> option bytes;
  committed : CallResult -> Db;
  debug : CallResult -> string;
  (** [Database::basic(address)]: the code hash of an existing account. *)
  basic_code_hash : Db -> bytes -> result string (option bytes);
  (** [Database::storage(address, slot)], slots and values as [U256]. *)
  storage : Db -> bytes -> Z -> result string Z;
  (** [MainnetHandler::run_system_call] of a system transaction. *)
  run_system_call : Env -> Db -> bytes -> bytes -> bytes -> Z -> result string CallResult }.

Class EvmLaws `{Evm} : Prop := {
  call_gas_range : forall env db caller to data limit r,
    0 <= limit -> run_system_call env db caller to data limit = Ok r ->
    0 <= total_gas_spent r <= limit }.

(** A concrete engine for evaluating the definitions: storage is an association list of slots, and a
    call is answered by a fixed function of the database, the destination and the data. *)
Record toy_result := {
  toy_success : bool; toy_gas : Z; toy_output : option bytes; toy_committed : list (Z * Z) }.

Definition toy_lookup (db : list (Z * Z)) (slot : Z) : Z :=
  match list_find (fun '(k, _) => k = slot) db with
  | Some (_, (_, v)) => v
  | None => 0
  end.

Definition toy_evm (code_hash : bytes)
    (answer : list (Z * Z) -> bytes -> bytes -> toy_result) : Evm := {|
  Db := list (Z * Z);
  Env := ();
  mainnet_env := ();
  CallResult := toy_result;
  is_success := toy_success;
  total_gas_spent := toy_gas;
  gas_refunded := fun _ => 0;
  output := toy_output;
  committed := toy_committed;
  debug := fun _ => "";
  basic_code_hash := fun _ _ => Ok (Some code_hash);
  storage := fun db _ slot => Ok (toy_lookup db slot);
  run_system_call := fun _ db _ to data limit =>
    let r := answer db to data in
    if (0 <=? toy_gas r) && (toy_gas r <=? limit) then Ok r else Err "out of gas" |}.

#[global] Instance toy_evm_laws code_hash answer : EvmLaws (H := toy_evm code_hash answer).
Proof.
  split. simpl. intros env db caller to data limit r Hl Hr.
  destruct (_ && _) eqn:Hb; [|done]. injection Hr as <-.
  apply andb_true_iff in Hb as [?%Z.leb_le ?%Z.leb_le]. lia.
Qed.
