(* ===== verification/Hook.v ===== *)
(** The mandatory hooks of a block: [crates/unicity/execution/src/hook.rs].

    [run_hooks] reads custody's cursor and the registry's counts, makes at most one
    [applyRootRecords] call, checks that the cursor advanced by exactly the requested amount, and
    then makes the election call when the profile pins one.  The macro [call!] is [hook_call]: it
    threads the database and the spent gas.  The theorem describes a successful run completely:
    which calls were made on which states, and that the gas stays inside the budget. *)
From S2P Require Import Prelude CborCodec Errors Evm.

Definition ZERO20 : bytes := replicate 20 Byte.x00.
Definition SYSTEM_CALLER : bytes := z2b 0xff :: replicate 18 Byte.x00 ++ [z2b 1].
Definition SEAL_REGISTRY : bytes := z2b 0xff :: replicate 18 Byte.x00 ++ [z2b 2].

Definition RECORD_CURSOR : bytes := map z2b [0xca; 0x01; 0xc9; 0x83].
Definition RECORD_COUNT : bytes := map z2b [0x90; 0x04; 0x07; 0xbc].
Definition RECORD_TARGET_COUNT : bytes := map z2b [0x99; 0xa1; 0xd3; 0x76].
Definition APPLY_ROOT_RECORDS : bytes := map z2b [0x1d; 0x2a; 0x00; 0x37].
Definition LIMITS : bytes := map z2b [0x86; 0x0a; 0xef; 0xcf].
Definition ELECT : bytes := map z2b [0x45; 0xb7; 0xff; 0xa0].
Definition MAX_H_RECORDS : Z := 32.
Definition HOOK_READS_GAS : Z := 150000.

Record RecordsHook := {
  custody : bytes;
  h_records : Z;
  record_gas : Z;
  election : bytes;
  elect_gas : Z }.

Definition hook_enabled (h : RecordsHook) : bool := negb (bool_decide (custody h = ZERO20)).
Definition election_enabled (h : RecordsHook) : bool := negb (bool_decide (election h = ZERO20)).

Definition hook_validate (h : RecordsHook) : result HookError () :=
  if negb (election_enabled h) && negb (elect_gas h =? 0)
  then Err (HookE.Profile "the elect gas without an election contract") else
  if election_enabled h && (negb (hook_enabled h) || (elect_gas h =? 0))
  then Err (HookE.Profile "the election hook needs the records hook and a positive elect gas") else
  if negb (hook_enabled h) then
    if (h_records h =? 0) && (record_gas h =? 0) then Ok ()
    else Err (HookE.Profile "hook parameters without a custody contract")
  else
  if (h_records h =? 0) || (MAX_H_RECORDS <? h_records h)
  then Err (HookE.Profile "H_records must be within 1..=32") else
  if record_gas h =? 0
  then Err (HookE.Profile "the per-record hook gas must be positive") else Ok ().

Definition envelope_gas (h : RecordsHook) : result HookError Z :=
  if negb (hook_enabled h) then Ok 0 else
  let? _ := hook_validate h in
  ok_or (records ← checked_mul (h_records h) (record_gas h);
         records ← checked_add records HOOK_READS_GAS;
         checked_add records (elect_gas h))
    (HookE.Profile "hook envelope overflows").

Record HookOutcome := { ho_gas_spent : Z; ho_applied : Z; ho_elected : option Z }.
Definition default_outcome : HookOutcome :=
  {| ho_gas_spent := 0; ho_applied := 0; ho_elected := None |}.

(** The closure [word]: one [uint64] in a 32-byte word. *)
Definition word (what : string) (out : bytes) : result HookError Z :=
  if negb (zlen out =? 32) || existsb (fun b => negb (bool_decide (b = Byte.x00))) (take 24 out)
  then Err (HookE.BadReturn what) else Ok (be_val (drop 24 out)).

Section hooks.
Context `{Evm}.

(** What the macro [call!] threads: the database behind the EVM and the gas spent so far. *)
Record HookState := { hs_db : Db; hs_spent : Z }.
Definition hook_reader := reader HookState ExecutionError.

Definition hook_call (env : Env) (limit : Z) (what : string) (to data : bytes) (commit : bool)
    : hook_reader bytes := fun s =>
  match checked_sub limit (hs_spent s) with
  | Some remaining =>
      if 0 <? remaining then
        let? r := map_err (fun e => ExecE.Hook (HookE.Call what e))
                    (run_system_call env (hs_db s) SYSTEM_CALLER to data remaining) in
        if negb (is_success r) then Err (ExecE.Hook (HookE.Call what (debug r))) else
        let? spent := ok_or (checked_add (hs_spent s) (total_gas_spent r)) (ExecE.Hook HookE.Budget) in
        Ok (default [] (output r),
            {| hs_db := if commit then committed r else hs_db s; hs_spent := spent |})
      else Err (ExecE.Hook HookE.Budget)
  | None => Err (ExecE.Hook HookE.Budget)
  end.

(** A read of one word. *)
Definition hook_read (env : Env) (limit : Z) (what : string) (to data : bytes) : hook_reader Z :=
  let* out := hook_call env limit what to data false in
  lift (map_err ExecE.Hook (word what out)).

Definition apply_data (n : Z) : bytes :=
  APPLY_ROOT_RECORDS ++ replicate 28 Byte.x00 ++ be_bytes 4 (n mod 2 ^ 32).

(** The labelled block ['records]: the number of applied records. *)
Definition run_records (h : RecordsHook) (env : Env) (limit : Z) : hook_reader Z :=
  let* before := hook_read env limit "recordCursor" (custody h) RECORD_CURSOR in
  let* count := hook_read env limit "recordCount" SEAL_REGISTRY RECORD_COUNT in
  let* target := hook_read env limit "recordTargetCount" SEAL_REGISTRY RECORD_TARGET_COUNT in
  if (count <? before) || (target <? count)
  then fail (ExecE.Hook (HookE.Inconsistent before count target)) else
  let available := count - before in
  if available =? 0 then sret 0 else
  let* out := hook_call env limit "limits" (custody h) LIMITS false in
  if negb (zlen out =? 128) then fail (ExecE.Hook (HookE.BadReturn "limits")) else
  let* max_batch := lift (map_err ExecE.Hook (word "limits" (take 32 (drop 96 out)))) in
  if max_batch <? h_records h
  then fail (ExecE.Hook (HookE.HExceedsMaxBatch (h_records h) max_batch)) else
  let n := Z.min available (h_records h) in
  let* _ := hook_call env limit "applyRootRecords" (custody h) (apply_data n) true in
  let* after := hook_read env limit "recordCursor" (custody h) RECORD_CURSOR in
  if negb (after =? before + n) then fail (ExecE.Hook (HookE.CursorMoved before n after)) else
  sret n.

(** The election step, capped by the gas the profile reserved for it. *)
Definition run_election (h : RecordsHook) (env : Env) (origin : bytes) (budget : Z)
    : hook_reader (option Z) := fun s =>
  if election_enabled h then
    let limit := Z.min budget (saturating_add (hs_spent s) (elect_gas h)) in
    (let* out := hook_call env limit "elect" (election h) (ELECT ++ origin) true in
     let* outcome := lift (map_err ExecE.Hook (word "elect" out)) in
     if 3 <? outcome then fail (ExecE.Hook (HookE.BadOutcome outcome)) else
     sret (Some outcome)) s
  else sret None s.

(** On success the outcome and the database the hooks leave behind. *)
Definition run_hooks (db : Db) (h : RecordsHook) (env : Env) (origin : bytes) (budget : Z)
    : result ExecutionError (HookOutcome * Db) :=
  let? _ := map_err ExecE.Hook (hook_validate h) in
  if negb (hook_enabled h) then Ok (default_outcome, db) else
  let? (applied, s) := run_records h env budget {| hs_db := db; hs_spent := 0 |} in
  let? (elected, s) := run_election h env origin budget s in
  Ok ({| ho_gas_spent := hs_spent s; ho_applied := applied; ho_elected := elected |}, hs_db s).

Definition run_records_hook (db : Db) (h : RecordsHook) (env : Env) (budget : Z)
    : result ExecutionError (HookOutcome * Db) :=
  if election_enabled h
  then Err (ExecE.Hook (HookE.Profile "the election hook needs the block's origin: use run_hooks"))
  else run_hooks db h env ZERO32 budget.
End hooks.

(** ** What a successful run did *)

Section hook_theorems.
Context `{EvmLaws}.

(** A validated, enabled hook applies between one and 32 records per block. *)
Lemma hook_validate_h h :
  hook_enabled h = true -> 0 <= h_records h -> hook_validate h = Ok () -> 0 < h_records h <= MAX_H_RECORDS.
Proof.
  intros He H0' Hv. unfold hook_validate in Hv. rewrite He in Hv.
  change (negb true) with false in Hv. cbv iota in Hv. inv_ok Hv.
  apply orb_false_iff in Heqb1 as [?%Z.eqb_neq ?%Z.ltb_ge]. lia.
Qed.

(** A successful read of a [uint64] word at a database, and a successful committed call. *)
Definition reads (env : Env) (db : Db) (to data : bytes) (v : Z) : Prop :=
  exists limit r out, run_system_call env db SYSTEM_CALLER to data limit = Ok r /\
    is_success r = true /\ out = default [] (output r) /\
    out = replicate 24 Byte.x00 ++ be_bytes 8 v /\ is_u64 v.

Definition commits (env : Env) (db : Db) (to data : bytes) (out : bytes) (db' : Db) : Prop :=
  exists limit r, run_system_call env db SYSTEM_CALLER to data limit = Ok r /\
    is_success r = true /\ out = default [] (output r) /\ db' = committed r.

Lemma word_ok what out v :
  word what out = Ok v -> out = replicate 24 Byte.x00 ++ be_bytes 8 v /\ is_u64 v.
Proof.
  unfold word. intros Hw. inv_ok Hw. subst. apply orb_false_iff in Heqb as [Hl Hz].
  apply negb_false_iff, Z.eqb_eq in Hl.
  assert (Hd : length (drop 24 out) = 8%nat) by (rewrite length_drop; ulia).
  split.
  - rewrite be_bytes_val_n by done. rewrite <- (take_drop 24 out) at 1. f_equal.
    apply all_zero; [rewrite length_take; ulia | done].
  - pose proof (be_val_range (drop 24 out)) as Hr. unfold zlen in Hr. rewrite Hd in Hr. ulia.
Qed.

Lemma hook_call_ok env limit what to data commit s out s' :
  0 <= hs_spent s -> hook_call env limit what to data commit s = Ok (out, s') ->
  hs_spent s <= hs_spent s' <= limit /\
  if commit then commits env (hs_db s) to data out (hs_db s')
  else hs_db s' = hs_db s /\ exists limit r, is_success r = true /\ out = default [] (output r) /\
    run_system_call env (hs_db s) SYSTEM_CALLER to data limit = Ok r.
Proof.
  intros Hs Hc. unfold hook_call in Hc.
  destruct (checked_sub limit (hs_spent s)) as [rem|] eqn:Hrem; [|done].
  inv_ok Hc. subst. apply Z.ltb_lt in Heqb. apply negb_false_iff in Heqb0. apply map_err_ok_inv in Hok.
  unfold checked_sub in Hrem. case_match; [|done]. injection Hrem as <-.
  pose proof (call_gas_range _ _ _ _ _ _ _ (Z.lt_le_incl _ _ Heqb) Hok) as Hg.
  apply ok_or_inv in Hok0. unfold checked_add in Hok0. case_match; [|done]. injection Hok0 as <-.
  cbn [hs_spent hs_db]. split; [lia|].
  destruct commit; [by exists (limit - hs_spent s), a | split; [done|]; by exists (limit - hs_spent s), a].
Qed.

Lemma hook_read_ok env limit what to data s v s' :
  0 <= hs_spent s -> hook_read env limit what to data s = Ok (v, s') ->
  hs_spent s <= hs_spent s' <= limit /\ hs_db s' = hs_db s /\ reads env (hs_db s) to data v.
Proof.
  intros Hs Hr. unfold hook_read in Hr. apply sbind_ok_inv in Hr as (out & s1 & Hc & Hr).
  destruct (hook_call_ok _ _ _ _ _ _ _ _ _ Hs Hc) as (Hg & Hdb & l & r & Hsucc & Hout & Hrun).
  apply lift_ok_inv in Hr as (a & Hw & Heq). injection Heq as -> ->.
  apply map_err_ok_inv, word_ok in Hw as [Hw Hu]. split; [done|]. split; [done|].
  exists l, r, out. by split_and!.
Qed.

(** The records step. *)
Record records_done (h : RecordsHook) (env : Env) (db : Db) (n : Z) (db' : Db) : Prop := {
  rd_counts : exists before count target,
    reads env db (custody h) RECORD_CURSOR before /\ reads env db SEAL_REGISTRY RECORD_COUNT count /\
    reads env db SEAL_REGISTRY RECORD_TARGET_COUNT target /\ before <= count <= target /\
    n = Z.min (count - before) (h_records h) /\
    (0 < n -> (exists out, commits env db (custody h) (apply_data n) out db') /\
              reads env db' (custody h) RECORD_CURSOR (before + n));
  rd_quiet : n = 0 -> db' = db }.

Lemma run_records_ok h env limit s n s' :
  0 < h_records h -> 0 <= hs_spent s -> run_records h env limit s = Ok (n, s') ->
  records_done h env (hs_db s) n (hs_db s') /\ hs_spent s <= hs_spent s' <= limit.
Proof.
  intros Hh Hs Hr. unfold run_records in Hr.
  apply sbind_ok_inv in Hr as (before & s1 & H1 & Hr).
  apply (hook_read_ok _ _ _ _ _ _ _ _ Hs) in H1 as (Hg1 & Hd1 & Hr1).
  apply sbind_ok_inv in Hr as (count & s2 & H2 & Hr).
  apply hook_read_ok in H2 as (Hg2 & Hd2 & Hr2); [|lia].
  apply sbind_ok_inv in Hr as (target & s3 & H3 & Hr).
  apply hook_read_ok in H3 as (Hg3 & Hd3 & Hr3); [|lia].
  rewrite Hd1 in Hr2, Hd2. rewrite Hd2 in Hr3, Hd3.
  destruct (_ || _) eqn:Hcons; [done|].
  apply orb_false_iff in Hcons as [Hc1%Z.ltb_ge Hc2%Z.ltb_ge].
  cbv zeta in Hr. destruct (Z.eqb_spec (count - before) 0) as [Hav|Hav].
  { injection Hr as <- <-. split; [|lia]. split; [|by rewrite Hd3].
    exists before, count, target. split_and!; [done..|lia|lia|lia]. }
  apply sbind_ok_inv in Hr as (lim & s4 & H4 & Hr).
  apply hook_call_ok in H4 as (Hg4 & Hd4 & _); [|lia].
  destruct (negb _); [done|]. apply sbind_lift_inv in Hr as (max_batch & _ & Hr). cbv beta in Hr.
  destruct (max_batch <? h_records h); [done|].
  apply sbind_ok_inv in Hr as (out & s5 & H5 & Hr).
  apply hook_call_ok in H5 as (Hg5 & Hcom); [|lia].
  apply sbind_ok_inv in Hr as (after & s6 & H6 & Hr).
  apply hook_read_ok in H6 as (Hg6 & Hd6 & Hr6); [|lia].
  destruct (Z.eqb_spec after (before + Z.min (count - before) (h_records h))) as [->|]; [|done].
  injection Hr as <- <-. split; [|lia].
  assert (0 < Z.min (count - before) (h_records h)) by lia. split; [|lia].
  exists before, count, target. rewrite Hd4, Hd3 in Hcom. rewrite Hd6.
  split_and!; [done..|]. intros _. split; [by exists out | done].
Qed.

(** What a successful run of the enabled hooks did. *)
Definition hooks_done (h : RecordsHook) (env : Env) (origin : bytes) (budget : Z) (db : Db)
    (o : HookOutcome) (db' : Db) : Prop :=
  exists db1,
    records_done h env db (ho_applied o) db1 /\ 0 <= ho_applied o <= MAX_H_RECORDS /\
    0 <= ho_gas_spent o <= budget /\
    match ho_elected o with
    | Some outcome => election_enabled h = true /\ 0 <= outcome <= 3 /\
        exists out, commits env db1 (election h) (ELECT ++ origin) out db'
    | None => election_enabled h = false /\ db' = db1
    end.

Lemma run_hooks_done db h env origin budget o db' :
  hook_enabled h = true -> 0 <= h_records h -> 0 <= budget ->
  run_hooks db h env origin budget = Ok (o, db') -> hooks_done h env origin budget db o db'.
Proof.
  intros Hen H0' Hb Hr. unfold run_hooks in Hr. rewrite Hen in Hr. cbn [negb] in Hr. inv_ok Hr.
  destruct a. apply map_err_ok_inv in Hok. subst. rename z into n, h0 into s1, h1 into s2.
  assert (Hh : 0 < h_records h <= MAX_H_RECORDS) by by apply hook_validate_h.
  destruct (run_records_ok h env budget {| hs_db := db; hs_spent := 0 |} n s1 (proj1 Hh) (Z.le_refl 0) Hok0)
    as [Hrec Hg].
  cbn [hs_db hs_spent] in Hrec, Hg.
  exists (hs_db s1). cbn [ho_applied ho_gas_spent ho_elected].
  assert (0 <= n <= MAX_H_RECORDS) by (destruct Hrec as [(? & ? & ? & _ & _ & _ & ? & -> & _) _]; lia).
  split; [done|]. split; [done|]. unfold run_election in Hok1.
  destruct (election_enabled h) eqn:Hel.
  - apply sbind_ok_inv in Hok1 as (out & s3 & Hc & Hr). apply hook_call_ok in Hc as [Hg3 Hc]; [|lia].
    apply sbind_lift_inv in Hr as (v & Hw & Hr). cbv beta in Hr.
    apply map_err_ok_inv, word_ok in Hw as [_ Hu].
    destruct (Z.ltb_spec 3 v); [done|]. injection Hr as <- <-.
    split; [lia|]. split; [done|]. split; [ulia|]. by exists out.
  - injection Hok1 as <- <-. split; [lia|]. done.
Qed.

(** C12: a successful hook run.  The records hook applied exactly [min(H, available)] records by at
    most one committed call, after which custody's cursor reads exactly that much higher; a caught-up
    custody is not called.  The election call is made exactly when the profile pins it, on the state
    the records left, and reported a defined outcome.  All calls together stay within the budget, at
    most 32 records are applied, and no other state change is committed. *)
Theorem run_hooks_ok db h env origin budget o db' :
  hook_enabled h = true -> 0 <= h_records h -> 0 <= budget ->
  run_hooks db h env origin budget = Ok (o, db') ->
  exists db1,
    records_done h env db (ho_applied o) db1 /\ 0 <= ho_applied o <= MAX_H_RECORDS /\
    0 <= ho_gas_spent o <= budget /\
    match ho_elected o with
    | Some outcome => election_enabled h = true /\ 0 <= outcome <= 3 /\
        exists out, commits env db1 (election h) (ELECT ++ origin) out db'
    | None => election_enabled h = false /\ db' = db1
    end.
Proof. exact (run_hooks_done db h env origin budget o db'). Qed.
End hook_theorems.

(** ** A sample run *)

Section sample.

(** A custody behind by two records: its cursor moves when the apply call is committed. *)
Definition sample_custody : bytes := replicate 19 Byte.x00 ++ [z2b 7].
Definition sample_word (v : Z) : bytes := replicate 24 Byte.x00 ++ be_bytes 8 v.

Definition sample_answer (db : list (Z * Z)) (to data : bytes) : toy_result :=
  let cursor := toy_lookup db 1 in
  let reply v := {| toy_success := true; toy_gas := 100; toy_output := Some v; toy_committed := db |} in
  if bool_decide (data = RECORD_CURSOR) then reply (sample_word cursor)
  else if bool_decide (data = RECORD_COUNT) then reply (sample_word 5)
  else if bool_decide (data = RECORD_TARGET_COUNT) then reply (sample_word 9)
  else if bool_decide (data = LIMITS) then reply (replicate 96 Byte.x00 ++ sample_word 32)
  else {| toy_success := true; toy_gas := 1000; toy_output := Some [];
          toy_committed := (1, cursor + be_val (drop 32 data)) :: db |}.

Definition sample_hook : RecordsHook :=
  {| custody := sample_custody; h_records := 4; record_gas := 5000; election := ZERO20; elect_gas := 0 |}.

Definition sample_evm : Evm := toy_evm ZERO32 sample_answer.

Lemma run_hooks_ok_witness :
  exists db1 : list (Z * Z),
    records_done (H := sample_evm) sample_hook () [(1, 3)] 2 db1 /\ 0 <= 2 <= MAX_H_RECORDS /\
    0 <= 1500 <= 50000 /\ election_enabled sample_hook = false /\ [(1, 5); (1, 3)] = db1.
Proof.
  refine (run_hooks_ok (H := sample_evm) [(1, 3)] sample_hook () ZERO32 50000
    {| ho_gas_spent := 1500; ho_applied := 2; ho_elected := None |} [(1, 5); (1, 3)] _ _ _ _);
  [reflexivity | vm_compute; discriminate | vm_compute; discriminate | vm_compute; reflexivity].
Defined.
End sample.
