(* ===== verification/B1Update.v ===== *)
(** The committed B1 update: [crates/unicity/execution/src/update.rs].

    The file keeps the source's schema-directed [Reader] with its token counter, the two-pass
    [parse], the member, entry and binding checks and the staged [admit].  The first group of
    theorems says that admission accepts exactly one encoding per update and charges the documented
    price; the second says what the entries of an admitted update form: a chain of half-open root
    intervals that starts at the former tip's end and ends in the open interval of the origin. *)
From stdpp Require Import sorting.
From S2P Require Import Prelude CborCodec Crypto Errors Quant BlockAccounting RootInput RecordImport Hook.

Definition UPDATE_DOMAIN : bytes := ascii "UNICITY_B1_UPDATE".
(** [reth_unicity_b1::MAX_MEMBERS]. *)
Definition MAX_MEMBERS : Z := 16.
Definition MAX_NODE_ID_BYTES : Z := 128.
Definition MAX_ENTRY_BYTES : Z := 16384.
Definition UPDATE_SCAN_BASE_GAS : Z := 2000.
Definition UPDATE_SCAN_BYTE_GAS : Z := 16.
Definition MEMBER_GAS : Z := 1000.
Definition UPDATE_GAS_BASE : Z := 155936.
Definition EPOCH_GAS_FIXED : Z := 505244.
Definition EPOCH_GAS_PER_MEMBER : Z := 177800.
Definition EPOCH_GAS : Z := EPOCH_GAS_FIXED + EPOCH_GAS_PER_MEMBER * MAX_MEMBERS.
Definition REST_GAS_BASE : Z := 1150000.
Definition REST_GAS_PER_EPOCH : Z := 250000.
Definition MAX_MEASURED_B : Z := 2.
Definition MIN_EPOCHS_PER_UPDATE : Z := 2.
Definition IMPORT_EXECUTION_GAS : Z := 18000000.
Definition IMPORT_ENVELOPE_GAS : Z := MAX_ADMISSION_GAS + IMPORT_EXECUTION_GAS.

Record B1Context := {
  bc_network : Z;
  bc_root_genesis_id : bytes;
  bc_execution_chain_id : Z;
  bc_profile_hash : bytes;
  bc_genesis_commitment : bytes;
  bc_max_epochs : Z;
  bc_hook : RecordsHook }.

Definition context_b (c : B1Context) : result UpdateError Z :=
  if bc_max_epochs c <? MIN_EPOCHS_PER_UPDATE then Err (UpdateE.EpochsBelowSpan (bc_max_epochs c)) else
  if MAX_MEASURED_B <? bc_max_epochs c then Err (UpdateE.UnmeasuredEpochs (bc_max_epochs c)) else
  Ok (bc_max_epochs c).

Definition max_update_bytes (c : B1Context) : result UpdateError Z :=
  let? b := context_b c in Ok (4096 + MAX_ENTRY_BYTES * b).

(** The additions are unchecked in the source; [required_system_gas] wraps at 64 bits. *)
Definition required_system_gas (c : B1Context) : result UpdateError Z :=
  let? b := context_b c in
  let? hook := map_err (fun _ => UpdateE.Overflow) (envelope_gas (bc_hook c)) in
  Ok (wrap64 (UPDATE_GAS_BASE + REST_GAS_BASE + (EPOCH_GAS + REST_GAS_PER_EPOCH) * b +
              IMPORT_ENVELOPE_GAS + hook)).

Definition max_tokens (c : B1Context) : result UpdateError Z :=
  let? b := context_b c in Ok (32 + 266 * b).

Record Member := { m_node_id : bytes; m_key : bytes; m_weight : Z }.

Record Entry := {
  en_epoch : Z;
  en_body_kind : Z;
  en_body_id : bytes;
  en_activation_commit_id : bytes;
  en_start : Z;
  en_end : option Z;
  en_signing_scheme : Z;
  en_signing_config_hash : bytes;
  en_members : list Member }.

Record Update := {
  up_network : Z;
  up_root_genesis_id : bytes;
  up_execution_chain_id : Z;
  up_profile_hash : bytes;
  up_parent_hash : bytes;
  up_block_number : Z;
  up_origin_epoch : Z;
  up_origin_round : Z;
  up_origin_identity : bytes;
  up_prior_tip_epoch : Z;
  up_old_tip_end : option Z;
  up_new_entries : list Entry }.

(** ** Encoder *)

Definition head (major_type value : Z) : bytes :=
  let m := Z.shiftl major_type 5 in
  if value <=? 23 then [z2b (Z.lor m value)]
  else if value <=? 0xff then [z2b (Z.lor m 24); z2b value]
  else if value <=? 0xffff then z2b (Z.lor m 25) :: be_bytes 2 value
  else if value <=? 0xffffffff then z2b (Z.lor m 26) :: be_bytes 4 value
  else z2b (Z.lor m 27) :: be_bytes 8 value.

Definition optional (value : option Z) : bytes :=
  match value with Some v => head 0 v | None => [Byte.xf6] end.

Definition hash_bytes (h : bytes) : bytes := head 2 32 ++ h.

Definition member_to_bytes (m : Member) : bytes :=
  head 4 3 ++ head 3 (zlen (m_node_id m)) ++ m_node_id m ++ head 2 33 ++ m_key m ++ head 0 (m_weight m).

Definition update_entry_to_bytes (e : Entry) : bytes :=
  head 4 9 ++ head 0 (en_epoch e) ++ head 0 (en_body_kind e) ++ hash_bytes (en_body_id e) ++
  hash_bytes (en_activation_commit_id e) ++ head 0 (en_start e) ++ optional (en_end e) ++
  head 0 (en_signing_scheme e) ++ hash_bytes (en_signing_config_hash e) ++
  head 4 (zlen (en_members e)) ++ concat (map member_to_bytes (en_members e)).

Definition update_to_bytes (u : Update) : bytes :=
  head 4 13 ++ head 3 (zlen UPDATE_DOMAIN) ++ UPDATE_DOMAIN ++ head 0 (up_network u) ++
  hash_bytes (up_root_genesis_id u) ++ head 0 (up_execution_chain_id u) ++
  hash_bytes (up_profile_hash u) ++ hash_bytes (up_parent_hash u) ++ head 0 (up_block_number u) ++
  head 0 (up_origin_epoch u) ++ head 0 (up_origin_round u) ++ hash_bytes (up_origin_identity u) ++
  head 0 (up_prior_tip_epoch u) ++ optional (up_old_tip_end u) ++
  head 4 (zlen (up_new_entries u)) ++ concat (map update_entry_to_bytes (up_new_entries u)).

(** ** Reader *)

Record Reader := { rd_bytes : bytes; rd_pos : Z; rd_tokens : Z; rd_limit : Z }.
Definition update_reader := reader Reader UpdateError.

Definition set_pos (r : Reader) (pos tokens : Z) : Reader :=
  {| rd_bytes := rd_bytes r; rd_pos := pos; rd_tokens := tokens; rd_limit := rd_limit r |}.

Definition minimal (n value : Z) : bool :=
  if n =? 1 then 24 <=? value
  else if n =? 2 then 0xff <? value
  else if n =? 4 then 0xffff <? value
  else 0xffffffff <? value.

Definition r_head : update_reader (Z * Z) := fun r =>
  let tokens := rd_tokens r + 1 in
  if rd_limit r <? tokens then Err UpdateE.Encoding else
  match rd_bytes r !! Z.to_nat (rd_pos r) with
  | None => Err UpdateE.Encoding
  | Some first =>
      let pos := rd_pos r + 1 in
      let major := Z.shiftr (b2z first) 5 in
      let info := Z.land (b2z first) 31 in
      if info <? 24 then Ok ((major, info), set_pos r pos tokens) else
      if 27 <? info then Err UpdateE.Encoding else
      let n := Z.shiftl 1 (info - 24) in
      match get_range (rd_bytes r) pos (pos + n) with
      | None => Err UpdateE.Encoding
      | Some raw =>
          let value := shift_fold raw in
          if negb (minimal n value) then Err UpdateE.Encoding else
          Ok ((major, value), set_pos r (pos + n) tokens)
      end
  end.

Definition r_arity (n : Z) : update_reader () :=
  let* (major, v) := r_head in
  if (major =? 4) && (v =? n) then sret () else fail UpdateE.Encoding.

Definition r_uint : update_reader Z :=
  let* (major, v) := r_head in
  if major =? 0 then sret v else fail UpdateE.Encoding.

(** [self.bytes.len() - self.pos]. *)
Definition r_remaining : update_reader Z := fun r => Ok (zlen (rd_bytes r) - rd_pos r, r).

(** The slice the reader stands on; the source indexes, which is in range after the checks. *)
Definition r_slice (n : Z) : update_reader bytes := fun r =>
  match get_range (rd_bytes r) (rd_pos r) (rd_pos r + n) with
  | Some out => Ok (out, set_pos r (rd_pos r + n) (rd_tokens r))
  | None => Err UpdateE.Encoding
  end.

Definition r_string (major min max : Z) : update_reader bytes :=
  let* (m, n) := r_head in
  let* remaining := r_remaining in
  if negb (m =? major) || (n <? min) || (max <? n) || (remaining <? n) then fail UpdateE.Encoding else
  let* out := r_slice n in
  if (major =? 3) && negb (utf8_valid out) then fail UpdateE.Encoding else
  sret out.

Definition r_hash : update_reader bytes := r_string 2 32 32.

Definition r_optional : update_reader (option Z) := fun r =>
  if bool_decide (rd_bytes r !! Z.to_nat (rd_pos r) = Some Byte.xf6) then
    let tokens := rd_tokens r + 1 in
    if rd_limit r <? tokens then Err UpdateE.Encoding
    else Ok (None, set_pos r (rd_pos r + 1) tokens)
  else (let* v := r_uint in sret (Some v)) r.

(** ** Parsing *)

Definition parse_member (decode : bool) : update_reader (option Member) :=
  let* _ := r_arity 3 in
  let* id := r_string 3 1 MAX_NODE_ID_BYTES in
  let* key := r_string 2 33 33 in
  let* weight := r_uint in
  if decode then
    if negb (utf8_valid id) then fail UpdateE.Encoding else
    if negb (zlen key =? 33) then fail UpdateE.Encoding else
    sret (Some {| m_node_id := id; m_key := key; m_weight := weight |})
  else sret None.

Definition parse_entry (decode : bool) : update_reader (option Entry * Z) :=
  let* _ := r_arity 9 in
  let* epoch := r_uint in
  let* body_kind := r_uint in
  let* body_id := r_hash in
  let* activation_commit_id := r_hash in
  let* start := r_uint in
  let* stop := r_optional in
  let* signing_scheme := r_uint in
  let* signing_config_hash := r_hash in
  let* (major, n) := r_head in
  let* remaining := r_remaining in
  if negb (major =? 4) || (n =? 0) || (MAX_MEMBERS <? n) || (remaining <? n)
  then fail UpdateE.Encoding else
  let* members := repeat_reader (Z.to_nat n) (parse_member decode) in
  sret (if decode then Some {|
          en_epoch := epoch; en_body_kind := body_kind; en_body_id := body_id;
          en_activation_commit_id := activation_commit_id; en_start := start; en_end := stop;
          en_signing_scheme := signing_scheme; en_signing_config_hash := signing_config_hash;
          en_members := omap id members |}
        else None, n).

Definition parse_update (max_entries : Z) (decode : bool) : update_reader (option Update * Z) :=
  let* _ := r_arity 13 in
  let* domain := r_string 3 (zlen UPDATE_DOMAIN) (zlen UPDATE_DOMAIN) in
  if negb (bool_decide (domain = UPDATE_DOMAIN)) then fail UpdateE.Encoding else
  let* network := r_uint in
  if u16_max <? network then fail UpdateE.Encoding else
  let* root_genesis_id := r_hash in
  let* execution_chain_id := r_uint in
  let* profile_hash := r_hash in
  let* parent_hash := r_hash in
  let* block_number := r_uint in
  let* origin_epoch := r_uint in
  let* origin_round := r_uint in
  let* origin_identity := r_hash in
  let* prior_tip_epoch := r_uint in
  let* old_tip_end := r_optional in
  let* (major, count) := r_head in
  let* remaining := r_remaining in
  if negb (major =? 4) || (max_entries <? count) || (remaining <? count)
  then fail UpdateE.Encoding else
  let* entries := repeat_reader (Z.to_nat count) (parse_entry decode) in
  let* remaining := r_remaining in
  if negb (remaining =? 0) then fail UpdateE.Encoding else
  sret (if decode then Some {|
          up_network := network; up_root_genesis_id := root_genesis_id;
          up_execution_chain_id := execution_chain_id; up_profile_hash := profile_hash;
          up_parent_hash := parent_hash; up_block_number := block_number;
          up_origin_epoch := origin_epoch; up_origin_round := origin_round;
          up_origin_identity := origin_identity; up_prior_tip_epoch := prior_tip_epoch;
          up_old_tip_end := old_tip_end; up_new_entries := omap fst entries |}
        else None, sum_z (map snd entries)).

Definition parse (raw : bytes) (max_entries token_limit : Z) (decode : bool)
    : result UpdateError (option Update * Z) :=
  let? (out, _) := parse_update max_entries decode
    {| rd_bytes := raw; rd_pos := 0; rd_tokens := 0; rd_limit := token_limit |} in Ok out.

(** ** Checks *)

Section checks.
Context `{Crypto}.

(** The loop of [check_members]; [seen] is [self.members[..i]]. *)
Fixpoint check_members_from (seen : list Member) (total : Z) (l : list Member) : result UpdateError Z :=
  match l with
  | [] => Ok total
  | m :: l =>
      if match last seen with
         | Some prev => negb (bytes_ltb (m_node_id prev) (m_node_id m))
         | None => false
         end then Err UpdateE.MembersNotSorted else
      if m_weight m =? 0 then Err UpdateE.ZeroWeight else
      let? _ := ok_or (public_key_from_slice (m_key m)) UpdateE.InvalidKey in
      if existsb (fun prev => bool_decide (m_key prev = m_key m)) seen then Err UpdateE.DuplicateKey else
      let? total := ok_or (checked_add total (m_weight m)) UpdateE.WeightOverflow in
      check_members_from (seen ++ [m]) total l
  end.

Definition check_members (e : Entry) : result UpdateError () :=
  let? total := check_members_from [] 0 (en_members e) in
  if WEIGHT_CAP_B <? total then Err UpdateE.WeightCap else Ok ().

Definition entry_validate (e : Entry) : result UpdateError () :=
  if negb ((1 <=? en_body_kind e) && (en_body_kind e <=? 3))
     || bool_decide (en_body_id e = ZERO32)
     || bool_decide (en_signing_config_hash e = ZERO32)
     || negb ((en_signing_scheme e =? 1) || (en_signing_scheme e =? 2))
     || negb (Bool.eqb (en_body_kind e =? 1) (bool_decide (en_activation_commit_id e = ZERO32)))
  then Err UpdateE.EntryIdentity else
  if match en_end e with Some stop => stop <=? en_start e | None => false end
  then Err UpdateE.EmptyInterval else
  check_members e.

Record Admitted_update := { ad_update : Update; ad_gas : Z }.

Record UpdateBinding := {
  ub_committed_hash : bytes;
  ub_parent_hash : bytes;
  ub_parent_number : Z;
  ub_origin_epoch : Z;
  ub_origin_round : Z;
  ub_origin_identity : bytes }.

Definition check_bindings (u : Update) (c : B1Context) (b : UpdateBinding) : result UpdateError () :=
  if negb (up_network u =? bc_network c) then Err UpdateE.NetworkMismatch else
  if negb (bool_decide (up_root_genesis_id u = bc_root_genesis_id c))
  then Err UpdateE.RootGenesisMismatch else
  if negb (up_execution_chain_id u =? bc_execution_chain_id c) then Err UpdateE.ChainMismatch else
  if negb (bool_decide (up_profile_hash u = bc_profile_hash c)) then Err UpdateE.ProfileMismatch else
  if bool_decide (up_parent_hash u = ZERO32) || negb (bool_decide (up_parent_hash u = ub_parent_hash b))
  then Err UpdateE.ParentMismatch else
  if negb (bool_decide (checked_add (ub_parent_number b) 1 = Some (up_block_number u)))
  then Err UpdateE.BlockNumberMismatch else
  if negb (up_origin_epoch u =? ub_origin_epoch b) then Err UpdateE.OriginEpochMismatch else
  if negb (up_origin_round u =? ub_origin_round b) then Err UpdateE.OriginRoundMismatch else
  if bool_decide (up_origin_identity u = ZERO32)
     || negb (bool_decide (up_origin_identity u = ub_origin_identity b))
  then Err UpdateE.OriginIdentityMismatch else
  Ok ().

(** The loop of [check_entries]; [prev] is [u.new_entries[i - 1]]. *)
Fixpoint check_entries_from (u : Update) (prev : option Entry) (l : list Entry)
    : result UpdateError () :=
  match l with
  | [] => Ok ()
  | e :: l =>
      let? _ := entry_validate e in
      if en_body_kind e =? 1 then Err UpdateE.GenesisKindInUpdate else
      if en_epoch e <=? up_prior_tip_epoch u then Err UpdateE.EpochNotNewer else
      if up_origin_round u <? en_start e then Err UpdateE.StartAfterOrigin else
      if match en_end e with Some stop => up_origin_round u <? stop | None => false end
      then Err UpdateE.EndAfterOrigin else
      if match prev with
         | Some p => negb (bool_decide (checked_add (en_epoch p) 1 = Some (en_epoch e)))
                     || negb (bool_decide (en_end p = Some (en_start e)))
         | None => false
         end then Err UpdateE.NotContiguous else
      check_entries_from u (Some e) l
  end.

Definition check_entries (u : Update) : result UpdateError () :=
  let? _ := check_entries_from u None (up_new_entries u) in
  match up_new_entries u with
  | first :: rest =>
      let? stop := ok_or (up_old_tip_end u) UpdateE.OldTipEndMismatch in
      if (en_start first <? stop)
         || (bool_decide (checked_add (up_prior_tip_epoch u) 1 = Some (en_epoch first))
             && negb (stop =? en_start first))
      then Err UpdateE.OldTipEndMismatch else
      let tail := List.last (first :: rest) first in
      if bool_decide (is_Some (en_end tail)) || negb (en_epoch tail =? up_origin_epoch u)
      then Err UpdateE.TailNotOrigin else Ok ()
  | [] =>
      if bool_decide (is_Some (up_old_tip_end u)) || negb (up_prior_tip_epoch u =? up_origin_epoch u)
      then Err UpdateE.EmptyUpdateMismatch else Ok ()
  end.

Definition admit_update (raw : bytes) (c : B1Context) (b : UpdateBinding) (budget : Z)
    : result UpdateError Admitted_update :=
  let? k := context_b c in
  let? cap := max_update_bytes c in
  if cap <? zlen raw then Err (UpdateE.TooLarge (zlen raw) cap) else
  let scan := UPDATE_SCAN_BASE_GAS + UPDATE_SCAN_BYTE_GAS * zlen raw in
  if budget <? scan then Err UpdateE.ScanBudget else
  let? tokens := max_tokens c in
  let? (_, members) := parse raw k tokens false in
  if (budget - scan) / MEMBER_GAS <? members then Err UpdateE.MemberBudget else
  let gas := scan + MEMBER_GAS * members in
  let? (decoded, _) := parse raw k tokens true in
  match decoded with
  | None => Err UpdateE.Encoding
  | Some update =>
      if negb (bool_decide (sha256 raw = ub_committed_hash b)) then Err UpdateE.UpdateHashMismatch else
      let? _ := check_bindings update c b in
      let? _ := check_entries update in
      Ok {| ad_update := update; ad_gas := gas |}
  end.

Record B1Job := { bj_context : B1Context; bj_update : bytes; bj_records : bytes }.

Definition check_bound (j : B1Job) (input : RootInputV2) (profile : BlockProfile)
    : result BlockAccountingError () :=
  if negb (bool_decide (sha256 (bj_update j) = ri_b1_update_hash input))
  then Err UpdateHashMismatch else
  if negb (bool_decide (sha256 (bj_records j) = ri_root_records_hash input))
  then Err RecordsHashMismatch else
  let? required := map_err (fun _ => B1Profile) (required_system_gas (bj_context j)) in
  if system_gas profile <? required then Err B1Profile else Ok ().
End checks.

(** ** Metered codecs *)

(** The reader seen as a decoder of [wire.rs]: both have the same idea of what is left. *)
Definition as_decoder (r : Reader) : Decoder := {| input := rd_bytes r; offset := rd_pos r |}.
Definition r_rest (r : Reader) (rest : bytes) : Prop := at_rest (as_decoder r) rest.

Lemma head_major k v : head k v = major k v.
Proof. done. Qed.

Lemma lookup_rest d rest : at_rest d rest -> input d !! Z.to_nat (offset d) = rest !! 0%nat.
Proof. intros (_ & _ & <-). by rewrite lookup_drop, Nat.add_0_r. Qed.

Lemma take_bytes_get n d :
  0 <= n -> 0 <= offset d -> offset d + n <= u64_max ->
  take_bytes n d = match get_range (input d) (offset d) (offset d + n) with
    | Some x => Ok (x, {| input := input d; offset := offset d + n |}) | None => Err UnexpectedEof end.
Proof. intros. unfold take_bytes, checked_add. by rewrite (proj2 (Z.leb_le _ _)) by lia. Qed.

(** The argument bytes of a long head, read by either decoder. *)
Lemma long_head_spec r pos tokens n (k : nat) :
  0 <= pos <= zlen (rd_bytes r) -> zlen (rd_bytes r) <= slice_max -> n = Z.of_nat k -> (k <= 8)%nat ->
  match get_range (rd_bytes r) pos (pos + n) with
  | None => take_bytes n {| input := rd_bytes r; offset := pos |} = Err UnexpectedEof
  | Some raw => take_bytes n {| input := rd_bytes r; offset := pos |}
        = Ok (raw, as_decoder (set_pos r (pos + n) tokens)) /\ shift_fold raw = be_val raw
  end.
Proof.
  intros Hp Hl -> Hk. rewrite take_bytes_get by (simpl; ulia). simpl.
  destruct (get_range _ _ _) as [raw|] eqn:Hg; [|done]. split; [done|].
  apply get_range_some in Hg as (? & ? & ->). apply shift_fold_be_val.
  rewrite length_take. lia.
Qed.

Lemma get_range_length l a b x : get_range l a b = Some x -> length x = Z.to_nat (b - a).
Proof.
  intros (? & ? & ->)%get_range_some. rewrite length_take, length_drop. unfold zlen in *. lia.
Qed.

Ltac long_head Hlong :=
  eval_ifs; unfold sbind, as_decoder; simpl rd_bytes; simpl rd_pos;
  destruct (get_range _ _ _) as [raw|]; [|by rewrite Hlong];
  let Hf := fresh in destruct Hlong as [-> Hf]; rewrite Hf; unfold sret, minimal; cbn [Z.eqb Pos.eqb];
  rewrite <- Z.leb_antisym; unfold u8_max, u16_max, u32_max; by destruct (_ <=? _).

(** [Reader::head] is [Decoder::read_head] behind the token counter. *)
Lemma r_head_spec r rest :
  r_rest r rest ->
  r_head r =
    if rd_limit r <? rd_tokens r + 1 then Err UpdateE.Encoding
    else match read_head (as_decoder r) with
         | Ok (h, d) => Ok (h, set_pos r (offset d) (rd_tokens r + 1))
         | Err _ => Err UpdateE.Encoding
         end.
Proof.
  intros Hat. unfold r_head. case_match; [done|].
  pose proof (lookup_rest _ _ Hat) as Hlk. simpl in Hlk. rewrite Hlk. clear Hlk.
  pose proof Hat as (Hp & Hl & Hd). pose proof (at_rest_length _ _ Hat) as Hlen. simpl in *.
  unfold read_head. destruct rest as [|b rest].
  - unfold sbind at 1, read_u8. unfold sbind at 1.
    rewrite take_bytes_get by (simpl; ulia). simpl.
    replace (get_range _ _ _) with (None : option bytes); [done|]. symmetry.
    unfold get_range. change (zlen []) with 0 in Hlen.
    rewrite (proj2 (Z.leb_gt (rd_pos r + 1) _)) by lia. by rewrite andb_false_r.
  - destruct (read_u8_complete _ _ _ Hat) as (d1 & Hu & Hat1 & Hin1).
    assert (d1 = as_decoder (set_pos r (rd_pos r + 1) (rd_tokens r + 1))) as ->.
    { pose proof (at_rest_length _ _ Hat1) as Hl1. rewrite Hin1, zlen_cons in *. simpl in *.
      destruct d1 as [i1 o1]. simpl in *. unfold as_decoder. simpl. subst. f_equal. lia. }
    rewrite (sbind_ok _ _ _ _ _ Hu). cbn [lookup list_lookup].
    destruct (head_byte_split b) as (_ & Hi & _). change 0x1f with 31 in Hi.
    rewrite zlen_cons in Hlen. pose proof (zlen_nonneg rest).
    set (info := Z.land (b2z b) 31) in *. set (m := Z.shiftr (b2z b) 5).
    cbv zeta. clearbody info m. clear Hu.
    pose proof (fun n k => long_head_spec r (rd_pos r + 1) (rd_tokens r + 1) n k ltac:(lia) Hl) as Hlong.
    destruct (Z.ltb_spec info 24).
    { unfold sbind. rewrite (proj2 (Z.leb_le _ _)) by lia. done. }
    destruct (Z.ltb_spec 27 info).
    { unfold sbind. rewrite (proj2 (Z.leb_gt _ _)), !(proj2 (Z.eqb_neq info _)) by lia.
      by destruct (info =? 31). }
    assert (info = 24 \/ info = 25 \/ info = 26 \/ info = 27) as [-> | [-> | [-> | ->]]] by lia.
    + specialize (Hlong 1 1%nat eq_refl ltac:(lia)). change (Z.shiftl 1 (24 - 24)) with 1.
      eval_ifs. unfold sbind, read_u8, sbind, as_decoder. simpl rd_bytes. simpl rd_pos.
      destruct (get_range _ _ _) as [raw|] eqn:Hg; [|by rewrite Hlong].
      destruct Hlong as [-> Hf]. apply get_range_length in Hg.
      destruct raw as [|c [|]]; simpl in Hg; try lia. rewrite Hf. change (be_val [c]) with (b2z c).
      unfold sret, minimal. eval_ifs. rewrite Z.ltb_antisym. by destruct (24 <=? b2z c).
    + specialize (Hlong 2 2%nat eq_refl ltac:(lia)). change (Z.shiftl 1 (25 - 24)) with 2. long_head Hlong.
    + specialize (Hlong 4 4%nat eq_refl ltac:(lia)). change (Z.shiftl 1 (26 - 24)) with 4. long_head Hlong.
    + specialize (Hlong 8 8%nat eq_refl ltac:(lia)). change (Z.shiftl 1 (27 - 24)) with 8. long_head Hlong.
Qed.

(** A reader that consumes the encoding of a value [v] and returns [out v], at a price in tokens. *)
Class Metered {B A} (p : update_reader A) (out : B -> A) (enc : B -> bytes) (cost : B -> Z)
    (ok : B -> Prop) : Prop := {
  met_complete : forall v r rest, ok v -> r_rest r (enc v ++ rest) ->
    rd_tokens r + cost v <= rd_limit r ->
    exists r', p r = Ok (out v, r') /\ r_rest r' rest /\
      rd_tokens r' = rd_tokens r + cost v /\ rd_limit r' = rd_limit r;
  met_sound : forall a r r' rest, r_rest r rest -> p r = Ok (a, r') ->
    exists v rest', a = out v /\ rest = enc v ++ rest' /\ r_rest r' rest' /\
      rd_tokens r' = rd_tokens r + cost v /\ rd_limit r' = rd_limit r /\ ok v }.

Lemma set_pos_rest r d rest tokens :
  input d = rd_bytes r -> at_rest d rest -> r_rest (set_pos r (offset d) tokens) rest.
Proof. destruct d. simpl. by intros ->. Qed.

#[global] Instance r_head_metered :
  Metered r_head id (fun h => head h.1 h.2) (fun _ => 1) head_ok.
Proof.
  split.
  - intros [k v] r rest [Hk Hv] Hat Hc. rewrite (r_head_spec _ _ Hat).
    rewrite (proj2 (Z.ltb_ge _ _)) by lia.
    destruct (read_head_complete k v _ _ Hk Hv Hat) as (d & -> & Hat' & Hin).
    eexists. split; [done|]. split; [by apply set_pos_rest | done].
  - intros [k v] r r' rest Hat Hr. rewrite (r_head_spec _ _ Hat) in Hr.
    destruct (_ <? _); [done|]. destruct (read_head _) as [[h d]|] eqn:Hh; [|done]. injection Hr as -> <-.
    destruct (read_head_sound _ _ _ _ _ Hat Hh) as (rest' & -> & Hat' & Hin & Hok).
    exists (k, v), rest'. split_and!; try done. by apply set_pos_rest.
Qed.

Section metered_steps.
Context {B A C : Type} {p : update_reader A} {out : B -> A} {enc : B -> bytes} {cost : B -> Z}
  {ok : B -> Prop} `{!Metered p out enc cost ok}.

Lemma met_step (k : A -> update_reader C) v r rest :
  r_rest r (enc v ++ rest) -> ok v -> rd_tokens r + cost v <= rd_limit r ->
  exists r', sbind p k r = k (out v) r' /\ r_rest r' rest /\
    rd_tokens r' = rd_tokens r + cost v /\ rd_limit r' = rd_limit r.
Proof.
  intros Hat Hv Hc. destruct (met_complete v r rest Hv Hat Hc) as (r' & Hp & ?).
  exists r'. by rewrite (sbind_ok _ _ _ _ _ Hp).
Qed.

Lemma met_bind_sound (k : A -> update_reader C) r rest c :
  r_rest r rest -> sbind p k r = Ok c ->
  exists v rest' r', rest = enc v ++ rest' /\ r_rest r' rest' /\
    rd_tokens r' = rd_tokens r + cost v /\ rd_limit r' = rd_limit r /\ ok v /\ k (out v) r' = Ok c.
Proof.
  intros Hat H. apply sbind_ok_inv in H as (a & r' & Hp & Hk).
  destruct (met_sound _ _ _ _ Hat Hp) as (v & rest' & -> & -> & ?). destruct_and!. eauto 10.
Qed.
End metered_steps.

Ltac met_bwd Hat H :=
  lazymatch type of H with
  | sbind ?p ?k ?r = Ok _ =>
      let v := fresh "v" in let rest := fresh "rest" in let r' := fresh "r" in
      let Heq := fresh "Heq" in let Hat' := fresh "Hat" in let Ht := fresh "Ht" in
      let Hl := fresh "Hl" in let Hv := fresh "Hv" in let H' := fresh "H'" in
      destruct (met_bind_sound (p := p) k r _ _ Hat H)
        as (v & rest & r' & Heq & Hat' & Ht & Hl & Hv & H');
      clear H; rename H' into H; cbv beta in H; try unfold id in H; clear Hat; rename Hat' into Hat
  end.

Arguments head : simpl never.
Arguments optional : simpl never.
Arguments hash_bytes : simpl never.

#[global] Instance r_arity_metered n :
  Metered (r_arity n) id (fun _ : () => head 4 n) (fun _ => 1) (fun _ => is_u64 n).
Proof.
  split.
  - intros [] r rest Hn Hat Hc. unfold r_arity.
    destruct (met_complete (p := r_head) (4, n) r rest) as (r' & H1 & ?); [by split | done | done |].
    rewrite (sbind_ok _ _ _ _ _ H1). exists r'. simpl. by rewrite Z.eqb_refl.
  - intros [] r r' rest Hat H. unfold r_arity in H. met_bwd Hat H.
    destruct v as [m v]. simpl in H. destruct (_ && _) eqn:Hb; [|done].
    apply andb_true_iff in Hb as [->%Z.eqb_eq ->%Z.eqb_eq]. injection H as <-.
    destruct Hv. by exists (), rest0.
Qed.

Lemma arity_step {C} n (k : () -> update_reader C) r rest :
  r_rest r (head 4 n ++ rest) -> is_u64 n -> rd_tokens r + 1 <= rd_limit r ->
  exists r', sbind (r_arity n) k r = k () r' /\ r_rest r' rest /\
    rd_tokens r' = rd_tokens r + 1 /\ rd_limit r' = rd_limit r.
Proof.
  intros Hat Hn Hc. exact (met_step (p := r_arity n) (cost := fun _ => 1) (out := id) k () r rest Hat Hn Hc).
Qed.

Ltac met_fwd Hat tac :=
  lazymatch goal with
  | |- context [sbind ?p ?k ?r] =>
      let r' := fresh "r" in let Hs := fresh "Hs" in let Hat' := fresh "Hat" in
      let Ht := fresh "Ht" in let Hl := fresh "Hl" in
      lazymatch p with
      | r_arity ?n => destruct (arity_step n k r _ Hat) as (r' & Hs & Hat' & Ht & Hl)
      | _ => edestruct (met_step (p := p) k _ r _ Hat) as (r' & Hs & Hat' & Ht & Hl)
      end;
      [ solve [tac] | solve [simpl; lia] | rewrite Hs; clear Hs Hat; rename Hat' into Hat; cbv beta ]
  end.

#[global] Instance r_uint_metered : Metered r_uint id (head 0) (fun _ => 1) is_u64.
Proof.
  split.
  - intros n r rest Hn Hat Hc. unfold r_uint.
    destruct (met_complete (p := r_head) (0, n) r rest) as (r' & H1 & ?); [by split | done | done |].
    rewrite (sbind_ok _ _ _ _ _ H1). by exists r'.
  - intros n r r' rest Hat H. unfold r_uint in H. met_bwd Hat H.
    destruct v as [m v]. simpl in H. destruct (Z.eqb_spec m 0) as [->|]; [|done].
    injection H as <- <-. destruct Hv. by exists v, rest0.
Qed.

Lemma r_slice_complete r x rest :
  r_rest r (x ++ rest) -> exists r', r_slice (zlen x) r = Ok (x, r') /\ r_rest r' rest /\
    rd_tokens r' = rd_tokens r /\ rd_limit r' = rd_limit r.
Proof.
  intros Hat. destruct (take_bytes_complete _ _ _ Hat) as (d & Ht & Hat' & Hin).
  pose proof Hat as (Hp & Hl & _). pose proof (at_rest_length _ _ Hat) as Hlen.
  rewrite zlen_app in Hlen. pose proof (zlen_nonneg x). pose proof (zlen_nonneg rest).
  rewrite take_bytes_get in Ht by (simpl in *; ulia). simpl in Ht. unfold r_slice.
  destruct (get_range _ _ _) as [y|]; [|done]. injection Ht as -> <-. eexists. by split.
Qed.

Lemma r_slice_sound n r x r' rest :
  0 <= n -> r_rest r rest -> r_slice n r = Ok (x, r') ->
  exists rest', rest = x ++ rest' /\ zlen x = n /\ r_rest r' rest' /\
    rd_tokens r' = rd_tokens r /\ rd_limit r' = rd_limit r.
Proof.
  intros Hn Hat H. pose proof Hat as (Hp & Hl & _). unfold r_slice in H.
  destruct (get_range _ _ _) as [y|] eqn:Hg; [|done]. injection H as -> <-.
  pose proof Hg as (? & Hle & _)%get_range_some. simpl in Hp, Hl.
  destruct (take_bytes_sound n (as_decoder r) {| input := rd_bytes r; offset := rd_pos r + n |} x rest)
    as (rest' & -> & <- & Hat' & _); [done..| |].
  - rewrite take_bytes_get by (simpl; ulia). simpl. by rewrite Hg.
  - by exists rest'.
Qed.

Lemma r_string_metered major min max :
  0 <= major < 8 -> 0 <= min ->
  Metered (r_string major min max) id (fun x => head major (zlen x) ++ x) (fun _ => 1)
    (fun x => min <= zlen x <= max /\ (major = 3 -> utf8_valid x = true)).
Proof.
  intros Hm Hmin. split.
  - intros x r rest [Hx Hu] Hat Hc. unfold r_string. rewrite <- app_assoc in Hat.
    assert (Hx64 : is_u64 (zlen x)).
    { pose proof (at_rest_slice _ _ Hat) as Hs. rewrite !zlen_app in Hs.
      pose proof (zlen_nonneg rest). pose proof (zlen_nonneg (head major (zlen x))).
      pose proof (zlen_nonneg x). ulia. }
    destruct (met_complete (p := r_head) (major, zlen x) r _ (conj Hm Hx64) Hat Hc)
      as (r1 & H1 & Hat1 & Ht1 & Hl1).
    rewrite (sbind_ok _ _ _ _ _ H1). cbv beta iota. simpl. unfold sbind, r_remaining.
    pose proof (at_rest_length _ _ Hat1) as Hlen. simpl in Hlen. rewrite <- Hlen, zlen_app, Z.eqb_refl.
    pose proof (zlen_nonneg rest). simpl negb.
    rewrite !(proj2 (Z.ltb_ge _ _)) by lia. cbn [negb orb]. cbv beta iota.
    destruct (r_slice_complete _ _ _ Hat1) as (r2 & -> & Hat2 & Ht2 & Hl2).
    exists r2. split; [|split; [done|]; split; congruence].
    destruct (Z.eqb_spec major 3); [|done]. by rewrite Hu.
  - intros x r r' rest Hat H. unfold r_string in H. met_bwd Hat H. destruct v as [m n].
    apply sbind_ok_inv in H as (rem & r1 & [= <- <-] & H). simpl in H.
    destruct (_ || _) eqn:Hb; [done|]. apply sbind_ok_inv in H as (y & r2 & Hs & H).
    rewrite !orb_false_iff, negb_false_iff, Z.eqb_eq, !Z.ltb_ge in Hb. destruct Hv as [_ Hn].
    destruct (r_slice_sound n _ _ _ _ (proj1 Hn) Hat Hs) as (rest1 & -> & <- & Hat1 & Ht1 & Hl1).
    destruct ((major =? 3) && _) eqn:Hu; [done|]. injection H as <- <-. destruct_and!. subst.
    exists y, rest1. simpl in *. rewrite <- app_assoc. split_and!; try done; try congruence.
    intros ->. simpl in Hu. by apply negb_false_iff.
Qed.

Definition text_bytes (x : bytes) : bytes := head 3 (zlen x) ++ x.
Definition key_bytes (x : bytes) : bytes := head 2 33 ++ x.

Lemma text_string_metered min max :
  0 <= min -> Metered (r_string 3 min max) id text_bytes (fun _ => 1)
    (fun x => min <= zlen x <= max /\ utf8_valid x = true).
Proof.
  intros Hmin. destruct (r_string_metered 3 min max ltac:(lia) Hmin) as [Hc Hs]. split.
  - intros v r rest [Hx Hu]. by apply Hc.
  - intros a r r' rest Hat Hr. destruct (Hs _ _ _ _ Hat Hr) as (v & rest' & ? & ? & ? & ? & ? & ? & Hu).
    exists v, rest'. split_and!; try done; try lia. by apply Hu.
Qed.

(** A byte string of one fixed length. *)
Lemma fixed_string_metered n :
  0 <= n -> Metered (r_string 2 n n) id (fun x => head 2 n ++ x) (fun _ => 1) (fun x => zlen x = n).
Proof.
  intros Hn. destruct (r_string_metered 2 n n ltac:(lia) Hn) as [Hc Hs]. split.
  - intros v r rest <- Hat Ht. apply Hc; [split; [lia | done] | done | done].
  - intros a r r' rest Hat Hr. destruct (Hs _ _ _ _ Hat Hr) as (v & rest' & ? & ? & ? & ? & ? & Hv & _).
    exists v, rest'. assert (zlen v = n) as Hz by lia. rewrite Hz in *. by split_and!.
Qed.

#[global] Instance r_hash_metered : Metered r_hash id hash_bytes (fun _ => 1) is_word.
Proof.
  destruct (fixed_string_metered 32 ltac:(lia)) as [Hc Hs]. split.
  - intros v r rest Hv. apply Hc. ulia.
  - intros a r r' rest Hat Hr. destruct (Hs _ _ _ _ Hat Hr) as (v & rest' & ? & ? & ? & ? & ? & ?).
    exists v, rest'. split_and!; try done. ulia.
Qed.

#[global] Instance key_metered :
  Metered (r_string 2 33 33) id key_bytes (fun _ => 1) (fun x => zlen x = 33).
Proof. by apply fixed_string_metered. Qed.

#[global] Instance node_id_metered :
  Metered (r_string 3 1 MAX_NODE_ID_BYTES) id text_bytes (fun _ => 1)
    (fun x => 1 <= zlen x <= MAX_NODE_ID_BYTES /\ utf8_valid x = true).
Proof. by apply text_string_metered. Qed.

#[global] Instance domain_metered :
  Metered (r_string 3 (zlen UPDATE_DOMAIN) (zlen UPDATE_DOMAIN)) id text_bytes (fun _ => 1)
    (fun x => zlen UPDATE_DOMAIN <= zlen x <= zlen UPDATE_DOMAIN /\ utf8_valid x = true).
Proof. by apply text_string_metered. Qed.

Lemma head_0_first v rest : is_u64 v -> (head 0 v ++ rest) !! 0%nat <> Some Byte.xf6.
Proof.
  intros Hv. unfold head. change (Z.shiftl 0 5) with 0. rewrite !Z.lor_0_l.
  repeat case_match; simpl; try done. intros [= Heq]. apply (f_equal b2z) in Heq.
  rewrite b2z_z2b_small in Heq by ulia. change (b2z Byte.xf6) with 246 in Heq. lia.
Qed.

#[global] Instance r_optional_metered :
  Metered r_optional id optional (fun _ => 1) (fun v => match v with Some v => is_u64 v | None => True end).
Proof.
  split.
  - intros [v|] r rest Hv Hat Hc; unfold r_optional; pose proof (lookup_rest _ _ Hat) as Hlk;
      cbn [as_decoder input offset] in Hlk; rewrite Hlk.
    + rewrite bool_decide_false by by apply head_0_first.
      destruct (met_complete v r rest Hv Hat Hc) as (r' & H1 & ?). exists r'.
      by rewrite (sbind_ok _ _ _ _ _ H1).
    + rewrite bool_decide_true by done. rewrite (proj2 (Z.ltb_ge _ _)) by done.
      eexists. split; [done|]. split; [|done].
      destruct Hat as (Hp & Hl & Hd). pose proof (f_equal length Hd) as Hlen.
      rewrite length_drop in Hlen. simpl in *. split_and!; simpl; try ulia.
      rewrite Z2Nat.inj_add, <- drop_drop, Hd by lia. done.
  - intros a r r' rest Hat H. unfold r_optional in H. pose proof (lookup_rest _ _ Hat) as Hlk.
    cbn [as_decoder input offset] in Hlk. rewrite Hlk in H.
    destruct (bool_decide_reflect (rest !! 0%nat = Some Byte.xf6)) as [Hf|Hf].
    + destruct (_ <? _); [done|]. injection H as <- <-. destruct rest as [|b rest]; [done|].
      injection Hf as ->. exists None, rest. split_and!; try done.
      destruct Hat as (Hp & Hl & Hd). pose proof (f_equal length Hd) as Hlen.
      rewrite length_drop in Hlen. simpl in *. split_and!; simpl; try ulia.
      rewrite Z2Nat.inj_add, <- drop_drop, Hd by lia. done.
    + met_bwd Hat H. injection H as <- <-. by exists (Some v), rest0.
Qed.

(** ** The codecs of members, entries and updates *)

Definition member_ok (m : Member) : Prop :=
  1 <= zlen (m_node_id m) <= MAX_NODE_ID_BYTES /\ utf8_valid (m_node_id m) = true /\
  zlen (m_key m) = 33 /\ is_u64 (m_weight m).

Definition opt_u64 (v : option Z) : Prop := match v with Some v => is_u64 v | None => True end.

Definition entry_typed (e : Entry) : Prop :=
  is_u64 (en_epoch e) /\ is_u64 (en_body_kind e) /\ is_word (en_body_id e) /\
  is_word (en_activation_commit_id e) /\ is_u64 (en_start e) /\ opt_u64 (en_end e) /\
  is_u64 (en_signing_scheme e) /\ is_word (en_signing_config_hash e) /\
  1 <= zlen (en_members e) <= MAX_MEMBERS /\ Forall member_ok (en_members e).

Definition update_typed (max_entries : Z) (u : Update) : Prop :=
  0 <= up_network u <= u16_max /\ is_word (up_root_genesis_id u) /\
  is_u64 (up_execution_chain_id u) /\ is_word (up_profile_hash u) /\ is_word (up_parent_hash u) /\
  is_u64 (up_block_number u) /\ is_u64 (up_origin_epoch u) /\ is_u64 (up_origin_round u) /\
  is_word (up_origin_identity u) /\ is_u64 (up_prior_tip_epoch u) /\ opt_u64 (up_old_tip_end u) /\
  zlen (up_new_entries u) <= max_entries /\ Forall entry_typed (up_new_entries u).

Definition members_of (u : Update) : Z := sum_z (map (fun e => zlen (en_members e)) (up_new_entries u)).
Definition entry_cost (e : Entry) : Z := 10 + 4 * zlen (en_members e).

Lemma member_bytes_split m :
  member_to_bytes m =
  head 4 3 ++ text_bytes (m_node_id m) ++ key_bytes (m_key m) ++ head 0 (m_weight m).
Proof. unfold member_to_bytes, text_bytes, key_bytes. by rewrite <- !app_assoc. Qed.

Ltac met_run Hat tac :=
  rewrite <- ?app_assoc in Hat;
  repeat (first [ met_fwd Hat tac | progress eval_ifs ]; rewrite <- ?app_assoc in Hat).

#[global] Instance member_metered decode :
  Metered (parse_member decode) (fun m => if decode then Some m else None) member_to_bytes (fun _ => 4)
    member_ok.
Proof.
  split.
  - intros m r rest (H1 & H2 & H3 & H4) Hat Hc. rewrite member_bytes_split in Hat.
    unfold parse_member. rewrite <- !app_assoc in Hat.
    met_fwd Hat ltac:(done). met_fwd Hat ltac:(done). met_fwd Hat ltac:(done). met_fwd Hat ltac:(done).
    unfold id. rewrite H2, H3. simpl negb. cbv iota. destruct m. simpl.
    exists r3. split; [by destruct decode|]. split; [done|]. split; [lia | congruence].
  - intros a r r' rest Hat H. unfold parse_member in H.
    met_bwd Hat H. met_bwd Hat H. met_bwd Hat H. met_bwd Hat H.
    destruct Hv0 as [Hid Hu]. rewrite Hu, Hv1 in H. simpl in H.
    exists {| m_node_id := v0; m_key := v1; m_weight := v2 |}, rest3.
    assert (a = (if decode then Some {| m_node_id := v0; m_key := v1; m_weight := v2 |} else None)
      /\ r' = r3) as [-> ->] by (destruct decode; by injection H as <- <-).
    rewrite member_bytes_split. rewrite <- !app_assoc. cbn [m_node_id m_key m_weight]. subst.
    split; [done|]. split; [done|]. split; [done|]. split; [lia|]. split; [congruence|].
    exact (conj Hid (conj Hu (conj Hv1 Hv2))).
Qed.

(** [n] rounds of a metered reader. *)
Lemma repeat_metered {B A} (p : update_reader A) (out : B -> A) enc cost ok n :
  (forall v, 0 <= cost v) -> Metered p out enc cost ok ->
  Metered (repeat_reader n p) (map out) (fun l => concat (map enc l)) (fun l => sum_z (map cost l))
    (fun l => length l = n /\ Forall ok l).
Proof.
  intros Hcost Hp. assert (Hsum : forall l, 0 <= sum_z (map cost l)).
  { induction l as [|a l IHl]; [done|]. cbn [map]. rewrite sum_z_cons. specialize (Hcost a). lia. }
  induction n as [|n IH].
  - split.
    + intros l r rest [Hl _] Hat Hc. destruct l; [|done]. exists r. simpl. by rewrite Z.add_0_r.
    + intros l r r' rest Hat [= <- <-]. exists [], rest. simpl. by rewrite Z.add_0_r.
  - split.
    + intros l r rest [Hl Hf] Hat Hc. destruct l as [|x l]; [done|]. injection Hl as Hl.
      apply Forall_cons in Hf as [Hx Hf]. cbn [map concat] in *. rewrite <- app_assoc in Hat.
      rewrite sum_z_cons in *. specialize (Hsum l). specialize (Hcost x). cbn [repeat_reader].
      destruct (met_complete x r _ Hx Hat) as (r1 & H1 & Hat1 & Ht1 & Hl1); [lia|].
      rewrite (sbind_ok _ _ _ _ _ H1).
      destruct (met_complete (Metered := IH) l r1 rest) as (r2 & H2 & Hat2 & Ht2 & Hl2); [done..|lia|].
      rewrite (sbind_ok _ _ _ _ _ H2). exists r2. split; [done|]. split; [done|]. split; [lia | congruence].
    + intros a r r' rest Hat H. cbn [repeat_reader] in H. met_bwd Hat H.
      destruct (met_bind_sound (Metered0 := IH) _ _ _ _ Hat H)
        as (l & rest1 & r1 & -> & Hat1 & Ht1 & Hl1 & [Hlen Hf] & [= <- <-]).
      exists (v :: l), rest1. cbn [map concat]. rewrite <- app_assoc, sum_z_cons. subst.
      split; [done|]. split; [done|]. split; [done|]. split; [lia|]. split; [congruence|].
      split; [simpl; lia | by constructor].
Qed.

Lemma concat_length_lower {A} (enc : A -> bytes) l :
  (forall x, 1 <= zlen (enc x)) -> zlen l <= zlen (concat (map enc l)).
Proof.
  intros He. induction l as [|x l IH]; [done|]. cbn [map concat]. rewrite zlen_cons, zlen_app.
  specialize (He x). lia.
Qed.

Lemma head_length k v : 1 <= zlen (head k v).
Proof. unfold head. repeat case_match; rewrite zlen_cons; match goal with |- context [zlen ?l] =>
  pose proof (zlen_nonneg l) end; lia. Qed.

Lemma member_length m : 1 <= zlen (member_to_bytes m).
Proof.
  unfold member_to_bytes. rewrite zlen_app. pose proof (head_length 4 3).
  match goal with |- context [_ + zlen ?l] => pose proof (zlen_nonneg l) end. lia.
Qed.

Lemma update_entry_length e : 1 <= zlen (update_entry_to_bytes e).
Proof.
  unfold update_entry_to_bytes. rewrite zlen_app. pose proof (head_length 4 9).
  match goal with |- context [_ + zlen ?l] => pose proof (zlen_nonneg l) end. lia.
Qed.

Lemma omap_decoded {A} (decode : bool) (l : list A) :
  omap id (map (fun a => if decode then Some a else None) l) = if decode then l else [].
Proof. destruct decode; induction l; simpl; by f_equal. Qed.

Definition entry_out (decode : bool) (e : Entry) : option Entry * Z :=
  (if decode then Some e else None, zlen (en_members e)).

Lemma sum_const {A} (l : list A) c : sum_z (map (fun _ => c) l) = c * zlen l.
Proof. induction l as [|x l IH]; [unfold zlen; simpl; lia|]. cbn [map]. rewrite sum_z_cons, zlen_cons. lia. Qed.

Lemma members_metered decode n :
  Metered (repeat_reader n (parse_member decode)) (map (fun m => if decode then Some m else None))
    (fun l => concat (map member_to_bytes l)) (fun l => sum_z (map (fun _ => 4) l))
    (fun l => length l = n /\ Forall member_ok l).
Proof. apply repeat_metered; [done | apply member_metered]. Qed.

#[global] Instance entry_metered decode :
  Metered (parse_entry decode) (entry_out decode) update_entry_to_bytes entry_cost entry_typed.
Proof.
  split.
  - intros e r rest He Hat Hc. unfold entry_typed in He.
    destruct He as (? & ? & ? & ? & ? & ? & ? & ? & Hn & Hms).
    unfold parse_entry. unfold update_entry_to_bytes in Hat. unfold entry_cost in Hc.
    rewrite <- !app_assoc in Hat. unfold MAX_MEMBERS in Hn.
    do 9 (met_fwd Hat ltac:(first [assumption | ulia])).
    assert (Hh : head_ok (4, zlen (en_members e))) by (split; simpl; ulia).
    destruct (met_complete (p := r_head) (4, zlen (en_members e)) _ _ Hh Hat)
      as (r9 & H9 & Hat9 & Ht9 & Hl9); [lia|].
    rewrite (sbind_ok _ _ _ _ _ H9). cbv beta iota. unfold id.
    pose proof (at_rest_length _ _ Hat9) as Hlen. cbn [as_decoder input offset] in Hlen.
    unfold sbind at 1, r_remaining. rewrite <- Hlen, zlen_app, Z.eqb_refl.
    pose proof (concat_length_lower _ (en_members e) member_length). pose proof (zlen_nonneg rest).
    rewrite (proj2 (Z.eqb_neq _ _)), !(proj2 (Z.ltb_ge _ _)) by (unfold MAX_MEMBERS; lia).
    cbn [negb orb]. cbv iota.
    destruct (met_complete (Metered := members_metered decode (Z.to_nat (zlen (en_members e))))
      (en_members e) r9 rest) as (r10 & H10 & Hat10 & Ht10 & Hl10).
    { split; [ulia | done]. }
    { done. }
    { rewrite sum_const. lia. }
    rewrite (sbind_ok _ _ _ _ _ H10). change (fun x : option Member => x) with (@id (option Member)).
    rewrite omap_decoded. rewrite sum_const in Ht10.
    exists r10. unfold sret, entry_out. split; [destruct e, decode; done|].
    split; [done|]. split; [unfold entry_cost; lia | congruence].
  - intros a r r' rest Hat H. unfold parse_entry in H. do 10 (met_bwd Hat H). destruct v8 as [m n].
    cbv beta iota in H.
    apply sbind_ok_inv in H as (rem & r10 & [= <- <-] & H).
    destruct (_ || _) eqn:Hb; [done|].
    rewrite !orb_false_iff, negb_false_iff, Z.eqb_eq, Z.eqb_neq, !Z.ltb_ge in Hb.
    destruct Hb as (((-> & Hn0) & Hn) & _). destruct Hv8 as [_ Hn64]. simpl in Hn64.
    destruct (met_bind_sound (Metered0 := members_metered decode (Z.to_nat n)) _ _ _ _ Hat H)
      as (ms & tail & r11 & -> & Hat' & Htk & Hlm & [Hlen Hf] & H').
    rewrite sum_const in Htk. rewrite omap_decoded in H'. assert (n = zlen ms) as -> by ulia.
    exists {| en_epoch := v0; en_body_kind := v1; en_body_id := v2; en_activation_commit_id := v3;
              en_start := v4; en_end := v5; en_signing_scheme := v6; en_signing_config_hash := v7;
              en_members := ms |}, tail.
    injection H' as <- <-. unfold update_entry_to_bytes. rewrite <- !app_assoc.
    split; [by destruct decode|]. split; [by subst|]. split; [done|].
    unfold entry_cost, entry_typed. simpl in *.
    split; [lia|]. split; [congruence|]. split_and!; try assumption; ulia.
Qed.

Lemma entry_cost_bounds e : 0 <= entry_cost e.
Proof. unfold entry_cost. pose proof (zlen_nonneg (en_members e)). lia. Qed.

Lemma entries_metered decode n :
  Metered (repeat_reader n (parse_entry decode)) (map (entry_out decode))
    (fun l => concat (map update_entry_to_bytes l)) (fun l => sum_z (map entry_cost l))
    (fun l => length l = n /\ Forall entry_typed l).
Proof. apply repeat_metered; [apply entry_cost_bounds | apply entry_metered]. Qed.

Lemma entries_decoded decode es :
  omap fst (map (entry_out decode) es) = (if decode then es else []) /\
  sum_z (map snd (map (entry_out decode) es)) = sum_z (map (fun e => zlen (en_members e)) es).
Proof.
  split.
  - destruct decode; induction es as [|e es IH]; [done | exact (f_equal (cons e) IH) | done | exact IH].
  - by rewrite map_map.
Qed.

Definition start_reader (raw : bytes) (limit : Z) : Reader :=
  {| rd_bytes := raw; rd_pos := 0; rd_tokens := 0; rd_limit := limit |}.

Lemma parse_sound raw max_entries limit decode o total :
  zlen raw <= slice_max -> parse raw max_entries limit decode = Ok (o, total) ->
  exists u, raw = update_to_bytes u /\ update_typed max_entries u /\
    o = (if decode then Some u else None) /\ total = members_of u.
Proof.
  intros Hlen H. unfold parse in H. inv_ok H. subst.
  assert (Hat : r_rest (start_reader raw limit) raw) by by apply at_rest_new.
  change {| rd_bytes := raw; rd_pos := 0; rd_tokens := 0; rd_limit := limit |}
    with (start_reader raw limit) in Hok.
  unfold parse_update in Hok. met_bwd Hat Hok. met_bwd Hat Hok.
  destruct (bool_decide_reflect (v0 = UPDATE_DOMAIN)) as [->|]; [|done].
  change (negb true) with false in Hok. cbv iota in Hok. met_bwd Hat Hok.
  destruct (Z.ltb_spec u16_max v0) as [|Hnet]; [done|].
  do 11 (met_bwd Hat Hok). destruct v11 as [m n]. cbv beta iota in Hok.
  apply sbind_ok_inv in Hok as (rem & rx & [= <- <-] & Hok).
  destruct (_ || _) eqn:Hb; [done|].
  rewrite !orb_false_iff, negb_false_iff, Z.eqb_eq, !Z.ltb_ge in Hb.
  destruct Hb as ((-> & Hn) & _). destruct Hv12 as [_ Hn64]. simpl in Hn64.
  destruct (met_bind_sound (Metered0 := entries_metered decode (Z.to_nat n)) _ _ _ _ Hat Hok)
    as (es & tail & ry & -> & Hat' & _ & _ & [Hnum Hf] & Hend).
  apply sbind_ok_inv in Hend as (rem & rz & [= <- <-] & Hend).
  pose proof (at_rest_length _ _ Hat') as Hrem. cbn [as_decoder input offset] in Hrem.
  rewrite <- Hrem in Hend. destruct (Z.eqb_spec (zlen tail) 0) as [->%zlen_nil_inv|]; [|done].
  destruct (entries_decoded decode es) as [Hdec Htot]. simpl in Hend. rewrite Hdec, Htot in Hend.
  injection Hend as <- <- <-. rewrite app_nil_r in *. assert (n = zlen es) as -> by ulia.
  exists {| up_network := v0; up_root_genesis_id := v1; up_execution_chain_id := v2;
    up_profile_hash := v3; up_parent_hash := v4; up_block_number := v5; up_origin_epoch := v6;
    up_origin_round := v7; up_origin_identity := v8; up_prior_tip_epoch := v9; up_old_tip_end := v10;
    up_new_entries := es |}.
  split; [subst; unfold update_to_bytes, text_bytes; by rewrite <- !app_assoc|].
  split; [|split; [by destruct decode | done]].
  unfold update_typed. simpl. split_and!; try assumption; ulia.
Qed.

Definition update_cost (u : Update) : Z := 14 + sum_z (map entry_cost (up_new_entries u)).

Lemma entries_cost_bound es : Forall entry_typed es -> sum_z (map entry_cost es) <= 74 * zlen es.
Proof.
  induction 1 as [|e es He Hes IH]; [done|]. cbn [map]. rewrite sum_z_cons, zlen_cons.
  unfold entry_typed, MAX_MEMBERS in He. destruct_and!. unfold entry_cost at 1. lia.
Qed.

(** The token cap [32 + 266*B] covers every well-typed update. *)
Lemma update_cost_bound k u : update_typed k u -> update_cost u <= 32 + 266 * k.
Proof.
  intros Ht. unfold update_typed in Ht. destruct_and!. unfold update_cost.
  pose proof (entries_cost_bound (up_new_entries u) ltac:(assumption)).
  pose proof (zlen_nonneg (up_new_entries u)). lia.
Qed.

Lemma update_bytes_split u :
  update_to_bytes u = head 4 13 ++ text_bytes UPDATE_DOMAIN ++ head 0 (up_network u) ++
  hash_bytes (up_root_genesis_id u) ++ head 0 (up_execution_chain_id u) ++
  hash_bytes (up_profile_hash u) ++ hash_bytes (up_parent_hash u) ++ head 0 (up_block_number u) ++
  head 0 (up_origin_epoch u) ++ head 0 (up_origin_round u) ++ hash_bytes (up_origin_identity u) ++
  head 0 (up_prior_tip_epoch u) ++ optional (up_old_tip_end u) ++
  head 4 (zlen (up_new_entries u)) ++ concat (map update_entry_to_bytes (up_new_entries u)) ++ [].
Proof. unfold update_to_bytes, text_bytes. by rewrite app_nil_r, <- !app_assoc. Qed.

Lemma parse_complete u k limit decode :
  update_typed k u -> k <= MAX_MEASURED_B -> zlen (update_to_bytes u) <= slice_max ->
  update_cost u <= limit ->
  parse (update_to_bytes u) k limit decode = Ok (if decode then Some u else None, members_of u).
Proof.
  intros Ht Hk Hlen Hc. unfold MAX_MEASURED_B in Hk. unfold update_cost in Hc.
  destruct Ht as (Hnet & ? & ? & ? & ? & ? & ? & ? & ? & ? & ? & Hn & Hes).
  assert (0 <= sum_z (map entry_cost (up_new_entries u))).
  { clear. induction (up_new_entries u) as [|e es IH]; [done|]. cbn [map]. rewrite sum_z_cons.
    pose proof (entry_cost_bounds e). lia. }
  assert (Hat : r_rest (start_reader (update_to_bytes u) limit) (update_to_bytes u))
    by by apply at_rest_new.
  unfold parse. fold (start_reader (update_to_bytes u) limit).
  assert (rd_tokens (start_reader (update_to_bytes u) limit) = 0) as Ht0 by done.
  assert (rd_limit (start_reader (update_to_bytes u) limit) = limit) as Hl0 by done.
  rewrite update_bytes_split in Hat at 2. generalize dependent (start_reader (update_to_bytes u) limit).
  intros r Hat Ht0 Hl0. unfold parse_update. pose proof (zlen_nonneg (up_new_entries u)).
  do 2 (met_fwd Hat ltac:(first [assumption | done])).
  rewrite bool_decide_true by done. change (negb true) with false. cbv iota.
  met_fwd Hat ltac:(ulia). unfold id at 1. rewrite (proj2 (Z.ltb_ge _ _)) by lia.
  do 10 (met_fwd Hat ltac:(first [assumption | ulia])).
  assert (Hh : head_ok (4, zlen (up_new_entries u))) by (split; simpl; ulia).
  destruct (met_complete (p := r_head) (4, zlen (up_new_entries u)) _ _ Hh Hat)
    as (rh & Hrh & Hath & Hth & Hlh); [lia|].
  rewrite (sbind_ok _ _ _ _ _ Hrh). cbv beta iota. unfold id.
  pose proof (at_rest_length _ _ Hath) as Hrem. cbn [as_decoder input offset] in Hrem.
  unfold sbind at 1, r_remaining at 1. rewrite <- Hrem, app_nil_r, Z.eqb_refl.
  pose proof (concat_length_lower _ (up_new_entries u) update_entry_length).
  rewrite !(proj2 (Z.ltb_ge _ _)) by lia. cbn [negb orb]. cbv iota.
  destruct (met_complete (Metered := entries_metered decode (Z.to_nat (zlen (up_new_entries u))))
    (up_new_entries u) rh []) as (re & He & Hate & _ & _); [split; [ulia | done] | done | lia |].
  rewrite (sbind_ok _ _ _ _ _ He).
  pose proof (at_rest_length _ _ Hate) as Hend. cbn [as_decoder input offset] in Hend.
  unfold sbind, r_remaining. rewrite <- Hend. destruct (entries_decoded decode (up_new_entries u)) as [Ho Hm].
  cbn [negb Z.eqb]. change (zlen [] =? 0) with true. cbn [negb]. unfold sret. cbn [rbind].
  change (negb true) with false. cbv iota. rewrite Ho, Hm. by destruct u, decode.
Qed.

(** ** Admission *)

Lemma members_of_nonneg u : 0 <= members_of u.
Proof.
  unfold members_of. induction (up_new_entries u) as [|e es IH]; [done|]. cbn [map].
  change (0 <= zlen (en_members e) + sum_z (map (fun e => zlen (en_members e)) es)).
  pose proof (zlen_nonneg (en_members e)). lia.
Qed.

Definition update_gas (raw : bytes) (u : Update) : Z :=
  UPDATE_SCAN_BASE_GAS + UPDATE_SCAN_BYTE_GAS * zlen raw + MEMBER_GAS * members_of u.

(** ** Sizes: neither the entry cap nor the update cap can refuse a well-typed update *)

Lemma head_length_upper k v : zlen (head k v) <= 9.
Proof. rewrite head_major. apply major_length. Qed.

Lemma optional_length v : zlen (optional v) <= 9.
Proof. destruct v; [apply head_length_upper | by vm_compute]. Qed.

Lemma hash_bytes_length h : is_word h -> zlen (hash_bytes h) <= 41.
Proof. intros Hh. unfold hash_bytes. rewrite zlen_app. pose proof (head_length_upper 2 32). ulia. Qed.

Lemma concat_length_upper {A} (enc : A -> bytes) (P : A -> Prop) bound l :
  (forall x, P x -> zlen (enc x) <= bound) -> Forall P l -> zlen (concat (map enc l)) <= bound * zlen l.
Proof.
  intros He. induction 1 as [|x l Hx Hl IH]; [unfold zlen; simpl; lia|].
  cbn [map concat]. rewrite zlen_cons, zlen_app. specialize (He x Hx). lia.
Qed.

Ltac bound_heads :=
  repeat match goal with
  | |- context [zlen (head ?k ?v)] =>
      let n := fresh "n" in pose proof (head_length_upper k v); set (n := zlen (head k v)) in *; clearbody n
  | |- context [zlen (optional ?v)] =>
      let n := fresh "n" in pose proof (optional_length v); set (n := zlen (optional v)) in *; clearbody n
  | |- context [zlen (hash_bytes ?v)] =>
      let n := fresh "n" in pose proof (hash_bytes_length v ltac:(assumption));
      set (n := zlen (hash_bytes v)) in *; clearbody n
  end.

Lemma member_length_upper m : member_ok m -> zlen (member_to_bytes m) <= 197.
Proof.
  intros (H1 & _ & H3 & _). unfold member_to_bytes, MAX_NODE_ID_BYTES in *. rewrite !zlen_app.
  bound_heads. lia.
Qed.

Lemma entry_length_upper e : entry_typed e -> zlen (update_entry_to_bytes e) <= MAX_ENTRY_BYTES.
Proof.
  intros He. unfold entry_typed, MAX_MEMBERS in He. destruct_and!.
  pose proof (concat_length_upper member_to_bytes member_ok 197 (en_members e) member_length_upper
    ltac:(assumption)).
  unfold update_entry_to_bytes, MAX_ENTRY_BYTES. rewrite !zlen_app. bound_heads. lia.
Qed.

Lemma update_length_upper u : update_typed 2 u -> zlen (update_to_bytes u) <= 4096 + MAX_ENTRY_BYTES * 2.
Proof.
  intros Hu. unfold update_typed in Hu. destruct_and!.
  pose proof (concat_length_upper update_entry_to_bytes entry_typed MAX_ENTRY_BYTES (up_new_entries u)
    entry_length_upper ltac:(assumption)).
  assert (zlen UPDATE_DOMAIN = 17) by done. unfold MAX_ENTRY_BYTES in *.
  unfold update_to_bytes. rewrite !zlen_app. bound_heads. lia.
Qed.

Lemma context_b_ok c k : context_b c = Ok k <-> k = 2 /\ bc_max_epochs c = 2.
Proof.
  unfold context_b, MIN_EPOCHS_PER_UPDATE, MAX_MEASURED_B. split.
  - intros Hk. inv_ok Hk. apply Z.ltb_ge in Heqb, Heqb0. lia.
  - intros [-> ->]. done.
Qed.

Lemma member_budget left members :
  ((left / MEMBER_GAS <? members) = false) <-> MEMBER_GAS * members <= left.
Proof.
  unfold MEMBER_GAS. rewrite Z.ltb_ge. pose proof (Z.div_mod left 1000 ltac:(lia)).
  pose proof (Z.mod_pos_bound left 1000 ltac:(lia)). lia.
Qed.

Section admission.
Context `{Crypto}.

(** What a successful admission established. *)
Lemma admit_inv raw c b budget u g :
  admit_update raw c b budget = Ok {| ad_update := u; ad_gas := g |} ->
  bc_max_epochs c = 2 /\ raw = update_to_bytes u /\ update_typed 2 u /\
  sha256 raw = ub_committed_hash b /\ check_bindings u c b = Ok () /\ check_entries u = Ok () /\
  g = update_gas raw u /\ g <= budget.
Proof.
  unfold admit_update, max_update_bytes, max_tokens, update_gas. intros Ha.
  destruct (context_b c) as [k|] eqn:Hk; [|done].
  apply context_b_ok in Hk as [-> Hk]. cbn [rbind] in Ha. inv_ok Ha. apply Z.ltb_ge in Heqb0, Heqb1.
  assert (Hs : zlen raw <= slice_max) by (unfold slice_max, MAX_ENTRY_BYTES in *; lia).
  destruct a as [o1 t1], a0 as [o2 t2]. simplify_eq.
  apply parse_sound in Hok0 as (u2 & E2 & Hu2 & -> & ->); [|done].
  rewrite E2 in Hok, Hs. rewrite parse_complete in Hok; [|done|done|done|by apply update_cost_bound].
  injection Hok as <- <-. apply member_budget in Heqb2. inv_ok Ha. subst u2 g.
  apply negb_false_iff, bool_decide_eq_true in Heqb3. destruct a, a0.
  split_and!; try done. lia.
Qed.

(** C1: admission of the committed update.  [admit] returns an update and a price if and only if the
    profile's epoch bound is the measured one, the bytes are [to_bytes] of that update, the update is
    well typed (so there is one encoding per update, and neither the byte cap nor the token cap ever
    refuses one), the bytes hash to the committed value, the bindings and the entry rules hold, and
    the price [2000 + 16*C + 1000*T] fits the budget. *)
Theorem admit_spec raw c b budget u g :
  admit_update raw c b budget = Ok {| ad_update := u; ad_gas := g |} <->
  bc_max_epochs c = 2 /\ raw = update_to_bytes u /\ update_typed 2 u /\
  sha256 raw = ub_committed_hash b /\ check_bindings u c b = Ok () /\ check_entries u = Ok () /\
  g = update_gas raw u /\ g <= budget.
Proof.
  split; [apply admit_inv|].
  intros (Hk & -> & Hu & Hh & Hb & He & -> & Hg). pose proof (update_length_upper u Hu) as Hcap.
  unfold admit_update, max_update_bytes, max_tokens, update_gas in *.
  rewrite (proj2 (context_b_ok c 2)) by done. cbn [rbind].
  assert (Hs : zlen (update_to_bytes u) <= slice_max) by (unfold slice_max, MAX_ENTRY_BYTES in *; lia).
  pose proof (members_of_nonneg u).
  rewrite !(proj2 (Z.ltb_ge _ _)) by (unfold MEMBER_GAS in *; lia).
  rewrite !parse_complete by (done || by apply update_cost_bound). cbn [rbind].
  rewrite (proj2 (member_budget _ _)) by lia. rewrite bool_decide_true by done. cbn [negb].
  by rewrite Hb, He.
Qed.
End admission.

(** ** What the entries of an admitted update form *)

Definition covers (e : Entry) (r : Z) : Prop :=
  en_start e <= r /\ match en_end e with Some stop => r < stop | None => True end.

(** Consecutive epochs, each closed where the next starts, the last one open. *)
Fixpoint chained (es : list Entry) : Prop :=
  match es with
  | [] => False
  | e :: rest =>
      match rest with
      | [] => en_end e = None
      | e' :: _ => en_end e = Some (en_start e') /\ en_start e < en_start e' /\
          en_epoch e' = en_epoch e + 1 /\ chained rest
      end
  end.

Record members_valid `{Crypto} (ms : list Member) : Prop := {
  mv_sorted : StronglySorted (fun a b => bytes_lt (m_node_id a) (m_node_id b)) ms;
  mv_keys : NoDup (map m_key ms);
  mv_points : Forall (fun m => is_Some (public_key_from_slice (m_key m))) ms;
  mv_weights : Forall (fun m => m_weight m <> 0) ms;
  mv_cap : sum_z (map m_weight ms) <= WEIGHT_CAP_B }.

(** Appending above the last element of a sorted list. *)
Lemma sorted_snoc (l : list Member) m :
  StronglySorted (fun a b => bytes_lt (m_node_id a) (m_node_id b)) l ->
  (forall prev, last l = Some prev -> bytes_lt (m_node_id prev) (m_node_id m)) ->
  StronglySorted (fun a b => bytes_lt (m_node_id a) (m_node_id b)) (l ++ [m]).
Proof.
  induction 1 as [|a l Hl IH Ha]; intros Hlast; simpl.
  - constructor; constructor.
  - constructor.
    + apply IH. intros prev Hp. apply Hlast. by rewrite last_cons, Hp.
    + apply Forall_app. split; [done|]. constructor; [|constructor].
      destruct (last l) as [p|] eqn:Hp.
      * transitivity (m_node_id p); [|apply Hlast; by rewrite last_cons, Hp].
        rewrite Forall_forall in Ha. apply Ha. by apply last_Some_elem_of.
      * apply Hlast. by rewrite last_cons, Hp.
Qed.

Section entries.
Context `{Crypto}.

Lemma chained_starts es e j e' : chained (e :: es) -> (e :: es) !! j = Some e' -> en_start e <= en_start e'.
Proof.
  revert e j. induction es as [|e2 es IH]; intros e [|j] Hch Hj; simplify_eq/=; [lia|lia|].
  destruct Hch as (_ & ? & _ & Hch). specialize (IH e2 j Hch Hj). lia.
Qed.

Lemma chained_covers es e r :
  chained (e :: es) -> en_start e <= r ->
  exists i, (exists e', (e :: es) !! i = Some e' /\ covers e' r /\ en_epoch e' = en_epoch e + Z.of_nat i) /\
    forall j e', (e :: es) !! j = Some e' -> covers e' r -> j = i.
Proof.
  revert e. induction es as [|e1 es IH]; intros e Hch Hr.
  - simpl in Hch. exists 0%nat. split.
    + exists e. unfold covers. rewrite Hch. split_and!; try done. lia.
    + intros [|j] e' Hj _; [done | by destruct j].
  - destruct Hch as (He & Hlt & Hep & Hch).
    destruct (decide (r < en_start e1)) as [Hlo|Hhi].
    + exists 0%nat. split.
      * exists e. unfold covers. rewrite He. split_and!; try done. lia.
      * intros [|j] e' Hj Hcov; [done|]. exfalso.
        pose proof (chained_starts _ _ _ _ Hch Hj). destruct Hcov. lia.
    + destruct (IH e1 Hch) as (i & (e' & Hi & Hcov & Hepi) & Huniq); [lia|].
      exists (S i). split.
      * exists e'. split_and!; try done. lia.
      * intros [|j] e'' Hj Hc.
        -- simplify_eq/=. unfold covers in Hc. rewrite He in Hc. lia.
        -- f_equal. by apply (Huniq j e'').
Qed.

Lemma chained_last es e : chained (e :: es) ->
  en_end (List.last (e :: es) e) = None /\
  en_epoch (List.last (e :: es) e) = en_epoch e + zlen es.
Proof.
  revert e. induction es as [|e1 es IH]; intros e Hch.
  - simpl in *. split; [done|]. change (zlen []) with 0. lia.
  - destruct Hch as (_ & _ & He & Hch). destruct (IH e1 Hch) as [H1 H2].
    change (List.last (e :: e1 :: es) e) with (List.last (e1 :: es) e).
    assert (Hlast : List.last (e1 :: es) e = List.last (e1 :: es) e1).
    { clear. revert e1. induction es as [|x es IH]; intros e1; [done|]. simpl in *. destruct es; [done|]. apply IH. }
    rewrite Hlast, zlen_cons. split; [done | lia].
Qed.

Lemma checked_succ a b : is_u64 b -> (checked_add a 1 = Some b <-> b = a + 1).
Proof. intros Hb. unfold checked_add. case_match; split; intros; simplify_eq; try done; ulia. Qed.

(** What one round of the entry loop establishes. *)
Record entry_admitted (u : Update) (e : Entry) : Prop := {
  ea_kind : en_body_kind e = 2 \/ en_body_kind e = 3;
  ea_identity : en_body_id e <> ZERO32 /\ en_signing_config_hash e <> ZERO32 /\
    en_activation_commit_id e <> ZERO32;
  ea_interval : match en_end e with
    | Some stop => en_start e < stop <= up_origin_round u
    | None => en_start e <= up_origin_round u end;
  ea_newer : up_prior_tip_epoch u < en_epoch e;
  ea_members : members_valid (en_members e) }.

Lemma check_members_from_ok seen total l t :
  StronglySorted (fun a b => bytes_lt (m_node_id a) (m_node_id b)) seen -> NoDup (map m_key seen) ->
  check_members_from seen total l = Ok t ->
  StronglySorted (fun a b => bytes_lt (m_node_id a) (m_node_id b)) (seen ++ l) /\
  NoDup (map m_key (seen ++ l)) /\ t = total + sum_z (map m_weight l) /\
  Forall (fun m => is_Some (public_key_from_slice (m_key m))) l /\
  Forall (fun m => m_weight m <> 0) l.
Proof.
  revert seen total. induction l as [|m l IH]; intros seen total Hs Hk Hc.
  - simpl in Hc. injection Hc as <-. rewrite app_nil_r. split_and!; try done. change (sum_z _) with 0. lia.
  - cbn [check_members_from] in Hc. inv_ok Hc. apply ok_or_inv in Hok, Hok0. apply Z.eqb_neq in Heqb0.
    apply IH in Hc as (H1 & H2 & -> & H4 & H5).
    + rewrite <- app_assoc in H1, H2. split_and!; try done; try by constructor.
      cbn [map]. rewrite sum_z_cons. unfold checked_add in Hok0. case_match; simplify_eq. lia.
    + apply sorted_snoc; [done|]. intros prev Hl. rewrite Hl in Heqb. by apply negb_false_iff in Heqb.
    + rewrite map_app. apply NoDup_app. split; [done|]. split; [|apply NoDup_singleton].
      intros k Hin ->%list_elem_of_singleton. apply list_elem_of_fmap in Hin as (p & Hp & Hin).
      enough (existsb (fun prev => bool_decide (m_key prev = m_key m)) seen = true) by congruence.
      apply existsb_exists. exists p. split; [by apply list_elem_of_In | by apply bool_decide_eq_true].
Qed.

Lemma check_members_ok e : check_members e = Ok () -> members_valid (en_members e).
Proof.
  unfold check_members. intros Hc. inv_ok Hc. apply Z.ltb_ge in Heqb.
  apply check_members_from_ok in Hok as (H1 & H2 & -> & H4 & H5); [|constructor..].
  split; try done; lia.
Qed.

Lemma check_entries_from_ok u prev l :
  check_entries_from u prev l = Ok () ->
  Forall (entry_admitted u) l /\
  match prev, l with
  | Some p, e :: _ => checked_add (en_epoch p) 1 = Some (en_epoch e) /\ en_end p = Some (en_start e)
  | _, _ => True
  end /\
  match l with [] => True | e :: l => check_entries_from u (Some e) l = Ok () end.
Proof.
  revert prev. induction l as [|e l IH]; intros prev Hc; [by split; [constructor|]; destruct prev|].
  cbn [check_entries_from] in Hc. inv_ok Hc. destruct a. pose proof (IH _ Hc) as (Hl & _ & _).
  unfold entry_validate in Hok. inv_ok Hok. apply check_members_ok in Hok.
  rewrite !orb_false_iff, !negb_false_iff, !bool_decide_eq_false, andb_true_iff, orb_true_iff,
    !Z.leb_le, !Z.eqb_eq, eqb_true_iff in Heqb4.
  destruct Heqb4 as ((((Hk & Hid) & Hcfg) & _) & Hact).
  apply Z.eqb_neq in Heqb. rewrite (proj2 (Z.eqb_neq _ _) Heqb) in Hact. symmetry in Hact.
  apply bool_decide_eq_false in Hact. apply Z.leb_gt in Heqb0. apply Z.ltb_ge in Heqb1.
  split; [constructor; [|done]|split; [|done]].
  - split; try done; [lia|]. destruct (en_end e); [|done].
    apply Z.leb_gt in Heqb5. apply Z.ltb_ge in Heqb2. lia.
  - destruct prev as [p|]; [|done].
    apply orb_false_iff in Heqb3 as [H1%negb_false_iff%bool_decide_eq_true H2%negb_false_iff%bool_decide_eq_true].
    done.
Qed.

Lemma check_entries_chained u prev e es :
  Forall entry_typed (e :: es) -> check_entries_from u prev (e :: es) = Ok () ->
  en_end (List.last (e :: es) e) = None -> chained (e :: es).
Proof.
  revert prev e. induction es as [|e1 es IH]; intros prev e Ht Hc Hlast; [done|].
  apply check_entries_from_ok in Hc as (Hadm & _ & Hc).
  pose proof (check_entries_from_ok _ _ _ Hc) as (_ & [Hep Hend] & _).
  apply Forall_cons in Ht as [_ Ht]. pose proof Ht as [He1 _]%Forall_cons.
  apply checked_succ in Hep; [|apply He1].
  apply Forall_cons in Hadm as [[_ _ Hint _ _] _]. rewrite Hend in Hint.
  split; [done|]. split; [lia|]. split; [done|]. apply (IH (Some e)); [done..|].
  change (List.last (e :: e1 :: es) e) with (List.last (e1 :: es) e) in Hlast.
  rewrite <- Hlast. clear. revert e1. induction es as [|x es IH]; intros e1; [done|].
  simpl in *. destruct es; [done | apply IH].
Qed.

(** C13: the entries of an admitted update are the root history from their first start to the origin.
    An empty update names the tip as the origin epoch.  Otherwise the entries carry consecutive epochs
    above the prior tip and up to the origin epoch; every root round from the first start on is
    covered by exactly one entry, whose epoch is determined by its position, and no earlier round is
    covered by any; every entry's committee is sorted, free of duplicate keys, made of valid points
    and positive weights within the cap.  The former tip is closed no later than the first start.
    When the first entry is of the tip's next epoch it is closed exactly there, so every round from
    the tip's end on is covered; an update that skips epochs may leave the rounds between the two
    uncovered. *)
Theorem admitted_entries raw c b budget a :
  admit_update raw c b budget = Ok a ->
  let u := ad_update a in
  match up_new_entries u with
  | [] => up_old_tip_end u = None /\ up_prior_tip_epoch u = up_origin_epoch u
  | first :: rest =>
      (exists stop, up_old_tip_end u = Some stop /\ stop <= en_start first /\
        (en_epoch first = up_prior_tip_epoch u + 1 -> stop = en_start first)) /\
      up_prior_tip_epoch u < en_epoch first /\ up_origin_epoch u = en_epoch first + zlen rest /\
      Forall (entry_admitted u) (first :: rest) /\
      (forall r, en_start first <= r -> exists i,
        (exists e, (first :: rest) !! i = Some e /\ covers e r /\ en_epoch e = en_epoch first + Z.of_nat i) /\
        (forall j e, (first :: rest) !! j = Some e -> covers e r -> j = i)) /\
      (forall j e r, (first :: rest) !! j = Some e -> covers e r -> en_start first <= r)
  end.
Proof.
  destruct a as [u g]. intros (_ & _ & Ht & _ & _ & He & _)%admit_inv. cbv zeta. cbn [ad_update].
  unfold check_entries in He. destruct Ht as (_ & _ & _ & _ & _ & _ & _ & _ & _ & _ & _ & _ & Hes).
  destruct (up_new_entries u) as [|first rest]; inv_ok He.
  - apply orb_false_iff in Heqb0 as [Hn%bool_decide_eq_false Hp%negb_false_iff%Z.eqb_eq].
    split; [|done]. by destruct (up_old_tip_end u); [destruct Hn|].
  - apply ok_or_inv in Hok0. apply orb_false_iff in Heqb0 as [Hle%Z.ltb_ge Hnext].
    apply orb_false_iff in Heqb1 as [Hopen%bool_decide_eq_false Htail%negb_false_iff%Z.eqb_eq].
    destruct a. pose proof (check_entries_from_ok _ _ _ Hok) as (Hadm & _ & _).
    pose proof Hes as [Hf64 _]%Forall_cons.
    assert (Hch : chained (first :: rest)).
    { apply (check_entries_chained u None); [done..|].
      by destruct (en_end (List.last (first :: rest) first)); [destruct Hopen|]. }
    destruct (chained_last _ _ Hch) as [_ Hlast].
    split; [|split; [|split; [|split; [done|split]]]].
    + exists a0. split_and!; try done. intros Heq. apply andb_false_iff in Hnext as [Hn|Hn].
      * apply bool_decide_eq_false in Hn. destruct Hn. apply checked_succ; [apply Hf64 | done].
      * by apply negb_false_iff, Z.eqb_eq in Hn.
    + by apply Forall_cons in Hadm as [[_ _ _ ? _] _].
    + lia.
    + intros r Hr. by apply chained_covers.
    + intros j e r Hj [Hs _]. pose proof (chained_starts _ _ _ _ Hch Hj). lia.
Qed.
End entries.

(** ** The system-gas envelope *)

Definition hook_typed (h : RecordsHook) : Prop :=
  0 <= h_records h <= u32_max /\ is_u64 (record_gas h) /\ is_u64 (elect_gas h).

Lemma envelope_gas_range h g : hook_typed h -> envelope_gas h = Ok g -> is_u64 g.
Proof.
  intros (H1 & H2 & H3) Hg. unfold envelope_gas in Hg. inv_ok Hg; [by subst|].
  unfold checked_mul, checked_add, HOOK_READS_GAS in Hg.
  repeat (case_match; simpl in Hg; try done). injection Hg as <-. simplify_eq. ulia.
Qed.

(** The envelope of the measured profile (two epochs per update) with a given hook reservation. *)
Definition envelope (hook : Z) : Z :=
  UPDATE_GAS_BASE + REST_GAS_BASE + (EPOCH_GAS + REST_GAS_PER_EPOCH) * 2 + IMPORT_ENVELOPE_GAS + hook.

(** C36: the reservation check.  A job is bound to a profile only when both companions hash to the
    committed values and the profile reserves the computed envelope.  The computed envelope is the
    documented sum as long as that sum fits 64 bits; beyond, the unchecked addition wraps (release
    builds) and the required reservation drops below the hook's own share of it. *)
Theorem check_bound_envelope `{Crypto} j input profile :
  hook_typed (bc_hook (bj_context j)) -> check_bound j input profile = Ok () ->
  sha256 (bj_update j) = ri_b1_update_hash input /\ sha256 (bj_records j) = ri_root_records_hash input /\
  bc_max_epochs (bj_context j) = 2 /\
  exists hook, envelope_gas (bc_hook (bj_context j)) = Ok hook /\
    (envelope hook <= u64_max -> envelope hook <= system_gas profile) /\
    (u64_max < envelope hook ->
       required_system_gas (bj_context j) = Ok (envelope hook - 2 ^ 64) /\ envelope hook - 2 ^ 64 < hook).
Proof.
  intros Ht Hc. unfold check_bound in Hc. inv_ok Hc. apply map_err_ok_inv in Hok.
  apply negb_false_iff, bool_decide_eq_true in Heqb, Heqb0. apply Z.ltb_ge in Heqb1.
  split; [done|]. split; [done|]. pose proof Hok as Hreq. unfold required_system_gas in Hok.
  inv_ok Hok. apply context_b_ok in Hok0 as [-> ->]. split; [done|].
  apply map_err_ok_inv in Hok1. pose proof (envelope_gas_range _ _ Ht Hok1) as Hh.
  exists a1. split; [done|]. fold (envelope a1) in Hok.
  assert (0 <= envelope a1 < a1 + 2 ^ 64 /\ envelope a1 < 2 * 2 ^ 64).
  { assert (envelope a1 = envelope 0 + a1) as -> by (unfold envelope; lia).
    assert (envelope 0 = 26802168) by done. ulia. }
  unfold wrap64 in Hok. change 18446744073709551616 with (2 ^ 64) in Hok. split; intros Hfit.
  - rewrite Z.mod_small in Hok by ulia. lia.
  - assert (envelope a1 mod 2 ^ 64 = envelope a1 - 2 ^ 64) as Hm.
    { rewrite <- (Z.mod_small (envelope a1 - 2 ^ 64) (2 ^ 64)) by ulia.
      rewrite <- (Z.mod_add (envelope a1 - 2 ^ 64) 1) by lia. f_equal. lia. }
    rewrite Hreq, <- Hok, Hm. split; [done | lia].
Qed.

(** ** Samples *)

Definition sample_key (n : Z) : bytes := z2b 2 :: be_bytes 32 n.

Definition sample_entry : Entry := {|
  en_epoch := 5; en_body_kind := 2; en_body_id := word_of 51; en_activation_commit_id := word_of 52;
  en_start := 60; en_end := None; en_signing_scheme := 1; en_signing_config_hash := word_of 53;
  en_members := [ {| m_node_id := ascii "a"; m_key := sample_key 1; m_weight := 3 |};
                  {| m_node_id := ascii "b"; m_key := sample_key 2; m_weight := 4 |} ] |}.

Definition sample_update : Update := {|
  up_network := 3; up_root_genesis_id := word_of 41; up_execution_chain_id := 7;
  up_profile_hash := word_of 42; up_parent_hash := word_of 43; up_block_number := 10;
  up_origin_epoch := 5; up_origin_round := 100; up_origin_identity := word_of 44;
  up_prior_tip_epoch := 4; up_old_tip_end := Some 60; up_new_entries := [sample_entry] |}.

Definition sample_context (hook : RecordsHook) : B1Context := {|
  bc_network := 3; bc_root_genesis_id := word_of 41; bc_execution_chain_id := 7;
  bc_profile_hash := word_of 42; bc_genesis_commitment := word_of 45; bc_max_epochs := 2;
  bc_hook := hook |}.

Definition sample_binding : UpdateBinding := {|
  ub_committed_hash := toy_hash (update_to_bytes sample_update); ub_parent_hash := word_of 43;
  ub_parent_number := 9; ub_origin_epoch := 5; ub_origin_round := 100; ub_origin_identity := word_of 44 |}.

Definition sample_admitted : Admitted_update :=
  {| ad_update := sample_update; ad_gas := update_gas (update_to_bytes sample_update) sample_update |}.

Lemma admitted_entries_witness :
  (exists stop, Some 60 = Some stop /\ stop <= 60 /\ (5 = 4 + 1 -> stop = 60)) /\
  4 < 5 /\ 5 = 5 + zlen ([] : list Entry) /\
  Forall (entry_admitted (H := toy_crypto) sample_update) [sample_entry] /\
  (forall r, 60 <= r -> exists i,
    (exists e, [sample_entry] !! i = Some e /\ covers e r /\ en_epoch e = 5 + Z.of_nat i) /\
    (forall j e, [sample_entry] !! j = Some e -> covers e r -> j = i)) /\
  (forall j e r, [sample_entry] !! j = Some e -> covers e r -> 60 <= r).
Proof.
  exact (admitted_entries (H := toy_crypto) (update_to_bytes sample_update) (sample_context sample_hook)
    sample_binding 100000 sample_admitted ltac:(vm_compute; reflexivity)).
Defined.

(** The same entry above a tip two epochs back, closed at round 50: rounds 50 to 59 have no entry. *)
Definition gap_update : Update := {|
  up_network := 3; up_root_genesis_id := word_of 41; up_execution_chain_id := 7;
  up_profile_hash := word_of 42; up_parent_hash := word_of 43; up_block_number := 10;
  up_origin_epoch := 5; up_origin_round := 100; up_origin_identity := word_of 44;
  up_prior_tip_epoch := 3; up_old_tip_end := Some 50; up_new_entries := [sample_entry] |}.

Lemma gap_admitted :
  check_entries (H := toy_crypto) gap_update = Ok () /\ forall e r, e ∈ up_new_entries gap_update -> covers e r -> 60 <= r.
Proof. split; [vm_compute; reflexivity|]. by intros e r ->%list_elem_of_singleton [? _]. Qed.

(** A hook whose reservation alone fills 64 bits: the wrapped envelope is 26,802,167 gas. *)
Definition huge_hook : RecordsHook := {|
  custody := sample_custody; h_records := 1; record_gas := u64_max - HOOK_READS_GAS; election := ZERO20;
  elect_gas := 0 |}.

Definition huge_job : B1Job := {|
  bj_context := sample_context huge_hook; bj_update := ascii "update"; bj_records := ascii "records" |}.

Definition small_profile : BlockProfile := {|
  max_gas := 60000000; system_gas := 30000000; base_fee_floor := 7; elasticity := 2;
  change_denominator := 8 |}.

Lemma check_bound_envelope_witness :
  exists hook, envelope_gas huge_hook = Ok hook /\ (envelope hook <= u64_max -> envelope hook <= 30000000) /\
    (u64_max < envelope hook ->
       required_system_gas (sample_context huge_hook) = Ok (envelope hook - 2 ^ 64) /\
       envelope hook - 2 ^ 64 < hook).
Proof.
  refine (proj2 (proj2 (proj2 (check_bound_envelope (H := toy_crypto) huge_job (sample_root [z2b 1])
    small_profile _ _)))); [|vm_compute; reflexivity].
  split; [split; vm_compute; discriminate|]. split; split; vm_compute; discriminate.
Defined.
