(* ===== verification/PairBinding.v ===== *)
(** The paired-execution binding: [crates/unicity/execution/src/pairing.rs].

    [verify_pair_binding] decodes a canonical binding and compares it with what the node holds.  The
    main theorem characterises the accepted bindings exactly, through [reference_binding]; a second
    one isolates the one field that is carried without a comparison. *)
From S2P Require Import Prelude CborCodec Crypto Errors RootInput.

Definition PAIR_BINDING_DOMAIN : bytes := ascii "UNICITY_PAIR_BINDING".
Definition PAIR_BINDING_VERSION : Z := 1.
Definition PAIR_JOB_DOMAIN : bytes := ascii "UNICITY_PAIR_JOB".
Definition MAX_PAIR_BINDING_BYTES : Z := 512.
Definition SUBJECT_BUILD : Z := 1.
Definition SUBJECT_IMPORT : Z := 2.

Inductive PairSubject :=
| Build (attributes_digest : bytes)
| Import (block_hash : bytes).

Definition subject_kind (s : PairSubject) : Z :=
  match s with Build _ => SUBJECT_BUILD | Import _ => SUBJECT_IMPORT end.

Definition subject_id (s : PairSubject) : bytes :=
  match s with Build digest => digest | Import hash => hash end.

Record PairBinding := {
  pb_network_id : Z;
  pb_root_genesis_id : bytes;
  pb_execution_genesis_hash : bytes;
  pb_parent_hash : bytes;
  pb_parent_number : Z;
  pb_origin_root_epoch : Z;
  pb_origin_root_round : Z;
  pb_configuration_id : bytes;
  pb_activation_id : bytes;
  pb_root_input_hash : bytes;
  pb_transitions_hash : bytes;
  pb_subject : PairSubject }.

#[global] Instance pair_subject_eq_decision : EqDecision PairSubject.
Proof. solve_decision. Defined.
#[global] Instance pair_binding_eq_decision : EqDecision PairBinding.
Proof. solve_decision. Defined.

Inductive PairBindingError :=
| Missing
| PairTooLarge (len : Z)
| Malformed (error : CanonicalCborError)
| WrongDomain
| WrongVersion (version : Z)
| UnknownSubject (kind : Z)
| ZeroIdentity (name : string)
| PairRootInput (error : ExecutionError)
| NetworkMismatch
| RootGenesisMismatch
| ExecutionGenesisMismatch
| InputNetworkMismatch
| ParentHashMismatch
| ParentNumberMismatch
| OriginEpochMismatch
| OriginRoundMismatch
| ConfigurationMismatch
| ActivationMismatch
| RootInputMismatch
| TransitionsMismatch
| WrongSubjectKind (expected found : Z)
| JobMismatch
| BlockMismatch.

Record PairPins := { pp_network_id : Z; pp_root_genesis_id : bytes }.

(** [ExpectedSubject] has the constructors of [PairSubject]. *)
Inductive ExpectedSubject :=
| ExpectBuild (attributes_digest : bytes)
| ExpectImport (block_hash : bytes).

(** The fields of a sealed header the module reads. *)
Record Header := {
  h_hash : bytes;
  h_number : Z;
  h_timestamp : Z;
  h_mix_hash : bytes;
  h_beneficiary : bytes;
  h_parent_beacon_block_root : option bytes }.

Record PairContext := {
  pc_pins : PairPins;
  pc_execution_genesis_hash : bytes;
  pc_parent : Header;
  pc_root : RootInputV2;
  pc_subject : ExpectedSubject }.

(** ** Codec *)

Definition pair_canonical_cbor (b : PairBinding) : bytes :=
  array 15 ++ text PAIR_BINDING_DOMAIN ++ uint PAIR_BINDING_VERSION ++ uint (pb_network_id b) ++
  byte_string (pb_root_genesis_id b) ++ byte_string (pb_execution_genesis_hash b) ++
  byte_string (pb_parent_hash b) ++ uint (pb_parent_number b) ++ uint (pb_origin_root_epoch b) ++
  uint (pb_origin_root_round b) ++ byte_string (pb_configuration_id b) ++
  byte_string (pb_activation_id b) ++ byte_string (pb_root_input_hash b) ++
  byte_string (pb_transitions_hash b) ++ uint (subject_kind (pb_subject b)) ++
  byte_string (subject_id (pb_subject b)).

Definition mal {A} (p : reader Decoder CanonicalCborError A) : reader Decoder PairBindingError A :=
  via Malformed p.

Definition subject_of (kind : Z) (id : bytes) : result PairBindingError PairSubject :=
  if kind =? SUBJECT_BUILD then Ok (Build id)
  else if kind =? SUBJECT_IMPORT then Ok (Import id)
  else Err (UnknownSubject kind).

(** The loop over the named identities. *)
Definition check_identities (words : list (string * bytes)) : result PairBindingError () :=
  each (fun '(name, word) => if bool_decide (word = ZERO32) then Err (ZeroIdentity name) else Ok ()) words.

Definition decode_pair_binding : reader Decoder PairBindingError PairBinding :=
  let* arity := mal read_array in
  if negb (arity =? 15) then fail (Malformed (WrongArity 15 arity)) else
  let* domain := mal read_text in
  if negb (bool_decide (domain = PAIR_BINDING_DOMAIN)) then fail WrongDomain else
  let* version := mal read_uint in
  if negb (version =? PAIR_BINDING_VERSION) then fail (WrongVersion version) else
  let* network_id := mal read_uint in
  let* root_genesis_id := mal read_word in
  let* execution_genesis_hash := mal read_word in
  let* parent_hash := mal read_word in
  let* parent_number := mal read_uint in
  let* origin_root_epoch := mal read_uint in
  let* origin_root_round := mal read_uint in
  let* configuration_id := mal read_word in
  let* activation_id := mal read_word in
  let* root_input_hash := mal read_word in
  let* transitions_hash := mal read_word in
  let* kind := mal read_uint in
  let* subject_id := mal read_word in
  let* _ := mal finish in
  let* subject := lift (subject_of kind subject_id) in
  let* _ := lift (check_identities
    [("rootGenesisId", root_genesis_id); ("executionGenesisHash", execution_genesis_hash);
     ("parentHash", parent_hash); ("configurationId", configuration_id);
     ("activationId", activation_id); ("rootInputHash", root_input_hash);
     ("transitionsHash", transitions_hash); ("subjectId", subject_id)]) in
  sret {| pb_network_id := network_id; pb_root_genesis_id := root_genesis_id;
    pb_execution_genesis_hash := execution_genesis_hash; pb_parent_hash := parent_hash;
    pb_parent_number := parent_number; pb_origin_root_epoch := origin_root_epoch;
    pb_origin_root_round := origin_root_round; pb_configuration_id := configuration_id;
    pb_activation_id := activation_id; pb_root_input_hash := root_input_hash;
    pb_transitions_hash := transitions_hash; pb_subject := subject |}.

Definition pair_from_canonical_cbor (raw : bytes) : result PairBindingError PairBinding :=
  if bool_decide (raw = []) then Err Missing else
  if MAX_PAIR_BINDING_BYTES <? zlen raw then Err (PairTooLarge (zlen raw)) else
  let? (b, _) := decode_pair_binding (new_decoder raw) in Ok b.

(** ** Verification *)

Section hashed.
Context `{Crypto}.

Definition transitions_hash (transitions : list bytes) : bytes :=
  sha256 (array (zlen transitions) ++ concat (map byte_string transitions)).

Definition attributes_digest (timestamp : Z) (prev_randao fee_recipient beacon_root : bytes) : bytes :=
  sha256 (array 6 ++ text PAIR_JOB_DOMAIN ++ uint 1 ++ uint timestamp ++ byte_string prev_randao ++
          byte_string fee_recipient ++ byte_string beacon_root).

Definition header_attributes_digest (h : Header) : option bytes :=
  root ← h_parent_beacon_block_root h;
  Some (attributes_digest (h_timestamp h) (h_mix_hash h) (h_beneficiary h) root).

Definition check_subject (found : PairSubject) (expected : ExpectedSubject) : result PairBindingError () :=
  match found, expected with
  | Build digest, ExpectBuild wanted => if negb (bool_decide (digest = wanted)) then Err JobMismatch else Ok ()
  | Import hash, ExpectImport wanted => if negb (bool_decide (hash = wanted)) then Err BlockMismatch else Ok ()
  | found, ExpectBuild _ => Err (WrongSubjectKind SUBJECT_BUILD (subject_kind found))
  | found, ExpectImport _ => Err (WrongSubjectKind SUBJECT_IMPORT (subject_kind found))
  end.

Definition verify_pair_binding (raw : bytes) (ctx : PairContext) : result PairBindingError PairBinding :=
  let? binding := pair_from_canonical_cbor raw in
  let root := pc_root ctx in
  let origin := ri_origin root in
  if negb (pb_network_id binding =? pp_network_id (pc_pins ctx)) then Err NetworkMismatch else
  if negb (bool_decide (pb_root_genesis_id binding = pp_root_genesis_id (pc_pins ctx)))
  then Err RootGenesisMismatch else
  if negb (bool_decide (pb_execution_genesis_hash binding = pc_execution_genesis_hash ctx))
  then Err ExecutionGenesisMismatch else
  if negb (ri_network_id root =? pb_network_id binding) then Err InputNetworkMismatch else
  if negb (bool_decide (pb_parent_hash binding = h_hash (pc_parent ctx)))
  then Err ParentHashMismatch else
  if negb (pb_parent_number binding =? h_number (pc_parent ctx)) then Err ParentNumberMismatch else
  if negb (pb_origin_root_epoch binding =? ro_root_epoch origin) then Err OriginEpochMismatch else
  if negb (pb_origin_root_round binding =? ro_root_round origin) then Err OriginRoundMismatch else
  if negb (bool_decide (pb_configuration_id binding = ro_shard_conf_hash origin))
  then Err ConfigurationMismatch else
  let? _ := match ri_transitions root with
    | raw_transition :: _ =>
        let? t := map_err (fun _ => ActivationMismatch) (decode_epoch_transition raw_transition) in
        if negb (bool_decide (pb_activation_id binding = et_commit_id t))
        then Err ActivationMismatch else Ok ()
    | [] => Ok ()
    end in
  let? commitment := map_err PairRootInput (input_commitment root) in
  if negb (bool_decide (pb_root_input_hash binding = commitment)) then Err RootInputMismatch else
  if negb (bool_decide (pb_transitions_hash binding = transitions_hash (ri_transitions root)))
  then Err TransitionsMismatch else
  let? _ := check_subject (pb_subject binding) (pc_subject ctx) in
  Ok binding.

Definition expected (s : ExpectedSubject) : PairSubject :=
  match s with ExpectBuild digest => Build digest | ExpectImport hash => Import hash end.

Definition reference_binding (ctx : PairContext) (activation_id : bytes)
    : result PairBindingError PairBinding :=
  let root := pc_root ctx in
  let origin := ri_origin root in
  let? activation_id := match ri_transitions root with
    | raw :: _ =>
        let? t := map_err (fun _ => ActivationMismatch) (decode_epoch_transition raw) in
        Ok (et_commit_id t)
    | [] => Ok activation_id
    end in
  let? root_input_hash := map_err PairRootInput (input_commitment root) in
  Ok {| pb_network_id := pp_network_id (pc_pins ctx);
        pb_root_genesis_id := pp_root_genesis_id (pc_pins ctx);
        pb_execution_genesis_hash := pc_execution_genesis_hash ctx;
        pb_parent_hash := h_hash (pc_parent ctx);
        pb_parent_number := h_number (pc_parent ctx);
        pb_origin_root_epoch := ro_root_epoch origin;
        pb_origin_root_round := ro_root_round origin;
        pb_configuration_id := ro_shard_conf_hash origin;
        pb_activation_id := activation_id;
        pb_root_input_hash := root_input_hash;
        pb_transitions_hash := transitions_hash (ri_transitions root);
        pb_subject := expected (pc_subject ctx) |}.
End hashed.

(** ** The codec of bindings *)

Definition identities (b : PairBinding) : list bytes :=
  [pb_root_genesis_id b; pb_execution_genesis_hash b; pb_parent_hash b; pb_configuration_id b;
   pb_activation_id b; pb_root_input_hash b; pb_transitions_hash b; subject_id (pb_subject b)].

(** Fields of their Rust types, no all-zero identity. *)
Definition binding_ok (b : PairBinding) : Prop :=
  is_u64 (pb_network_id b) /\ is_u64 (pb_parent_number b) /\ is_u64 (pb_origin_root_epoch b) /\
  is_u64 (pb_origin_root_round b) /\ Forall is_word (identities b) /\
  Forall (fun w => w <> ZERO32) (identities b).

#[global] Instance mal_codec {A} (p : reader Decoder CanonicalCborError A) enc ok :
  Codec p enc ok -> Codec (mal p) enc ok.
Proof. intros. apply via_codec. Qed.

Lemma subject_of_kind s : subject_of (subject_kind s) (subject_id s) = Ok s.
Proof. by destruct s. Qed.

Lemma subject_of_ok kind id s : subject_of kind id = Ok s -> kind = subject_kind s /\ id = subject_id s.
Proof.
  unfold subject_of. repeat case_match; intros; simplify_eq; rewrite Z.eqb_eq in *; done.
Qed.

Lemma check_identities_ok words :
  check_identities words = Ok () <-> Forall (fun w => w <> ZERO32) (map snd words).
Proof.
  unfold check_identities. rewrite each_ok_Forall, List.Forall_map.
  split; intros Hf; (eapply Forall_impl; [exact Hf|]); intros [name w]; simpl;
    destruct (bool_decide_reflect (w = ZERO32)); done.
Qed.

Lemma pair_cbor_length b : binding_ok b -> 0 < zlen (pair_canonical_cbor b) <= MAX_PAIR_BINDING_BYTES.
Proof.
  intros (_ & _ & _ & _ & Hw & _). unfold identities in Hw. rewrite !Forall_cons in Hw. destruct_and!.
  split.
  - unfold pair_canonical_cbor. change (array 15) with [z2b 143]. rewrite zlen_app.
    match goal with |- context [_ + zlen ?l] => pose proof (zlen_nonneg l) end. change (zlen [_]) with 1. lia.
  - assert (zlen PAIR_BINDING_DOMAIN = 20) by done.
    unfold pair_canonical_cbor, MAX_PAIR_BINDING_BYTES.
    rewrite !zlen_app, !word_string_length by done.
    bound_sizes. lia.
Qed.

Lemma pair_decode_sound raw b :
  pair_from_canonical_cbor raw = Ok b -> raw = pair_canonical_cbor b /\ binding_ok b.
Proof.
  unfold pair_from_canonical_cbor. intros Hd. inv_ok Hd. subst. apply Z.ltb_ge in Heqb1.
  assert (Hlen : zlen raw <= slice_max) by (unfold slice_max, MAX_PAIR_BINDING_BYTES in *; lia).
  pose proof (at_rest_new _ Hlen) as Hat. unfold decode_pair_binding in Hok. codec_inv Hat Hok.
  apply sbind_ok_inv in Hok as ([] & dx & Hf%map_err_ok_inv & Hok).
  destruct (finish_ok _ _ _ Hat Hf) as [-> ->]. rewrite app_nil_r in *.
  inv_ok Hok. subst. destruct a0. apply subject_of_ok in Hok0 as [-> ->].
  apply check_identities_ok in Hok1. split; [done|]. unfold binding_ok, identities. simpl.
  split_and!; try done. by rewrite !Forall_cons.
Qed.

Lemma pair_decode_complete b : binding_ok b -> pair_from_canonical_cbor (pair_canonical_cbor b) = Ok b.
Proof.
  intros Hb. pose proof (pair_cbor_length b Hb) as Hl. unfold pair_from_canonical_cbor.
  rewrite bool_decide_false by (intros He; rewrite He in Hl; change (zlen []) with 0 in Hl; lia).
  rewrite (proj2 (Z.ltb_ge _ _)) by lia.
  assert (Hlen : zlen (pair_canonical_cbor b) <= slice_max)
    by (unfold slice_max, MAX_PAIR_BINDING_BYTES in *; lia).
  pose proof (at_rest_new _ Hlen) as Hat. unfold pair_canonical_cbor in Hat at 2.
  rewrite <- (app_nil_r (byte_string (subject_id _))) in Hat.
  destruct Hb as (? & ? & ? & ? & Hw & Hz). unfold identities in Hw. rewrite !Forall_cons in Hw.
  destruct_and!. assert (is_u64 (subject_kind (pb_subject b))) by by destruct (pb_subject b).
  unfold decode_pair_binding, PAIR_BINDING_VERSION in *. codec_run Hat side.
  unfold mal at 1, via. unfold sbind at 1. rewrite (finish_complete _ Hat). cbn [map_err].
  erewrite sbind_lift_ok by apply subject_of_kind. cbv beta.
  erewrite sbind_lift_ok by by apply check_identities_ok. by destruct b.
Qed.

(** ** Verification *)

Section pair_theorems.
Context `{Crypto}.

Lemma check_subject_ok found want : check_subject found want = Ok () <-> found = expected want.
Proof.
  destruct found as [x|x], want as [y|y]; simpl; try done;
    destruct (bool_decide_reflect (x = y)); simpl; split; congruence.
Qed.

(** The two activation steps agree. *)
Lemma activation_ok ctx id :
  match ri_transitions (pc_root ctx) with
  | raw :: _ =>
      let? t := map_err (fun _ => ActivationMismatch) (decode_epoch_transition raw) in
      if negb (bool_decide (id = et_commit_id t)) then Err ActivationMismatch else Ok ()
  | [] => Ok ()
  end = Ok () <->
  match ri_transitions (pc_root ctx) with
  | raw :: _ =>
      let? t := map_err (fun _ => ActivationMismatch) (decode_epoch_transition raw) in Ok (et_commit_id t)
  | [] => Ok (id)
  end = Ok (id).
Proof.
  destruct (ri_transitions _) as [|raw l]; [done|].
  destruct (decode_epoch_transition raw) as [t|]; [|done]. simpl.
  destruct (bool_decide_reflect (id = et_commit_id t)); simpl; split; congruence.
Qed.

Lemma verify_iff raw ctx b :
  verify_pair_binding raw ctx = Ok b <->
  raw = pair_canonical_cbor b /\ binding_ok b /\
  ri_network_id (pc_root ctx) = pp_network_id (pc_pins ctx) /\
  reference_binding ctx (pb_activation_id b) = Ok b.
Proof.
  unfold verify_pair_binding, reference_binding. split.
  - intros Hv. inv_ok Hv. apply pair_decode_sound in Hok as [-> Hb]. subst.
    destruct a0, a2. apply activation_ok in Hok0. apply check_subject_ok in Hok2.
    repeat match goal with
    | He : negb (_ =? _) = false |- _ => apply negb_false_iff, Z.eqb_eq in He
    | He : negb (bool_decide _) = false |- _ => apply negb_false_iff, bool_decide_eq_true in He
    end.
    split; [done|]. split; [done|]. split; [congruence|]. rewrite Hok0. cbn [rbind].
    apply map_err_ok_inv in Hok1. rewrite Hok1. cbn [map_err rbind]. destruct b; simpl in *; congruence.
  - intros (-> & Hb & Hnet & Hr). rewrite pair_decode_complete by done. cbn [rbind].
    inv_ok Hr. subst b. cbn [pb_network_id pb_root_genesis_id pb_execution_genesis_hash pb_parent_hash
      pb_parent_number pb_origin_root_epoch pb_origin_root_round pb_configuration_id pb_activation_id
      pb_root_input_hash pb_transitions_hash pb_subject] in *.
    rewrite Hnet, !Z.eqb_refl. repeat (rewrite bool_decide_true by reflexivity). cbn [negb].
    apply map_err_ok_inv in Hok0. rewrite Hok0. cbn [map_err rbind].
    rewrite bool_decide_true by reflexivity. cbn [negb].
    rewrite (proj2 (check_subject_ok _ _) eq_refl). cbn [rbind].
    apply activation_ok in Hok. by rewrite Hok.
Qed.

(** C2: the gate accepts exactly the reference bindings.  A binding is accepted if and only if the
    bytes are its canonical encoding, its fields have their types and no identity is all zero, the
    root input names the pinned network, and it equals what the node derives itself from its pins,
    genesis, parent, root input and subject, with the binding's own activation id where the root
    input carries no transition. *)
Theorem verify_pair_binding_spec raw ctx b :
  verify_pair_binding raw ctx = Ok b <->
  raw = pair_canonical_cbor b /\ binding_ok b /\
  ri_network_id (pc_root ctx) = pp_network_id (pc_pins ctx) /\
  reference_binding ctx (pb_activation_id b) = Ok b.
Proof. apply verify_iff. Qed.

Definition with_activation (b : PairBinding) (activation_id : bytes) : PairBinding := {|
  pb_network_id := pb_network_id b; pb_root_genesis_id := pb_root_genesis_id b;
  pb_execution_genesis_hash := pb_execution_genesis_hash b; pb_parent_hash := pb_parent_hash b;
  pb_parent_number := pb_parent_number b; pb_origin_root_epoch := pb_origin_root_epoch b;
  pb_origin_root_round := pb_origin_root_round b; pb_configuration_id := pb_configuration_id b;
  pb_activation_id := activation_id; pb_root_input_hash := pb_root_input_hash b;
  pb_transitions_hash := pb_transitions_hash b; pb_subject := pb_subject b |}.

(** C37: the activation id is the one field that can be returned without having been compared.  Under
    a root input without transitions, replacing it in an accepted binding by any other non-zero word
    gives another accepted binding; with a transition it is determined. *)
Theorem activation_unchecked raw ctx b :
  verify_pair_binding raw ctx = Ok b ->
  (ri_transitions (pc_root ctx) = [] ->
   forall a, is_word a -> a <> ZERO32 ->
     verify_pair_binding (pair_canonical_cbor (with_activation b a)) ctx = Ok (with_activation b a)) /\
  (ri_transitions (pc_root ctx) <> [] ->
   forall raw' b', verify_pair_binding raw' ctx = Ok b' -> b' = b).
Proof.
  intros (-> & Hb & Hnet & Hr)%verify_iff. split.
  - intros Hnone a Ha Hz. apply verify_iff. split; [done|]. split; [|split; [done|]].
    + destruct Hb as (? & ? & ? & ? & Hw & Hn). unfold identities in Hw, Hn.
      rewrite !Forall_cons in Hw, Hn. destruct_and!.
      unfold binding_ok, identities. simpl. rewrite !Forall_cons, !Forall_nil. by split_and!.
    + unfold reference_binding in *. rewrite Hnone in *. cbn [rbind] in *. inv_ok Hr. subst.
      apply map_err_ok_inv in Hok. rewrite Hok. unfold with_activation. by rewrite <- Hr.
  - intros Hsome raw' b' (-> & _ & _ & Hr')%verify_iff. unfold reference_binding in *.
    destruct (ri_transitions (pc_root ctx)); [done|]. congruence.
Qed.
End pair_theorems.

(** ** Samples *)

Definition sample_header : Header := {|
  h_hash := word_of 21; h_number := 9; h_timestamp := 1700000000; h_mix_hash := word_of 61;
  h_beneficiary := replicate 20 Byte.x00; h_parent_beacon_block_root := Some (word_of 62) |}.

Definition sample_pair_context : PairContext := {|
  pc_pins := {| pp_network_id := 3; pp_root_genesis_id := word_of 41 |};
  pc_execution_genesis_hash := word_of 63; pc_parent := sample_header; pc_root := sample_root [z2b 1];
  pc_subject := ExpectImport (word_of 64) |}.

Definition sample_binding (activation_id : bytes) : PairBinding := {|
  pb_network_id := 3; pb_root_genesis_id := word_of 41; pb_execution_genesis_hash := word_of 63;
  pb_parent_hash := word_of 21; pb_parent_number := 9; pb_origin_root_epoch := 1;
  pb_origin_root_round := 5; pb_configuration_id := word_of 33; pb_activation_id := activation_id;
  pb_root_input_hash := toy_hash (sample_encoding [z2b 1]);
  pb_transitions_hash := transitions_hash (H := toy_crypto) []; pb_subject := Import (word_of 64) |}.

Lemma activation_unchecked_witness :
  verify_pair_binding (H := toy_crypto) (pair_canonical_cbor (sample_binding (word_of 72)))
    sample_pair_context = Ok (sample_binding (word_of 72)).
Proof.
  refine (proj1 (activation_unchecked (H := toy_crypto) (pair_canonical_cbor (sample_binding (word_of 71)))
    sample_pair_context (sample_binding (word_of 71)) _) _ (word_of 72) _ _);
  [vm_compute; reflexivity | reflexivity | apply word_of_word | by vm_compute].
Defined.
