(* ===== verification/B1Cbor.v ===== *)
(** The borrowed deterministic CBOR of the B1 kernel, [b1/src/cbor.rs] and the [Reader] of
    [b1/src/lib.rs]: one recursive scan validates a whole tree under a shared token budget and a
    fixed depth; items are views into the scanned bytes and their children are located by
    rescanning.  The reference is the tree type [tree] with its encoder [enc]: the scan accepts
    exactly the encodings of well-formed trees, and an accepted item's children are its subtrees,
    so that the rescans of [Children::next], which panic on an error, never do. *)
From S2P Require Import Prelude CborCodec.

Module B1Cbor.

Inductive Malformed :=
| Truncated | Version | Flags | Count | Trailing | Limit | Canonical | Cbor | Utf8 | Shape | Shard.

#[global] Instance malformed_eq_decision : EqDecision Malformed.
Proof. solve_decision. Defined.

(** ** [Reader]: the unread bytes *)

Abbreviation b1_reader := (reader bytes Malformed).

Definition take_n (n : Z) : b1_reader bytes := fun d =>
  if zlen d <? n then Err Truncated else Ok (take (Z.to_nat n) d, drop (Z.to_nat n) d).

Definition uint_n (n : Z) : b1_reader Z :=
  let* v := take_n n in sret (shift_fold v).

Definition header : b1_reader Z :=
  let* v := uint_n 1 in
  if negb (v =? 1) then fail Version else
  let* f := uint_n 1 in
  if negb (f =? 0) then fail Flags else uint_n 2.

(** ** The scan *)

Definition cbor_head : b1_reader (Z * Z) :=
  let* first := uint_n 1 in
  let ai := Z.land first 31 in
  let* n :=
    (if ai <=? 23 then sret ai
     else if ai <=? 27 then uint_n (Z.shiftl 1 (ai - 24))
     else if ai <=? 30 then fail Canonical
     else fail Cbor) in
  if ((ai =? 24) && (n <? 24)) || ((ai =? 25) && (n <=? 255))
     || ((ai =? 26) && (n <=? 65535)) || ((ai =? 27) && (n <=? u32_max))
  then fail Canonical
  else sret (Z.shiftr first 5, n).

Definition MAX_ITEMS : Z := 32768.

(** The reader and the shared token counter of one scan. *)
Record Scan := { sc_data : bytes; sc_tokens : Z }.
Abbreviation scanner := (reader Scan Malformed).

(** The loop over [count] items of a container; [ordered] is [strict && m == 5], [keys] the filled
    prefix of the key array, [i] the loop index. *)
Fixpoint scan_items (child : scanner ()) (ordered : bool) (count : nat) (i : nat)
    (keys : list bytes) : scanner () := fun s =>
  match count with
  | O => Ok ((), s)
  | S count =>
      let? (_, s') := child s in
      if ordered && Nat.even i then
        let key := take (length (sc_data s) - length (sc_data s'))%nat (sc_data s) in
        if bool_decide (key ∈ keys)
           || match last keys with Some k => negb (bytes_ltb k key) | None => false end
        then Err Canonical
        else scan_items child ordered count (S i) (keys ++ [key]) s'
      else scan_items child ordered count (S i) keys s'
  end.

(** How many items follow the head [(m, n)] of a container, [rest] bytes being left. *)
Definition item_count (strict : bool) (m n rest : Z) : result Malformed Z :=
  if m =? 5 then
    if strict && (64 <? n) then Err Limit
    else if rest <? n then Err Truncated
    else Ok (n * 2)
  else if m =? 6 then Ok 1
  else Ok n.

(** The [match m] of [scan]; [child] scans one item a level deeper, [None] at [depth >= 16]. *)
Definition scan_value (child : option (scanner ())) (strict utf8 : bool) (m n : Z) : scanner () :=
  fun s =>
  if m =? 0 then Ok ((), s)
  else if (m =? 2) || (m =? 3) then
    let? (x, d) := take_n n (sc_data s) in
    if (strict || utf8) && (m =? 3) && negb (utf8_valid x) then Err Utf8
    else Ok ((), {| sc_data := d; sc_tokens := sc_tokens s |})
  else if (4 <=? m) && (m <=? 6) then
    match child with
    | None => Err Limit
    | Some child =>
        let? count := item_count strict m n (zlen (sc_data s)) in
        if zlen (sc_data s) <? count then Err Truncated else
        scan_items child (strict && (m =? 5)) (Z.to_nat count) 0 [] s
    end
  else if (m =? 7) && (n =? 22) then Ok ((), s)
  else Err Cbor.

(** [room] is [16 - depth]. *)
Fixpoint scan (room : nat) (cap : Z) (strict utf8 : bool) : scanner () := fun s =>
  let tokens := sc_tokens s + 1 in
  if cap <? tokens then Err Limit else
  if match sc_data s with
     | b :: _ => (Z.shiftr (b2z b) 5 =? 7) && negb (bool_decide (b = Byte.xf6))
     | [] => false
     end then Err Cbor else
  let? (h, d) := cbor_head (sc_data s) in
  scan_value
    match room with O => None | S room => Some (scan room cap strict utf8) end
    strict utf8 (fst h) (snd h) {| sc_data := d; sc_tokens := tokens |}.

Definition max_depth : nat := 16.

(** ** Items: views of scanned bytes *)

Record Item := { it_raw : bytes; it_major : Z; it_arg : Z; it_data : bytes }.

Definition item (data : bytes) : result Malformed Item :=
  let? (h, rest) := cbor_head data in
  Ok {| it_raw := data; it_major := fst h; it_arg := snd h; it_data := rest |}.

(** The three entry points share [run_scan]; each returns the item and the token counter. *)
Definition run_scan (strict utf8 : bool) (data : bytes) (tokens cap : Z) : result Malformed (Item * Z) :=
  let? (_, s) := scan max_depth cap strict utf8 {| sc_data := data; sc_tokens := tokens |} in
  if bool_decide (sc_data s = []) then
    let? it := item data in Ok (it, sc_tokens s)
  else Err Trailing.

Definition one_capped := run_scan true true.
Definition one_loose := run_scan false false.
Definition one_typed := run_scan false true.
Definition one (data : bytes) (tokens : Z) := one_capped data tokens MAX_ITEMS.

Definition null (it : Item) : bool := (it_major it =? 7) && (it_arg it =? 22).

Definition item_uint (it : Item) (max : Z) : result Malformed Z :=
  if negb (it_major it =? 0) || (max <? it_arg it) then Err Shape else Ok (it_arg it).

Definition blob (it : Item) (major min max : Z) : result Malformed bytes :=
  if negb (it_major it =? major) || (zlen (it_data it) <? min) then Err Shape else
  if max <? zlen (it_data it) then Err Limit else Ok (it_data it).

Definition item_bytes (it : Item) (n : Z) : result Malformed bytes :=
  if negb (it_major it =? 2) || negb (it_arg it =? n) then Err Shape else Ok (it_data it).

Definition collection (it : Item) (major max : Z) : result Malformed Z :=
  if null it then Ok 0 else
  if negb (it_major it =? major) then Err Shape else
  if max <? it_arg it then Err Limit else Ok (it_arg it).

(** One [Children::next]; [None] is the [expect] panic. *)
Definition next_child (rest : bytes) : option (Item * bytes) :=
  match scan max_depth usize_max false false {| sc_data := rest; sc_tokens := 0 |} with
  | Ok (_, s) =>
      match item (take (length rest - length (sc_data s))%nat rest) with
      | Ok it => Some (it, sc_data s)
      | Err _ => None
      end
  | Err _ => None
  end.

Fixpoint children_from (fuel : nat) (rest : bytes) : option (list Item) :=
  match rest, fuel with
  | [], _ => Some []
  | _, O => None
  | _, S fuel =>
      match next_child rest with
      | Some (it, rest') => option_map (cons it) (children_from fuel rest')
      | None => None
      end
  end.

(** Every child takes at least one byte, so the unread length is enough fuel. *)
Definition children (it : Item) : option (list Item) :=
  if null it then Some [] else children_from (length (it_data it)) (it_data it).

(** [array::<N>]: the first [N] children, a slot without a child keeping the item itself. *)
Definition fill (n : nat) (it : Item) (l : list Item) : list Item :=
  take n (l ++ replicate n it).

Definition item_array (n : nat) (it : Item) : option (result Malformed (list Item)) :=
  if negb (it_major it =? 4) || negb (it_arg it =? Z.of_nat n) then Some (Err Shape) else
  option_map (fun l => Ok (fill n it l)) (children it).

Definition tagged (n : nat) (tag : Z) (it : Item) : option (result Malformed (list Item)) :=
  if negb (it_major it =? 6) || negb (it_arg it =? tag) then Some (Err Shape) else
  match item (it_data it) with
  | Err e => Some (Err e)
  | Ok inner =>
      option_map (fun r =>
        let? a := r in
        match a with
        | v :: _ =>
            let? x := item_uint v u64_max in
            if negb (x =? 1) then Err Version else Ok a
        | [] => Ok a
        end) (item_array n inner)
  end.

(** ** The reference: trees and their encoding *)

Unset Elimination Schemes.
Inductive tree :=
| TUint (n : Z)
| TBytes (x : bytes)
| TText (x : bytes)
| TArray (l : list tree)
| TMap (kvs : list (tree * tree))
| TTag (n : Z) (t : tree)
| TNull.
Set Elimination Schemes.

Fixpoint enc (t : tree) : bytes :=
  match t with
  | TUint n => major 0 n
  | TBytes x => major 2 (zlen x) ++ x
  | TText x => major 3 (zlen x) ++ x
  | TArray l => major 4 (zlen l) ++ concat (map enc l)
  | TMap kvs => major 5 (zlen kvs) ++ concat (map (fun kv => enc kv.1 ++ enc kv.2) kvs)
  | TTag n t => major 6 n ++ enc t
  | TNull => major 7 22
  end.

(** The number of data items of a tree, each one token of the budget. *)
Fixpoint size (t : tree) : nat :=
  match t with
  | TArray l => S (sum_list_with size l)
  | TMap kvs => S (sum_list_with (fun kv => size kv.1 + size kv.2)%nat kvs)
  | TTag _ t => S (size t)
  | _ => 1
  end.

(** The depth fits: a container needs one level more than its content. *)
Fixpoint fits (room : nat) (t : tree) : bool :=
  match t, room with
  | TArray l, S room => forallb (fits room) l
  | TMap kvs, S room => forallb (fun kv => fits room kv.1 && fits room kv.2) kvs
  | TTag _ t, S room => fits room t
  | TArray _, O | TMap _, O | TTag _ _, O => false
  | _, _ => true
  end.

Fixpoint ascending (l : list bytes) : bool :=
  match l with
  | a :: (b :: _) as r => bytes_ltb a b && ascending r
  | _ => true
  end.

Definition u64b (n : Z) : bool := (0 <=? n) && (n <=? u64_max).

(** Well-formed: every argument is a 64-bit count, text is UTF-8 where the scan asks for it, and a
    strict map has at most 64 pairs with strictly ascending encoded keys. *)
Fixpoint wf (strict utf8 : bool) (t : tree) : bool :=
  match t with
  | TUint n => u64b n
  | TBytes x => u64b (zlen x)
  | TText x => u64b (zlen x) && (negb (strict || utf8) || utf8_valid x)
  | TArray l => u64b (zlen l) && forallb (wf strict utf8) l
  | TMap kvs =>
      u64b (zlen kvs) && forallb (fun kv => wf strict utf8 kv.1 && wf strict utf8 kv.2) kvs
      && (negb strict || ((zlen kvs <=? 64) && ascending (map (fun kv => enc kv.1) kvs)))
  | TTag n t => u64b n && wf strict utf8 t
  | TNull => true
  end.

(** The view of a tree, and its immediate subtrees in wire order. *)
Definition kind (t : tree) : Z :=
  match t with
  | TUint _ => 0 | TBytes _ => 2 | TText _ => 3 | TArray _ => 4 | TMap _ => 5 | TTag _ _ => 6
  | TNull => 7
  end.
Definition arg (t : tree) : Z :=
  match t with
  | TUint n => n | TBytes x | TText x => zlen x | TArray l => zlen l | TMap kvs => zlen kvs
  | TTag n _ => n | TNull => 22
  end.
Definition flatten (kvs : list (tree * tree)) : list tree :=
  concat (map (fun kv => [kv.1; kv.2]) kvs).
Definition subtrees (t : tree) : list tree :=
  match t with TArray l => l | TMap kvs => flatten kvs | TTag _ t => [t] | _ => [] end.
Definition encs (l : list tree) : bytes := concat (map enc l).
Definition payload (t : tree) : bytes :=
  match t with TBytes x | TText x => x | _ => encs (subtrees t) end.
Definition view (t : tree) : Item :=
  {| it_raw := enc t; it_major := kind t; it_arg := arg t; it_data := payload t |}.

(** The elements at the even positions, the first one included when [b]. *)
Fixpoint evens (b : bool) (l : list tree) : list tree :=
  match l with
  | [] => []
  | t :: l => if b then t :: evens false l else evens true l
  end.

(** ** Reading heads *)

Lemma take_n_iff n d x d' :
  0 <= n -> take_n n d = Ok (x, d') <-> d = x ++ d' /\ zlen x = n.
Proof.
  intros Hn. unfold take_n. destruct (Z.ltb_spec (zlen d) n); split.
  - done.
  - intros [-> ?]. rewrite zlen_app in *. ulia.
  - intros [= <- <-]. split; [by rewrite take_drop|]. unfold zlen in *. rewrite length_take. lia.
  - intros [-> ?]. rewrite take_length_app, drop_length_app by ulia. done.
Qed.

Lemma uint_n_iff n d v d' :
  0 <= n <= 8 -> uint_n n d = Ok (v, d') <-> exists x, d = x ++ d' /\ zlen x = n /\ v = be_val x.
Proof.
  intros Hn. unfold uint_n. split.
  - intros H. inv_ok H. apply take_n_iff in Hok as [-> Hx]; [|lia]. subst.
    rewrite shift_fold_be_val by ulia. eauto.
  - intros (x & -> & Hx & ->). unfold sbind. rewrite (proj2 (take_n_iff n _ x d' ltac:(lia))) by done.
    unfold sret. by rewrite shift_fold_be_val by ulia.
Qed.

Lemma uint_n_bytes (n : nat) v d :
  (n <= 8)%nat -> 0 <= v < 256 ^ Z.of_nat n ->
  uint_n (Z.of_nat n) (be_bytes n v ++ d) = Ok (v, d).
Proof.
  intros Hn Hv. apply uint_n_iff; [lia|]. exists (be_bytes n v).
  rewrite be_val_bytes by done. unfold zlen. by rewrite be_bytes_length.
Qed.

Lemma uint_1_cons b d : uint_n 1 (b :: d) = Ok (b2z b, d).
Proof.
  apply uint_n_iff; [lia|]. exists [b]. split_and!; [done..|].
  unfold be_val. cbn [fold_left]. lia.
Qed.

Lemma uint_1_inv d v d' : uint_n 1 d = Ok (v, d') -> exists b, d = b :: d' /\ v = b2z b.
Proof.
  intros H. apply uint_n_iff in H as (x & -> & Hx & ->); [|lia].
  destruct x as [|b [|c x]]; unfold zlen in Hx; simpl in Hx; try lia.
  exists b. split; [done|]. unfold be_val. cbn [fold_left]. lia.
Qed.

Lemma cbor_head_first d k v d' :
  cbor_head d = Ok ((k, v), d') -> exists b tl, d = b :: tl /\ Z.shiftr (b2z b) 5 = k.
Proof.
  intros H. unfold cbor_head in H. inv_ok H; apply uint_1_inv in Hok as (b & -> & ->);
    exists b, s; split; congruence.
Qed.

Lemma cbor_head_major k v d :
  0 <= k < 8 -> is_u64 v -> cbor_head (major k v ++ d) = Ok ((k, v), d).
Proof.
  intros Hk Hv. unfold cbor_head.
  assert (Hgo : forall info tail, 0 <= info < 32 ->
    uint_n 1 (z2b (Z.lor (Z.shiftl k 5) info) :: tail) = Ok (k * 32 + info, tail)).
  { intros. rewrite uint_1_cons, head_byte by done. done. }
  unfold major. repeat case_match; cbn [app]; (erewrite sbind_ok; [|apply Hgo; ulia]);
    cbv zeta; rewrite head_byte_major, head_byte_info by ulia.
  - rewrite (proj2 (Z.leb_le _ _)) by ulia. unfold sbind, sret.
    rewrite (proj2 (Z.eqb_neq v 24)), (proj2 (Z.eqb_neq v 25)), (proj2 (Z.eqb_neq v 26)),
      (proj2 (Z.eqb_neq v 27)) by ulia. done.
  - eval_ifs. unfold sbind. rewrite uint_1_cons, b2z_z2b_small by ulia.
    cbn [Z.eqb Pos.eqb andb orb]. rewrite (proj2 (Z.ltb_ge _ _)) by ulia. done.
  - eval_ifs. unfold sbind. rewrite (uint_n_bytes 2) by ulia.
    cbn [Z.eqb Pos.eqb andb orb]. rewrite (proj2 (Z.leb_gt _ _)) by ulia. done.
  - eval_ifs. unfold sbind. rewrite (uint_n_bytes 4) by ulia.
    cbn [Z.eqb Pos.eqb andb orb]. rewrite (proj2 (Z.leb_gt _ _)) by ulia. done.
  - eval_ifs. unfold sbind. rewrite (uint_n_bytes 8) by ulia.
    cbn [Z.eqb Pos.eqb andb orb]. rewrite (proj2 (Z.leb_gt _ _)) by ulia. done.
Qed.

(** A head that needs [n] further bytes, read back as the bytes of its value. *)
Lemma uint_n_be (n : nat) d v d' :
  (n <= 8)%nat -> uint_n (Z.of_nat n) d = Ok (v, d') ->
  d = be_bytes n v ++ d' /\ 0 <= v < 256 ^ Z.of_nat n.
Proof.
  intros Hn H. apply uint_n_iff in H as (x & -> & Hx & ->); [|lia].
  pose proof (be_val_range x) as Hr. rewrite be_bytes_val_n by ulia.
  rewrite Hx in Hr. done.
Qed.

Lemma cbor_head_sound d k v d' :
  cbor_head d = Ok ((k, v), d') -> d = major k v ++ d' /\ head_ok (k, v).
Proof.
  intros H. unfold cbor_head in H. inv_ok H; apply uint_1_inv in Hok as (b & -> & ->);
    destruct (head_byte_split b) as (Hk & Hi & Hb); subst k v;
    set (k := Z.shiftr (b2z b) 5) in *; set (i := Z.land (b2z b) 31) in *;
    clearbody k i; subst b; unfold head_ok; cbn [fst snd]; subst s0; inv_ok Hok0; subst.
  - rewrite major_small by lia. split; [done|]. ulia.
  - assert (Hc : i = 24 \/ i = 25 \/ i = 26 \/ i = 27) by lia.
    destruct Hc as [-> | [-> | [-> | ->]]].
    + change (1 ≪ _) with (Z.of_nat 1) in Hok0. apply (uint_n_be 1) in Hok0 as [-> ?]; [|lia]. change (256 ^ Z.of_nat 1) with 256 in *.
      rewrite major_1 by ulia. split; [|ulia]. done.
    + change (1 ≪ _) with (Z.of_nat 2) in Hok0. apply (uint_n_be 2) in Hok0 as [-> ?]; [|lia]. change (256 ^ Z.of_nat 2) with 65536 in *.
      rewrite major_2 by ulia. split; [done|]. ulia.
    + change (1 ≪ _) with (Z.of_nat 4) in Hok0. apply (uint_n_be 4) in Hok0 as [-> ?]; [|lia]. change (256 ^ Z.of_nat 4) with 4294967296 in *.
      rewrite major_4 by ulia. split; [done|]. ulia.
    + change (1 ≪ _) with (Z.of_nat 8) in Hok0. apply (uint_n_be 8) in Hok0 as [-> ?]; [|lia].
      change (256 ^ Z.of_nat 8) with 18446744073709551616 in *.
      rewrite major_8 by ulia. split; [done|]. ulia.
Qed.

Lemma cbor_head_iff d k v d' :
  cbor_head d = Ok ((k, v), d') <-> d = major k v ++ d' /\ head_ok (k, v).
Proof.
  split; [apply cbor_head_sound|]. intros [-> [??]]. by apply cbor_head_major.
Qed.

(** ** Trees *)

Lemma u64b_iff n : u64b n = true <-> is_u64 n.
Proof. unfold u64b. ulia. Qed.

Lemma encs_cons t l : encs (t :: l) = enc t ++ encs l.
Proof. done. Qed.

Lemma encs_flatten kvs :
  concat (map (fun kv => enc kv.1 ++ enc kv.2) kvs) = encs (flatten kvs).
Proof.
  induction kvs as [|[k v] kvs IH]; [done|]. cbn [map concat fst snd]. rewrite IH.
  change (flatten ((k, v) :: kvs)) with (k :: v :: flatten kvs).
  by rewrite !encs_cons, app_assoc.
Qed.

(** Every tree is its head followed by its payload. *)
Lemma enc_view t : enc t = major (kind t) (arg t) ++ payload t.
Proof.
  destruct t; cbn [enc kind arg payload subtrees]; rewrite ?encs_flatten; try done.
  - change (encs []) with (@nil byte). by rewrite app_nil_r.
  - cbn [encs map concat]. by rewrite app_nil_r.
Qed.

Lemma major_nonempty k v : 1 <= zlen (major k v).
Proof.
  unfold major. repeat case_match; rewrite ?zlen_cons; pose proof (@zlen_nonneg byte); try lia.
  all: match goal with |- context [zlen ?l] => pose proof (zlen_nonneg l); lia end.
Qed.

Lemma enc_nonempty t : 1 <= zlen (enc t).
Proof.
  rewrite enc_view, zlen_app. pose proof (major_nonempty (kind t) (arg t)).
  pose proof (zlen_nonneg (payload t)). lia.
Qed.

Lemma encs_length l : zlen l <= zlen (encs l).
Proof.
  induction l as [|t l IH]; [done|]. rewrite encs_cons, zlen_app, zlen_cons.
  pose proof (enc_nonempty t). lia.
Qed.

Lemma flatten_length kvs : length (flatten kvs) = (2 * length kvs)%nat.
Proof. induction kvs as [|[k v] kvs IH]; [done|]. simpl. fold (flatten kvs). lia. Qed.

Lemma flatten_evens kvs : evens true (flatten kvs) = map fst kvs.
Proof. induction kvs as [|[k v] kvs IH]; [done|]. simpl. f_equal. apply IH. Qed.

Lemma flatten_surj n l : length l = (2 * n)%nat -> exists kvs, l = flatten kvs /\ length kvs = n.
Proof.
  revert l. induction n as [|n IH]; intros l Hl.
  - destruct l; [by exists [] | simpl in Hl; lia].
  - destruct l as [|k [|v l]]; simpl in Hl; try lia.
    destruct (IH l) as (kvs & -> & <-); [lia|]. by exists ((k, v) :: kvs).
Qed.

Lemma forallb_flatten f kvs :
  forallb (fun kv => f kv.1 && f kv.2) kvs = forallb f (flatten kvs).
Proof.
  induction kvs as [|[k v] kvs IH]; [done|]. simpl. rewrite IH. by rewrite andb_assoc.
Qed.

Lemma sizes_flatten kvs :
  sum_list_with (fun kv => size kv.1 + size kv.2)%nat kvs = sum_list_with size (flatten kvs).
Proof. induction kvs as [|[k v] kvs IH]; [done|]. simpl. rewrite IH. fold (flatten kvs). lia. Qed.

Lemma size_view t : size t = S (sum_list_with size (subtrees t)).
Proof. destruct t; simpl; rewrite ?sizes_flatten; lia. Qed.

(** ** Map keys *)

Lemma ascending_snoc l x :
  ascending (l ++ [x])
  = ascending l && match last l with Some k => bytes_ltb k x | None => true end.
Proof.
  induction l as [|a l IH]; [done|]. destruct l as [|b l]; [simpl; by rewrite andb_true_r|].
  change (bytes_ltb a b && ascending ((b :: l) ++ [x])
    = bytes_ltb a b && ascending (b :: l)
      && match last (b :: l) with Some k => bytes_ltb k x | None => true end).
  by rewrite IH, andb_assoc.
Qed.

Lemma ascending_app_l l r : ascending (l ++ r) = true -> ascending l = true.
Proof.
  induction r as [|x r IH] using rev_ind; [by rewrite app_nil_r|].
  rewrite app_assoc, ascending_snoc. intros [H _]%andb_true_iff. auto.
Qed.

Lemma ascending_below l x y : ascending (l ++ [x]) = true -> y ∈ l -> bytes_lt y x.
Proof.
  revert x. induction l as [|a l IH] using rev_ind; intros x; [intros _ Hy; by apply not_elem_of_nil in Hy|].
  rewrite ascending_snoc, last_snoc. intros [Hl Ha]%andb_true_iff [Hy | ->%list_elem_of_singleton]%elem_of_app;
    [|done].
  transitivity a; [by apply IH | done].
Qed.

(** Over ascending keys, the duplicate and order tests of the loop are the test that the new key
    continues the ascent. *)
Lemma key_test keys key :
  ascending keys = true ->
  bool_decide (key ∈ keys)
  || match last keys with Some k => negb (bytes_ltb k key) | None => false end
  = negb (ascending (keys ++ [key])).
Proof.
  intros Hk. rewrite ascending_snoc, Hk, andb_true_l.
  destruct (last keys) as [k|] eqn:Hl; [|apply last_None in Hl as ->; done].
  destruct (bytes_ltb k key) eqn:Hlt; simpl; [|by rewrite orb_true_r].
  rewrite orb_false_r. apply bool_decide_eq_false. intros Hin.
  assert (bytes_lt key key) as Hirr; [|by apply (irreflexivity bytes_lt) in Hirr].
  apply (ascending_below keys); [|done]. by rewrite ascending_snoc, Hk, Hl.
Qed.

(** ** The scan accepts exactly the encodings *)

Section scan_exact.
Context (cap : Z) (strict utf8 : bool).

(** [p] consumes exactly one tree of [Q] and charges its size, within the budget. *)
Definition exact_scan (Q : tree -> Prop) (p : scanner ()) : Prop :=
  forall s s', p s = Ok ((), s') <->
    exists t, Q t /\ sc_data s = enc t ++ sc_data s' /\
      sc_tokens s' = sc_tokens s + Z.of_nat (size t) /\ sc_tokens s' <= cap.

Lemma prefix_taken (a b : bytes) : take (length (a ++ b) - length b)%nat (a ++ b) = a.
Proof. rewrite length_app. apply take_length_app. lia. Qed.

(** One round of the loop. *)
Lemma scan_items_step p ordered n i keys s s' :
  (ordered = true -> ascending keys = true) ->
  scan_items p ordered (S n) i keys s = Ok ((), s') <->
  exists s1, p s = Ok ((), s1) /\
    let key := take (length (sc_data s) - length (sc_data s1))%nat (sc_data s) in
    let keys' := if ordered && Nat.even i then keys ++ [key] else keys in
    (ordered = true -> ascending keys' = true) /\ scan_items p ordered n (S i) keys' s1 = Ok ((), s').
Proof.
  intros Hkeys. cbn [scan_items]. unfold rbind.
  destruct (p s) as [[[] s1]|e] eqn:Hp; [|split; [done | by intros (? & ? & _)]].
  destruct (ordered && Nat.even i) eqn:Ho.
  - apply andb_true_iff in Ho as [-> _]. rewrite key_test by auto.
    destruct (ascending (keys ++ [_])) eqn:Ha; cbn [negb]; split; try done.
    + intros H. exists s1. rewrite Ha. done.
    + by intros (? & [= <-] & _ & ?).
    + intros (? & [= <-] & H & _). rewrite Ha in H. by specialize (H eq_refl).
  - split; [intros H; exists s1; done|]. by intros (? & [= <-] & _ & ?).
Qed.

Lemma evens_cons i t l :
  evens (Nat.even i) (t :: l) = (if Nat.even i then [t] else []) ++ evens (Nat.even (S i)) l.
Proof. rewrite Nat.even_succ, <- Nat.negb_even. cbn [evens]. by destruct (Nat.even i). Qed.

Lemma scan_items_exact Q p ordered n i keys s s' :
  exact_scan Q p -> sc_tokens s <= cap -> (ordered = true -> ascending keys = true) ->
  scan_items p ordered n i keys s = Ok ((), s') <->
  exists l, length l = n /\ Forall Q l /\ sc_data s = encs l ++ sc_data s' /\
    sc_tokens s' = sc_tokens s + Z.of_nat (sum_list_with size l) /\ sc_tokens s' <= cap /\
    (ordered = true -> ascending (keys ++ map enc (evens (Nat.even i) l)) = true).
Proof.
  intros Hp. revert i keys s. induction n as [|n IH]; intros i keys s Hcap Hkeys.
  { split.
    - intros [= <-]. exists []. simpl. rewrite app_nil_r. split_and!; try done. lia.
    - intros (l & Hl & _ & Hd & Ht & _). apply nil_length_inv in Hl as ->. cbn [scan_items].
      simpl in *. destruct s, s'; simpl in *. do 3 f_equal; [done|lia]. }
  rewrite scan_items_step by done. split.
  - intros (s1 & (t & HQ & Hd & Ht & Hc)%Hp & Ha & (l & <- & HF & Hd1 & Ht1 & Hc1 & Ha1)%IH); [|lia|done].
    exists (t :: l). rewrite encs_cons, <- app_assoc, <- Hd1. cbn [sum_list_with].
    rewrite evens_cons. rewrite Hd, prefix_taken in Ha1. split_and!; try done.
    + by constructor.
    + lia.
    + intros ->. specialize (Ha1 eq_refl). cbn [andb] in Ha1.
      destruct (Nat.even i); rewrite map_app; [|done]. by rewrite <- app_assoc in Ha1.
  - intros (l & Hl & HF & Hd & Ht & Hc & Ha). destruct l as [|t l]; [done|]. injection Hl as Hl.
    apply Forall_cons in HF as [HQ HF]. rewrite encs_cons, <- app_assoc in Hd.
    cbn [sum_list_with] in Ht. rewrite evens_cons, map_app, app_assoc in Ha.
    set (s1 := {| sc_data := encs l ++ sc_data s'; sc_tokens := sc_tokens s + Z.of_nat (size t) |}).
    exists s1. split; [apply Hp; exists t; split_and!; try done; cbn; lia|].
    rewrite Hd. cbn [s1 sc_data]. rewrite prefix_taken. cbv zeta.
    assert (Hk : ordered = true -> keys ++ map enc (if Nat.even i then [t] else [])
      = if ordered && Nat.even i then keys ++ [enc t] else keys).
    { intros ->. destruct (Nat.even i); [done|]. apply app_nil_r. }
    split; [|apply IH].
    + intros Ho. rewrite <- Hk by done. by eapply ascending_app_l, Ha.
    + cbn. lia.
    + intros Ho. rewrite <- Hk by done. by eapply ascending_app_l, Ha.
    + exists l. split_and!; try done; [cbn; lia|]. intros Ho. rewrite <- Hk by done. auto.
Qed.

(** The trees a scan with [room] levels left accepts. *)
Definition good (room : nat) (t : tree) : Prop := wf strict utf8 t = true /\ fits room t = true.

Definition child_scan (room : nat) : option (scanner ()) :=
  match room with O => None | S room => Some (scan room cap strict utf8) end.

(** A scan is a token, a minimal head and the value the head announces. *)
Lemma scan_head_iff room s r :
  scan room cap strict utf8 s = Ok r <->
  exists k n d, sc_data s = major k n ++ d /\ head_ok (k, n) /\ sc_tokens s + 1 <= cap /\
    scan_value (child_scan room) strict utf8 k n {| sc_data := d; sc_tokens := sc_tokens s + 1 |} = Ok r.
Proof.
  assert (Hun : scan room cap strict utf8 s =
    if cap <? sc_tokens s + 1 then Err Limit else
    if match sc_data s with
       | b :: _ => (Z.shiftr (b2z b) 5 =? 7) && negb (bool_decide (b = Byte.xf6))
       | [] => false
       end then Err Cbor else
    let? (h, d) := cbor_head (sc_data s) in
    scan_value (child_scan room) strict utf8 (fst h) (snd h)
      {| sc_data := d; sc_tokens := sc_tokens s + 1 |}) by (destruct room; reflexivity).
  rewrite Hun. clear Hun. destruct (Z.ltb_spec cap (sc_tokens s + 1)).
  { split; [done|]. intros (k & n & d & _ & _ & ? & _). lia. }
  split.
  - intros H1. destruct (match sc_data s with [] => _ | _ => _ end); [done|].
    apply rbind_ok_inv in H1 as ([[k n] d] & [-> ?]%cbor_head_iff & H1). eauto 8.
  - intros (k & n & d & Hd & Hh & _ & Hv). rewrite Hd.
    pose proof (proj2 (cbor_head_iff _ _ _ _) (conj (eq_refl (major k n ++ d)) Hh)) as Hhead.
    rewrite Hhead. cbn [rbind fst snd]. rewrite Hv.
    destruct (cbor_head_first _ _ _ _ Hhead) as (b & tl & Hb & Hk). rewrite Hb, Hk.
    destruct (Z.eqb_spec k 7) as [-> | ?]; [|done].
    assert (n = 22) as ->.
    { unfold scan_value in Hv. destruct (Z.eqb_spec n 22); [done|]. by rewrite andb_false_r in Hv. }
    by injection Hb as <- _.
Qed.

Lemma forallb_Forall {A} (f : A -> bool) l : forallb f l = true <-> Forall (fun x => f x = true) l.
Proof. rewrite forallb_forall, Forall_forall. by setoid_rewrite list_elem_of_In. Qed.

Lemma Forall_good r l :
  Forall (good r) l <-> forallb (wf strict utf8) l = true /\ forallb (fits r) l = true.
Proof. rewrite !forallb_Forall. unfold good. apply Forall_and. Qed.

Lemma good_array r l : good (S r) (TArray l) <-> is_u64 (zlen l) /\ Forall (good r) l.
Proof.
  rewrite Forall_good, <- u64b_iff. unfold good. cbn [wf fits]. rewrite andb_true_iff. tauto.
Qed.

Lemma good_map r kvs :
  good (S r) (TMap kvs) <-> is_u64 (zlen kvs) /\ Forall (good r) (flatten kvs) /\
    (strict = true ->
      zlen kvs <= 64 /\ ascending (map enc (evens true (flatten kvs))) = true).
Proof.
  rewrite Forall_good, <- u64b_iff. unfold good. cbn [wf fits].
  rewrite !forallb_flatten, flatten_evens, map_map, !andb_true_iff, orb_true_iff, andb_true_iff,
    Z.leb_le, negb_true_iff. destruct strict; intuition congruence.
Qed.

Lemma good_tag r n t : good (S r) (TTag n t) <-> is_u64 n /\ good r t.
Proof. rewrite <- u64b_iff. unfold good. cbn [wf fits]. rewrite andb_true_iff. tauto. Qed.

Lemma good_containers t room :
  4 <= kind t <= 6 -> good room t -> exists r, room = S r.
Proof. destruct t, room; simpl; try lia; intros _ [_ [=]]; eauto. Qed.

Lemma scan_loop_exact r o n s s' :
  exact_scan (good r) (scan r cap strict utf8) -> sc_tokens s <= cap -> 0 <= n ->
  (if zlen (sc_data s) <? n then Err Truncated
   else scan_items (scan r cap strict utf8) o (Z.to_nat n) 0 [] s) = Ok ((), s') <->
  exists l, zlen l = n /\ Forall (good r) l /\ sc_data s = encs l ++ sc_data s' /\
    sc_tokens s' = sc_tokens s + Z.of_nat (sum_list_with size l) /\ sc_tokens s' <= cap /\
    (o = true -> ascending (map enc (evens true l)) = true).
Proof.
  intros Hex Hcap Hn.
  pose proof (scan_items_exact (good r) _ o (Z.to_nat n) 0 [] s s' Hex Hcap (fun _ => eq_refl)) as Hit.
  cbn [Nat.even app] in Hit. destruct (Z.ltb_spec (zlen (sc_data s)) n).
  - split; [done|]. intros (l & Hl & _ & Hd & _). rewrite Hd, zlen_app in *.
    pose proof (encs_length l). pose proof (zlen_nonneg (sc_data s')). lia.
  - rewrite Hit. apply exist_proper. intros l.
    assert (length l = Z.to_nat n <-> zlen l = n) as -> by ulia. done.
Qed.

(** What the [match m] of a scan accepts after the head [(k, n)]. *)
Definition exact_value (room : nat) (k n : Z) (s s' : Scan) : Prop :=
  exists t, kind t = k /\ arg t = n /\ good room t /\ sc_data s = payload t ++ sc_data s' /\
    sc_tokens s' = sc_tokens s + Z.of_nat (sum_list_with size (subtrees t)) /\ sc_tokens s' <= cap.

Section containers.
Context (r : nat) (Hex : exact_scan (good r) (scan r cap strict utf8)).
Context (s s' : Scan) (Hcap : sc_tokens s <= cap) (n : Z) (Hn : is_u64 n).

Lemma scan_array_exact :
  scan_value (child_scan (S r)) strict utf8 4 n s = Ok ((), s') <-> exact_value (S r) 4 n s s'.
Proof.
  unfold scan_value, item_count. cbn [Z.eqb Pos.eqb orb andb Z.leb Z.compare Pos.compare Pos.compare_cont].
  cbn [child_scan rbind]. rewrite andb_false_r, scan_loop_exact by (done || ulia). split.
  - intros (l & Hl & HF & Hd & Ht & Hc & _). exists (TArray l).
    rewrite good_array. rewrite <- Hl in Hn |- *. exact (conj eq_refl (conj eq_refl (conj (conj Hn HF) (conj Hd (conj Ht Hc))))).
  - intros (t & Hk & Ha & Hg & Hd & Ht & Hc). destruct t as [| | |l| | |]; try discriminate Hk.
    apply good_array in Hg as [_ HF]. exists l. split_and!; done.
Qed.

Lemma scan_tag_exact :
  scan_value (child_scan (S r)) strict utf8 6 n s = Ok ((), s') <-> exact_value (S r) 6 n s s'.
Proof.
  unfold scan_value, item_count. cbn [Z.eqb Pos.eqb orb andb Z.leb Z.compare Pos.compare Pos.compare_cont].
  cbn [child_scan rbind]. rewrite andb_false_r, scan_loop_exact by (done || ulia). split.
  - intros (l & Hl & HF & Hd & Ht & Hc & _). destruct l as [|t [|t' l]]; unfold zlen in Hl; simpl in Hl; try lia.
    apply Forall_cons in HF as [HF _]. exists (TTag n t). rewrite good_tag.
    exact (conj eq_refl (conj eq_refl (conj (conj Hn HF) (conj Hd (conj Ht Hc))))).
  - intros (t & Hk & Ha & Hg & Hd & Ht & Hc). destruct t as [| | | | |n' t|]; try discriminate Hk.
    apply good_tag in Hg as [? ?]. exists [t]. split_and!; try done. by constructor.
Qed.

Lemma scan_map_exact :
  scan_value (child_scan (S r)) strict utf8 5 n s = Ok ((), s') <-> exact_value (S r) 5 n s s'.
Proof.
  unfold scan_value, item_count. cbn [Z.eqb Pos.eqb orb andb Z.leb Z.compare Pos.compare Pos.compare_cont].
  cbn [child_scan]. rewrite andb_true_r. split.
  - intros H. apply rbind_ok_inv in H as (count & Hc & H). inv_ok Hc. subst count.
    apply scan_loop_exact in H as (l & Hl & HF & Hd & Ht & Hc & Ha); [|done|done|ulia].
    destruct (flatten_surj (Z.to_nat n) l) as (kvs & -> & Hkvs); [ulia|].
    assert (zlen kvs = n) as <- by ulia. exists (TMap kvs). rewrite good_map.
    refine (conj eq_refl (conj eq_refl (conj (conj Hn (conj HF _)) (conj Hd (conj Ht Hc))))).
    intros Hs. split; [|auto]. rewrite Hs in *. simpl andb in *. lia.
  - intros (t & Hk & Ha & Hg & Hd & Ht & Hc). destruct t as [| | | |kvs| |]; try discriminate Hk.
    cbn [arg] in Ha. apply good_map in Hg as (_ & HF & Hs).
    pose proof (encs_length (flatten kvs)) as Hlen. unfold zlen in Hlen at 1.
    rewrite flatten_length in Hlen. cbn [payload subtrees] in Hd.
    pose proof (f_equal zlen Hd) as Hd'. rewrite zlen_app in Hd'.
    pose proof (zlen_nonneg (sc_data s')).
    assert (strict && (64 <? n) = false) as ->.
    { destruct strict; [|done]. destruct Hs; [done|]. simpl. lia. }
    rewrite (proj2 (Z.ltb_ge _ n)) by ulia. cbn [rbind].
    apply scan_loop_exact; [done|done|ulia|]. exists (flatten kvs).
    split; [unfold zlen; rewrite flatten_length; ulia|]. split_and!; try done.
    intros Ho. by apply Hs.
Qed.
End containers.

Lemma good_leaf room t : kind t < 4 -> good room t <-> wf strict utf8 t = true.
Proof. unfold good. destruct t, room; cbn; intros; (lia || tauto). Qed.

Lemma scan_string_exact room k n s s' :
  k = 2 \/ k = 3 -> sc_tokens s <= cap -> is_u64 n ->
  scan_value (child_scan room) strict utf8 k n s = Ok ((), s') <-> exact_value room k n s s'.
Proof.
  intros Hk Hcap Hn. unfold scan_value. rewrite (proj2 (Z.eqb_neq k 0)) by lia.
  assert ((k =? 2) || (k =? 3) = true) as -> by lia. split.
  - intros H. apply rbind_ok_inv in H as ([x d] & [Hd Hx]%take_n_iff & H); [|ulia]. inv_ok H. subst s'.
    subst n. exists (if k =? 2 then TBytes x else TText x).
    destruct Hk as [-> | ->]; cbn [Z.eqb Pos.eqb]; rewrite good_leaf by done;
      cbn [wf kind arg payload subtrees sum_list_with sc_data sc_tokens]; split_and!; try done; try lia;
      rewrite ?andb_true_iff, ?u64b_iff; [done|]. split; [done|]. cbn [Z.eqb Pos.eqb] in *.
    destruct (strict || utf8), (utf8_valid x); done.
  - intros (t & Hkt & Ha & Hg & Hd & Ht & Hc).
    destruct Hk as [-> | ->]; destruct t as [|x|x| | | |]; try discriminate Hkt;
      apply good_leaf in Hg; try done; cbn [arg payload subtrees sum_list_with] in *; subst n;
      rewrite (proj2 (take_n_iff _ _ x (sc_data s') (zlen_nonneg x))) by done; cbn [rbind Z.eqb Pos.eqb].
    + rewrite andb_false_r. cbn [andb]. f_equal. f_equal. destruct s'; cbn in *. f_equal. lia.
    + cbn [wf] in Hg. apply andb_true_iff in Hg as [_ Hg].
      assert ((strict || utf8) && true && negb (utf8_valid x) = false) as ->
        by (destruct (strict || utf8), (utf8_valid x); done).
      f_equal. f_equal. destruct s'; cbn in *. f_equal. lia.
Qed.

Lemma scan_plain_exact room k n s s' :
  k = 0 \/ k = 1 \/ k = 7 -> sc_tokens s <= cap -> is_u64 n ->
  scan_value (child_scan room) strict utf8 k n s = Ok ((), s') <-> exact_value room k n s s'.
Proof.
  intros Hk Hcap Hn. unfold scan_value. destruct Hk as [-> | [-> | ->]];
    cbn [Z.eqb Pos.eqb orb andb Z.leb Z.compare Pos.compare Pos.compare_cont].
  - split.
    + intros [= <-]. exists (TUint n). rewrite good_leaf by done. cbn [wf]. rewrite u64b_iff.
      refine (conj eq_refl (conj eq_refl (conj Hn (conj eq_refl (conj _ Hcap))))). cbn. lia.
    + intros (t & Hkt & Ha & Hg & Hd & Ht & Hc). destruct t; try discriminate Hkt.
      cbn in Hd, Ht. f_equal. f_equal. destruct s, s'; cbn in *. f_equal; [done|lia].
  - split; [done|]. by intros (t & Hkt & _); destruct t.
  - destruct (Z.eqb_spec n 22) as [-> | Hne]; split.
    + intros [= <-]. exists TNull. unfold good. cbn. destruct room; split_and!; try done; lia.
    + intros (t & Hkt & Ha & Hg & Hd & Ht & Hc). destruct t; try discriminate Hkt.
      cbn in Hd, Ht. f_equal. f_equal. destruct s, s'; cbn in *. f_equal; [done|lia].
    + done.
    + intros (t & Hkt & Ha & _). destruct t; try discriminate Hkt. cbn in Ha. congruence.
Qed.

Lemma scan_full_exact room k n s s' :
  (forall r, room = S r -> exact_scan (good r) (scan r cap strict utf8)) ->
  head_ok (k, n) -> sc_tokens s <= cap ->
  scan_value (child_scan room) strict utf8 k n s = Ok ((), s') <-> exact_value room k n s s'.
Proof.
  intros Hex [Hk Hn] Hcap. cbn [fst snd] in *.
  destruct (decide (k = 2 \/ k = 3)); [by apply scan_string_exact|].
  destruct (decide (k = 0 \/ k = 1 \/ k = 7)); [by apply scan_plain_exact|].
  destruct room as [|r].
  - unfold scan_value. cbn [child_scan].
    assert ((k =? 0) = false /\ (k =? 2) || (k =? 3) = false /\ (4 <=? k) && (k <=? 6) = true)
      as (-> & -> & ->) by lia.
    split; [done|]. intros (t & Hkt & _ & Hg & _). apply good_containers in Hg as [r [=]]. lia.
  - specialize (Hex r eq_refl).
    assert (k = 4 \/ k = 5 \/ k = 6) as [-> | [-> | ->]] by lia.
    + by apply scan_array_exact.
    + by apply scan_map_exact.
    + by apply scan_tag_exact.
Qed.

Lemma good_head_ok room t : good room t -> head_ok (kind t, arg t).
Proof.
  intros [Hw _]. unfold head_ok.
  destruct t; cbn in Hw |- *; rewrite ?andb_true_iff, ?u64b_iff in Hw; split; try lia; try tauto.
  ulia.
Qed.

Lemma scan_exact_step room :
  (forall r, room = S r -> exact_scan (good r) (scan r cap strict utf8)) ->
  exact_scan (good room) (scan room cap strict utf8).
Proof.
  intros Hex s s'. rewrite scan_head_iff. split.
  - intros (k & n & d & Hd & Hh & Hc & (t & <- & <- & Hg & Hd' & Ht & Hc')%scan_full_exact); [|done..].
    cbn [sc_data sc_tokens] in *. exists t. rewrite enc_view, size_view, <- app_assoc, <- Hd'.
    split_and!; try done. lia.
  - intros (t & Hg & Hd & Ht & Hc). rewrite enc_view, <- app_assoc in Hd. rewrite size_view in Ht.
    pose proof (good_head_ok _ _ Hg).
    exists (kind t), (arg t), (payload t ++ sc_data s'). split_and!; try done; [lia|].
    apply scan_full_exact; [done|done|cbn; lia|]. exists t. cbn. split_and!; try done. lia.
Qed.

Lemma scan_exact room : exact_scan (good room) (scan room cap strict utf8).
Proof.
  induction room as [|room IH]; apply scan_exact_step; [done|]. by intros r [= <-].
Qed.

End scan_exact.

Lemma item_view strict utf8 room t : good strict utf8 room t -> item (enc t) = Ok (view t).
Proof.
  intros Hh%good_head_ok. unfold item, view.
  rewrite (proj2 (cbor_head_iff (enc t) (kind t) (arg t) (payload t))); [done|].
  by rewrite <- enc_view.
Qed.

Lemma run_scan_iff strict utf8 data tokens cap it tokens' :
  run_scan strict utf8 data tokens cap = Ok (it, tokens') <->
  exists t, good strict utf8 max_depth t /\ data = enc t /\ it = view t /\
    tokens' = tokens + Z.of_nat (size t) /\ tokens' <= cap.
Proof.
  unfold run_scan. split.
  - intros H. apply rbind_ok_inv in H as ([[] s] & (t & Hg & Hd & Ht & Hc)%scan_exact & H).
    cbn [sc_data sc_tokens] in *.
    inv_ok H. apply bool_decide_eq_true in Heqb. rewrite Heqb, app_nil_r in Hd. subst data.
    rewrite (item_view _ _ _ _ Hg) in Hok. injection Hok as <-. exists t. subst. done.
  - intros (t & Hg & -> & -> & -> & Hc).
    rewrite (proj2 (scan_exact cap strict utf8 max_depth _
      {| sc_data := []; sc_tokens := tokens + Z.of_nat (size t) |})).
    + cbn. by rewrite (item_view _ _ _ _ Hg).
    + exists t. cbn. rewrite app_nil_r. done.
Qed.

(** ** Children of a validated item *)

Lemma forallb_impl {A} (f g : A -> bool) l :
  Forall (fun x => f x = true -> g x = true) l -> forallb f l = true -> forallb g l = true.
Proof.
  induction 1 as [|x l Hx _ IH]; [done|]. simpl. rewrite !andb_true_iff. intuition.
Qed.

(** Induction over a tree of bounded depth: a property passes from the subtrees to the tree. *)
Lemma fits_ind (P : tree -> Prop) :
  (forall t, Forall P (subtrees t) -> P t) -> forall room t, fits room t = true -> P t.
Proof.
  intros Hstep. induction room as [|room IH]; intros t Hf; apply Hstep.
  - destruct t; simpl in *; try done; constructor.
  - destruct t; simpl in *; try constructor; rewrite ?forallb_flatten in Hf; auto;
      apply forallb_Forall in Hf; eapply Forall_impl; eauto.
Qed.

Lemma subtrees_good strict utf8 room t :
  good strict utf8 (S room) t -> Forall (good strict utf8 room) (subtrees t).
Proof.
  intros Hg. destruct t; try constructor; cbn [subtrees].
  - by apply good_array in Hg as [_ ?].
  - by apply good_map in Hg as (_ & ? & _).
  - by apply good_tag in Hg as [_ ?].
  - constructor.
Qed.

Lemma fits_mono room room' t : (room <= room')%nat -> fits room t = true -> fits room' t = true.
Proof.
  revert room' t. induction room as [|room IH]; intros room' t Hle Hf; [by destruct t, room'|].
  destruct room' as [|room']; [lia|].
  assert (Hg : forall l, forallb (fits room) l = true -> forallb (fits room') l = true).
  { intros l. apply forallb_impl, Forall_true. intros u. apply IH. lia. }
  destruct t; cbn [fits] in *; rewrite ?forallb_flatten in *; auto. apply IH; [lia|done].
Qed.

(** The certificate-level rules only restrict: what any scan accepts, the loose scan accepts. *)
Lemma wf_loose strict utf8 room t :
  fits room t = true -> wf strict utf8 t = true -> wf false false t = true.
Proof.
  revert t. apply (fits_ind (fun t => wf strict utf8 t = true -> wf false false t = true)).
  intros t HF. destruct t; cbn [wf subtrees] in *; rewrite ?andb_true_iff, ?forallb_flatten.
  - done.
  - done.
  - tauto.
  - intros [? ?]. split; [done|]. by eapply forallb_impl.
  - intros [[? ?] _]. split_and!; try done. by eapply forallb_impl.
  - apply Forall_cons in HF as [HF _]. tauto.
  - done.
Qed.

Lemma good_loose strict utf8 room t :
  good strict utf8 room t -> good false false room t.
Proof. intros [Hw Hf]. split; [|done]. by eapply wf_loose. Qed.

(** An item whose bytes a scan accepted. *)
Definition validated (strict utf8 : bool) (it : Item) : Prop :=
  exists t, it = view t /\ good strict utf8 max_depth t /\ Z.of_nat (size t) <= usize_max.

Lemma run_scan_validated strict utf8 data tokens cap it tokens' :
  run_scan strict utf8 data tokens cap = Ok (it, tokens') -> 0 <= tokens -> cap <= usize_max ->
  validated strict utf8 it.
Proof.
  intros (t & Hg & -> & -> & -> & Hc)%run_scan_iff ? ?. exists t.
  split; [done|]. split; [done | lia].
Qed.

Lemma next_child_view t rest :
  good false false max_depth t -> Z.of_nat (size t) <= usize_max ->
  next_child (enc t ++ rest) = Some (view t, rest).
Proof.
  intros Hg Hs. unfold next_child.
  rewrite (proj2 (scan_exact usize_max false false max_depth _
    {| sc_data := rest; sc_tokens := Z.of_nat (size t) |})).
  - cbn [sc_data]. rewrite prefix_taken. by rewrite (item_view _ _ _ _ Hg).
  - exists t. cbn. split_and!; done.
Qed.

Lemma children_from_views fuel l :
  Forall (fun t => good false false max_depth t /\ Z.of_nat (size t) <= usize_max) l ->
  (length (encs l) <= fuel)%nat -> children_from fuel (encs l) = Some (map view l).
Proof.
  intros HF. revert fuel. induction HF as [|t l [Hg Hs] _ IH]; intros fuel Hfuel; [by destruct fuel|].
  rewrite encs_cons in *. rewrite length_app in Hfuel. pose proof (enc_nonempty t) as Hne.
  destruct fuel as [|fuel]; [ulia|].
  cbn [children_from]. destruct (enc t ++ encs l) eqn:He.
  { apply (f_equal length) in He. rewrite length_app in He. cbn in He. ulia. }
  rewrite <- He, next_child_view by done. rewrite IH by ulia. done.
Qed.

Lemma children_view strict utf8 t :
  good strict utf8 max_depth t -> Z.of_nat (size t) <= usize_max -> kind t <> 2 -> kind t <> 3 ->
  children (view t) = Some (map view (subtrees t)) /\ Forall (validated strict utf8) (map view (subtrees t)).
Proof.
  intros Hg Hs H2 H3.
  assert (HF : Forall (fun t => good strict utf8 max_depth t /\ Z.of_nat (size t) <= usize_max)
    (subtrees t)).
  { rewrite size_view in Hs. pose proof (subtrees_good _ _ _ _ Hg) as HF.
    apply Forall_and. split.
    - eapply Forall_impl; [exact HF|]. intros u [Hw Hf]. split; [done|].
      apply (fits_mono 15); [unfold max_depth; lia | done].
    - clear -Hs. induction (subtrees t) as [|u l IH]; constructor; cbn [sum_list_with] in Hs; [lia|].
      apply IH. lia. }
  split.
  - unfold children. destruct (null (view t)) eqn:Hn; [by destruct t|].
    assert (Hp : it_data (view t) = encs (subtrees t)) by (by destruct t).
    rewrite Hp. apply children_from_views; [|done].
    eapply Forall_impl; [exact HF|]. intros u [? ?]. split; [by eapply good_loose | done].
  - apply Forall_map. eapply Forall_impl; [exact HF|]. intros u [? ?]. by exists u.
Qed.

(** The children iterator on a validated item, and what it yields. *)
Lemma children_validated strict utf8 it :
  validated strict utf8 it -> it_major it <> 2 -> it_major it <> 3 ->
  exists l, children it = Some l /\ Forall (validated strict utf8) l /\
    (it_major it = 4 -> zlen l = it_arg it) /\ (it_major it = 5 -> zlen l = 2 * it_arg it).
Proof.
  intros (t & -> & Hg & Hs) H2 H3. destruct (children_view _ _ t Hg Hs H2 H3) as [Hc HF].
  exists (map view (subtrees t)). split; [done|]. split; [done|].
  unfold zlen. rewrite length_map. destruct t; split; try discriminate; intros _; [done|].
  cbn [view subtrees arg it_arg]. rewrite flatten_length. ulia.
Qed.

Lemma item_array_validated strict utf8 n it :
  validated strict utf8 it ->
  exists r, item_array n it = Some r /\ forall l, r = Ok l -> length l = n /\ Forall (validated strict utf8) l.
Proof.
  intros Hv. unfold item_array. destruct (_ || _) eqn:Hb; [by eexists|].
  apply orb_false_iff in Hb as [H4%negb_false_iff Hn%negb_false_iff]. apply Z.eqb_eq in H4, Hn.
  destruct (children_validated _ _ it Hv) as (l & -> & HF & Hlen & _); [lia..|].
  eexists. split; [done|]. intros l' [= <-]. unfold fill.
  assert (length l = n) by (specialize (Hlen H4); ulia). by rewrite take_length_app.
Qed.

Lemma tagged_inner strict utf8 it tag :
  validated strict utf8 it -> it_major it = 6 -> it_arg it = tag -> exists v, item (it_data it) = Ok v /\ validated strict utf8 v.
Proof.
  intros (t & -> & Hg & Hs) H6 _. destruct t; try discriminate H6.
  destruct (children_view _ _ _ Hg Hs) as [_ HF]; try done. apply Forall_cons in HF as [HF _].
  exists (view t). split; [|done]. cbn [view it_data payload subtrees encs map concat].
  rewrite app_nil_r. apply (subtrees_good _ _ 15), Forall_cons in Hg as [Hg _].
  by eapply item_view.
Qed.

Lemma tagged_validated strict utf8 n tag it :
  validated strict utf8 it ->
  exists r, tagged n tag it = Some r /\ forall l, r = Ok l -> length l = n /\ Forall (validated strict utf8) l.
Proof.
  intros Hv. unfold tagged. destruct (_ || _) eqn:Hb; [by eexists|].
  apply orb_false_iff in Hb as [H6%negb_false_iff Hn%negb_false_iff]. apply Z.eqb_eq in H6, Hn.
  destruct (tagged_inner _ _ _ _ Hv H6 Hn) as (v & -> & Hv').
  destruct (item_array_validated _ _ n v Hv') as (r & -> & Hr). eexists. split; [done|].
  intros l H. inv_ok H. apply Hr. subst r. destruct a as [|x a]; inv_ok H; congruence.
Qed.

(** ** Properties *)

(** Each entry point of the CBOR scan accepts exactly the byte strings that encode a
    well-formed tree of depth at most sixteen, with nothing after it, whose data items fit what is
    left of the budget; the strict scan also asks for UTF-8 text and for maps of at most 64 pairs
    whose encoded keys strictly ascend.  The returned item is the view of that tree, and the budget
    is charged one token per data item. *)
Theorem run_scan_spec strict utf8 data tokens cap it tokens' :
  run_scan strict utf8 data tokens cap = Ok (it, tokens') <->
  exists t, wf strict utf8 t = true /\ fits max_depth t = true /\ data = enc t /\ it = view t /\
    tokens' = tokens + Z.of_nat (size t) /\ tokens' <= cap.
Proof. rewrite run_scan_iff. unfold good. split; intros (t & H); exists t; tauto. Qed.

(** The views of a scanned item never panic: its children, the children of those and so on can
    all be located by the rescans of the iterator, an array yields exactly as many children as its
    head announces and a map twice as many, and the fixed arrays and tagged arrays read from such
    items have exactly the arity asked for. *)
Theorem children_never_panic strict utf8 data tokens cap it tokens' :
  run_scan strict utf8 data tokens cap = Ok (it, tokens') -> 0 <= tokens -> cap <= usize_max ->
  validated strict utf8 it /\
  forall v, validated strict utf8 v ->
    (it_major v <> 2 -> it_major v <> 3 ->
      exists l, children v = Some l /\ Forall (validated strict utf8) l /\
        (it_major v = 4 -> zlen l = it_arg v) /\ (it_major v = 5 -> zlen l = 2 * it_arg v)) /\
    (forall n, exists r, item_array n v = Some r /\
      forall l, r = Ok l -> length l = n /\ Forall (validated strict utf8) l) /\
    (forall n tag, exists r, tagged n tag v = Some r /\
      forall l, r = Ok l -> length l = n /\ Forall (validated strict utf8) l).
Proof.
  intros Hrun Ht Hcap. split; [by eapply run_scan_validated|]. intros v Hv. split_and!.
  - by apply children_validated.
  - intros n. by apply item_array_validated.
  - intros n tag. by apply tagged_validated.
Qed.

Definition sample_item : Item :=
  view (TTag 39001 (TArray [TUint 1; TMap [(TText (ascii "a"), TNull)]])).

Lemma children_never_panic_witness :
  run_scan true true (it_raw sample_item) 7 MAX_ITEMS = Ok (sample_item, 13) /\ validated true true sample_item /\
  exists l, children sample_item = Some l /\ length l = 1%nat.
Proof.
  assert (H : run_scan true true (it_raw sample_item) 7 MAX_ITEMS = Ok (sample_item, 13))
    by (vm_compute; reflexivity).
  split; [exact H|].
  split; [exact (proj1 (children_never_panic true true _ 7 MAX_ITEMS _ 13 H ltac:(lia) ltac:(done)))|].
  eexists. split; vm_compute; reflexivity.
Defined.

End B1Cbor.
