(* ===== verification/B1Membership.v ===== *)
(** The stateless membership check of the radix sparse Merkle tree, [membership] of
    [b1/src/lib.rs] and [run] of [b1/src/rsmt.rs].

    The request is a packed record (root, key, value, depth bitmap, siblings); the loop folds the
    leaf up to the root through the depths of the bitmap.  The reference is [path_hash], the hash of
    a path listed from the root down.  The theorems give the exact requests that are accepted, with
    their charge and verdict, and show that one root admits one value per key: two accepted requests
    that disagree collide among the byte strings they hash. *)
From S2P Require Import Prelude Crypto CborCodec B1Cbor.
Import B1Cbor.

Module B1Membership.

Inductive Error (E : Type) :=
| BadRequest (m : Malformed)
| OutOfGas
| Host (e : E)
| Registry.
Arguments BadRequest {E} m.
Arguments OutOfGas {E}.
Arguments Host {E} e.
Arguments Registry {E}.

(** [From<Malformed> for Error<E>]. *)
Definition from_malformed {E} (m : Malformed) : Error E := BadRequest m.

Record Output := { out_gas : Z; out_bytes : bytes }.

Definition versioned (gas version : Z) (valid : bool) : Output :=
  {| out_gas := gas;
     out_bytes := replicate 31 Byte.x00 ++ [z2b version] ++ replicate 31 Byte.x00
                  ++ [if valid then Byte.x01 else Byte.x00] |}.
Definition new_output (gas : Z) (valid : bool) : Output := versioned gas 1 valid.

Section membership.
Context `{Crypto}.
Context {E : Type}.

(** [hash(&[..])]: one digest over the concatenation of the parts. *)
Definition hash (parts : list bytes) : bytes := sha256 (concat parts).

Definition byte_at (l : bytes) (i : nat) : Z := b2z (nth i l Byte.x00).
(** [l[d / 8] & (0x80 >> (d % 8)) != 0]. *)
Definition bit (l : bytes) (d : nat) : bool :=
  negb (Z.land (byte_at l (d / 8)) (Z.shiftr 0x80 (Z.of_nat (d mod 8))) =? 0).

Fixpoint count_ones (p : positive) : Z :=
  match p with xH => 1 | xO p => count_ones p | xI p => 1 + count_ones p end.
Definition ones (b : byte) : Z := match b2z b with Zpos p => count_ones p | _ => 0 end.

(** The key bits above depth [d], the rest of the 32 bytes zero. *)
Definition region (key : bytes) (d : nat) : bytes :=
  let whole := take (d / 8) key in
  let part :=
    if negb (d mod 8 =? 0)%nat
    then [z2b (Z.land (byte_at key (d / 8)) (Z.shiftl 0xff (8 - Z.of_nat (d mod 8)) mod 256))]
    else [] in
  take 32 (whole ++ part ++ ZERO32).

Definition node (key : bytes) (d : nat) (h sibling : bytes) : bytes :=
  if negb (bit key d)
  then hash [[Byte.x01; z2b (Z.of_nat d)]; region key d; h; sibling]
  else hash [[Byte.x01; z2b (Z.of_nat d)]; region key d; sibling; h].

(** One round of [for d in (0..256).rev()], over the running hash and the sibling index. *)
Definition rsmt_step (key bitmap siblings : bytes) (st : bytes * nat) (d : nat) : bytes * nat :=
  let (h, idx) := st in
  if negb (bit bitmap d) then st
  else
    let idx := (idx - 1)%nat in
    let sibling := take 32 (drop (idx * 32) siblings) in
    (node key d h sibling, idx).

(** The fields of the request: root, key, value, bitmap, its population count and the siblings. *)
Definition rsmt_request : b1_reader (bytes * bytes * bytes * bytes * Z * bytes) :=
  let* h := header in
  if negb (h =? 1) then fail Count else
  let* root := take_n 32 in
  let* key := take_n 32 in
  let* len := uint_n 4 in
  if 4096 <? len then fail Limit else
  let* value := take_n len in
  let* bitmap := take_n 32 in
  let count := sum_z (map ones bitmap) in
  fun rest =>
    if negb (zlen rest =? 32 * count) then Err Shape
    else Ok ((root, key, value, bitmap, count, rest), rest).

Definition rsmt_run (input : bytes) (gas : Z) : result (Error E) Output :=
  let? (req, _) := map_err from_malformed (rsmt_request input) in
  let '(root, key, value, bitmap, count, siblings) := req in
  let charge := 2000 + 16 * zlen input + 250 * (1 + count) in
  if gas <? charge then Err OutOfGas else
  let h := hash [[Byte.x00]; key; value] in
  let (h, _) := fold_left (rsmt_step key bitmap siblings) (rev (seq 0 256)) (h, Z.to_nat count) in
  Ok (new_output charge (negb (bool_decide (root = ZERO32)) && bool_decide (h = root))).

Definition membership (input : bytes) (gas : Z) : result (Error E) Output :=
  if 12392 <? zlen input then Err (from_malformed Limit) else
  if gas <? 2000 + 16 * zlen input then Err OutOfGas else
  rsmt_run input gas.

(** ** The reference *)

Record Request := {
  req_root : bytes; req_key : bytes; req_value : bytes; req_bitmap : bytes;
  req_siblings : list bytes }.

Definition encode_request (r : Request) : bytes :=
  [Byte.x01; Byte.x00; Byte.x00; Byte.x01] ++ req_root r ++ req_key r
  ++ be_bytes 4 (zlen (req_value r)) ++ req_value r ++ req_bitmap r ++ concat (req_siblings r).

(** The depths at which the path branches, from the root down. *)
Definition depths (bitmap : bytes) : list nat := List.filter (bit bitmap) (seq 0 256).

(* Conversion never runs the filter over the 256 depths of an unknown bitmap. *)
#[local] Strategy expand [depths].
#[local] Strategy opaque [seq].

Definition request_ok (r : Request) : Prop :=
  is_word (req_root r) /\ is_word (req_key r) /\ zlen (req_value r) <= 4096 /\
  is_word (req_bitmap r) /\ Forall is_word (req_siblings r) /\
  length (req_siblings r) = length (depths (req_bitmap r)).

Fixpoint path_hash (key value : bytes) (path : list (nat * bytes)) : bytes :=
  match path with
  | [] => hash [[Byte.x00]; key; value]
  | (d, sibling) :: path => node key d (path_hash key value path) sibling
  end.

Definition request_root (r : Request) : bytes :=
  path_hash (req_key r) (req_value r) (combine (depths (req_bitmap r)) (req_siblings r)).

Definition request_charge (r : Request) : Z :=
  2000 + 16 * zlen (encode_request r) + 250 * (1 + zlen (req_siblings r)).

Definition request_valid (r : Request) : bool :=
  negb (bool_decide (req_root r = ZERO32)) && bool_decide (request_root r = req_root r).

(** ** Counting the set bits *)

Lemma ones_bits b : ones b = zlen (List.filter (bit [b]) (seq 0 8)).
Proof. destruct b; vm_compute; reflexivity. Qed.

Lemma bit_tail b l d : bit (b :: l) (8 + d) = bit l d.
Proof.
  unfold bit, byte_at. replace (8 + d)%nat with (d + 1 * 8)%nat by lia.
  rewrite Nat.div_add, Nat.Div0.mod_add by lia. by rewrite Nat.add_1_r.
Qed.

(** The set bits of a byte list, as those of its head and those of its tail eight further on. *)
Definition bits (l : bytes) : list nat := List.filter (bit l) (seq 0 (8 * length l)).

Lemma bits_cons b l : bits (b :: l) = bits [b] ++ map (Nat.add 8) (bits l).
Proof.
  unfold bits. cbn [length]. replace (8 * S (length l))%nat with (8 + 8 * length l)%nat by lia.
  rewrite seq_app, List.filter_app. apply f_equal2; [reflexivity|].
  change (0 + 8)%nat with (8 + 0)%nat. rewrite <- fmap_add_seq.
  change (@fmap list _ nat nat) with (@map nat nat). generalize (seq 0 (8 * length l)) as ds.
  induction ds as [|d ds IH]; [done|]. cbn [map List.filter]. rewrite bit_tail.
  destruct (bit l d); cbn [map]; by rewrite IH.
Qed.

Lemma bits_count l : zlen (bits l) = sum_z (map ones l).
Proof.
  induction l as [|b l IH]; [done|]. rewrite bits_cons, zlen_app. cbn [map sum_z fold_right].
  fold (sum_z (map ones l)). rewrite ones_bits, <- IH. unfold zlen. rewrite length_map. done.
Qed.

Lemma bits_byte_inj a b : bits [a] = bits [b] -> a = b.
Proof.
  intros Hab. apply b2z_inj.
  assert (Hval : forall c, b2z c = sum_z (map (fun d => Z.shiftr 0x80 (Z.of_nat d)) (bits [c])))
    by (intros c; destruct c; vm_compute; reflexivity).
  by rewrite (Hval a), (Hval b), Hab.
Qed.

Lemma bits_split b l : bits [b] = List.filter (fun d => d <? 8)%nat (bits (b :: l)).
Proof.
  rewrite (bits_cons b l), List.filter_app.
  assert (List.filter (fun d => d <? 8)%nat (bits [b]) = bits [b]) as ->.
  { apply List.forallb_filter_id, List.forallb_forall.
    intros d [Hd%List.in_seq _]%List.filter_In. simpl in Hd. apply Nat.ltb_lt. lia. }
  assert (List.filter (fun d => d <? 8)%nat (map (Nat.add 8) (bits l)) = []) as ->;
    [|by rewrite app_nil_r].
  induction (bits l) as [|d ds IH]; [done|]. cbn [map List.filter].
  by rewrite (proj2 (Nat.ltb_ge _ _)) by lia.
Qed.

Lemma bits_inj a b : length a = length b -> bits a = bits b -> a = b.
Proof.
  revert b. induction a as [|x a IH]; intros [|y b] Hl Hb; try done.
  assert (x = y) as -> by (apply bits_byte_inj; rewrite (bits_split x a), (bits_split y b), Hb; done).
  f_equal. apply IH; [by injection Hl|]. rewrite (bits_cons y a), (bits_cons y b) in Hb. apply app_inv_head in Hb.
  by apply (inj (fmap (Nat.add 8))).
Qed.

Lemma depths_bits bitmap : is_word bitmap -> depths bitmap = bits bitmap.
Proof. intros Hw. unfold depths, bits. by rewrite Hw. Qed.

Lemma depths_count bitmap : is_word bitmap -> sum_z (map ones bitmap) = zlen (depths bitmap).
Proof. intros Hw. by rewrite depths_bits, bits_count. Qed.

Lemma depths_le bitmap : (length (depths bitmap) <= 256)%nat.
Proof. unfold depths. rewrite <- (length_seq 256 0) at 2. apply List.filter_length_le. Qed.

(** ** The loop computes the path hash *)

Lemma concat_words_length l : Forall is_word l -> length (concat l) = (length l * 32)%nat.
Proof. induction 1 as [|w l Hw _ IH]; [done|]. cbn. rewrite length_app, IH, Hw. lia. Qed.

Lemma rsmt_loop key value bitmap ds : forall pre sibs,
  Forall is_word (pre ++ sibs) -> length sibs = length (List.filter (bit bitmap) ds) ->
  fold_left (rsmt_step key bitmap (concat (pre ++ sibs))) (rev ds)
    (hash [[Byte.x00]; key; value], (length pre + length sibs)%nat)
  = (path_hash key value (combine (List.filter (bit bitmap) ds) sibs), length pre).
Proof.
  induction ds as [|d ds IH]; intros pre sibs HF Hl; cbn [rev List.filter] in *.
  - destruct sibs; [|done]. cbn. by rewrite Nat.add_0_r.
  - rewrite fold_left_app. destruct (bit bitmap d) eqn:Hb.
    + destruct sibs as [|w sibs]; [done|]. cbn [length] in Hl |- *.
      specialize (IH (pre ++ [w]) sibs). rewrite <- app_assoc, length_app in IH. cbn [app length] in IH.
      replace (length pre + S (length sibs))%nat with (length pre + 1 + length sibs)%nat by lia.
      rewrite IH by (done || lia). cbn [fold_left rsmt_step combine path_hash]. rewrite Hb. cbn [negb].
      apply Forall_app in HF as [Hp [Hw _]%Forall_cons].
      rewrite Nat.add_sub. do 2 f_equal.
      rewrite concat_app, drop_length_app by (by apply concat_words_length). cbn [concat].
      by apply take_length_app.
    + rewrite IH by done. cbn [fold_left rsmt_step]. by rewrite Hb.
Qed.

(** ** Parsing the request *)

Lemma split_words_nat n rest :
  length rest = (n * 32)%nat -> exists l, Forall is_word l /\ length l = n /\ concat l = rest.
Proof.
  revert rest. induction n as [|n IH]; intros rest Hl.
  - exists []. split_and!; [constructor | done|]. by apply nil_length_inv in Hl as ->.
  - destruct (IH (drop 32 rest)) as (l & HF & Hn & Hc); [rewrite length_drop; lia|].
    exists (take 32 rest :: l). split_and!.
    + constructor; [|done]. unfold is_word. rewrite length_take. lia.
    + by rewrite <- Hn.
    + cbn [concat]. rewrite Hc. apply take_drop.
Qed.

Lemma split_words {A} (ds : list A) rest :
  zlen rest = 32 * zlen ds ->
  exists l, Forall is_word l /\ length l = length ds /\ zlen l = zlen ds /\ concat l = rest.
Proof.
  intros Hl. destruct (split_words_nat (length ds) rest) as (l & ? & Hn & ?); [ulia|].
  exists l. split_and!; try done. unfold zlen. by rewrite Hn.
Qed.

Lemma header_one d d' :
  header d = Ok (1, d') <-> d = [Byte.x01; Byte.x00; Byte.x00; Byte.x01] ++ d'.
Proof.
  unfold header. split.
  - intros H0. inv_ok H0. apply uint_1_inv in Hok as (b & -> & ->), Hok0 as (c & -> & ->).
    apply negb_false_iff, Z.eqb_eq in Heqb, Heqb0.
    apply (uint_n_be 2) in H0 as [-> _]; [|lia].
    assert (b = Byte.x01) as -> by (by apply b2z_inj). assert (c = Byte.x00) as -> by (by apply b2z_inj).
    reflexivity.
  - intros ->. cbn [app]. unfold sbind. rewrite uint_1_cons.
    change (negb (b2z Byte.x01 =? 1)) with false. cbv iota beta. rewrite uint_1_cons.
    change (negb (b2z Byte.x00 =? 0)) with false. cbv iota beta.
    apply (uint_n_bytes 2 1); lia.
Qed.

Lemma take_word d x d' : take_n 32 d = Ok (x, d') <-> d = x ++ d' /\ is_word x.
Proof. rewrite take_n_iff by lia. unfold is_word, zlen. intuition lia. Qed.

Lemma sbind_take_n {A} n x d' (k : bytes -> b1_reader A) :
  zlen x = n -> sbind (take_n n) k (x ++ d') = k x d'.
Proof.
  intros Hx. apply sbind_ok. apply take_n_iff; [pose proof (zlen_nonneg x); lia | done].
Qed.

Lemma sbind_uint_4 {A} v d' (k : Z -> b1_reader A) :
  0 <= v < 2 ^ 32 -> sbind (uint_n 4) k (be_bytes 4 v ++ d') = k v d'.
Proof. intros Hv. apply sbind_ok. by apply (uint_n_bytes 4); [lia|]. Qed.

Lemma uint_4_inv d v d' : uint_n 4 d = Ok (v, d') -> d = be_bytes 4 v ++ d' /\ 0 <= v < 2 ^ 32.
Proof. intros Hv. by apply (uint_n_be 4) in Hv; [|lia]. Qed.

Lemma word_zlen w : is_word w -> zlen w = 32.
Proof. ulia. Qed.

Lemma rsmt_request_iff input req rest :
  rsmt_request input = Ok (req, rest) <->
  exists r, request_ok r /\ input = encode_request r /\ rest = concat (req_siblings r) /\
    req = (req_root r, req_key r, req_value r, req_bitmap r, zlen (req_siblings r), rest).
Proof.
  unfold rsmt_request. split.
  - intros H0. inv_ok H0. apply negb_false_iff, Z.eqb_eq in Heqb, Heqb1. subst a.
    apply header_one in Hok as ->. apply take_word in Hok0 as [-> Hroot], Hok1 as [-> Hkey].
    apply uint_4_inv in Hok2 as [-> Hlen].
    apply take_n_iff in Hok3 as [-> Hvalue]; [|lia]. apply take_word in Hok4 as [-> Hbitmap].
    rewrite depths_count in Heqb1 by done.
    destruct (split_words _ _ Heqb1) as (l & HF & Hl & Hz & Hc). subst.
    exists {| req_root := a0; req_key := a1; req_value := a3; req_bitmap := a4; req_siblings := l |}.
    unfold request_ok, encode_request.
    cbn [req_root req_key req_value req_bitmap req_siblings]. rewrite depths_count by done.
    split_and!; try done; [lia|]. by rewrite Hz.
  - intros (r & (Hroot & Hkey & Hvalue & Hbitmap & HF & Hl) & -> & -> & ->). unfold encode_request.
    rewrite (sbind_ok _ _ _ _ _ (proj2 (header_one _ _) eq_refl)).
    change (negb (1 =? 1)) with false. cbv iota. rewrite !sbind_take_n by (by apply word_zlen).
    pose proof (zlen_nonneg (req_value r)).
    rewrite sbind_uint_4 by lia.
    rewrite (proj2 (Z.ltb_ge _ _)) by lia. rewrite sbind_take_n by done.
    rewrite sbind_take_n by (by apply word_zlen). cbv beta zeta. rewrite depths_count by done.
    assert (zlen (depths (req_bitmap r)) = zlen (req_siblings r)) as -> by ulia.
    assert ((zlen (concat (req_siblings r)) =? 32 * zlen (req_siblings r)) = true) as ->; [|done].
    apply Z.eqb_eq. unfold zlen. rewrite concat_words_length by done. lia.
Qed.

(** The size cap of the entry point refuses no well-formed request. *)
Lemma request_size r : request_ok r -> zlen (encode_request r) <= 12392.
Proof.
  intros (Hroot & Hkey & Hvalue & Hbitmap & HF & Hl). unfold encode_request.
  pose proof (depths_le (req_bitmap r)). rewrite !zlen_app. unfold zlen in *.
  rewrite concat_words_length, be_bytes_length, Hroot, Hkey, Hbitmap by done. cbn [length]. lia.
Qed.

Lemma rsmt_fold r :
  request_ok r ->
  fold_left (rsmt_step (req_key r) (req_bitmap r) (concat (req_siblings r))) (rev (seq 0 256))
    (hash [[Byte.x00]; req_key r; req_value r], Z.to_nat (zlen (req_siblings r)))
  = (request_root r, 0%nat).
Proof.
  intros (_ & _ & _ & _ & HF & Hl). unfold request_root, zlen, depths in *. rewrite Nat2Z.id.
  revert Hl. generalize (seq 0 256) as ds. intros ds Hl.
  exact (rsmt_loop _ _ _ ds [] _ HF Hl).
Qed.

Lemma rsmt_run_request r gas :
  request_ok r ->
  rsmt_run (encode_request r) gas
  = if gas <? request_charge r then Err OutOfGas
    else Ok (new_output (request_charge r) (request_valid r)).
Proof.
  intros Hr. unfold rsmt_run.
  rewrite (proj2 (rsmt_request_iff _ _ _) (ex_intro _ r (conj Hr (conj eq_refl (conj eq_refl eq_refl))))).
  cbn [map_err rbind]. rewrite rsmt_fold by done. reflexivity.
Qed.

Lemma membership_iff input gas out :
  membership input gas = Ok out <->
  exists r, request_ok r /\ input = encode_request r /\ request_charge r <= gas /\
    out = new_output (request_charge r) (request_valid r).
Proof.
  unfold membership. split.
  - intros H0. inv_ok H0.
    assert (exists r, request_ok r /\ input = encode_request r) as (r & Hr & ->).
    { unfold rsmt_run in H0. apply rbind_ok_inv in H0 as ([req rest] & Hreq & _).
      apply map_err_ok_inv, rsmt_request_iff in Hreq as (r & Hr & -> & _). eauto. }
    rewrite rsmt_run_request in H0 by done. exists r. inv_ok H0. split_and!; try done. lia.
  - intros (r & Hr & -> & Hgas & ->). pose proof (request_size r Hr).
    rewrite (proj2 (Z.ltb_ge 12392 _)) by lia.
    rewrite (proj2 (Z.ltb_ge gas (2000 + _))).
    + rewrite rsmt_run_request by done. by rewrite (proj2 (Z.ltb_ge _ _)) by lia.
    + unfold request_charge in Hgas. pose proof (zlen_nonneg (req_siblings r)). lia.
Qed.

(** ** One value per key *)

Lemma path_hash_word key value path : is_word (path_hash key value path).
Proof. destruct path as [|[d w] path]; cbn; [|unfold node; case_match]; apply sha256_word. Qed.

Lemma region_word key d : is_word (region key d).
Proof.
  unfold region, is_word. cbv zeta. rewrite length_take, !length_app.
  change (length ZERO32) with 32%nat. lia.
Qed.

(** The bytes an inner node hashes: depth, region and the two children, left first. *)
Definition node_bytes (key : bytes) (d : nat) (h sibling : bytes) : bytes :=
  [Byte.x01; z2b (Z.of_nat d)] ++ region key d
  ++ (if bit key d then sibling ++ h else h ++ sibling).

Lemma node_hash key d h w : node key d h w = sha256 (node_bytes key d h w).
Proof. unfold node, node_bytes, hash. destruct (bit key d); cbn; by rewrite app_nil_r. Qed.

Lemma node_bytes_inj key d1 d2 h1 h2 w1 w2 :
  (d1 < 256)%nat -> (d2 < 256)%nat -> is_word h1 -> is_word h2 -> is_word w1 -> is_word w2 ->
  node_bytes key d1 h1 w1 = node_bytes key d2 h2 w2 -> d1 = d2 /\ h1 = h2 /\ w1 = w2.
Proof.
  intros ?????? Heq. unfold node_bytes in Heq. injection Heq as Hd Heq.
  assert (d1 = d2) as <-.
  { apply (f_equal b2z) in Hd. rewrite !b2z_z2b_small in Hd by lia. lia. }
  apply app_inv_head in Heq. split; [done|].
  destruct (bit key d1); apply app_inj_1 in Heq as [-> ->]; try done; unfold is_word in *; congruence.
Qed.

(** The byte strings a path hashes, from the root down. *)
Fixpoint path_inputs (key value : bytes) (path : list (nat * bytes)) : list bytes :=
  match path with
  | [] => [[Byte.x00] ++ key ++ value]
  | (d, sibling) :: path => node_bytes key d (path_hash key value path) sibling :: path_inputs key value path
  end.

Lemma path_hash_inj l key v1 v2 p1 p2 :
  Forall (fun x => (x.1 < 256)%nat /\ is_word x.2) p1 ->
  Forall (fun x => (x.1 < 256)%nat /\ is_word x.2) p2 ->
  path_inputs key v1 p1 ⊆ l -> path_inputs key v2 p2 ⊆ l ->
  path_hash key v1 p1 = path_hash key v2 p2 -> (v1 = v2 /\ p1 = p2) \/ collision_among sha256 l.
Proof.
  intros HF. revert p2. induction HF as [|[d1 w1] p1 [Hd1 Hw1] _ IH];
    intros [|[d2 w2] p2] HF2 Hl1 Hl2 Heq; cbn [path_hash path_inputs fst snd] in *;
    unfold hash in Heq; cbn [concat] in Heq; rewrite ?node_hash, ?app_nil_r in Heq;
    apply (digest_inj _ l) in Heq as [Heq|?]; try (by right); try discriminate Heq; try (apply Hl1; by left); try (apply Hl2; by left).
  - left. injection Heq as Heq. by apply app_inv_head in Heq.
  - apply Forall_cons in HF2 as [[Hd2 Hw2] HF2].
    apply node_bytes_inj in Heq as (-> & Hh & ->); try done; try apply path_hash_word.
    apply IH in Hh as [[-> ->] | ?]; [by left | by right | done | |];
      intros x Hx; [apply Hl1 | apply Hl2]; by right.
Qed.

(** The byte strings a membership check of [r] hashes. *)
Definition request_inputs (r : Request) : list bytes :=
  path_inputs (req_key r) (req_value r) (combine (depths (req_bitmap r)) (req_siblings r)).

Lemma depths_range bitmap sibs :
  Forall is_word sibs ->
  Forall (fun x => (x.1 < 256)%nat /\ is_word x.2) (combine (depths bitmap) sibs).
Proof.
  intros HF. apply Forall_forall. intros [d w] Hin%list_elem_of_In.
  pose proof (List.in_combine_l _ _ _ _ Hin) as [Hd%List.in_seq _]%List.filter_In.
  pose proof (List.in_combine_r _ _ _ _ Hin) as Hw%list_elem_of_In.
  rewrite Forall_forall in HF. split; [cbn; lia | by apply HF].
Qed.

Lemma membership_valid r gas charge :
  request_ok r -> membership (encode_request r) gas = Ok (new_output charge true) ->
  request_root r = req_root r.
Proof.
  intros Hr H0. unfold membership in H0. inv_ok H0. rewrite rsmt_run_request in H0 by done.
  inv_ok H0. destruct (request_valid r) eqn:Hv; [|discriminate].
  by apply andb_true_iff in Hv as [_ Hv%bool_decide_eq_true].
Qed.

Lemma combine_inj {A B} (a a' : list A) (b b' : list B) :
  length b = length a -> length b' = length a' -> combine a b = combine a' b' -> a = a' /\ b = b'.
Proof.
  intros Hl Hl' Heq. apply (f_equal (@split _ _)) in Heq.
  rewrite !List.combine_split in Heq by done. by injection Heq.
Qed.

(** The depths and siblings of the path determine the bitmap and the siblings. *)
Lemma path_determines r1 r2 :
  request_ok r1 -> request_ok r2 ->
  combine (depths (req_bitmap r1)) (req_siblings r1) = combine (depths (req_bitmap r2)) (req_siblings r2) ->
  req_bitmap r1 = req_bitmap r2 /\ req_siblings r1 = req_siblings r2.
Proof.
  intros (_ & _ & _ & Hb1 & _ & Hl1) (_ & _ & _ & Hb2 & _ & Hl2) Heq.
  apply combine_inj in Heq as [Hd Hs]; [|exact Hl1|exact Hl2].
  rewrite (depths_bits _ Hb1), (depths_bits _ Hb2) in Hd. split; [|exact Hs].
  apply bits_inj; [by rewrite Hb1, Hb2 | exact Hd].
Qed.

(** ** Properties *)

(** C38: The membership check accepts exactly the packed encodings of well-formed requests (32-byte
    root and key, at most 4096 value bytes, a 256-bit depth bitmap and one 32-byte sibling per set
    bit) whose charge the gas covers; the size cap refuses none of them.  The charge is a function
    of the request alone, and the verdict is that the root is non-zero and is the hash of the path
    the request describes. *)
Theorem membership_spec input gas out :
  membership input gas = Ok out <->
  exists r, request_ok r /\ input = encode_request r /\ request_charge r <= gas /\
    out = new_output (request_charge r) (request_valid r).
Proof. apply membership_iff. Qed.

(** One root proves at most one value per key.  Two requests for the same root and key that are
    both found valid are the same request, value, depths and siblings included, or two different
    byte strings the two checks hash have one SHA-256 digest. *)
Theorem membership_binding r1 r2 gas1 gas2 charge1 charge2 :
  request_ok r1 -> request_ok r2 ->
  req_root r1 = req_root r2 -> req_key r1 = req_key r2 ->
  membership (encode_request r1) gas1 = Ok (new_output charge1 true) ->
  membership (encode_request r2) gas2 = Ok (new_output charge2 true) ->
  r1 = r2 \/ collision_among sha256 (request_inputs r1 ++ request_inputs r2).
Proof.
  intros H1 H2 Hroot Hkey Hv1%membership_valid Hv2%membership_valid; [|done..].
  unfold request_root in *. rewrite <- Hroot, <- Hv1, Hkey in Hv2.
  pose proof H1 as (_ & _ & _ & _ & HF1 & _). pose proof H2 as (_ & _ & _ & _ & HF2 & _).
  apply (path_hash_inj (request_inputs r1 ++ request_inputs r2)) in Hv2 as [[Hvalue Hpath] | ?];
    [|by right|by apply depths_range|by apply depths_range|..].
  2:{ intros x Hx. apply elem_of_app. by right. }
  2:{ intros x Hx. apply elem_of_app. left. unfold request_inputs. by rewrite Hkey. }
  left. destruct (path_determines r2 r1 H2 H1 Hpath) as [Hb Hs].
  clear -Hroot Hkey Hvalue Hb Hs.
  destruct r1, r2; cbn [req_root req_key req_value req_bitmap req_siblings] in *. congruence.
Qed.

End membership.

(** A tree with one branching, at depth three, evaluated with the toy hash. *)
Definition sample_key : bytes := replicate 32 Byte.x15.
Definition sample_path : list (nat * bytes) := [(3%nat, replicate 32 Byte.x77)].
Definition sample_request : Request :=
  {| req_root := path_hash (H := toy_crypto) sample_key (ascii "value") sample_path;
     req_key := sample_key;
     req_value := ascii "value";
     req_bitmap := Byte.x10 :: replicate 31 Byte.x00;
     req_siblings := [replicate 32 Byte.x77] |}.

Lemma sample_request_ok : request_ok sample_request.
Proof.
  unfold request_ok. split_and!; try (vm_compute; reflexivity); [vm_compute; discriminate|].
  repeat constructor.
Defined.

Lemma membership_binding_witness :
  membership (H := toy_crypto) (E := ()) (encode_request sample_request) 100000
    = Ok (new_output 4756 true) /\
  (sample_request = sample_request \/
   collision_among toy_hash (request_inputs (H := toy_crypto) sample_request ++ request_inputs (H := toy_crypto) sample_request)).
Proof.
  assert (Hm : membership (H := toy_crypto) (E := ()) (encode_request sample_request) 100000
    = Ok (new_output 4756 true)) by (vm_compute; reflexivity).
  split; [exact Hm|].
  exact (membership_binding (H := toy_crypto) sample_request sample_request 100000 100000 4756 4756
    sample_request_ok sample_request_ok eq_refl eq_refl Hm Hm).
Defined.

End B1Membership.
