(* ===== verification/B1Registry.v ===== *)
(** The seal registry as the B1 kernel reads it, [b1/src/registry.rs]: the slot derivation, the
    epoch entries with their committees, and the eleven common words of a batch call.

    The journal is a parameter ([RegistryRead]): a read may warm a slot or fail, and returns a
    256-bit word.  The theorems show what a loaded entry and the loaded common words satisfy
    whatever the journal holds: a committee has one to sixteen members with distinct keys, ascending
    identifiers and positive weights that add up, without wrapping, to the stored total. *)
From S2P Require Import Prelude Crypto CborCodec B1Cbor B1Membership.
Import B1Cbor B1Membership.

Module B1Registry.

(** [trait RegistryRead]: one word of the current journal, with normal warming. *)
Class RegistryRead := {
  Journal : Type;
  HostError : Type;
  sload : Z -> reader Journal HostError Z;
  sload_range : forall k j v j', sload k j = Ok (v, j') -> 0 <= v < 2 ^ 256 }.

Section registry.
Context `{Crypto} `{RegistryRead}.

Definition MAX_MEMBERS : Z := 16.

(** ** Slots *)

Definition fixed_slot (name : String.string) : Z :=
  be_val (keccak256 (ascii "unicity.seal-registry/" ++ ascii name)).

Definition derived (name : String.string) (words : list Z) : Z :=
  be_val (keccak256 (be_bytes 32 (fixed_slot name) ++ concat (map (be_bytes 32) words))).

Definition entry_slot (epoch field : Z) : Z := derived "b1.entry" [epoch; field].
Definition member_slot (epoch index field : Z) : Z := derived "b1.member" [epoch; index; field].

(** ** Reads *)

Abbreviation registry_reader := (reader Journal (Error HostError)).

Definition small (v : Z) : result (Error HostError) Z := if v <=? u64_max then Ok v else Err Registry.
Definition read (k : Z) : registry_reader Z := via Host (sload k).

Fixpoint read_all (ks : list Z) : registry_reader (list Z) :=
  match ks with
  | [] => sret []
  | k :: ks => let* v := read k in let* vs := read_all ks in sret (v :: vs)
  end.

Definition word_at (w : list Z) (i : nat) : Z := nth i w 0.

Record Member := { mem_id : bytes; mem_key : PublicKey; mem_weight : Z }.
Record Entry := { ent_start : Z; ent_end : option Z; ent_total : Z; ent_members : list Member }.

(** The 32 bytes of a word, and the 128 identifier bytes of words 1 to 4. *)
Definition bytes_at (w : list Z) (i : nat) : bytes := be_bytes 32 (word_at w i).
Definition id_bytes (m : list Z) : bytes := concat (map (bytes_at m) (seq 1 4)).
Definition nonzero (l : bytes) : bool := existsb (fun b => negb (bool_decide (b = Byte.x00))) l.

(** One member from its eight words. *)
Definition read_member (epoch j : Z) : registry_reader Member :=
  let* m := read_all (map (fun f => member_slot epoch j (Z.of_nat f)) (seq 0 8)) in
  let* len := lift (small (word_at m 0)) in
  if negb ((1 <=? len) && (len <=? 128)) then fail Registry else
  if nonzero (drop (Z.to_nat len) (id_bytes m)) || nonzero (drop 1 (bytes_at m 6))
  then fail Registry else
  let id := take (Z.to_nat len) (id_bytes m) in
  if negb (utf8_valid id) then fail Registry else
  let* key := lift (ok_or (public_key_from_slice (bytes_at m 5 ++ take 1 (bytes_at m 6))) Registry) in
  let* weight := lift (small (word_at m 7)) in
  sret {| mem_id := id; mem_key := key; mem_weight := weight |}.

(** The loop [for j in 0..count] over the members read so far and their weight. *)
Fixpoint read_members (epoch : Z) (n : nat) (j : Z) (members : list Member) (sum : Z)
    : registry_reader (list Member * Z) :=
  match n with
  | O => sret (members, sum)
  | S n =>
      let* m := read_member epoch j in
      if (mem_weight m =? 0)
         || match last members with
            | Some prev => negb (bytes_ltb (mem_id prev) (mem_id m))
            | None => false
            end
         || existsb (fun prev => bool_decide (mem_key prev = mem_key m)) members
      then fail Registry else
      let* sum := lift (ok_or (checked_add sum (mem_weight m)) Registry) in
      read_members epoch n (j + 1) (members ++ [m]) sum
  end.

Definition entry (epoch : Z) : registry_reader (option Entry) :=
  let* w := read_all (map (fun i => entry_slot epoch (Z.of_nat i)) (seq 0 11)) in
  if word_at w 0 =? 0 then
    if existsb (fun v => negb (v =? 0)) w then fail Registry else sret None
  else
  let* kind := lift (small (word_at w 1)) in
  let* start := lift (small (word_at w 4)) in
  let* end_ := lift (small (word_at w 5)) in
  let* has_end := lift (small (word_at w 6)) in
  let* scheme := lift (small (word_at w 7)) in
  let* count := lift (small (word_at w 9)) in
  let* total := lift (small (word_at w 10)) in
  if negb (word_at w 0 =? 1)
     || negb ((1 <=? kind) && (kind <=? 3))
     || (word_at w 2 =? 0)
     || (word_at w 8 =? 0)
     || negb (Bool.eqb (kind =? 1) (word_at w 3 =? 0))
     || negb ((scheme =? 1) || (scheme =? 2))
     || negb ((1 <=? count) && (count <=? MAX_MEMBERS))
     || (1 <? has_end)
     || ((has_end =? 0) && negb (end_ =? 0))
     || ((has_end =? 1) && (end_ <=? start))
  then fail Registry else
  let* (members, sum) := read_members epoch (Z.to_nat count) 0 [] 0 in
  if negb (sum =? total) then fail Registry else
  sret (Some {| ent_start := start; ent_end := if has_end =? 1 then Some end_ else None;
                ent_total := total; ent_members := members |}).

(** ** The common words *)

Record Pins := { genesis_commitment : Z; profile_hash : Z }.
Record CommonV2 := {
  cm_phase : Z; cm_network : Z; cm_genesis : Z; cm_ready : bool; cm_origin : Z; cm_round : Z }.

Definition common_names : list String.string :=
  ["genesisCommitment"; "phase"; "b1.initialized"; "b1.network"; "b1.profileHash"; "b1.format";
   "b1.genesisEpoch"; "b1.importedTipEpoch"; "b1.originReady"; "clock.rootRound";
   "origin.rootEpoch"]%string.

Definition common_v2 (pins : Pins) : registry_reader CommonV2 :=
  let* w := read_all (map fixed_slot common_names) in
  let* phase := lift (small (word_at w 1)) in
  let* network := lift (small (word_at w 3)) in
  let* genesis := lift (small (word_at w 6)) in
  let* tip := lift (small (word_at w 7)) in
  let* ready := lift (small (word_at w 8)) in
  let* round := lift (small (word_at w 9)) in
  let* origin := lift (small (word_at w 10)) in
  if (word_at w 0 =? 0)
     || negb (word_at w 0 =? genesis_commitment pins)
     || (word_at w 4 =? 0)
     || negb (word_at w 4 =? profile_hash pins)
     || negb (word_at w 2 =? 1)
     || negb (word_at w 5 =? 2)
     || negb ((phase =? 1) || (phase =? 2))
     || negb ((1 <=? network) && (network <=? u16_max))
     || (tip <? genesis)
     || (1 <? ready)
  then fail Registry else
  if ((ready =? 0) && (negb (origin =? 0) || negb (round =? 0)))
     || ((ready =? 1) && negb (origin =? tip))
  then fail Registry else
  sret {| cm_phase := phase; cm_network := network; cm_genesis := genesis; cm_ready := ready =? 1;
          cm_origin := origin; cm_round := round |}.

(** ** What a loaded entry satisfies *)

Definition weights (l : list Member) : Z := sum_z (map mem_weight l).

Record committee_ok (l : list Member) : Prop := {
  com_ids : ascending (map mem_id l) = true;
  com_keys : NoDup (map mem_key l);
  com_members : Forall (fun m => 1 <= mem_weight m <= u64_max /\ 1 <= zlen (mem_id m) <= 128 /\
                          utf8_valid (mem_id m) = true) l }.

Lemma small_inv v a : small v = Ok a -> a = v /\ v <= u64_max.
Proof. unfold small. intros Hs. inv_ok Hs. split; [done|lia]. Qed.

Lemma read_all_range ks j w j' :
  read_all ks j = Ok (w, j') -> Forall (fun v => 0 <= v < 2 ^ 256) w.
Proof.
  revert j w. induction ks as [|k ks IH]; intros j w Hr; cbn [read_all] in Hr; inv_ok Hr; subst.
  - constructor.
  - constructor; [|by eapply IH]. unfold read, via in Hok. apply map_err_ok_inv in Hok.
    by apply sload_range in Hok.
Qed.

Lemma word_at_nonneg w i : Forall (fun v => 0 <= v < 2 ^ 256) w -> 0 <= word_at w i.
Proof.
  intros HF. unfold word_at. destruct (nth_in_or_default i w 0) as [Hin | ->]; [|done].
  rewrite Forall_forall in HF. by apply list_elem_of_In, HF in Hin as [? _].
Qed.

Lemma id_bytes_length m : length (id_bytes m) = 128%nat.
Proof.
  unfold id_bytes. cbn [seq map concat]. rewrite !length_app. unfold bytes_at.
  by rewrite !be_bytes_length.
Qed.

Lemma read_member_ok epoch j s m s' :
  read_member epoch j s = Ok (m, s') ->
  0 <= mem_weight m <= u64_max /\ 1 <= zlen (mem_id m) <= 128 /\ utf8_valid (mem_id m) = true.
Proof.
  intros Hr. unfold read_member in Hr. inv_ok Hr. subst m. cbn [mem_weight mem_id].
  apply small_inv in Hok0 as [-> ?], Hok2 as [-> ?]. apply read_all_range in Hok.
  pose proof (word_at_nonneg a 7 Hok). pose proof (id_bytes_length a).
  split_and!; try lia; [unfold zlen; rewrite length_take; lia.. | by apply negb_false_iff].
Qed.

Lemma committee_snoc l m :
  committee_ok l ->
  1 <= mem_weight m <= u64_max /\ 1 <= zlen (mem_id m) <= 128 /\ utf8_valid (mem_id m) = true ->
  match last l with Some prev => negb (bytes_ltb (mem_id prev) (mem_id m)) | None => false end = false ->
  existsb (fun prev => bool_decide (mem_key prev = mem_key m)) l = false ->
  committee_ok (l ++ [m]).
Proof.
  intros [Hids Hkeys Hms] Hm Hlast Hkey. split.
  - rewrite map_app. cbn [map]. rewrite ascending_snoc, Hids. cbn [andb].
    change (map mem_id l) with (mem_id <$> l). rewrite fmap_last.
    destruct (last l); cbn in *; [by apply negb_false_iff in Hlast | done].
  - rewrite map_app. cbn [map]. apply NoDup_app. split_and!; [done | | by apply NoDup_singleton].
    intros k (prev & -> & Hin)%list_elem_of_fmap Hk%list_elem_of_singleton.
    assert (existsb (fun p => bool_decide (mem_key p = mem_key m)) l = true) as Ht; [|congruence].
    apply existsb_exists. exists prev. split; [by apply list_elem_of_In | by apply bool_decide_eq_true].
  - apply Forall_app. split; [done|]. by constructor.
Qed.

Lemma weights_snoc l m : weights (l ++ [m]) = weights l + mem_weight m.
Proof. unfold weights, sum_z. rewrite map_app, fold_right_app. cbn.
  induction l as [|x l IH]; cbn in *; lia. Qed.

Lemma read_members_ok epoch n : forall j members sum s l t s',
  committee_ok members -> sum = weights members -> sum <= u64_max ->
  read_members epoch n j members sum s = Ok ((l, t), s') ->
  committee_ok l /\ t = weights l /\ t <= u64_max /\ length l = (length members + n)%nat.
Proof.
  induction n as [|n IH]; intros j members sum s l t s' Hc Hs Hmax Hr; cbn [read_members] in Hr.
  - inv_ok Hr. subst. split_and!; (done || lia).
  - inv_ok Hr. apply orb_false_iff in Heqb as [[Hw Hl]%orb_false_iff Hk].
    apply read_member_ok in Hok as (? & ? & ?). unfold checked_add in Hok0. case_match; [|done].
    injection Hok0 as <-. apply IH in Hr as (? & ? & ? & Hlen).
    + split_and!; try done. rewrite Hlen, length_app. cbn. lia.
    + apply committee_snoc; try done. split_and!; try done; lia.
    + rewrite weights_snoc. lia.
    + lia.
Qed.

(** What [entry] promises to the batch evaluation. *)
Definition entry_ok (e : Entry) : Prop :=
  committee_ok (ent_members e) /\ 1 <= zlen (ent_members e) <= MAX_MEMBERS /\
  weights (ent_members e) = ent_total e /\ 1 <= ent_total e <= u64_max /\ is_u64 (ent_start e) /\
  forall x, ent_end e = Some x -> ent_start e < x <= u64_max.

Lemma weights_pos l : committee_ok l -> (1 <= length l)%nat -> 1 <= weights l.
Proof.
  intros [_ _ HF] Hl. destruct HF as [|m l [Hm _] HF]; [cbn in Hl; lia|].
  unfold weights. cbn. fold (sum_z (map mem_weight l)).
  assert (0 <= sum_z (map mem_weight l)); [|lia].
  clear Hl. induction HF as [|x l [Hx _] _ IH]; cbn; [lia|]. fold (sum_z (map mem_weight l)). lia.
Qed.

Lemma entry_sound epoch j e j' : entry epoch j = Ok (Some e, j') -> entry_ok e.
Proof.
  intros He. unfold entry in He. inv_ok He. subst e.
  pose proof (read_all_range _ _ _ _ Hok) as HF.
  repeat match goal with Hs : small _ = Ok _ |- _ => apply small_inv in Hs as [-> ?] end.
  apply read_members_ok in Hok7 as (Hc & Hsum & Hmax & Hlen); [|by split; constructor|done|done].
  pose proof (word_at_nonneg a 4 HF). unfold entry_ok.
  cbn [ent_members ent_total ent_start ent_end]. cbn [length] in Hlen. unfold MAX_MEMBERS in *.
  assert (1 <= weights l) by (apply weights_pos; [done | lia]).
  split_and!; try done; try ulia. case_match; [|done]. intros x [= <-]. lia.
Qed.

(** ** Slots do not alias *)

(** The fields of the registry, each with the slot the code derives for it. *)
Inductive field :=
| FixedField (name : String.string)
| EntryField (epoch f : Z)
| MemberField (epoch index f : Z).

Definition slot (x : field) : Z :=
  match x with
  | FixedField name => fixed_slot name
  | EntryField epoch f => entry_slot epoch f
  | MemberField epoch index f => member_slot epoch index f
  end.

Definition slot_bytes (x : field) : bytes :=
  match x with
  | FixedField name => ascii "unicity.seal-registry/" ++ ascii name
  | EntryField epoch f =>
      be_bytes 32 (fixed_slot "b1.entry") ++ be_bytes 32 epoch ++ be_bytes 32 f
  | MemberField epoch index f =>
      be_bytes 32 (fixed_slot "b1.member") ++ be_bytes 32 epoch ++ be_bytes 32 index ++ be_bytes 32 f
  end.

(** Words are 64-bit; a fixed name is shorter than two words. *)
Definition field_ok (x : field) : Prop :=
  match x with
  | FixedField name => zlen (ascii name) < 64
  | EntryField epoch f => is_u64 epoch /\ is_u64 f
  | MemberField epoch index f => is_u64 epoch /\ is_u64 index /\ is_u64 f
  end.

Lemma slot_hash x : slot x = be_val (keccak256 (slot_bytes x)).
Proof.
  destruct x; cbn [slot slot_bytes]; [done|..]; unfold entry_slot, member_slot, derived;
    cbn [map concat]; by rewrite app_nil_r.
Qed.

Lemma keccak_word_inj x y : be_val (keccak256 x) = be_val (keccak256 y) -> keccak256 x = keccak256 y.
Proof.
  intros Heq. rewrite <- (be_bytes_val_n 32 (keccak256 x)) by apply keccak256_word.
  rewrite <- (be_bytes_val_n 32 (keccak256 y)) by apply keccak256_word. by rewrite Heq.
Qed.

Lemma word_bytes_inj a b : is_u64 a -> is_u64 b -> be_bytes 32 a = be_bytes 32 b -> a = b.
Proof. intros ? ?. apply be_bytes_inj; change (256 ^ Z.of_nat 32) with (2 ^ 256); ulia. Qed.

Lemma ascii_inj a b : ascii a = ascii b -> a = b.
Proof.
  intros Heq. apply (f_equal String.string_of_list_byte) in Heq.
  by rewrite !String.string_of_list_byte_of_string in Heq.
Qed.

Lemma be_32_app_inj a b x y :
  is_u64 a -> is_u64 b -> be_bytes 32 a ++ x = be_bytes 32 b ++ y -> a = b /\ x = y.
Proof.
  intros Ha Hb Heq. apply app_inj_1 in Heq as [Hab ->]; [|by rewrite !be_bytes_length].
  split; [|done]. by apply word_bytes_inj.
Qed.

Lemma slot_bytes_length x :
  zlen (slot_bytes x) = match x with
    | FixedField name => 22 + zlen (ascii name) | EntryField _ _ => 96 | MemberField _ _ _ => 128 end.
Proof.
  destruct x; cbn [slot_bytes]; rewrite !zlen_app; [done|..]; unfold zlen; by rewrite !be_bytes_length.
Qed.

Lemma slot_bytes_inj x y : field_ok x -> field_ok y -> slot_bytes x = slot_bytes y -> x = y.
Proof.
  intros Hx Hy Heq. pose proof (f_equal zlen Heq) as Hl. rewrite !slot_bytes_length in Hl.
  destruct x, y; cbn [field_ok] in *; try (exfalso; lia); cbn [slot_bytes] in Heq.
  - apply app_inv_head, ascii_inj in Heq. by subst.
  - apply app_inv_head, be_32_app_inj in Heq as [-> Heq%word_bytes_inj]; try tauto. by subst.
  - apply app_inv_head, be_32_app_inj in Heq as [-> [-> Heq%word_bytes_inj]%be_32_app_inj]; try tauto.
    by subst.
Qed.

(** ** Properties *)

(** C39: A loaded epoch entry has one to sixteen members, with pairwise different keys, strictly
    ascending UTF-8 identifiers of 1 to 128 bytes and positive weights; the weights add up to the
    stored total without leaving 64 bits, and a closed entry ends after it starts.  This holds
    whatever words the journal returns: anything else is refused. *)
Theorem entry_invariant epoch j e j' :
  entry epoch j = Ok (Some e, j') -> entry_ok e.
Proof. apply entry_sound. Qed.

(** Two fields of the registry (a named word, an entry word of an epoch, a member word) never
    share a storage slot, unless the two byte strings their slots are the hashes of are different and
    have one Keccak digest. *)
Theorem slot_separation x y :
  field_ok x -> field_ok y -> slot x = slot y ->
  x = y \/ collision_among keccak256 [slot_bytes x; slot_bytes y].
Proof.
  intros Hx Hy Heq. rewrite !slot_hash in Heq. apply keccak_word_inj in Heq.
  apply (digest_inj _ [slot_bytes x; slot_bytes y]) in Heq as [Heq|?];
    [left; by apply slot_bytes_inj | by right | left | right; left].
Qed.

End registry.

(** A journal that is a list of cells, every other slot zero. *)
Definition cells_read (cells : list (Z * Z)) (k : Z) : Z :=
  match find (fun c => c.1 =? k) cells with Some c => c.2 mod 2 ^ 256 | None => 0 end.

Lemma cells_range cells k : 0 <= cells_read cells k < 2 ^ 256.
Proof. unfold cells_read. case_match; [apply Z.mod_pos_bound|]; lia. Qed.

Program Definition toy_registry (cells : list (Z * Z)) : RegistryRead :=
  {| Journal := (); HostError := (); sload := fun k _ => Ok (cells_read cells k, ()) |}.
Next Obligation. intros cells k j v j' [= <- <-]. apply cells_range. Qed.

(** The words of an open epoch whose members are named a, b, ... with the given weights. *)
Definition sample_name (i : nat) : Z := Z.shiftl (97 + Z.of_nat i) 248.
Definition sample_key_word (i : nat) : Z := Z.shiftl 2 248 + Z.of_nat i.
Definition member_cells (epoch : Z) (i : nat) (weight : Z) : list (Z * Z) :=
  let put f v := (member_slot (H := toy_crypto) epoch (Z.of_nat i) f, v) in
  [put 0 1; put 1 (sample_name i); put 5 (sample_key_word i); put 7 weight].
Definition entry_cells (epoch kind start : Z) (fin : option Z) (ws : list Z) : list (Z * Z) :=
  let put f v := (entry_slot (H := toy_crypto) epoch f, v) in
  [put 0 1; put 1 kind; put 2 7; put 3 (if kind =? 1 then 0 else 7); put 4 start; put 5 (default 0 fin);
   put 6 (if fin is Some _ then 1 else 0); put 7 1; put 8 9; put 9 (zlen ws); put 10 (sum_z ws)]
  ++ concat (imap (member_cells epoch) ws).

Definition sample_registry : RegistryRead := toy_registry (entry_cells 3 1 100 None [10; 20; 5]).

Definition sample_journal : Journal (RegistryRead := sample_registry) := ().
Definition sample_read := entry (H := toy_crypto) (H0 := sample_registry) 3 sample_journal.
#[local] Strategy expand [sample_read].
Definition weights_read {E J} (r : result E (option (Entry (H := toy_crypto)) * J)) : list Z :=
  match r with Ok (Some e, _) => map mem_weight (ent_members e) | _ => [] end.

Lemma sample_read_ok e j : sample_read = Ok (Some e, j) -> entry_ok (H := toy_crypto) e.
Proof. exact (entry_sound (H := toy_crypto) (H0 := sample_registry) 3 sample_journal e j). Qed.

Lemma entry_invariant_witness :
  exists e j, sample_read = Ok (Some e, j) /\ map mem_weight (ent_members e) = [10; 20; 5] /\
    entry_ok (H := toy_crypto) e.
Proof.
  assert (Hw : weights_read sample_read = [10; 20; 5]) by (vm_compute; reflexivity).
  destruct sample_read as [[[e|] j]|] eqn:He; [|discriminate Hw..].
  exists e, j. split; [reflexivity|]. split; [exact Hw|].
  exact (entry_invariant (H := toy_crypto) (H0 := sample_registry) 3 sample_journal e j He).
Defined.

Lemma slot_separation_witness :
  EntryField 3 4 = EntryField 3 4 \/
  collision_among toy_hash [slot_bytes (H := toy_crypto) (EntryField 3 4); slot_bytes (H := toy_crypto) (EntryField 3 4)].
Proof.
  assert (Hok : field_ok (EntryField 3 4)) by (split; split; vm_compute; discriminate).
  exact (slot_separation (H := toy_crypto) _ _ Hok Hok eq_refl).
Defined.

End B1Registry.
