(* ===== verification/B1Certificate.v ===== *)
(** Unicity certificates as the B1 kernel reads them, [b1/src/certificate.rs]: the packed claim of a
    batch request with the structure and sublimits of its certificate, the fold of the claim up to
    the root its seal commits to, and the three stand-alone certificate scans of the composition.

    Every [expect], slice index and iterator panic of the source is the value [Panic] of the error
    type, so that "does not panic" is a statement about the definitions.  The theorems show that a
    parsed claim can always be folded, that the stand-alone structural scan and the claim parser
    agree, and that under one seal a shard has one claim: two claims that fold to the same root
    carry the same input record, technical record and configuration hash, or two byte strings that
    the folds hash collide. *)
From S2P Require Import Prelude Crypto CborCodec B1Cbor B1Membership.
Import B1Cbor B1Membership.

Module B1Certificate.

(** A refusal of the caller's bytes, or a panic of the process. *)
Inductive Fault :=
| Bad (m : Malformed)
| Panic.

Definition bad {A} (r : result Malformed A) : result Fault A := map_err Bad r.
Definition panics {A} (o : option A) : result Fault A := ok_or o Panic.
(** A fallible reader whose rescans can panic. *)
Definition opened {A} (o : option (result Malformed A)) : result Fault A :=
  match o with Some r => bad r | None => Err Panic end.

(** Element [i] of a fixed-size array. *)
Definition at_ (l : list Item) (i : nat) : Item :=
  nth i l {| it_raw := []; it_major := 0; it_arg := 0; it_data := [] |}.
(** Element [i] of a [Vec]: out of range panics. *)
Definition index (l : list Item) (i : nat) : result Fault Item := panics (nth_error l i).

(** [for child in it.children() { f(child)?; }]. *)
Definition each_child (f : Item -> result Fault ()) (it : Item) : result Fault () :=
  let? l := panics (children it) in each f l.

Definition void {E A} (r : result E A) : result E () := let? _ := r in Ok ().

(** The key/value loop over the children of a map. *)
Fixpoint each_pair (key value : Item -> result Fault ()) (l : list Item) : result Fault () :=
  match l with
  | [] => Ok ()
  | [k] => let? _ := key k in Err (Bad Shape)
  | k :: v :: l => let? _ := key k in let? _ := value v in each_pair key value l
  end.

(** ** Shard identifiers *)

(** [u8::trailing_zeros]; the argument is never zero where the source calls it. *)
Fixpoint trailing_zeros (p : positive) : Z :=
  match p with xO p => 1 + trailing_zeros p | _ => 0 end.
Definition byte_trailing_zeros (b : byte) : Z :=
  match b2z b with Zpos p => trailing_zeros p | _ => 8 end.

Definition shard_depth (b : bytes) : result Malformed Z :=
  match last b with
  | None => Err Shard
  | Some l =>
      if b2z l =? 0 then Err Shard else
      let depth := zlen b * 8 - byte_trailing_zeros l - 1 in
      if (33 <? zlen b) || (256 <? depth) then Err Shard else Ok depth
  end.

Definition nullable_hash (v : Item) : result Malformed () :=
  if negb (null v) then void (item_bytes v 32) else Ok ().

(** ** The packed claim *)

Record Claim := {
  cl_partition : Z; cl_shard : bytes; cl_config : bytes; cl_state : bytes; cl_ir_hash : bytes;
  cl_ir : Item; cl_tr : Item; cl_conf : Item;
  cl_shard_cert : list Item; cl_tree_cert : list Item; cl_seal : Item; cl_seal_fields : list Item }.

Record Parsed := { pa_claim : Claim; pa_paths : Z; pa_sigs : Z }.

Definition read_raw {A} (p : b1_reader A) : reader Scan Fault A := fun s =>
  let? (a, d) := bad (p (sc_data s)) in Ok (a, {| sc_data := d; sc_tokens := sc_tokens s |}).

(** [cbor::one(raw, tokens)] on the shared token counter. *)
Definition scan_one (raw : bytes) : reader Scan Fault Item := fun s =>
  let? (it, tokens) := bad (one raw (sc_tokens s)) in
  Ok (it, {| sc_data := sc_data s; sc_tokens := tokens |}).

(** The parts of a certificate that [parse_claim] keeps, with its counts. *)
Record Fields := {
  fd_sc : list Item; fd_tc : list Item; fd_sf : list Item;
  fd_siblings : Z; fd_steps : Z; fd_sigs : Z }.

Definition check_step (step : Item) : result Fault () :=
  let? kv := opened (item_array 2 step) in
  let? _ := bad (item_uint (at_ kv 0) u32_max) in
  bad (void (item_bytes (at_ kv 1) 32)).

(** [parse_claim] from the certificate's items on. *)
Definition claim_fields (uc : list Item) : result Fault Fields :=
  let? ir := opened (tagged 10 39002 (at_ uc 1)) in
  let? _ := each (fun i => bad (void (item_uint (at_ ir i) u64_max))) [1; 2; 6; 8]%nat in
  let? _ := each (fun i => bad (nullable_hash (at_ ir i))) [3; 7; 9]%nat in
  let? _ := bad (item_bytes (at_ ir 4) 32) in
  let? _ := if negb (null (at_ ir 5)) then bad (void (blob (at_ ir 5) 2 0 256)) else Ok () in
  let? _ := bad (item_bytes (at_ uc 2) 32) in
  let? _ := bad (item_bytes (at_ uc 3) 32) in
  let? sc := opened (tagged 3 39003 (at_ uc 4)) in
  let? sid := bad (blob (at_ sc 1) 2 1 33) in
  let? _ := bad (shard_depth sid) in
  let? siblings := bad (collection (at_ sc 2) 4 256) in
  let? _ := each_child (fun sib => bad (void (item_bytes sib 32))) (at_ sc 2) in
  let? tc := opened (tagged 3 39004 (at_ uc 5)) in
  let? _ := bad (item_uint (at_ tc 1) u32_max) in
  let? steps := bad (collection (at_ tc 2) 4 32) in
  let? _ := each_child check_step (at_ tc 2) in
  let? sf := opened (tagged 8 39005 (at_ uc 6)) in
  let? _ := bad (item_uint (at_ sf 1) u16_max) in
  let? _ := each (fun i => bad (void (item_uint (at_ sf i) u64_max))) [2; 3; 4]%nat in
  let? _ := bad (item_bytes (at_ sf 5) 32) in
  let? _ := bad (item_bytes (at_ sf 6) 32) in
  let? sigs := bad (collection (at_ sf 7) 5 64) in
  let? kids := panics (children (at_ sf 7)) in
  let? _ := each_pair (fun id => bad (void (blob id 3 0 128)))
                      (fun v => bad (void (blob v 2 0 usize_max))) kids in
  Ok {| fd_sc := sc; fd_tc := tc; fd_sf := sf;
        fd_siblings := siblings; fd_steps := steps; fd_sigs := sigs |}.

Definition parse_claim : reader Scan Fault Parsed :=
  let* partition := read_raw (uint_n 4) in
  let* sl := read_raw (uint_n 2) in
  if 33 <? sl then fail (Bad Shard) else
  let* shard := read_raw (take_n sl) in
  let* _ := lift (bad (shard_depth shard)) in
  let* config := read_raw (take_n 32) in
  let* state := read_raw (take_n 32) in
  let* ir_hash := read_raw (take_n 32) in
  let* uc_len := read_raw (uint_n 4) in
  if 24576 <? uc_len then fail (Bad Limit) else
  let* raw := read_raw (take_n uc_len) in
  let* root := scan_one raw in
  let* uc := lift (opened (tagged 7 39001 root)) in
  let* f := lift (claim_fields uc) in
  sret {| pa_claim :=
            {| cl_partition := partition; cl_shard := shard; cl_config := config; cl_state := state;
               cl_ir_hash := ir_hash; cl_ir := at_ uc 1; cl_tr := at_ uc 2; cl_conf := at_ uc 3;
               cl_shard_cert := fd_sc f; cl_tree_cert := fd_tc f; cl_seal := at_ uc 6;
               cl_seal_fields := fd_sf f |};
          pa_paths := fd_siblings f + fd_steps f; pa_sigs := Z.max 0 (fd_sigs f) |}.

(** ** The stand-alone structural scan *)

Definition scan_body (uc : list Item) : result Fault () :=
  let? ir := opened (tagged 10 39002 (at_ uc 1)) in
  let? _ := each (fun i => bad (void (item_uint (at_ ir i) u64_max))) [1; 2; 6; 8]%nat in
  let? _ := each (fun i => bad (nullable_hash (at_ ir i))) [3; 7; 9]%nat in
  let? _ := bad (item_bytes (at_ ir 4) 32) in
  let? _ := if negb (null (at_ ir 5)) then bad (void (blob (at_ ir 5) 2 0 256)) else Ok () in
  let? _ := bad (item_bytes (at_ uc 2) 32) in
  let? _ := bad (item_bytes (at_ uc 3) 32) in
  let? sc := opened (tagged 3 39003 (at_ uc 4)) in
  let? sid := bad (blob (at_ sc 1) 2 1 33) in
  let? _ := bad (shard_depth sid) in
  let? _ := bad (collection (at_ sc 2) 4 256) in
  let? _ := each_child (fun sib => bad (void (item_bytes sib 32))) (at_ sc 2) in
  let? tc := opened (tagged 3 39004 (at_ uc 5)) in
  let? _ := bad (item_uint (at_ tc 1) u32_max) in
  let? _ := bad (collection (at_ tc 2) 4 32) in
  let? _ := each_child (fun step =>
    let? kv := opened (item_array 2 step) in
    let? _ := bad (item_uint (at_ kv 0) u32_max) in
    bad (void (item_bytes (at_ kv 1) 32))) (at_ tc 2) in
  let? sf := opened (tagged 8 39005 (at_ uc 6)) in
  let? _ := bad (item_uint (at_ sf 1) u16_max) in
  let? _ := each (fun i => bad (void (item_uint (at_ sf i) u64_max))) [2; 3; 4]%nat in
  let? _ := bad (item_bytes (at_ sf 5) 32) in
  let? _ := bad (item_bytes (at_ sf 6) 32) in
  let? _ := bad (collection (at_ sf 7) 5 64) in
  let? kids := panics (children (at_ sf 7)) in
  each_pair (fun id => bad (void (blob id 3 0 128)))
            (fun v => bad (void (blob v 2 0 usize_max))) kids.

(** The parts of a certificate the composition checks first: index, tag, arity, required field and
    the major type of that field. *)
Definition required_parts : list (nat * Z * Z * nat * Z) :=
  [(1%nat, 39002, 10, 5%nat, 2); (4%nat, 39003, 3, 2%nat, 4);
   (5%nat, 39004, 3, 2%nat, 4); (6%nat, 39005, 8, 7%nat, 5)].

Definition check_part (uc : list Item) (part : nat * Z * Z * nat * Z) : result Fault () :=
  let '(i, tag, arity, req, major) := part in
  let body := at_ uc i in
  if negb (it_major body =? 6) || negb (it_arg body =? tag) then Err (Bad Shape) else
  let? (inner, _) := bad (one (it_data body) 0) in
  if negb (it_major inner =? 4) || negb (it_arg inner =? arity) then Err (Bad Shape) else
  let? kids := panics (children inner) in
  match nth_error kids req with
  | Some c => if negb (it_major c =? major) then Err (Bad Shape) else Ok ()
  | None => Err (Bad Shape)
  end.

(** [for (i, v) in ...enumerate()]: the odd children are byte strings. *)
Fixpoint odd_bytes (odd : bool) (l : list Item) : result Fault () :=
  match l with
  | [] => Ok ()
  | v :: l => if odd && negb (it_major v =? 2) then Err (Bad Shape) else odd_bytes (negb odd) l
  end.

Definition scan_certificate (raw : bytes) : result Fault () :=
  if 24576 <? zlen raw then Err (Bad Limit) else
  let? (root, _) := bad (one raw 0) in
  let? uc := opened (tagged 7 39001 root) in
  let? _ := each (check_part uc) required_parts in
  let? (body, _) := bad (one (it_data (at_ uc 6)) 0) in
  let? seal := opened (item_array 8 body) in
  if negb (it_major (at_ seal 1) =? 0) || (it_arg (at_ seal 1) =? 0) || (65535 <? it_arg (at_ seal 1))
  then Err (Bad Shape) else
  let? kids := panics (children (at_ seal 7)) in
  let? _ := odd_bytes false kids in
  scan_body uc.

(** ** The typed shape *)

Definition uint_or_null (it : Item) (max : Z) : result Fault () :=
  if null it then Ok () else bad (void (item_uint it max)).

Definition bytes_like (it : Item) : result Fault () :=
  if null it || (it_major it =? 2) then Ok () else
  if negb (it_major it =? 4) then Err (Bad Shape) else
  each_child (fun e => bad (void (item_uint e 255))) it.

Definition list_of_bytes (it : Item) : result Fault () :=
  if null it then Ok () else
  if negb (it_major it =? 4) then Err (Bad Shape) else
  each_child bytes_like it.

Definition typed (it : Item) (tag : Z) (n : nat) : result Fault (list Item) :=
  if negb (it_major it =? 6) || negb (it_arg it =? tag) then Err (Bad Shape) else
  let? (inner, _) := bad (one_loose (it_data it) 0 usize_max) in
  if negb (it_major inner =? 4) || negb (it_arg inner =? Z.of_nat n) then Err (Bad Shape) else
  let? kids := panics (children inner) in
  let? version := index kids 0 in
  let? _ := if negb (null version) then bad (void (item_uint version 1)) else Ok () in
  Ok kids.

(** [index], then a check of the element. *)
Definition check_at (l : list Item) (i : nat) (f : Item -> result Fault ()) : result Fault () :=
  let? it := index l i in f it.

Definition certificate_shape (raw : bytes) : result Fault () :=
  let? (root, _) := bad (one_typed raw 0 MAX_ITEMS) in
  let? uc := typed root 39001 7 in
  let? uc1 := index uc 1 in
  let? ir := typed uc1 39002 10 in
  let? _ := each (fun i => check_at ir i (fun it => uint_or_null it u64_max)) [1; 2; 6; 8]%nat in
  let? _ := each (fun i => check_at ir i bytes_like) [3; 4; 5; 7; 9]%nat in
  let? _ := check_at uc 2 bytes_like in
  let? _ := check_at uc 3 bytes_like in
  let? uc4 := index uc 4 in
  let? sc := typed uc4 39003 3 in
  let? _ := check_at sc 1 bytes_like in
  let? _ := check_at sc 2 list_of_bytes in
  let? uc5 := index uc 5 in
  let? tc := typed uc5 39004 3 in
  let? _ := check_at tc 1 (fun it => uint_or_null it u32_max) in
  let? path := index tc 2 in
  let? _ :=
    (if negb (null path) then
       if negb (it_major path =? 4) then Err (Bad Shape) else
       each_child (fun step =>
         let? kv := opened (item_array 2 step) in
         let? _ := uint_or_null (at_ kv 0) u32_max in
         bytes_like (at_ kv 1)) path
     else Ok ()) in
  let? uc6 := index uc 6 in
  let? sf := typed uc6 39005 8 in
  let? sf0 := index sf 0 in
  let? version := bad (item_uint sf0 1) in
  if negb (version =? 1) then Err (Bad Version) else
  let? _ := check_at sf 1 (fun it => bad (void (item_uint it u16_max))) in
  let? _ := each (fun i => check_at sf i (fun it => bad (void (item_uint it u64_max)))) [2; 3; 4]%nat in
  let? _ := check_at sf 5 bytes_like in
  let? _ := check_at sf 6 bytes_like in
  let? sigs := index sf 7 in
  if negb (null sigs) then
    if negb (it_major sigs =? 5) then Err (Bad Shape) else
    let? kids := panics (children sigs) in
    each_pair (fun k => bad (void (blob k 3 0 usize_max))) bytes_like kids
  else Ok ().

(** [children().nth(i).ok_or(Malformed::Shape)?]. *)
Definition nth_child (it : Item) (i : nat) : result Fault Item :=
  let? kids := panics (children it) in ok_or (nth_error kids i) (Bad Shape).

Fixpoint small_bytes (l : list Item) : result Fault bytes :=
  match l with
  | [] => Ok []
  | e :: l =>
      let? v := bad (item_uint e 255) in
      let? rest := small_bytes l in Ok (z2b v :: rest)
  end.

Definition certificate_shard (raw : bytes) : result Fault bytes :=
  let? (uc, _) := bad (one_loose raw 0 usize_max) in
  let? (inner, _) := bad (one_loose (it_data uc) 0 usize_max) in
  let? sc_tag := nth_child inner 4 in
  let? (sc, _) := bad (one_loose (it_data sc_tag) 0 usize_max) in
  let? shard := nth_child sc 1 in
  if null shard then Ok [] else
  if it_major shard =? 2 then Ok (it_data shard) else
  let? kids := panics (children shard) in
  small_bytes kids.

(** ** Folding a claim to the root of its seal *)

Section folds.
Context `{Crypto}.

(** [l[d / 8] & (0x80 >> (d % 8)) != 0] on a slice. *)
Definition bit_at (l : bytes) (d : Z) : result Fault bool :=
  if (0 <=? d) && (d / 8 <? zlen l) then Ok (bit l (Z.to_nat d)) else Err Panic.

(** The shard path, from depth [depth] up; [d = depth - 1 - i] at the [i]-th sibling. *)
Fixpoint fold_shard (shard : bytes) (depth : Z) (h : bytes) (siblings : list Item) : result Fault bytes :=
  match siblings with
  | [] => Ok h
  | sib :: siblings =>
      let d := depth - 1 in
      let? set := bit_at shard d in
      let h :=
        if negb set then hash [[Byte.x58; Byte.x20]; h; [Byte.x58; Byte.x20]; it_data sib]
        else hash [[Byte.x58; Byte.x20]; it_data sib; [Byte.x58; Byte.x20]; h] in
      fold_shard shard d h siblings
  end.

Definition as_u32 (z : Z) : Z := z mod 2 ^ 32.

(** The path of the Unicity tree, from the leaf of [partition] up. *)
Fixpoint fold_tree (partition : Z) (h : bytes) (steps : list Item) : result Fault bytes :=
  match steps with
  | [] => Ok h
  | step :: steps =>
      let? r := panics (item_array 2 step) in
      let? kv := map_err (fun _ => Panic) r in
      let k := be_bytes 4 (as_u32 (it_arg (at_ kv 0))) in
      let h :=
        if as_u32 (it_arg (at_ kv 0)) <? partition
        then hash [[Byte.x41; Byte.x00; Byte.x44]; k; [Byte.x58; Byte.x20]; it_data (at_ kv 1);
                   [Byte.x58; Byte.x20]; h]
        else hash [[Byte.x41; Byte.x00; Byte.x44]; k; [Byte.x58; Byte.x20]; h;
                   [Byte.x58; Byte.x20]; it_data (at_ kv 1)] in
      fold_tree partition h steps
  end.

Definition MIN_TIMESTAMP : Z := 1681971084.

(** The conditions [folds] decides before it hashes a path. *)
Definition fold_guards (c : Claim) (ir : list Item) : bool :=
  let sf := cl_seal_fields c in
  negb ((negb (it_arg (at_ ir 1) =? 0) && (null (at_ ir 5) || (it_arg (at_ ir 6) =? 0)))
        || Bool.eqb (bool_decide (it_data (at_ ir 3) = it_data (at_ ir 4))) (negb (null (at_ ir 7)))
        || (it_arg (at_ sf 2) =? 0) || (it_arg (at_ sf 4) <? MIN_TIMESTAMP)
        || null (at_ sf 7) || (it_arg (at_ sf 7) =? 0))
  && negb (negb (it_arg (at_ (cl_tree_cert c) 1) =? cl_partition c)
           || negb (bool_decide (it_data (at_ (cl_shard_cert c) 1) = cl_shard c))
           || negb (bool_decide (it_data (cl_conf c) = cl_config c))
           || negb (bool_decide (it_data (at_ ir 4) = cl_state c))
           || negb (bool_decide (hash [it_raw (cl_ir c)] = cl_ir_hash c))).

Definition folds (c : Claim) : result Fault bool :=
  let? r := panics (tagged 10 39002 (cl_ir c)) in
  let? ir := map_err (fun _ => Panic) r in
  if negb (fold_guards c ir) then Ok false else
  let shard := it_data (at_ (cl_shard_cert c) 1) in
  let? depth := map_err (fun _ => Panic) (shard_depth shard) in
  let? siblings := panics (children (at_ (cl_shard_cert c) 2)) in
  if negb (zlen siblings =? depth) then Ok false else
  let? h := fold_shard shard depth
    (hash [it_raw (cl_ir c); it_raw (cl_tr c); it_raw (cl_conf c)]) siblings in
  let data := hash [[Byte.x58; Byte.x20]; h] in
  let partition := as_u32 (it_arg (at_ (cl_tree_cert c) 1)) in
  let h := hash [[Byte.x41; Byte.x01; Byte.x44]; be_bytes 4 partition; [Byte.x58; Byte.x20]; data] in
  let? steps := panics (children (at_ (cl_tree_cert c) 2)) in
  let? h := fold_tree partition h steps in
  Ok (bool_decide (h = it_data (at_ (cl_seal_fields c) 6))).

End folds.

(** ** No panic *)

Definition no_panic {A} (r : result Fault A) : Prop := r <> Err Panic.

Lemma np_ok {A} (a : A) : no_panic (Ok a).
Proof. done. Qed.

Lemma np_bad_err {A} m : no_panic (A := A) (Err (Bad m)).
Proof. done. Qed.

Lemma np_bad {A} (r : result Malformed A) : no_panic (bad r).
Proof. by destruct r. Qed.

Lemma np_bind {A B} (r : result Fault A) (k : A -> result Fault B) :
  no_panic r -> (forall a, r = Ok a -> no_panic (k a)) -> no_panic (rbind r k).
Proof. unfold no_panic. destruct r; cbn; intros Hr Hk; [by apply Hk|].
  intros [= ->]. by apply Hr.
Qed.

Lemma np_if {A} (b : bool) (r q : result Fault A) :
  (b = true -> no_panic r) -> (b = false -> no_panic q) -> no_panic (if b then r else q).
Proof. destruct b; auto. Qed.

Lemma np_each {A} (f : A -> result Fault ()) l :
  (forall a, a ∈ l -> no_panic (f a)) -> no_panic (each f l).
Proof.
  induction l as [|a l IH]; intros Hf; cbn; [done|]. apply np_bind; [apply Hf; left|].
  intros _ _. apply IH. intros b Hb. apply Hf. by right.
Qed.

Lemma np_each_pair key value l :
  (forall a, a ∈ l -> no_panic (key a)) -> (forall a, a ∈ l -> no_panic (value a)) ->
  no_panic (each_pair key value l).
Proof.
  revert l. fix IH 1. intros [|k [|v l]] Hk Hv; cbn [each_pair]; [done|..].
  - apply np_bind; [apply Hk; left | intros _ _; apply np_bad_err].
  - apply np_bind; [apply Hk; left|]. intros _ _.
    apply np_bind; [apply Hv; right; left|]. intros _ _.
    apply IH; intros a Ha; [apply Hk | apply Hv]; by do 2 right.
Qed.

Create HintDb no_panic.
#[local] Hint Resolve np_ok np_bad_err np_bad : no_panic.
(** Walks a computation bind by bind, keeping what each step returned. *)
Ltac np_step :=
  match goal with
  | |- no_panic (rbind _ _) =>
      apply np_bind; [|let a := fresh "a" in let Ha := fresh "Ha" in intros a Ha]
  | |- no_panic (if _ then _ else _) => apply np_if; intros ?
  | |- no_panic (let (_, _) := ?p in _) => destruct p
  end.
Ltac np := repeat (np_step || (progress cbv beta)); auto with no_panic.

(** ** Validated items

    What the readers return on the items of a scan, strict or not. *)

Section parts.
Context (strict utf8 : bool).
#[local] Abbreviation valid := (validated strict utf8).

Lemma opened_tagged n tag it :
  valid it ->
  no_panic (opened (tagged n tag it)) /\
  forall l, opened (tagged n tag it) = Ok l ->
    tagged n tag it = Some (Ok l) /\ length l = n /\ Forall valid l.
Proof.
  intros Hv. destruct (tagged_validated _ _ n tag it Hv) as (r & -> & Hr). split; [apply np_bad|].
  intros l Hl. cbn in Hl. apply map_err_ok_inv in Hl. subst r. split; [done|]. by apply Hr.
Qed.

Lemma opened_array n it :
  valid it ->
  no_panic (opened (item_array n it)) /\
  forall l, opened (item_array n it) = Ok l ->
    item_array n it = Some (Ok l) /\ length l = n /\ Forall valid l.
Proof.
  intros Hv. destruct (item_array_validated _ _ n it Hv) as (r & -> & Hr). split; [apply np_bad|].
  intros l Hl. cbn in Hl. apply map_err_ok_inv in Hl. subst r. split; [done|]. by apply Hr.
Qed.

Lemma at_validated l i : Forall valid l -> (i < length l)%nat -> valid (at_ l i).
Proof.
  intros HF Hi. unfold at_. rewrite Forall_forall in HF. apply HF, list_elem_of_In, nth_In. done.
Qed.

(** Items whose children can be iterated: anything but a string. *)
Definition iterable (it : Item) : Prop := valid it /\ it_major it <> 2 /\ it_major it <> 3.

Lemma children_iterable it :
  iterable it -> exists l, children it = Some l /\ Forall valid l /\
    (it_major it = 4 -> zlen l = it_arg it) /\ (it_major it = 5 -> zlen l = 2 * it_arg it).
Proof. intros (Hv & ? & ?). by apply children_validated. Qed.

Lemma np_children it : iterable it -> no_panic (panics (children it)).
Proof. intros (l & -> & _)%children_iterable. apply np_ok. Qed.

Lemma children_inv it l :
  iterable it -> panics (children it) = Ok l -> children it = Some l /\ Forall valid l.
Proof. intros (l' & -> & ? & _)%children_iterable [= <-]. done. Qed.

Lemma collection_iterable it major max n :
  valid it -> major <> 2 -> major <> 3 -> bad (collection it major max) = Ok n -> iterable it.
Proof.
  intros Hv ? ? Hc. apply map_err_ok_inv in Hc. unfold collection, null in Hc. unfold iterable.
  inv_ok Hc; split_and!; try done; lia.
Qed.

Lemma np_each_child f it :
  iterable it -> (forall c, valid c -> no_panic (f c)) -> no_panic (each_child f it).
Proof.
  intros Hi Hf. unfold each_child. apply np_bind; [by apply np_children|].
  intros l Hl. apply children_inv in Hl as [_ HF]; [|done].
  apply np_each. intros c Hc. apply Hf. by rewrite Forall_forall in HF; apply HF.
Qed.

Lemma np_check_step step : valid step -> no_panic (check_step step).
Proof. intros Hv. unfold check_step. np. by apply opened_array. Qed.

Lemma np_each_bad {A} (f : A -> result Malformed ()) l : no_panic (each (fun a => bad (f a)) l).
Proof. apply np_each. intros a _. apply np_bad. Qed.

Lemma np_opened l i n tag :
  Forall valid l -> (i < length l)%nat -> no_panic (opened (tagged n tag (at_ l i))).
Proof. intros HF Hi. apply opened_tagged. by apply at_validated. Qed.

Lemma part_validated uc i n tag l :
  Forall valid uc -> (i < length uc)%nat -> opened (tagged n tag (at_ uc i)) = Ok l ->
  tagged n tag (at_ uc i) = Some (Ok l) /\ length l = n /\ Forall valid l.
Proof. intros HF Hi. apply opened_tagged. by apply at_validated. Qed.

Lemma part_iterable uc i n tag l j major max k :
  Forall valid uc -> (i < length uc)%nat -> (j < n)%nat -> major <> 2 -> major <> 3 ->
  opened (tagged n tag (at_ uc i)) = Ok l -> bad (collection (at_ l j) major max) = Ok k ->
  iterable (at_ l j).
Proof.
  intros HF Hi Hj H2 H3 (_ & Hl & HF')%part_validated Hc; [|done..].
  eapply collection_iterable; [|exact H2|exact H3|exact Hc]. apply at_validated; [done | lia].
Qed.

#[local] Hint Resolve np_each_bad np_opened np_each_child np_check_step np_children : no_panic.
#[local] Hint Extern 1 (_ < _)%nat => lia : no_panic.

Lemma np_claim_fields uc :
  Forall valid uc -> length uc = 7%nat -> no_panic (claim_fields uc).
Proof.
  intros HF Hl. unfold claim_fields.
  np; try (eapply np_each_child || apply np_children || apply np_each_pair); auto with no_panic;
    eapply part_iterable; eauto with no_panic; lia.
Qed.

(** The view of a 32-byte string. *)
Definition hash_item (it : Item) : Prop := exists x, is_word x /\ it = view (TBytes x).

Lemma hash_item_intro it x : valid it -> bad (item_bytes it 32) = Ok x -> hash_item it.
Proof.
  intros (t & -> & _) Hb. apply map_err_ok_inv in Hb. unfold item_bytes in Hb. inv_ok Hb.
  destruct t as [|y| | | | |]; cbn in *; try discriminate. exists y. split; [|done]. ulia.
Qed.

Lemma hash_item_raw it : hash_item it -> it_raw it = [Byte.x58; Byte.x20] ++ it_data it.
Proof.
  intros (x & Hx & ->). cbn [view it_raw it_data payload enc]. unfold is_word in Hx. unfold zlen.
  rewrite Hx. reflexivity.
Qed.

Lemma hash_item_data it : hash_item it -> is_word (it_data it).
Proof. by intros (x & Hx & ->). Qed.

(** One step of a tree path: a 32-bit key and a digest. *)
Definition step_item (step : Item) : Prop :=
  exists k x, 0 <= k <= u32_max /\ is_word x /\
    item_array 2 step = Some (Ok [view (TUint k); view (TBytes x)]).

Lemma uint_item it max k :
  valid it -> bad (item_uint it max) = Ok k -> 0 <= k <= max /\ it = view (TUint k).
Proof.
  intros (t & -> & Hg & _) Hu. apply map_err_ok_inv in Hu. unfold item_uint in Hu. inv_ok Hu.
  apply good_head_ok in Hg as [_ Hg]. cbn [snd] in Hg.
  destruct t; cbn in *; try discriminate. subst. split; [ulia | done].
Qed.

Lemma check_step_item step : valid step -> check_step step = Ok () -> step_item step.
Proof.
  intros Hv Hc. unfold check_step in Hc. apply rbind_ok_inv in Hc as (kv & Hkv & Hc).
  apply opened_array in Hkv as (Hkv & Hl & HF); [|done].
  destruct kv as [|k [|x [|]]]; try discriminate Hl. apply Forall_cons in HF as [Hk HF].
  apply Forall_cons in HF as [Hx _]. cbn [at_ nth] in Hc.
  apply rbind_ok_inv in Hc as (k' & Hk' & Hc). apply uint_item in Hk' as [? ->]; [|done].
  apply map_err_ok_inv in Hc. unfold void in Hc. apply rbind_ok_inv in Hc as (y & Hy & _).
  assert (hash_item x) as (z & ? & ->) by (apply (hash_item_intro x y); [done | by rewrite Hy]).
  exists k', z. done.
Qed.

Lemma collection_children it major max n :
  valid it -> major = 4 \/ major = 5 -> bad (collection it major max) = Ok n ->
  0 <= n <= Z.max 0 max /\
  exists l, children it = Some l /\ Forall valid l /\ zlen l = (if major =? 4 then n else 2 * n).
Proof.
  intros Hv Hm Hc. pose proof Hv as (t & Ht & Hg & _).
  assert (iterable it) as Hi by (by eapply collection_iterable; [..|exact Hc]; lia || done).
  apply map_err_ok_inv in Hc. unfold collection in Hc.
  destruct (children_iterable it Hi) as (l & Hl & HF & H4 & H5).
  destruct (null it) eqn:Hn.
  - injection Hc as <-. split; [lia|]. exists []. unfold children. rewrite Hn.
    split; [done|]. split; [constructor|]. by destruct (major =? 4).
  - inv_ok Hc. subst n. apply good_head_ok in Hg as [_ Hg]. cbn [snd] in Hg.
    assert (0 <= it_arg it) by (subst it; apply Hg). split; [lia|]. exists l. split_and!; try done.
    destruct Hm as [-> | ->]; cbn [Z.eqb Pos.eqb]; [apply H4 | apply H5]; lia.
Qed.

Lemma each_child_ok f it :
  iterable it -> each_child f it = Ok () ->
  forall l, children it = Some l -> Forall (fun c => valid c /\ f c = Ok ()) l.
Proof.
  intros Hi He l Hl. unfold each_child in He. rewrite Hl in He. cbn in He.
  apply each_ok_Forall in He. destruct (children_iterable it Hi) as (l' & Hl' & HF & _).
  assert (l' = l) as -> by congruence. by apply Forall_and.
Qed.

Lemma void_hash_item it : valid it -> bad (void (item_bytes it 32)) = Ok () -> hash_item it.
Proof.
  intros Hv Hb. apply map_err_ok_inv in Hb. unfold void in Hb. apply rbind_ok_inv in Hb as (x & Hx & _).
  apply (hash_item_intro it x); [done|]. by rewrite Hx.
Qed.

Lemma collection_each it max n (f : Item -> result Fault ()) (P : Item -> Prop) :
  valid it -> bad (collection it 4 max) = Ok n -> each_child f it = Ok () ->
  (forall c, valid c -> f c = Ok () -> P c) ->
  exists l, children it = Some l /\ Forall P l /\ zlen l = n /\ 0 <= n <= Z.max 0 max.
Proof.
  intros Hv Hc He HP. assert (iterable it) as Hi by (by eapply collection_iterable; [..|exact Hc]).
  apply collection_children in Hc as (Hn & l & Hl & _ & Hlen); [|done|by left].
  pose proof (each_child_ok _ _ Hi He l Hl) as HF. exists l. split_and!; try done; try lia.
  eapply Forall_impl; [exact HF|]. intros c [? ?]. by apply HP.
Qed.

(** A signature of a seal: a signer identifier and a witness of any width. *)
Definition sig_pair (kv : tree * tree) : Prop :=
  exists id sig, kv = (TText id, TBytes sig) /\ zlen id <= 128.

Lemma blob_text it max :
  valid it -> bad (void (blob it 3 0 max)) = Ok () -> exists x, it = view (TText x) /\ zlen x <= max.
Proof.
  intros (t & -> & _) Hb. apply map_err_ok_inv in Hb. unfold void, blob in Hb. inv_ok Hb. inv_ok Hok.
  destruct t as [| |x| | | |]; try discriminate. exists x. split; [done|].
  cbn [view it_data payload] in *. lia.
Qed.

Lemma blob_bytes it max :
  valid it -> bad (void (blob it 2 0 max)) = Ok () -> exists x, it = view (TBytes x) /\ zlen x <= max.
Proof.
  intros (t & -> & _) Hb. apply map_err_ok_inv in Hb. unfold void, blob in Hb. inv_ok Hb. inv_ok Hok.
  destruct t as [|x| | | | |]; try discriminate. exists x. split; [done|].
  cbn [view it_data payload] in *. lia.
Qed.

Lemma text_view t x : view t = view (TText x) -> t = TText x.
Proof.
  intros Hv. pose proof (f_equal it_major Hv) as Hm. apply (f_equal it_data) in Hv.
  destruct t; cbn in Hm, Hv; try lia. by subst.
Qed.

Lemma bytes_view t x : view t = view (TBytes x) -> t = TBytes x.
Proof.
  intros Hv. pose proof (f_equal it_major Hv) as Hm. apply (f_equal it_data) in Hv.
  destruct t; cbn in Hm, Hv; try lia. by subst.
Qed.

Lemma each_pair_sigs kvs max :
  Forall valid (map view (flatten kvs)) -> max <= 128 ->
  each_pair (fun id => bad (void (blob id 3 0 max))) (fun v => bad (void (blob v 2 0 usize_max)))
    (map view (flatten kvs)) = Ok () ->
  Forall sig_pair kvs.
Proof.
  intros HF Hmax. induction kvs as [|[k v] kvs IH]; intros He; [constructor|].
  cbn [flatten map concat app fst snd] in HF, He. fold (flatten kvs) in HF, He.
  apply Forall_cons in HF as [Hk [Hv HF]%Forall_cons]. cbn [each_pair] in He.
  apply rbind_ok_inv in He as ([] & Hbk & He). apply rbind_ok_inv in He as ([] & Hbv & He).
  apply blob_text in Hbk as (id & Hid & ?); [|done]. apply blob_bytes in Hbv as (sig & Hsig & _); [|done].
  constructor; [|by apply IH]. exists id, sig. split; [|lia].
  by rewrite (text_view _ _ Hid), (bytes_view _ _ Hsig).
Qed.

(** What the claim parser establishes about a certificate. *)
Record fields_ok (uc : list Item) (f : Fields) : Prop := {
  fo_ir : exists ir, tagged 10 39002 (at_ uc 1) = Some (Ok ir);
  fo_tr : hash_item (at_ uc 2);
  fo_conf : hash_item (at_ uc 3);
  fo_shard : exists depth, shard_depth (it_data (at_ (fd_sc f) 1)) = Ok depth;
  fo_siblings : exists l, children (at_ (fd_sc f) 2) = Some l /\ Forall hash_item l /\
                  zlen l = fd_siblings f /\ 0 <= fd_siblings f <= 256;
  fo_partition : 0 <= it_arg (at_ (fd_tc f) 1) <= u32_max;
  fo_steps : exists l, children (at_ (fd_tc f) 2) = Some l /\ Forall step_item l /\
               zlen l = fd_steps f /\ 0 <= fd_steps f <= 32;
  fo_seal : valid (at_ uc 6) /\ tagged 8 39005 (at_ uc 6) = Some (Ok (fd_sf f));
  fo_root : hash_item (at_ (fd_sf f) 6);
  fo_sigs : at_ (fd_sf f) 7 = view TNull /\ fd_sigs f = 0 \/
            exists kvs, at_ (fd_sf f) 7 = view (TMap kvs) /\ zlen kvs = fd_sigs f /\
              fd_sigs f <= 64 /\ Forall sig_pair kvs /\
              children (at_ (fd_sf f) 7) = Some (map view (flatten kvs)) /\
              (strict = true -> ascending (map (fun kv => enc kv.1) kvs) = true) }.

Lemma signatures_ok it n kids :
  valid it -> bad (collection it 5 64) = Ok n -> panics (children it) = Ok kids ->
  each_pair (fun id => bad (void (blob id 3 0 128))) (fun v => bad (void (blob v 2 0 usize_max))) kids
    = Ok () ->
  it = view TNull /\ n = 0 \/
  exists kvs, it = view (TMap kvs) /\ zlen kvs = n /\ n <= 64 /\ Forall sig_pair kvs /\
    children it = Some (map view (flatten kvs)) /\
    (strict = true -> ascending (map (fun kv => enc kv.1) kvs) = true).
Proof.
  intros (t & -> & Hg & Hs) Hc Hk He. apply map_err_ok_inv in Hc. unfold collection in Hc.
  destruct (null (view t)) eqn:Hn.
  { left. injection Hc as <-. by destruct t. }
  inv_ok Hc. destruct t as [| | | |kvs| |]; try discriminate. right. exists kvs.
  destruct (children_view _ _ _ Hg Hs) as [Hch HF]; try done. rewrite Hch in Hk.
  injection Hk as <-. cbn [view it_arg arg] in *. split; [done|]. split; [done|]. split; [lia|].
  split; [by eapply each_pair_sigs|]. split; [done|]. intros Hst. apply (good_map _ _ 15) in Hg as (_ & _ & Hm).
  destruct (Hm Hst) as [_ Ha]. by rewrite flatten_evens, map_map in Ha.
Qed.

Lemma claim_fields_ok uc f :
  Forall valid uc -> length uc = 7%nat -> claim_fields uc = Ok f -> fields_ok uc f.
Proof.
  intros HF Hl Hf. unfold claim_fields in Hf. inv_ok Hf. subst f.
  assert (Huc : forall i, (i < 7)%nat -> valid (at_ uc i)).
  { intros i Hi. apply at_validated; [done | lia]. }
  apply part_validated in Hok as (Hir & _ & _); [|done|lia].
  apply part_validated in Hok6 as (_ & Hsc & HFsc); [|done|lia].
  apply part_validated in Hok11 as (_ & Htc & HFtc); [|done|lia].
  apply part_validated in Hok15 as (Hseal & Hsf & HFsf); [|done|lia].
  split; cbn [fd_sc fd_tc fd_sf fd_siblings fd_steps fd_sigs].
  - eauto.
  - eapply hash_item_intro; [|exact Hok4]. apply Huc. lia.
  - eapply hash_item_intro; [|exact Hok5]. apply Huc. lia.
  - apply map_err_ok_inv in Hok7, Hok8. exists a8. unfold blob in Hok7. inv_ok Hok7. by subst.
  - destruct a10. apply (collection_each (at_ a6 2) 256 _ _ _ (at_validated a6 2 HFsc ltac:(lia)) Hok9 Hok10).
    intros c ? ?. by apply void_hash_item.
  - apply uint_item in Hok12 as [? ->]; [done|]. apply at_validated; [done | lia].
  - destruct a14. apply (collection_each (at_ a11 2) 32 _ _ _ (at_validated a11 2 HFtc ltac:(lia)) Hok13 Hok14).
    intros c ? ?. by apply check_step_item.
  - split; [apply Huc; lia | done].
  - eapply hash_item_intro; [|exact Hok19]. apply at_validated; [done | lia].
  - destruct a22. eapply signatures_ok; [|exact Hok20|exact Hok21|exact Hok22].
    apply at_validated; [done | lia].
Qed.

End parts.

(** ** The claim parser *)

Lemma np_sbind {S A B} (c : reader S Fault A) (k : A -> reader S Fault B) s :
  no_panic (c s) -> (forall a s', c s = Ok (a, s') -> no_panic (k a s')) -> no_panic (sbind c k s).
Proof.
  unfold no_panic, sbind. destruct (c s) as [[a s']|e]; intros Hc Hk; [by apply Hk|].
  intros [= ->]. by apply Hc.
Qed.

Lemma np_read_raw {A} (p : b1_reader A) s : no_panic (read_raw p s).
Proof. unfold read_raw. apply np_bind; [apply np_bad|]. by intros [? ?]. Qed.

Lemma np_lift {S A} (r : result Fault A) (s : S) : no_panic r -> no_panic (lift r s).
Proof. unfold no_panic, lift. destruct r; [done|]. intros Hr [= ->]. by apply Hr. Qed.

Lemma read_raw_tokens {A} (p : b1_reader A) s a s' :
  read_raw p s = Ok (a, s') -> sc_tokens s' = sc_tokens s.
Proof. unfold read_raw. intros Hr. inv_ok Hr. by subst. Qed.

Lemma scan_one_validated raw s it s' :
  0 <= sc_tokens s -> scan_one raw s = Ok (it, s') -> validated true true it.
Proof.
  intros Ht Hs. unfold scan_one in Hs. inv_ok Hs. subst.
  apply map_err_ok_inv in Hok. by apply (run_scan_validated _ _ _ _ _ _ _ Hok).
Qed.

Lemma scan_one_tokens raw s it s' :
  0 <= sc_tokens s -> scan_one raw s = Ok (it, s') -> 0 <= sc_tokens s' <= MAX_ITEMS.
Proof.
  intros Ht Hs. unfold scan_one in Hs. inv_ok Hs. subst. cbn [sc_tokens].
  apply map_err_ok_inv, run_scan_iff in Hok as (t & _ & _ & _ & -> & ?). lia.
Qed.

(** A claim whose items come from a parsed certificate. *)
Definition claim_of (uc : list Item) (f : Fields) (c : Claim) : Prop :=
  cl_ir c = at_ uc 1 /\ cl_tr c = at_ uc 2 /\ cl_conf c = at_ uc 3 /\ cl_shard_cert c = fd_sc f /\
  cl_tree_cert c = fd_tc f /\ cl_seal c = at_ uc 6 /\ cl_seal_fields c = fd_sf f.

Definition claim_ok (c : Claim) : Prop := exists uc f, fields_ok true true uc f /\ claim_of uc f c.

(** The same with the counts of the parser. *)
Definition parsed_ok (p : Parsed) : Prop :=
  exists uc f, fields_ok true true uc f /\ claim_of uc f (pa_claim p) /\ pa_sigs p = fd_sigs f /\
    pa_paths p = fd_siblings f + fd_steps f.

Lemma parsed_claim_ok p : parsed_ok p -> claim_ok (pa_claim p).
Proof. intros (uc & f & ? & ? & _). by exists uc, f. Qed.

Lemma parsed_counts p : parsed_ok p -> 0 <= pa_paths p <= 288 /\ 0 <= pa_sigs p <= 64.
Proof.
  intros (uc & f & Hf & _ & -> & ->).
  destruct (fo_siblings _ _ _ _ Hf) as (_ & _ & _ & _ & ?).
  destruct (fo_steps _ _ _ _ Hf) as (_ & _ & _ & _ & ?). split; [lia|].
  destruct (fo_sigs _ _ _ _ Hf) as [[_ ->] | (kvs & _ & ? & ? & _)]; [lia|].
  pose proof (zlen_nonneg kvs). lia.
Qed.

Lemma parse_claim_ok s p s' :
  0 <= sc_tokens s -> parse_claim s = Ok (p, s') -> parsed_ok p /\ 0 <= sc_tokens s' <= MAX_ITEMS.
Proof.
  intros Ht Hp. unfold parse_claim in Hp. inv_ok Hp.
  repeat match goal with Hr : read_raw _ _ = Ok _ |- _ => apply read_raw_tokens in Hr end.
  assert (Hs : 0 <= sc_tokens s7) by lia. pose proof (scan_one_validated _ _ _ _ Hs Hok8) as Hv.
  apply opened_tagged with (strict := true) (utf8 := true) in Hok9 as (_ & Hl & HF); [|done].
  pose proof (claim_fields_ok _ _ _ _ HF Hl Hok10) as Hf. subst p s'.
  split; [|by eapply scan_one_tokens]. exists a9, a10. cbn [pa_claim pa_paths pa_sigs].
  split; [done|]. split; [done|]. split; [|done].
  destruct (fo_sigs _ _ _ _ Hf) as [[_ ->] | (kvs & _ & <- & _)]; [done|].
  pose proof (zlen_nonneg kvs). lia.
Qed.

(** The packed bytes of a claim with certificate bytes [raw]. *)
Definition packed_claim (c : Claim) (raw : bytes) : bytes :=
  be_bytes 4 (cl_partition c) ++ be_bytes 2 (zlen (cl_shard c)) ++ cl_shard c ++ cl_config c
  ++ cl_state c ++ cl_ir_hash c ++ be_bytes 4 (zlen raw) ++ raw.

Lemma read_uint_be n s v s' :
  (n <= 8)%nat -> read_raw (uint_n (Z.of_nat n)) s = Ok (v, s') ->
  sc_data s = be_bytes n v ++ sc_data s' /\ 0 <= v < 256 ^ Z.of_nat n.
Proof.
  intros Hn Hr. unfold read_raw in Hr. inv_ok Hr. subst. apply map_err_ok_inv in Hok.
  by apply uint_n_be in Hok.
Qed.

Lemma read_uint_2 s v s' :
  read_raw (uint_n 2) s = Ok (v, s') -> sc_data s = be_bytes 2 v ++ sc_data s' /\ 0 <= v < 256 ^ 2.
Proof. apply (read_uint_be 2). lia. Qed.

Lemma read_uint_4 s v s' :
  read_raw (uint_n 4) s = Ok (v, s') -> sc_data s = be_bytes 4 v ++ sc_data s' /\ 0 <= v < 256 ^ 4.
Proof. apply (read_uint_be 4). lia. Qed.

Lemma read_take n s x s' :
  0 <= n -> read_raw (take_n n) s = Ok (x, s') -> sc_data s = x ++ sc_data s' /\ zlen x = n.
Proof.
  intros Hn Hr. unfold read_raw in Hr. inv_ok Hr. subst. apply map_err_ok_inv in Hok.
  by apply take_n_iff in Hok.
Qed.

Lemma scan_one_item raw s it s' :
  scan_one raw s = Ok (it, s') -> item raw = Ok it /\ sc_data s' = sc_data s.
Proof.
  unfold scan_one. intros Hs. inv_ok Hs. subst. apply map_err_ok_inv in Hok.
  apply run_scan_iff in Hok as (t & Hg & -> & -> & _). split; [|done]. by eapply item_view.
Qed.

(** A parsed claim is determined by the bytes it took from the request. *)
Lemma parse_claim_packed s p s' :
  parse_claim s = Ok (p, s') ->
  exists raw root uc f, sc_data s = packed_claim (pa_claim p) raw ++ sc_data s' /\
    is_word (cl_config (pa_claim p)) /\ is_word (cl_state (pa_claim p)) /\
    is_word (cl_ir_hash (pa_claim p)) /\ 0 <= cl_partition (pa_claim p) < 256 ^ 4 /\
    zlen (cl_shard (pa_claim p)) < 256 ^ 2 /\ zlen raw < 256 ^ 4 /\
    item raw = Ok root /\ opened (tagged 7 39001 root) = Ok uc /\ claim_fields uc = Ok f /\
    claim_of uc f (pa_claim p) /\ pa_paths p = fd_siblings f + fd_steps f /\
    pa_sigs p = Z.max 0 (fd_sigs f).
Proof.
  intros Hp. unfold parse_claim in Hp. inv_ok Hp.
  apply read_uint_4 in Hok as [Hd ?], Hok6 as [Hd6 ?]. apply read_uint_2 in Hok0 as [Hd0 ?].
  apply read_take in Hok1 as [Hd1 Hz1], Hok3 as [Hd3 Hz3], Hok4 as [Hd4 Hz4], Hok5 as [Hd5 Hz5],
    Hok7 as [Hd7 Hz7]; [|lia..].
  apply scan_one_item in Hok8 as [Hitem Hd8]. subst p s'.
  exists a7, a8, a9, a10. cbn [pa_claim pa_paths pa_sigs]. unfold packed_claim.
  cbn [cl_partition cl_shard cl_config cl_state cl_ir_hash].
  split; [|unfold is_word; split_and!; (done || ulia)].
  rewrite Hz1, Hz7, <- !app_assoc. congruence.
Qed.

Lemma packed_claim_inj c1 c2 raw1 raw2 :
  is_word (cl_config c1) -> is_word (cl_state c1) -> is_word (cl_ir_hash c1) ->
  0 <= cl_partition c1 < 256 ^ 4 -> zlen (cl_shard c1) < 256 ^ 2 -> zlen raw1 < 256 ^ 4 ->
  is_word (cl_config c2) -> is_word (cl_state c2) -> is_word (cl_ir_hash c2) ->
  0 <= cl_partition c2 < 256 ^ 4 -> zlen (cl_shard c2) < 256 ^ 2 -> zlen raw2 < 256 ^ 4 ->
  packed_claim c1 raw1 = packed_claim c2 raw2 ->
  cl_partition c1 = cl_partition c2 /\ cl_shard c1 = cl_shard c2 /\ cl_config c1 = cl_config c2 /\
  cl_state c1 = cl_state c2 /\ cl_ir_hash c1 = cl_ir_hash c2 /\ raw1 = raw2.
Proof.
  unfold packed_claim, is_word. intros Hc1 Hs1 Hi1 Hp1 Hz1 Hr1 Hc2 Hs2 Hi2 Hp2 Hz2 Hr2 Heq.
  pose proof (zlen_nonneg (cl_shard c1)). pose proof (zlen_nonneg (cl_shard c2)).
  apply app_inj_1 in Heq as [Hp Heq]; [|by rewrite !be_bytes_length].
  apply app_inj_1 in Heq as [Hz Heq]; [|by rewrite !be_bytes_length].
  apply (be_bytes_inj 4) in Hp; [|done..].
  apply (be_bytes_inj 2) in Hz; [|split; [lia | done]..].
  apply app_inj_1 in Heq as [Hsh Heq]; [|ulia]. apply app_inj_1 in Heq as [Hc Heq]; [|congruence].
  apply app_inj_1 in Heq as [Hs Heq]; [|congruence]. apply app_inj_1 in Heq as [Hi Heq]; [|congruence].
  apply app_inj_1 in Heq as [_ Heq]; [|by rewrite !be_bytes_length]. done.
Qed.

Lemma parse_claim_det s1 s2 p1 p2 s1' s2' d :
  parse_claim s1 = Ok (p1, s1') -> parse_claim s2 = Ok (p2, s2') ->
  sc_data s1 = d ++ sc_data s1' -> sc_data s2 = d ++ sc_data s2' -> p1 = p2.
Proof.
  intros (raw1 & root1 & uc1 & f1 & Hd1 & ? & ? & ? & ? & ? & ? & Hr1 & Hu1 & Hf1 & Hc1 & Hp1 & Hs1)%parse_claim_packed.
  intros (raw2 & root2 & uc2 & f2 & Hd2 & ? & ? & ? & ? & ? & ? & Hr2 & Hu2 & Hf2 & Hc2 & Hp2 & Hs2)%parse_claim_packed.
  intros He1 He2. rewrite Hd1 in He1. rewrite Hd2 in He2. apply app_inv_tail in He1, He2. subst d.
  symmetry in He2. apply packed_claim_inj in He2 as (? & ? & ? & ? & ? & <-); try done.
  assert (root2 = root1) as -> by congruence. assert (uc2 = uc1) as -> by congruence.
  assert (f2 = f1) as -> by congruence. unfold claim_of in *. destruct_and? Hc1. destruct_and? Hc2.
  destruct p1 as [[] ? ?], p2 as [[] ? ?]; cbn in *. by subst.
Qed.

Lemma np_parse_claim s : 0 <= sc_tokens s -> no_panic (parse_claim s).
Proof.
  intros Ht. unfold parse_claim.
  repeat match goal with
  | |- no_panic (sbind (read_raw _) _ _) => apply np_sbind; [apply np_read_raw|]; intros ? ? ?%read_raw_tokens
  | |- no_panic (sbind (lift (bad _)) _ _) => apply np_sbind; [apply np_lift, np_bad|]; intros ? ? Hl
  | |- no_panic ((if ?b then _ else _) _) => destruct b; [done|]
  end.
  apply lift_ok_inv in Hl as (? & _ & [= _ ?]). subst.
  apply np_sbind.
  { unfold scan_one. apply np_bind; [apply np_bad|]. by intros [? ?]. }
  intros root s1 Hroot. apply scan_one_validated in Hroot; [|lia].
  destruct (opened_tagged true true 7 39001 root Hroot) as [Hnp Htag].
  apply np_sbind; [by apply np_lift|]. intros uc s2 (uc' & Huc & [= <- <-])%lift_ok_inv.
  apply Htag in Huc as (_ & Hlen & HF).
  apply np_sbind; [|done]. apply np_lift. by eapply np_claim_fields.
Qed.

(** ** Folding *)

Lemma trailing_zeros_byte b : b2z b <> 0 -> 0 <= byte_trailing_zeros b <= 7.
Proof. destruct b; vm_compute; intros; split; discriminate || congruence. Qed.

Lemma shard_depth_bounds b d : shard_depth b = Ok d -> 0 <= d <= 256 /\ d < 8 * zlen b.
Proof.
  unfold shard_depth. destruct (last b) as [l|] eqn:Hl; [|done]. intros Hd. inv_ok Hd.
  pose proof (trailing_zeros_byte l ltac:(lia)).
  destruct b as [|x b]; [done|]. rewrite zlen_cons in *. pose proof (zlen_nonneg b). lia.
Qed.

Section folds_ok.
Context `{Crypto}.

(** The bytes an inner node of the shard tree and of the Unicity tree hashes. *)
Definition shard_node (set : bool) (h sib : bytes) : bytes :=
  if set then [Byte.x58; Byte.x20] ++ sib ++ [Byte.x58; Byte.x20] ++ h
  else [Byte.x58; Byte.x20] ++ h ++ [Byte.x58; Byte.x20] ++ sib.

Lemma fold_shard_cons shard depth h sib siblings :
  fold_shard shard depth h (sib :: siblings)
  = let? set := bit_at shard (depth - 1) in
    fold_shard shard (depth - 1) (sha256 (shard_node set h (it_data sib))) siblings.
Proof.
  cbn [fold_shard]. destruct (bit_at shard (depth - 1)) as [[|]|]; [..|done]; cbn [rbind negb];
    unfold hash, shard_node; cbn [concat]; by rewrite app_nil_r.
Qed.

Lemma fold_shard_total shard siblings : forall depth h,
  zlen siblings <= depth -> depth <= 8 * zlen shard ->
  exists r, fold_shard shard depth h siblings = Ok r.
Proof.
  induction siblings as [|sib l IH]; intros depth h Hl Hd; [by exists h|].
  rewrite fold_shard_cons. rewrite zlen_cons in Hl. pose proof (zlen_nonneg l).
  unfold bit_at. rewrite (proj2 (Z.leb_le 0 (depth - 1))) by lia.
  rewrite (proj2 (Z.ltb_lt _ _)) by (apply Z.div_lt_upper_bound; lia). cbn [andb rbind].
  apply IH; lia.
Qed.

Lemma shard_node_inj set h1 h2 w1 w2 :
  is_word h1 -> is_word h2 -> is_word w1 -> is_word w2 ->
  shard_node set h1 w1 = shard_node set h2 w2 -> h1 = h2 /\ w1 = w2.
Proof.
  unfold is_word, shard_node. intros ? ? ? ? Heq.
  destruct set; apply app_inv_head in Heq; apply app_inj_1 in Heq as [-> Heq]; try congruence;
    apply app_inv_head in Heq; done.
Qed.

(** The byte strings the fold of the shard tree hashes. *)
Fixpoint shard_inputs (shard : bytes) (depth : Z) (h : bytes) (siblings : list Item) : list bytes :=
  match siblings with
  | [] => []
  | sib :: siblings =>
      match bit_at shard (depth - 1) with
      | Ok set =>
          shard_node set h (it_data sib)
          :: shard_inputs shard (depth - 1) (sha256 (shard_node set h (it_data sib))) siblings
      | Err _ => []
      end
  end.

Lemma fold_shard_inj l shard l1 : forall l2 depth h1 h2 r,
  length l1 = length l2 -> Forall hash_item l1 -> Forall hash_item l2 -> is_word h1 -> is_word h2 ->
  shard_inputs shard depth h1 l1 ⊆ l -> shard_inputs shard depth h2 l2 ⊆ l ->
  fold_shard shard depth h1 l1 = Ok r -> fold_shard shard depth h2 l2 = Ok r ->
  h1 = h2 \/ collision_among sha256 l.
Proof.
  induction l1 as [|s1 l1 IH]; intros [|s2 l2] depth h1 h2 r Hl HF1 HF2 Hw1 Hw2 Hi1 Hi2 Hr1 Hr2; try done.
  - left. cbn in *. congruence.
  - rewrite fold_shard_cons in Hr1, Hr2. apply Forall_cons in HF1 as [Hs1 HF1], HF2 as [Hs2 HF2].
    cbn [shard_inputs] in Hi1, Hi2.
    destruct (bit_at shard (depth - 1)) as [set|]; [|done]. cbn [rbind] in Hr1, Hr2.
    apply cons_subset in Hi1 as [Hin1 Hi1], Hi2 as [Hin2 Hi2].
    destruct (IH l2 _ _ _ _ ltac:(by injection Hl) HF1 HF2 (sha256_word _) (sha256_word _) Hi1 Hi2 Hr1 Hr2)
      as [Heq|?]; [|by right].
    apply (digest_inj _ l) in Heq as [Heq|?]; [|by right|done..]. left.
    by apply shard_node_inj in Heq as [-> _]; try done; apply hash_item_data.
Qed.

(** One step of the Unicity tree: the bytes hashed at key [k]. *)
Definition tree_node (partition k : Z) (h x : bytes) : bytes :=
  [Byte.x41; Byte.x00; Byte.x44] ++ be_bytes 4 k ++
  (if k <? partition then [Byte.x58; Byte.x20] ++ x ++ [Byte.x58; Byte.x20] ++ h
   else [Byte.x58; Byte.x20] ++ h ++ [Byte.x58; Byte.x20] ++ x).
Definition tree_leaf (partition : Z) (data : bytes) : bytes :=
  [Byte.x41; Byte.x01; Byte.x44] ++ be_bytes 4 partition ++ [Byte.x58; Byte.x20] ++ data.

Lemma fold_tree_cons partition h step steps k x :
  0 <= k <= u32_max -> item_array 2 step = Some (Ok [view (TUint k); view (TBytes x)]) ->
  fold_tree partition h (step :: steps) = fold_tree partition (sha256 (tree_node partition k h x)) steps.
Proof.
  intros Hk Hs. cbn [fold_tree]. rewrite Hs. cbn [panics ok_or rbind map_err].
  cbn [at_ nth view it_arg arg it_data payload]. unfold as_u32.
  rewrite Z.mod_small by (change (2 ^ 32) with 4294967296; ulia). unfold tree_node, hash.
  destruct (k <? partition); cbn [concat]; by rewrite app_nil_r.
Qed.

(** The keys and digests of a path. *)
Definition path_of (steps : list Item) (p : list (Z * bytes)) : Prop :=
  Forall2 (fun step kx => 0 <= kx.1 <= u32_max /\ is_word kx.2 /\
    item_array 2 step = Some (Ok [view (TUint kx.1); view (TBytes kx.2)])) steps p.

Definition tree_root (partition : Z) (h : bytes) (p : list (Z * bytes)) : bytes :=
  fold_left (fun h kx => sha256 (tree_node partition kx.1 h kx.2)) p h.

Lemma path_exists steps : Forall step_item steps -> exists p, path_of steps p.
Proof.
  induction 1 as [|s l (k & x & ? & ? & ?) _ [p IH]]; [by exists []; constructor|].
  exists ((k, x) :: p). by constructor.
Qed.

Lemma fold_tree_root partition steps p h :
  path_of steps p -> fold_tree partition h steps = Ok (tree_root partition h p).
Proof.
  intros HF. revert h. induction HF as [|s [k x] l p (? & ? & ?) _ IH]; intros h; [done|].
  cbn [fst snd] in *. rewrite (fold_tree_cons _ _ _ _ k x) by done. apply IH.
Qed.

Lemma tree_node_inj partition k1 k2 h1 h2 x1 x2 :
  0 <= k1 <= u32_max -> 0 <= k2 <= u32_max -> is_word h1 -> is_word h2 -> is_word x1 -> is_word x2 ->
  tree_node partition k1 h1 x1 = tree_node partition k2 h2 x2 -> h1 = h2.
Proof.
  intros Hk1 Hk2 Hh1 Hh2 Hx1 Hx2 Heq. unfold tree_node in Heq. apply app_inv_head in Heq.
  apply app_inj_1 in Heq as [Hk Heq]; [|by rewrite !be_bytes_length].
  apply be_bytes_inj in Hk as <-; [|change (256 ^ Z.of_nat 4) with 4294967296; ulia..].
  change (shard_node (k1 <? partition) h1 x1 = shard_node (k1 <? partition) h2 x2) in Heq.
  by apply shard_node_inj in Heq as [? _].
Qed.

Lemma tree_root_word partition h p : is_word h -> is_word (tree_root partition h p).
Proof.
  revert h. induction p as [|[k x] p IH]; intros h Hh; [done|]. apply IH, sha256_word.
Qed.

(** The byte strings the fold of the Unicity tree hashes. *)
Fixpoint tree_inputs (partition : Z) (h : bytes) (p : list (Z * bytes)) : list bytes :=
  match p with
  | [] => []
  | (k, x) :: p => tree_node partition k h x :: tree_inputs partition (sha256 (tree_node partition k h x)) p
  end.

Lemma tree_inputs_snoc partition h p k x :
  tree_inputs partition h (p ++ [(k, x)])
  = tree_inputs partition h p ++ [tree_node partition k (tree_root partition h p) x].
Proof. revert h. induction p as [|[k' x'] p IH]; intros h; [done|]. cbn [app tree_inputs]. by rewrite IH. Qed.

Lemma tree_root_inj l partition d1 d2 p1 : forall p2,
  tree_leaf partition d1 :: tree_inputs partition (sha256 (tree_leaf partition d1)) p1 ⊆ l ->
  tree_leaf partition d2 :: tree_inputs partition (sha256 (tree_leaf partition d2)) p2 ⊆ l ->
  is_word d1 -> is_word d2 ->
  Forall (fun kx => 0 <= kx.1 <= u32_max /\ is_word kx.2) p1 ->
  Forall (fun kx => 0 <= kx.1 <= u32_max /\ is_word kx.2) p2 ->
  tree_root partition (sha256 (tree_leaf partition d1)) p1
    = tree_root partition (sha256 (tree_leaf partition d2)) p2 ->
  d1 = d2 \/ collision_among sha256 l.
Proof.
  intros p2 Hi1 Hi2 Hd1 Hd2. revert p2 Hi1 Hi2.
  induction p1 as [|[k1 x1] p1 IH] using rev_ind; intros p2 Hi1 Hi2 HF1 HF2 Heq;
    destruct p2 as [|[k2 x2] p2 _] using rev_ind; rewrite ?tree_inputs_snoc in *;
    rewrite ?app_comm_cons, ?app_subset, ?cons_subset in Hi1; rewrite ?app_comm_cons, ?app_subset, ?cons_subset in Hi2;
    unfold tree_root in Heq; rewrite ?fold_left_app in Heq; cbn [fold_left fst snd] in Heq;
    apply (digest_inj _ l) in Heq as [Heq|?]; try (by right); try (exfalso; done); try (unfold tree_root in *; tauto).
  - left. unfold tree_leaf in Heq. by apply app_inv_head, app_inv_head, app_inv_head in Heq.
  - rewrite Forall_app, Forall_singleton in HF1. rewrite Forall_app, Forall_singleton in HF2.
    destruct HF1 as [HF1 [? ?]], HF2 as [HF2 [? ?]].
    apply tree_node_inj in Heq; try done; try (apply tree_root_word, sha256_word).
    destruct Hi1 as [[? ?] _], Hi2 as [[? ?] _]. apply (IH p2); try done; by apply cons_subset.
Qed.

Lemma path_of_ok steps p : path_of steps p -> Forall (fun kx => 0 <= kx.1 <= u32_max /\ is_word kx.2) p.
Proof. induction 1 as [|s kx l p (? & ? & _) _ IH]; constructor; done. Qed.

Lemma path_unique steps p q : path_of steps p -> path_of steps q -> p = q.
Proof.
  intros Hp. revert q. induction Hp as [|s [k x] l p (_ & _ & Hs) _ IH]; intros q Hq;
    inversion Hq as [|? [k' x'] ? q' (_ & _ & Hs') Hq']; subst; [done|].
  cbn [fst snd] in *. rewrite Hs in Hs'.
  apply (f_equal (fun r => match r with Some (Ok [a; b]) => (it_arg a, it_data b) | _ => (0, []) end)) in Hs'.
  injection Hs' as -> ->. f_equal. by apply IH.
Qed.

(** A step of the Unicity tree path as its key and digest. *)
Definition step_pair (step : Item) : Z * bytes :=
  match item_array 2 step with Some (Ok [k; x]) => (it_arg k, it_data x) | _ => (0, []) end.

Lemma path_pairs steps p : path_of steps p -> p = map step_pair steps.
Proof.
  induction 1 as [|s [k x] l p (_ & _ & Hs) _ IH]; [done|]. cbn [map fst snd] in *. rewrite <- IH.
  unfold step_pair. by rewrite Hs.
Qed.

(** The byte strings [folds] hashes on a claim: its leaf, the path of its shard, the shard root and
    the path of its partition. *)
Definition claim_inputs (c : Claim) : list bytes :=
  let leaf := it_raw (cl_ir c) ++ it_raw (cl_tr c) ++ it_raw (cl_conf c) in
  let siblings := default [] (children (at_ (cl_shard_cert c) 2)) in
  let depth := match shard_depth (cl_shard c) with Ok d => d | Err _ => 0 end in
  leaf :: shard_inputs (cl_shard c) depth (sha256 leaf) siblings ++
  match fold_shard (cl_shard c) depth (sha256 leaf) siblings with
  | Ok h =>
      let data := sha256 ([Byte.x58; Byte.x20] ++ h) in
      ([Byte.x58; Byte.x20] ++ h) :: tree_leaf (cl_partition c) data
      :: tree_inputs (cl_partition c) (sha256 (tree_leaf (cl_partition c) data))
           (map step_pair (default [] (children (at_ (cl_tree_cert c) 2))))
  | Err _ => []
  end.

(** ** The verdict of [folds] *)

(** A claim folds: the guards hold and its two paths lead to the root of its seal. *)
Definition folds_to (c : Claim) (root : bytes) : Prop :=
  exists ir depth siblings steps h p,
    tagged 10 39002 (cl_ir c) = Some (Ok ir) /\ fold_guards c ir = true /\
    shard_depth (cl_shard c) = Ok depth /\
    children (at_ (cl_shard_cert c) 2) = Some siblings /\ zlen siblings = depth /\
    fold_shard (cl_shard c) depth
      (sha256 (it_raw (cl_ir c) ++ it_raw (cl_tr c) ++ it_raw (cl_conf c))) siblings = Ok h /\
    children (at_ (cl_tree_cert c) 2) = Some steps /\ path_of steps p /\
    tree_root (cl_partition c)
      (sha256 (tree_leaf (cl_partition c) (sha256 ([Byte.x58; Byte.x20] ++ h)))) p = root.

Lemma fold_guards_claim c ir :
  fold_guards c ir = true ->
  it_arg (at_ (cl_tree_cert c) 1) = cl_partition c /\ it_data (at_ (cl_shard_cert c) 1) = cl_shard c.
Proof.
  unfold fold_guards. rewrite andb_true_iff, !negb_true_iff, !orb_false_iff, !negb_false_iff.
  intros [_ ((((Hp & Hs) & _) & _) & _)]. split; [lia | by apply bool_decide_eq_true in Hs].
Qed.

Lemma folds_unfold c ir depth siblings steps p :
  tagged 10 39002 (cl_ir c) = Some (Ok ir) -> fold_guards c ir = true ->
  0 <= it_arg (at_ (cl_tree_cert c) 1) <= u32_max ->
  shard_depth (cl_shard c) = Ok depth -> children (at_ (cl_shard_cert c) 2) = Some siblings ->
  children (at_ (cl_tree_cert c) 2) = Some steps -> path_of steps p ->
  folds c =
    if negb (zlen siblings =? depth) then Ok false else
    let? h := fold_shard (cl_shard c) depth
      (sha256 (it_raw (cl_ir c) ++ it_raw (cl_tr c) ++ it_raw (cl_conf c))) siblings in
    Ok (bool_decide
      (tree_root (cl_partition c)
         (sha256 (tree_leaf (cl_partition c) (sha256 ([Byte.x58; Byte.x20] ++ h)))) p
       = it_data (at_ (cl_seal_fields c) 6))).
Proof.
  intros Hir Hg Hpart Hd Hsib Hsteps Hp. pose proof (fold_guards_claim _ _ Hg) as [Hpc Hsc].
  unfold folds. rewrite Hir. cbn [panics ok_or rbind map_err]. rewrite Hg. cbn [negb].
  rewrite Hsc, Hd. cbn [rbind map_err]. rewrite Hsib. cbn [panics ok_or rbind].
  destruct (negb (zlen siblings =? depth)); [done|]. unfold hash at 1. cbn [concat].
  rewrite app_nil_r. destruct (fold_shard _ _ _ _) as [h|]; [|done]. cbn [rbind].
  rewrite Hsteps. cbn [panics ok_or rbind]. rewrite (fold_tree_root _ _ p) by done. cbn [rbind].
  unfold as_u32. rewrite Hpc in *.
  rewrite Z.mod_small by (change (2 ^ 32) with 4294967296; ulia).
  unfold hash, tree_leaf. cbn [concat]. by rewrite !app_nil_r.
Qed.

Lemma folds_decided c :
  claim_ok c ->
  (exists b, folds c = Ok b) /\
  (folds c = Ok true <-> folds_to c (it_data (at_ (cl_seal_fields c) 6))).
Proof.
  intros (uc & f & Hf & Hi & _ & _ & Hsc & Htc & _ & _).
  destruct (fo_ir _ _ _ _ Hf) as (ir & Hir). rewrite <- Hi in Hir.
  destruct (fo_siblings _ _ _ _ Hf) as (sibs & Hsibs & _). rewrite <- Hsc in Hsibs.
  destruct (fo_steps _ _ _ _ Hf) as (steps & Hsteps & Hst & _). rewrite <- Htc in Hsteps.
  destruct (path_exists _ Hst) as [p Hp]. destruct (fo_shard _ _ _ _ Hf) as [depth Hdepth].
  pose proof (fo_partition _ _ _ _ Hf) as Hpart. rewrite <- Hsc in Hdepth. rewrite <- Htc in Hpart.
  destruct (fold_guards c ir) eqn:Hg.
  - pose proof (fold_guards_claim _ _ Hg) as [_ Hs]. rewrite Hs in Hdepth.
    rewrite (folds_unfold c ir depth sibs steps p) by done.
    pose proof (shard_depth_bounds _ _ Hdepth).
    destruct (Z.eqb_spec (zlen sibs) depth) as [Heq|Hne]; cbn [negb].
    + destruct (fold_shard_total (cl_shard c) sibs depth
        (sha256 (it_raw (cl_ir c) ++ it_raw (cl_tr c) ++ it_raw (cl_conf c)))) as [h Hh]; [lia..|].
      rewrite Hh. cbn [rbind]. split; [eauto|]. split.
      * intros [= Hb%bool_decide_eq_true]. exists ir, depth, sibs, steps, h, p. done.
      * intros (ir' & d' & sibs' & steps' & h' & p' & ? & ? & ? & ? & ? & ? & ? & Hp' & Hr).
        assert (d' = depth) as -> by congruence. assert (sibs' = sibs) as -> by congruence.
        assert (h' = h) as -> by congruence. assert (steps' = steps) as -> by congruence.
        assert (p' = p) as -> by (by eapply path_unique).
        by rewrite bool_decide_true.
    + split; [eauto|]. split; [done|].
      intros (ir' & d' & sibs' & ? & ? & ? & ? & ? & ? & ? & ? & _). congruence.
  - assert (folds c = Ok false) as Hfo.
    { unfold folds. rewrite Hir. cbn. by rewrite Hg. }
    rewrite Hfo. split; [eauto|]. split; [done|].
    intros (ir' & ? & ? & ? & ? & ? & ? & ? & _). congruence.
Qed.

Lemma hash_item_length it : hash_item it -> length (it_raw it) = 34%nat.
Proof.
  intros Hi. rewrite hash_item_raw by done. rewrite length_app.
  by rewrite (hash_item_data _ Hi : length _ = _).
Qed.

Lemma claim_siblings c l :
  claim_ok c -> children (at_ (cl_shard_cert c) 2) = Some l -> Forall hash_item l.
Proof.
  intros (uc & f & Hf & _ & _ & _ & Hsc & _) Hl.
  destruct (fo_siblings _ _ _ _ Hf) as (l' & Hl' & HF & _). rewrite Hsc in Hl. congruence.
Qed.

Lemma claim_hashes c : claim_ok c -> hash_item (cl_tr c) /\ hash_item (cl_conf c).
Proof.
  intros (uc & f & Hf & _ & -> & -> & _). split; [apply (fo_tr _ _ _ _ Hf) | apply (fo_conf _ _ _ _ Hf)].
Qed.

Lemma fold_shard_word shard l : forall depth h r,
  is_word h -> fold_shard shard depth h l = Ok r -> is_word r.
Proof.
  induction l as [|sib l IH]; intros depth h r Hh Hr; [cbn in Hr; congruence|].
  rewrite fold_shard_cons in Hr. apply rbind_ok_inv in Hr as (set & _ & Hr).
  eapply IH; [|exact Hr]. apply sha256_word.
Qed.

(** The inputs of a claim that folds, by the intermediate digests of the fold. *)
Lemma folds_to_inputs c depth siblings steps h p l :
  shard_depth (cl_shard c) = Ok depth -> children (at_ (cl_shard_cert c) 2) = Some siblings ->
  children (at_ (cl_tree_cert c) 2) = Some steps -> path_of steps p ->
  let leaf := it_raw (cl_ir c) ++ it_raw (cl_tr c) ++ it_raw (cl_conf c) in
  let data := sha256 ([Byte.x58; Byte.x20] ++ h) in
  fold_shard (cl_shard c) depth (sha256 leaf) siblings = Ok h -> claim_inputs c ⊆ l ->
  leaf ∈ l /\ shard_inputs (cl_shard c) depth (sha256 leaf) siblings ⊆ l /\ ([Byte.x58; Byte.x20] ++ h) ∈ l /\
  tree_leaf (cl_partition c) data :: tree_inputs (cl_partition c) (sha256 (tree_leaf (cl_partition c) data)) p ⊆ l.
Proof.
  intros Hd Hs Ht ->%path_pairs leaf data Hf Hl. unfold claim_inputs in Hl. rewrite Hd, Hs, Ht in Hl.
  cbn [from_option] in Hl. change (@id (list Item)) with (fun x : list Item => x) in Hl. cbv beta in Hl. cbv zeta in Hl. fold leaf in Hl. rewrite Hf in Hl. fold data in Hl.
  by rewrite cons_subset, app_subset, (cons_subset ([Byte.x58; Byte.x20] ++ h)) in Hl.
Qed.

Lemma folds_to_inj l c1 c2 root :
  claim_ok c1 -> claim_ok c2 -> cl_partition c1 = cl_partition c2 -> cl_shard c1 = cl_shard c2 ->
  claim_inputs c1 ⊆ l -> claim_inputs c2 ⊆ l -> folds_to c1 root -> folds_to c2 root ->
  it_raw (cl_ir c1) ++ it_raw (cl_tr c1) ++ it_raw (cl_conf c1)
    = it_raw (cl_ir c2) ++ it_raw (cl_tr c2) ++ it_raw (cl_conf c2) \/ collision_among sha256 l.
Proof.
  intros Hc1 Hc2 Hp Hs Hi1 Hi2 (? & d1 & l1 & ? & h1 & p1 & _ & _ & Hd1 & Hl1 & Hn1 & Hf1 & Ht1 & Hp1 & Hr1)
    (? & d2 & l2 & ? & h2 & p2 & _ & _ & Hd2 & Hl2 & Hn2 & Hf2 & Ht2 & Hp2 & Hr2).
  destruct (folds_to_inputs c1 d1 l1 _ h1 p1 l Hd1 Hl1 Ht1 Hp1 Hf1 Hi1) as (Hx1 & Hsh1 & Hh1 & Htr1).
  destruct (folds_to_inputs c2 d2 l2 _ h2 p2 l Hd2 Hl2 Ht2 Hp2 Hf2 Hi2) as (Hx2 & Hsh2 & Hh2 & Htr2).
  rewrite <- Hr2, Hp in Hr1. rewrite Hp in Htr1.
  apply (tree_root_inj l) in Hr1 as [Hh|?]; [|by right|done|done|apply sha256_word|apply sha256_word|
    by eapply path_of_ok|by eapply path_of_ok].
  apply (digest_inj _ l) in Hh as [Hh|?]; [|by right|done..]. apply app_inv_head in Hh as ->.
  rewrite <- Hs in Hd2, Hf2, Hsh2. assert (d2 = d1) as -> by congruence.
  destruct (fold_shard_inj l (cl_shard c1) l1 l2 d1 _ _ h2 ltac:(ulia)
    (claim_siblings _ _ Hc1 Hl1) (claim_siblings _ _ Hc2 Hl2) (sha256_word _) (sha256_word _) Hsh1 Hsh2 Hf1 Hf2)
    as [Hh|?]; [|by right].
  by apply (digest_inj _ l).
Qed.

Lemma folds_to_items l c1 c2 root :
  claim_ok c1 -> claim_ok c2 -> cl_partition c1 = cl_partition c2 -> cl_shard c1 = cl_shard c2 ->
  claim_inputs c1 ⊆ l -> claim_inputs c2 ⊆ l ->
  folds_to c1 root -> folds_to c2 root ->
  (it_raw (cl_ir c1) = it_raw (cl_ir c2) /\ it_raw (cl_tr c1) = it_raw (cl_tr c2) /\
   it_raw (cl_conf c1) = it_raw (cl_conf c2)) \/ collision_among sha256 l.
Proof.
  intros Hc1 Hc2 Hp Hs Hi1 Hi2 Hf1 Hf2.
  destruct (folds_to_inj l c1 c2 root Hc1 Hc2 Hp Hs Hi1 Hi2 Hf1 Hf2) as [Heq|?]; [left|by right].
  destruct (claim_hashes c1 Hc1) as [Ht1 Ho1], (claim_hashes c2 Hc2) as [Ht2 Ho2].
  apply app_inj_2 in Heq as [Hi Heq]; [|by rewrite !length_app, !hash_item_length].
  by apply app_inj_1 in Heq as [? ?]; [|rewrite !hash_item_length].
Qed.

End folds_ok.

(** ** The certificate scans of the composition *)

(** The structural scan is the claim parser's, errors included. *)
Lemma scan_body_fields uc : scan_body uc = void (claim_fields uc).
Proof.
  unfold scan_body, claim_fields, check_step, void.
  repeat (match goal with |- rbind ?r _ = _ => destruct r; cbn [rbind]; [|reflexivity] end).
  match goal with |- ?r = _ => destruct r as [[]|]; reflexivity end.
Qed.

Lemma validated_loose strict utf8 it : validated strict utf8 it -> validated false false it.
Proof. intros (t & -> & Hg & Hs). exists t. split; [done|]. split; [by eapply good_loose | done]. Qed.

Lemma one_validated raw it tokens' : one raw 0 = Ok (it, tokens') -> validated true true it.
Proof. intros Ho. by apply (run_scan_validated _ _ _ _ _ _ _ Ho). Qed.

Lemma one_loose_validated raw it tokens' :
  one_loose raw 0 usize_max = Ok (it, tokens') -> validated false false it.
Proof. intros Ho. by apply (run_scan_validated _ _ _ _ _ _ _ Ho). Qed.

Lemma index_ok l i : (i < length l)%nat -> index l i = Ok (at_ l i).
Proof.
  intros Hi. unfold index, at_. destruct (nth_error l i) eqn:He; cbn.
  - f_equal. symmetry. by apply nth_error_nth.
  - apply nth_error_None in He. lia.
Qed.

Lemma major_iterable it k :
  validated false false it -> it_major it = k -> k <> 2 -> k <> 3 -> iterable false false it.
Proof. intros. split_and!; try done; lia. Qed.

#[local] Hint Resolve np_ok np_bad_err np_bad np_each_bad : no_panic.

Lemma np_bytes_like it : validated false false it -> no_panic (bytes_like it).
Proof.
  intros Hv. unfold bytes_like. np. eapply (np_each_child false false); [|auto with no_panic].
  apply (major_iterable it 4); try done. lia.
Qed.

Lemma np_list_of_bytes it : validated false false it -> no_panic (list_of_bytes it).
Proof.
  intros Hv. unfold list_of_bytes. np. eapply (np_each_child false false); [|apply np_bytes_like].
  apply (major_iterable it 4); try done. lia.
Qed.

Lemma np_uint_or_null it max : no_panic (uint_or_null it max).
Proof. unfold uint_or_null. np. Qed.

Lemma np_check_at l i f : (i < length l)%nat -> no_panic (f (at_ l i)) -> no_panic (check_at l i f).
Proof. intros Hi Hf. unfold check_at. by rewrite index_ok. Qed.

(** What a typed part is: an array of the right arity inside the right tag. *)
Definition typed_part (it : Item) (n : nat) (l : list Item) : Prop :=
  length l = n /\ Forall (validated false false) l /\
  exists inner tokens, one_loose (it_data it) 0 usize_max = Ok (inner, tokens) /\ children inner = Some l.

Lemma typed_ok it tag n :
  (1 <= n)%nat ->
  no_panic (typed it tag n) /\ forall l, typed it tag n = Ok l -> typed_part it n l.
Proof.
  intros Hn. unfold typed, typed_part. destruct (_ || _); [done|].
  destruct (one_loose _ _ _) as [[inner tokens]|] eqn:Ho; [|done]. cbn [bad map_err rbind].
  destruct (_ || _) eqn:Hb; [done|].
  apply one_loose_validated in Ho as Hv. apply orb_false_iff in Hb as [H4 Hnn].
  destruct (children_validated _ _ inner Hv) as (l & Hl & HF & Hlen & _); [lia..|].
  assert (length l = n) by (specialize (Hlen ltac:(lia)); ulia).
  rewrite Hl. cbn [panics ok_or rbind]. rewrite index_ok by lia. cbn [rbind]. split.
  - np.
  - intros l' Hl'. inv_ok Hl'. subst l'. split_and!; try done. eauto.
Qed.

Lemma np_check_all l (f : Item -> result Fault ()) ix :
  forallb (fun i => i <? length l)%nat ix = true ->
  (forall i, (i < length l)%nat -> no_panic (f (at_ l i))) ->
  no_panic (each (fun i => check_at l i f) ix).
Proof.
  intros HF Hf. apply np_each. intros i Hi%list_elem_of_In.
  eapply forallb_forall in HF; [|exact Hi]. apply Nat.ltb_lt in HF. by apply np_check_at; auto.
Qed.

Lemma np_shape_step step : validated false false step -> no_panic
  (let? kv := opened (item_array 2 step) in
   let? _ := uint_or_null (at_ kv 0) u32_max in bytes_like (at_ kv 1)).
Proof.
  intros Hv. destruct (opened_array false false 2 step Hv) as [Hnp Hok].
  apply np_bind; [done|]. intros kv (_ & Hl & HF)%Hok.
  apply np_bind; [apply np_uint_or_null|]. intros _ _. apply np_bytes_like, at_validated; [done | lia].
Qed.

(** Takes the next step of [certificate_shape] apart. *)
Ltac shape_step :=
  match goal with
  | |- no_panic (rbind (typed ?it ?tag ?n) _) =>
      let l := fresh "l" in let Hl := fresh "Hl" in
      apply np_bind; [apply typed_ok; lia|]; intros l Hl;
      apply (typed_ok it tag n) in Hl as (? & ? & _); [|lia]
  | |- no_panic (rbind (index _ _) _) => rewrite index_ok by lia; cbn [rbind]
  | |- no_panic (rbind (bad _) _) => apply np_bind; [apply np_bad|intros ? _]
  | |- no_panic (rbind _ _) => apply np_bind; [|intros _ _]
  | |- no_panic (check_at _ _ _) => apply np_check_at; [lia|]
  | |- no_panic (each (fun i => check_at ?l i _) _) =>
      apply np_check_all; [match goal with Hl : length l = _ |- _ => by rewrite Hl end|intros ? ?]
  | |- no_panic (bytes_like _) => apply np_bytes_like, at_validated; [done | lia]
  | |- no_panic (list_of_bytes _) => apply np_list_of_bytes, at_validated; [done | lia]
  | |- no_panic (uint_or_null _ _) => apply np_uint_or_null
  | |- no_panic (bad _) => apply np_bad
  | |- no_panic (if _ then Err _ else _) => apply np_if; intros ?; [done|]
  | |- no_panic (if _ then _ else Ok ()) => apply np_if; intros ?; [|done]
  end.

Lemma np_certificate_shape raw : no_panic (certificate_shape raw).
Proof.
  unfold certificate_shape. apply np_bind; [apply np_bad|]. intros [root tokens] _.
  repeat shape_step.
  - apply (np_each_child false false); [|apply np_shape_step].
    eapply (major_iterable _ 4); [apply at_validated; [done | lia]|lia|done|done].
  - assert (iterable false false (at_ l3 7)) as Hi.
    { eapply (major_iterable _ 5); [apply at_validated; [done | lia]|lia|done|done]. }
    apply np_bind; [by eapply np_children|]. intros kids Hk.
    apply (children_inv false false) in Hk as [_ HF]; [|done].
    apply np_each_pair; intros k Hk; [apply np_bad|].
    apply np_bytes_like. rewrite Forall_forall in HF. by apply HF.
Qed.

Lemma np_check_part uc part : no_panic (check_part uc part).
Proof.
  destruct part as [[[[i tag] arity] req] major]. unfold check_part.
  apply np_if; intros _; [done|]. apply np_bind; [apply np_bad|]. intros [inner tokens] Ho.
  apply np_if; intros Hb; [done|]. apply map_err_ok_inv, one_validated in Ho.
  apply orb_false_iff in Hb as [H4 _].
  apply np_bind; [apply (np_children true true); split_and!; try done; lia|].
  intros kids _. destruct (nth_error kids req); [|done]. by apply np_if.
Qed.

Lemma np_odd_bytes odd l : no_panic (odd_bytes odd l).
Proof. revert odd. induction l as [|v l IH]; intros odd; cbn; [done|]. apply np_if; intros _; [done|]. apply IH. Qed.

(** A fixed-arity array of a validated item is exactly its children. *)
Lemma item_array_children strict utf8 n it l :
  validated strict utf8 it -> item_array n it = Some (Ok l) -> children it = Some l /\ length l = n.
Proof.
  intros Hv Ha. unfold item_array in Ha. destruct (_ || _) eqn:Hb; [done|].
  apply orb_false_iff in Hb as [H4 Hn].
  destruct (children_validated _ _ it Hv) as (l' & Hl' & _ & Hlen & _); [lia..|].
  rewrite Hl' in Ha. injection Ha as <-.
  assert (length l' = n) by (specialize (Hlen ltac:(lia)); ulia).
  unfold fill. by rewrite take_length_app.
Qed.

Lemma check_part_field uc i tag arity req major inner tokens kids :
  check_part uc (i, tag, arity, req, major) = Ok () -> one (it_data (at_ uc i)) 0 = Ok (inner, tokens) ->
  children inner = Some kids -> (req < length kids)%nat -> it_major (at_ kids req) = major.
Proof.
  intros Hc Ho Hk Hr. unfold check_part in Hc. destruct (_ || _); [done|]. rewrite Ho in Hc.
  cbn [bad map_err rbind] in Hc. destruct (_ || _); [done|]. rewrite Hk in Hc.
  cbn [panics ok_or rbind] in Hc. pose proof (index_ok kids req Hr) as Hi. unfold index in Hi.
  destruct (nth_error kids req) as [c|]; [|done]. injection Hi as <-. inv_ok Hc. lia.
Qed.

Lemma np_scan_certificate raw : no_panic (scan_certificate raw).
Proof.
  unfold scan_certificate. apply np_if; intros _; [done|].
  apply np_bind; [apply np_bad|]. intros [root tokens] Hr%map_err_ok_inv%one_validated.
  destruct (opened_tagged true true 7 39001 root Hr) as [Hnp Hok].
  apply np_bind; [done|]. intros uc (_ & Hl & HF)%Hok.
  apply np_bind; [apply np_each; intros part _; apply np_check_part|]. intros [] Hparts%each_ok_Forall.
  apply np_bind; [apply np_bad|]. intros [body tokens'] Hb%map_err_ok_inv.
  pose proof (one_validated _ _ _ Hb) as Hv.
  destruct (opened_array true true 8 body Hv) as [Hnp' Hok'].
  apply np_bind; [done|]. intros seal (Ha & Hls & HFs)%Hok'. apply np_if; intros _; [done|].
  apply (item_array_children true true) in Ha as [Hk _]; [|done].
  assert (iterable true true (at_ seal 7)) as Hi.
  { assert (it_major (at_ seal 7) = 5) as H5.
    { apply (check_part_field uc 6 39005 8 7 5 body tokens' seal); try done; [|lia].
      rewrite Forall_forall in Hparts. apply Hparts. do 3 right. left. }
    split_and!; [apply at_validated; [done | lia]|lia..]. }
  apply np_bind; [by eapply np_children|]. intros kids _. apply np_bind; [apply np_odd_bytes|]. intros _ _.
  rewrite scan_body_fields. unfold void. apply np_bind; [by eapply np_claim_fields|]. done.
Qed.

Lemma small_bytes_ok l :
  Forall (fun e => bad (void (item_uint e 255)) = Ok ()) l -> exists b, small_bytes l = Ok b.
Proof.
  induction 1 as [|e l He _ [b IH]]; [by exists []|].
  apply map_err_ok_inv in He. unfold void in He. apply rbind_ok_inv in He as (v & Hv & _).
  cbn [small_bytes]. rewrite Hv, IH. by eexists.
Qed.

Lemma bytes_like_small it :
  validated false false it -> bytes_like it = Ok () -> null it = false -> it_major it <> 2 ->
  exists kids b, children it = Some kids /\ small_bytes kids = Ok b.
Proof.
  unfold bytes_like. intros Hv Hb Hn H2. rewrite Hn, (proj2 (Z.eqb_neq _ _) H2) in Hb. cbn [orb] in Hb.
  inv_ok Hb. destruct (children_validated _ _ it Hv) as (kids & Hk & _); [lia..|].
  unfold each_child in Hb. rewrite Hk in Hb. cbn [panics ok_or rbind] in Hb.
  apply each_ok_Forall, small_bytes_ok in Hb as [b Hb]. eauto.
Qed.

Lemma typed_loose raw root tokens :
  one_typed raw 0 MAX_ITEMS = Ok (root, tokens) -> exists tokens', one_loose raw 0 usize_max = Ok (root, tokens').
Proof.
  intros (t & Hg & -> & -> & -> & Hc)%run_scan_iff. eexists. apply run_scan_iff.
  exists t. split; [by eapply good_loose|]. split_and!; try done.
  unfold MAX_ITEMS in *. ulia.
Qed.

(** The prefix of the shape check that reaches the shard identifier. *)
Lemma certificate_shape_prefix raw :
  certificate_shape raw = Ok () ->
  exists root tokens uc sc, one_typed raw 0 MAX_ITEMS = Ok (root, tokens) /\ typed root 39001 7 = Ok uc /\
    typed (at_ uc 4) 39003 3 = Ok sc /\ bytes_like (at_ sc 1) = Ok ().
Proof.
  intros Hs. unfold certificate_shape in Hs.
  apply rbind_ok_inv in Hs as ([root tokens] & Hroot%map_err_ok_inv & Hs).
  apply rbind_ok_inv in Hs as (uc & Huc & Hs).
  do 6 (apply rbind_ok_inv in Hs as (? & _ & Hs)).
  apply rbind_ok_inv in Hs as (uc4 & Huc4 & Hs). apply rbind_ok_inv in Hs as (sc & Hsc & Hs).
  apply rbind_ok_inv in Hs as ([] & Hsh & _).
  destruct (proj2 (typed_ok root 39001 7 ltac:(lia)) uc Huc) as (Hl & _).
  destruct (proj2 (typed_ok uc4 39003 3 ltac:(lia)) sc Hsc) as (Hl' & _).
  rewrite index_ok in Huc4 by lia. injection Huc4 as <-. unfold check_at in Hsh.
  rewrite index_ok in Hsh by lia. exists root, tokens, uc, sc. done.
Qed.

Lemma nth_child_at it l i : children it = Some l -> (i < length l)%nat -> nth_child it i = Ok (at_ l i).
Proof.
  intros Hc Hi. unfold nth_child. rewrite Hc. cbn [panics ok_or rbind].
  pose proof (index_ok l i Hi) as Hx. unfold index in Hx. destruct (nth_error l i); [|done].
  by injection Hx as ->.
Qed.

Lemma certificate_shard_total raw :
  certificate_shape raw = Ok () -> exists b, certificate_shard raw = Ok b.
Proof.
  intros (root & tokens & uc & sc & Hroot & Huc & Hsc & Hsh)%certificate_shape_prefix.
  destruct (typed_loose _ _ _ Hroot) as [tk Hraw].
  apply typed_ok in Huc as (Hluc & _ & inner & tk1 & Hinner & Hkids); [|lia].
  apply typed_ok in Hsc as (Hlsc & HFsc & inner' & tk2 & Hinner' & Hkids'); [|lia].
  unfold certificate_shard. rewrite Hraw. cbn [bad map_err rbind]. rewrite Hinner.
  cbn [bad map_err rbind]. rewrite (nth_child_at _ uc) by (done || lia). cbn [rbind]. rewrite Hinner'.
  cbn [bad map_err rbind]. rewrite (nth_child_at _ sc) by (done || lia). cbn [rbind].
  destruct (null (at_ sc 1)) eqn:Hn; [by eexists|].
  destruct (Z.eqb_spec (it_major (at_ sc 1)) 2) as [|H2]; [by eexists|].
  destruct (bytes_like_small (at_ sc 1)) as (kids & b & Hk & Hb); try done.
  { apply at_validated; [done | lia]. }
  rewrite Hk. cbn [panics ok_or rbind]. eauto.
Qed.

(** ** Properties *)

(** Parsing a packed claim never panics, and every parsed claim can be folded: [folds] returns a
    verdict, and the verdict is true exactly when the guards on the certificate hold, the number of
    siblings is the depth of the shard, and the shard path followed by the Unicity-tree path leads
    from the claim's records to the root its seal commits to.  The path and signature counts of a
    parsed claim are within 288 and 64. *)
Theorem parsed_claim_folds `{Crypto} s :
  0 <= sc_tokens s ->
  parse_claim s <> Err Panic /\
  forall p s', parse_claim s = Ok (p, s') ->
    0 <= pa_paths p <= 288 /\ 0 <= pa_sigs p <= 64 /\
    (exists b, folds (pa_claim p) = Ok b) /\
    (folds (pa_claim p) = Ok true <->
     folds_to (pa_claim p) (it_data (at_ (cl_seal_fields (pa_claim p)) 6))).
Proof.
  intros Ht. split; [by apply np_parse_claim|]. intros p s' Hp.
  destruct (parse_claim_ok _ _ _ Ht Hp) as [Hc _]. destruct (parsed_counts p Hc).
  split; [done|]. split; [done|]. by apply folds_decided, parsed_claim_ok.
Qed.

(** Under one seal a shard has one claim.  Two parsed claims for the same partition and shard
    that both fold to the same root carry the same input record, the same technical-record hash and
    the same configuration hash, byte for byte, unless two different byte strings that the two folds
    hash have one SHA-256 digest. *)
Theorem fold_binding `{Crypto} s1 s2 p1 p2 s1' s2' :
  0 <= sc_tokens s1 -> 0 <= sc_tokens s2 ->
  parse_claim s1 = Ok (p1, s1') -> parse_claim s2 = Ok (p2, s2') ->
  let c1 := pa_claim p1 in let c2 := pa_claim p2 in
  cl_partition c1 = cl_partition c2 -> cl_shard c1 = cl_shard c2 ->
  it_data (at_ (cl_seal_fields c1) 6) = it_data (at_ (cl_seal_fields c2) 6) ->
  folds c1 = Ok true -> folds c2 = Ok true ->
  (it_raw (cl_ir c1) = it_raw (cl_ir c2) /\ it_raw (cl_tr c1) = it_raw (cl_tr c2) /\
   it_raw (cl_conf c1) = it_raw (cl_conf c2)) \/ collision_among sha256 (claim_inputs c1 ++ claim_inputs c2).
Proof.
  intros Ht1 Ht2 Hp1 Hp2 c1 c2 Hpart Hshard Hroot Hf1 Hf2.
  destruct (parse_claim_ok _ _ _ Ht1 Hp1) as [Hc1%parsed_claim_ok _].
  destruct (parse_claim_ok _ _ _ Ht2 Hp2) as [Hc2%parsed_claim_ok _].
  apply (folds_decided c1 Hc1) in Hf1. apply (folds_decided c2 Hc2) in Hf2. rewrite <- Hroot in Hf2.
  eapply folds_to_items; try done; intros x Hx; apply elem_of_app; tauto.
Qed.

(** The stand-alone scan of a certificate and the parser of a claim apply the same structure
    and sublimits: on the items of any certificate the two functions agree, their refusals
    included. *)
Theorem scan_body_equiv uc : scan_body uc = void (claim_fields uc).
Proof. apply scan_body_fields. Qed.

(** The certificate scans of the composition never panic, and after the typed shape is accepted
    the shard identifier can be read: [certificate_shard] returns it. *)
Theorem certificate_scans_total raw :
  scan_certificate raw <> Err Panic /\ certificate_shape raw <> Err Panic /\
  (certificate_shape raw = Ok () -> exists b, certificate_shard raw = Ok b).
Proof.
  split; [apply np_scan_certificate|]. split; [apply np_certificate_shape|].
  apply certificate_shard_total.
Qed.

(** ** A concrete certificate

    Partition 7, the shard 1 of depth one, one sibling, one tree step, one signature. *)

Definition word (n : Z) : bytes := be_bytes 32 n.
Definition sample_ir : tree :=
  TTag 39002 (TArray [TUint 1; TUint 5; TUint 0; TBytes (word 11); TBytes (word 12); TBytes (word 13);
    TUint 1700000000; TBytes (word 14); TUint 0; TNull]).
Definition sample_sc : tree :=
  TTag 39003 (TArray [TUint 1; TBytes [Byte.xc0]; TArray [TBytes (word 21)]]).
Definition sample_tc : tree :=
  TTag 39004 (TArray [TUint 1; TUint 7; TArray [TArray [TUint 9; TBytes (word 22)]]]).
Definition sample_shard_root : bytes :=
  toy_hash (shard_node true
    (toy_hash (enc sample_ir ++ enc (TBytes (word 31)) ++ enc (TBytes (word 32)))) (word 21)).
Definition sample_root : bytes :=
  tree_root (H := toy_crypto) 7
    (toy_hash (tree_leaf 7 (toy_hash ([Byte.x58; Byte.x20] ++ sample_shard_root)))) [(9, word 22)].
(** The seal of root round [round] in epoch [epoch], signed by [sigs]. *)
Definition sample_seal (round epoch : Z) (sigs : list (tree * tree)) : tree :=
  TTag 39005 (TArray [TUint 1; TUint 3; TUint round; TUint epoch; TUint 1700000000;
    TBytes (word 41); TBytes sample_root; TMap sigs]).
Definition sample_uc (round epoch : Z) (sigs : list (tree * tree)) : tree :=
  TTag 39001 (TArray [TUint 1; sample_ir; TBytes (word 31); TBytes (word 32); sample_sc; sample_tc;
    sample_seal round epoch sigs]).
Definition pack_claim (uc : tree) : bytes :=
  be_bytes 4 7 ++ be_bytes 2 1 ++ [Byte.xc0] ++ word 32 ++ word 12 ++ toy_hash (enc sample_ir)
  ++ be_bytes 4 (zlen (enc uc)) ++ enc uc.
Definition sample_sigs : list (tree * tree) :=
  [(TText (ascii "a"), TBytes (replicate 65 Byte.x01))].
Definition sample_packed : Scan :=
  {| sc_data := pack_claim (sample_uc 100 3 sample_sigs); sc_tokens := 0 |}.
Definition sample_parsed : Parsed * Scan :=
  match parse_claim sample_packed with
  | Ok r => r
  | Err _ =>
      ({| pa_claim :=
            {| cl_partition := 0; cl_shard := []; cl_config := []; cl_state := []; cl_ir_hash := [];
               cl_ir := view TNull; cl_tr := view TNull; cl_conf := view TNull; cl_shard_cert := [];
               cl_tree_cert := []; cl_seal := view TNull; cl_seal_fields := [] |};
          pa_paths := 0; pa_sigs := 0 |}, sample_packed)
  end.

Lemma sample_parse : parse_claim sample_packed = Ok (sample_parsed.1, sample_parsed.2).
Proof. vm_compute. reflexivity. Qed.

Lemma sample_folds : folds (H := toy_crypto) (pa_claim sample_parsed.1) = Ok true.
Proof. vm_compute. reflexivity. Qed.

Lemma parsed_claim_folds_witness :
  parse_claim sample_packed = Ok (sample_parsed.1, sample_parsed.2) /\
  pa_paths sample_parsed.1 <= 288 /\
  folds_to (H := toy_crypto) (pa_claim sample_parsed.1) sample_root.
Proof.
  split; [exact sample_parse|].
  destruct (proj2 (parsed_claim_folds (H := toy_crypto) sample_packed ltac:(vm_compute; discriminate))
    _ _ sample_parse) as ([_ Hp] & _ & _ & Hf).
  split; [exact Hp|]. exact (proj1 Hf sample_folds).
Defined.

Lemma fold_binding_witness :
  it_raw (cl_ir (pa_claim sample_parsed.1)) = it_raw (cl_ir (pa_claim sample_parsed.1)) \/
  collision_among toy_hash (claim_inputs (H := toy_crypto) (pa_claim sample_parsed.1)
    ++ claim_inputs (H := toy_crypto) (pa_claim sample_parsed.1)).
Proof.
  destruct (fold_binding (H := toy_crypto) sample_packed sample_packed _ _ _ _
    ltac:(vm_compute; discriminate) ltac:(vm_compute; discriminate) sample_parse sample_parse
    eq_refl eq_refl eq_refl sample_folds sample_folds) as [[Hi _]|Hc]; [left; exact Hi|right; exact Hc].
Defined.

Lemma certificate_scans_total_witness :
  certificate_shape (enc (sample_uc 100 3 sample_sigs)) = Ok () /\
  exists b, certificate_shard (enc (sample_uc 100 3 sample_sigs)) = Ok b.
Proof.
  assert (Hs : certificate_shape (enc (sample_uc 100 3 sample_sigs)) = Ok ())
    by (vm_compute; reflexivity).
  split; [exact Hs|]. exact (proj2 (proj2 (certificate_scans_total _)) Hs).
Defined.

End B1Certificate.
