(* ===== verification/B1Batch.v ===== *)
(** [CERT_BATCH_V2], [b1/src/batch.rs] and the certificate provider of [b1/src/provider.rs]: one
    registry-backed verdict for a list of certificate claims.

    A request is scanned, grouped and priced before any registry read; evaluation then loads the
    epochs it needs, folds every distinct claim and decides the weighted quorum of every distinct
    seal.  The parallel vectors of the source (claims, packed bytes, path and signature counts) are
    one list of occurrences, and its hash sets are lists searched by equality.  [Crash] is a panic of
    the process.  Unchecked 64-bit arithmetic wraps.

    The theorems show that a call never crashes, that its charge is a function of the request alone
    and bounds the work performed, that a true verdict means every claim folds to the root of its
    seal and every seal has a weighted quorum of its epoch's committee, and that two quorums of one
    committee share more than a third of its weight. *)
From stdpp Require Import gmap.
From S2P Require Import Prelude Crypto CborCodec B1Cbor B1Membership B1Registry B1Certificate.
Import B1Cbor B1Membership B1Registry B1Certificate.

Module B1Batch.

(** ** Bounds and prices *)

Definition MAX_BYTES : Z := 262144.
Definition MAX_CLAIMS : Z := 16.
Definition MAX_SIGNATURES : Z := 256.
Definition MAX_SEAL_SIGNATURES : Z := 16.
Definition MAX_RAW_PATHS : Z := 4608.

Record Limits := {
  lim_bytes : Z; lim_claims : Z; lim_signatures : Z; lim_raw_paths : Z; lim_per_uc_items : bool }.
Definition STANDARD : Limits :=
  {| lim_bytes := MAX_BYTES; lim_claims := MAX_CLAIMS; lim_signatures := MAX_SIGNATURES;
     lim_raw_paths := MAX_RAW_PATHS; lim_per_uc_items := false |}.
Definition COMPOSED : Limits :=
  {| lim_bytes := usize_max; lim_claims := u16_max; lim_signatures := u64_max;
     lim_raw_paths := u64_max; lim_per_uc_items := true |}.

Definition READ_GAS : Z := 100.
Definition EPOCH_WORDS : Z := 11 + 8 * MAX_MEMBERS.
Definition COMMON_WORDS : Z := 11.

Definition batch_scan_gas (bytes claims : Z) : Z :=
  wrap64 (60000 + 16 * bytes + 500 * claims * (claims - 1)).
Definition batch_gas (bytes k e q a p : Z) : Z :=
  wrap64 (batch_scan_gas bytes k + READ_GAS * COMMON_WORDS
          + (1000 * MAX_MEMBERS + READ_GAS * EPOCH_WORDS) * e + 7200 * q + 2000 * a + 250 * p).

Record Dimensions := { dm_c : Z; dm_k : Z; dm_e : Z; dm_s : Z; dm_q : Z; dm_a : Z; dm_p : Z }.
Definition dimensions_gas (d : Dimensions) : Z :=
  batch_gas (dm_c d) (dm_k d) (dm_e d) (dm_q d) (dm_a d) (dm_p d).

(** The work performed. *)
Record Counters := {
  ct_epoch_loads : Z; ct_key_parses : Z; ct_quorums : Z; ct_signatures : Z; ct_claims : Z;
  ct_folds : Z; ct_reads : Z }.
Definition no_work : Counters :=
  {| ct_epoch_loads := 0; ct_key_parses := 0; ct_quorums := 0; ct_signatures := 0; ct_claims := 0;
     ct_folds := 0; ct_reads := 0 |}.
Definition add_work (a b : Counters) : Counters :=
  {| ct_epoch_loads := ct_epoch_loads a + ct_epoch_loads b;
     ct_key_parses := ct_key_parses a + ct_key_parses b;
     ct_quorums := ct_quorums a + ct_quorums b;
     ct_signatures := ct_signatures a + ct_signatures b;
     ct_claims := ct_claims a + ct_claims b;
     ct_folds := ct_folds a + ct_folds b;
     ct_reads := ct_reads a + ct_reads b |}.

(** ** Scanning and grouping *)

(** One claim occurrence: the claim, its complete packed bytes and its counts. *)
Record Occurrence := { oc_claim : Claim; oc_packed : bytes; oc_paths : Z; oc_sigs : Z }.
Record Scanned := { sn_claims : list Occurrence; sn_dims : Dimensions }.

(** [seen.insert(x)] over a list, keeping the elements that were new. *)
Fixpoint first_seen {A K} `{EqDecision K} (key : A -> K) (seen : list K) (l : list A) : list A :=
  match l with
  | [] => []
  | x :: l =>
      if bool_decide (key x ∈ seen) then first_seen key seen l
      else x :: first_seen key (key x :: seen) l
  end.

(** The first occurrence of each distinct packed claim, in request order. *)
Definition distinct (l : list Occurrence) : list Occurrence := first_seen oc_packed [] l.

Definition seal_raw (o : Occurrence) : bytes := it_raw (cl_seal (oc_claim o)).
Definition seal_epoch (o : Occurrence) : Z := it_arg (at_ (cl_seal_fields (oc_claim o)) 3).

(** The loop over the [k] packed claims. *)
Fixpoint scan_claims (lim : Limits) (k : nat) (raw_paths : Z) : reader Scan Fault (list Occurrence) :=
  match k with
  | O => sret []
  | S k => fun s =>
      let s := if lim_per_uc_items lim then {| sc_data := sc_data s; sc_tokens := 0 |} else s in
      let? (p, s') := parse_claim s in
      let packed := take (length (sc_data s) - length (sc_data s'))%nat (sc_data s) in
      let raw_paths := wrap64 (raw_paths + pa_paths p) in
      if (lim_raw_paths lim <? raw_paths) || (MAX_SEAL_SIGNATURES <? pa_sigs p) then Err (Bad Limit) else
      let c := pa_claim p in
      let? depth := bad (shard_depth (it_data (at_ (cl_shard_cert c) 1))) in
      let? count := bad (collection (at_ (cl_shard_cert c) 2) 4 256) in
      if negb (count =? depth) then Err (Bad Limit) else
      let? (l, s'') := scan_claims lim k raw_paths s' in
      Ok ({| oc_claim := c; oc_packed := packed; oc_paths := pa_paths p; oc_sigs := pa_sigs p |} :: l, s'')
  end.

(** The sums over the distinct claims and, for signatures, over the first claim of each seal. *)
Definition group (l : list Occurrence) : Dimensions :=
  let d := distinct l in
  {| dm_c := 0; dm_k := 0;
     dm_e := zlen (first_seen seal_epoch [] d);
     dm_s := zlen (first_seen seal_raw [] d);
     dm_q := sum_z (map oc_sigs (first_seen seal_raw [] d));
     dm_a := zlen d;
     dm_p := sum_z (map oc_paths d) |}.

Inductive BatchFault (E : Type) :=
| Refused (e : Error E)
| Crash.
Arguments Refused {E} e.
Arguments Crash {E}.

Definition of_fault {E} (f : Fault) : BatchFault E :=
  match f with Bad m => Refused (BadRequest m) | Panic => Crash end.
Definition request_error {E A} (r : result Malformed A) : result (BatchFault E) A :=
  map_err (fun m => Refused (BadRequest m)) r.

(** The version, flags and claim count of a request. *)
Definition batch_header (lim : Limits) : b1_reader Z :=
  let* v := uint_n 1 in
  if negb (v =? 2) then fail Version else
  let* f := uint_n 1 in
  if negb (f =? 0) then fail Flags else
  let* k := uint_n 2 in
  if (k =? 0) || (lim_claims lim <? k) then fail Count else sret k.

Definition batch_scan {E} (input : bytes) (gas : Z) (lim : Limits) : result (BatchFault E) Scanned :=
  let? (k, rest) := request_error (batch_header lim input) in
  let c := zlen input in
  if gas <? batch_scan_gas c k then Err (Refused OutOfGas) else
  let? (l, s) :=
    map_err of_fault (scan_claims lim (Z.to_nat k) 0 {| sc_data := rest; sc_tokens := 0 |}) in
  if negb (bool_decide (sc_data s = [])) then Err (Refused (BadRequest Trailing)) else
  let g := group l in
  if lim_signatures lim <? dm_q g then Err (Refused (BadRequest Limit)) else
  Ok {| sn_claims := l;
        sn_dims := {| dm_c := c; dm_k := k; dm_e := dm_e g; dm_s := dm_s g; dm_q := dm_q g;
                      dm_a := dm_a g; dm_p := dm_p g |} |}.

(** [None] is the [unreachable!]. *)
Definition dimensions_with (input : bytes) (lim : Limits) : option (result Malformed Dimensions) :=
  if lim_bytes lim <? zlen input then Some (Err Limit) else
  match batch_scan (E := Empty_set) input u64_max lim with
  | Ok s => Some (Ok (sn_dims s))
  | Err (Refused (BadRequest m)) => Some (Err m)
  | Err _ => None
  end.
Definition dimensions (input : bytes) := dimensions_with input STANDARD.

(** ** Signatures *)

Section batch.
Context `{Crypto}.

Definition recovers_to (message sig : bytes) (key : PublicKey) : bool :=
  if negb (zlen sig =? 65) then false else
  let id := byte_at sig 64 in
  if negb (id <=? 3) then false else
  let compact := take 64 sig in
  if negb (compact_ok compact id) then false else
  if negb (low_s compact) then false else
  match recover_ecdsa message compact id with
  | Some recovered => bool_decide (recovered = key)
  | None => false
  end.

(** The signature loop over the children of the map: the weight gathered, whether an entry was
    empty, and the number of signatures. *)
Fixpoint count_sigs (message : bytes) (members : list Member) (l : list Item)
    (good : Z) (empty : bool) (n : Z) : result Fault (Z * bool * Z) :=
  match l with
  | [] => Ok (good, empty, n)
  | [_] => Err Panic
  | id :: sig :: l =>
      let n := n + 1 in
      if bool_decide (it_data sig = []) || bool_decide (it_data id = [])
      then count_sigs message members l good true n
      else match find (fun m => bool_decide (mem_id m = it_data id)) members with
      | None => count_sigs message members l good empty n
      | Some m =>
          let good := if recovers_to message (it_data sig) (mem_key m)
                      then wrap64 (good + mem_weight m) else good in
          count_sigs message members l good empty n
      end
  end.

(** [slice[..a.len() - b.len()]]. *)
Definition drop_suffix (a b : bytes) : result Fault bytes :=
  if zlen b <=? zlen a then Ok (take (length a - length b)%nat a) else Err Panic.

Definition seal_message (c : Claim) : result Fault bytes :=
  let? prefix := drop_suffix (it_raw (cl_seal c)) (it_raw (at_ (cl_seal_fields c) 7)) in
  Ok (hash [prefix; [Byte.xf6]]).

Definition threshold (total : Z) : Z := total - (total - 1) / 3.

(** The verdict and the number of signatures evaluated. *)
Definition quorum (c : Claim) (e : Entry) : result Fault (bool * Z) :=
  let sig_map := at_ (cl_seal_fields c) 7 in
  if null sig_map || (it_arg sig_map =? 0) then Ok (false, 0) else
  let? message := seal_message c in
  let? sigs := panics (children sig_map) in
  let? (ge, n) := count_sigs message (ent_members e) sigs 0 false 0 in
  let (good, empty) := ge : Z * bool in
  Ok (negb empty && (threshold (ent_total e) <=? good), n).

(** ** Evaluation *)

Context `{RegistryRead}.

Abbreviation batch_reader := (reader Journal (BatchFault HostError)).

(** Loads the epochs of the request that the registry covers. *)
Fixpoint load_epochs (common : CommonV2) (epochs : list Z) (loaded : gmap Z Entry) (work : Counters)
    : batch_reader (gmap Z Entry * Counters) :=
  match epochs with
  | [] => sret (loaded, work)
  | e :: epochs =>
      if (e <? cm_genesis common) || (cm_origin common <? e)
      then load_epochs common epochs loaded work
      else
        let* found := via Refused (entry e) in
        match found with
        | None => fail (Refused Registry)
        | Some en =>
            let members := zlen (ent_members en) in
            let work := add_work work
              {| ct_epoch_loads := 1; ct_key_parses := members; ct_quorums := 0; ct_signatures := 0;
                 ct_claims := 0; ct_folds := 0; ct_reads := 11 + 8 * members |} in
            let impossible :=
              if e <? cm_origin common then
                match ent_end en with Some x => cm_round common <? x | None => true end
                || (cm_round common <? ent_start en)
              else
                match ent_end en with Some _ => true | None => false end
                || (cm_round common <? ent_start en) in
            if impossible then fail (Refused Registry)
            else load_epochs common epochs (<[e := en]> loaded) work
        end
  end.

(** Every distinct claim is folded. *)
Fixpoint fold_all (l : list Occurrence) (valid : bool) (work : Counters) : result Fault (bool * Counters) :=
  match l with
  | [] => Ok (valid, work)
  | o :: l =>
      let work := add_work work
        {| ct_epoch_loads := 0; ct_key_parses := 0; ct_quorums := 0; ct_signatures := 0;
           ct_claims := 1; ct_folds := 1; ct_reads := 0 |} in
      let? b := folds (oc_claim o) in
      fold_all l (valid && b) work
  end.

Definition slot_key (o : Occurrence) : bytes * Z * bytes :=
  (seal_raw o, cl_partition (oc_claim o), cl_shard (oc_claim o)).

(** Two different claims for one shard under one seal clear the verdict. *)
Fixpoint slots_free (slots : list (bytes * Z * bytes)) (l : list Occurrence) (valid : bool) : bool :=
  match l with
  | [] => valid
  | o :: l =>
      if bool_decide (slot_key o ∈ slots) then slots_free slots l false
      else slots_free (slot_key o :: slots) l valid
  end.

(** The conditions on a seal before its quorum is evaluated. *)
Definition seal_in_range (common : CommonV2) (c : Claim) (en : Entry) : bool :=
  let f := cl_seal_fields c in
  let r := it_arg (at_ f 2) in
  negb (negb (it_arg (at_ f 1) =? cm_network common)
        || (r <? ent_start en)
        || match ent_end en with Some x => x <=? r | None => false end
        || (cm_round common <? r)).

(** Distinct seals, each evaluated once. *)
Fixpoint check_seals (common : CommonV2) (loaded : gmap Z Entry) (seen : list bytes)
    (l : list Occurrence) (valid : bool) (work : Counters) : result Fault (bool * Counters) :=
  match l with
  | [] => Ok (valid, work)
  | o :: l =>
      if bool_decide (seal_raw o ∈ seen) then check_seals common loaded seen l valid work else
      let seen := seal_raw o :: seen in
      match loaded !! seal_epoch o with
      | None => check_seals common loaded seen l false work
      | Some en =>
          if negb (seal_in_range common (oc_claim o) en)
          then check_seals common loaded seen l false work
          else
            let? (b, n) := quorum (oc_claim o) en in
            let work := add_work work
              {| ct_epoch_loads := 0; ct_key_parses := 0; ct_quorums := 1; ct_signatures := n;
                 ct_claims := 0; ct_folds := 0; ct_reads := 0 |} in
            check_seals common loaded seen l (valid && b) work
      end
  end.

Definition common_reads : Counters :=
  {| ct_epoch_loads := 0; ct_key_parses := 0; ct_quorums := 0; ct_signatures := 0; ct_claims := 0;
     ct_folds := 0; ct_reads := 11 |}.

Definition evaluate (s : Scanned) (pins : Pins) : batch_reader (bool * Counters) :=
  let* common := via Refused (common_v2 pins) in
  let work := add_work no_work common_reads in
  if (cm_phase common =? 1) || negb (cm_ready common) then sret (false, work) else
  let d := distinct (sn_claims s) in
  let epochs := map seal_epoch (first_seen seal_epoch [] d) in
  let* (loaded, work) := load_epochs common epochs ∅ work in
  let* (valid, work) := lift (map_err of_fault (fold_all d true work)) in
  let valid := slots_free [] d valid in
  lift (map_err of_fault (check_seals common loaded [] d valid work)).

Definition run_with (input : bytes) (gas : Z) (pins : Pins) (lim : Limits)
    : batch_reader (Output * Counters) :=
  if lim_bytes lim <? zlen input then fail (Refused (BadRequest Limit)) else
  if gas <? saturating_add 60000 (saturating_mul 16 (zlen input)) then fail (Refused OutOfGas) else
  let* scanned := lift (batch_scan input gas lim) in
  let charge := dimensions_gas (sn_dims scanned) in
  if gas <? charge then fail (Refused OutOfGas) else
  let* (valid, work) := evaluate scanned pins in
  sret (versioned charge 2 valid, work).

Definition run (input : bytes) (gas : Z) (pins : Pins) : batch_reader (Output * Counters) :=
  run_with input gas pins STANDARD.

End batch.

(** ** The precompile providers *)

Inductive PrecompileOutcome :=
| Returned (gas : Z) (output : bytes)
| HaltOutOfGas
| HaltOther (reason : String.string)
| Fatal.

Definition membership_call `{Crypto} (data : bytes) (gas : Z) : PrecompileOutcome :=
  match membership (E := Empty_set) data gas with
  | Ok out => Returned (out_gas out) (out_bytes out)
  | Err OutOfGas => HaltOutOfGas
  | Err _ => HaltOther "malformed B1 request"
  end.

(** [None] is a panic; the journal is the one the call leaves behind. *)
Definition cert_batch_call `{Crypto} `{RegistryRead} (pins : Pins) (data : bytes) (gas : Z) (j : Journal)
    : option PrecompileOutcome :=
  match run data gas pins j with
  | Ok ((out, _), _) => Some (Returned (out_gas out) (out_bytes out))
  | Err (Refused OutOfGas) => Some HaltOutOfGas
  | Err (Refused (BadRequest _)) => Some (HaltOther "malformed B1 batch request")
  | Err (Refused (Host _)) => Some Fatal
  | Err (Refused Registry) => Some Fatal
  | Err Crash => None
  end.

(** ** First occurrences *)

Section first_seen.
Context {A K : Type} `{EqDecision K} (key : A -> K).

Lemma first_seen_in seen l x : x ∈ first_seen key seen l -> x ∈ l /\ key x ∉ seen.
Proof.
  revert seen. induction l as [|y l IH]; intros seen Hx; cbn in Hx; [by apply not_elem_of_nil in Hx|].
  case_bool_decide as Hy.
  - apply IH in Hx as [? ?]. split; [by right | done].
  - apply elem_of_cons in Hx as [-> | [? Hn]%IH]; [split; [left | done]|].
    split; [by right|]. intros ?. apply Hn. by right.
Qed.

Lemma first_seen_NoDup seen l : NoDup (map key (first_seen key seen l)).
Proof.
  revert seen. induction l as [|y l IH]; intros seen; cbn; [constructor|].
  case_bool_decide; [done|]. cbn. constructor; [|done].
  intros (x & Hk & [_ Hx]%first_seen_in)%list_elem_of_fmap. apply Hx. rewrite Hk. left.
Qed.

Lemma first_seen_cover seen l x :
  x ∈ l -> key x ∈ seen \/ exists y, y ∈ first_seen key seen l /\ key y = key x.
Proof.
  revert seen. induction l as [|y l IH]; intros seen Hx; [by apply not_elem_of_nil in Hx|].
  cbn. apply elem_of_cons in Hx as [-> | Hx]; case_bool_decide.
  - by left.
  - right. exists y. split; [left | done].
  - by apply IH.
  - destruct (IH (key y :: seen) Hx) as [[-> | ?]%elem_of_cons | (z & ? & ?)].
    + right. exists y. split; [left | done].
    + by left.
    + right. exists z. split; [by right | done].
Qed.

Lemma first_seen_length seen l : (length (first_seen key seen l) <= length l)%nat.
Proof.
  revert seen. induction l as [|y l IH]; intros seen; cbn; [done|].
  pose proof (IH seen). pose proof (IH (key y :: seen)). case_bool_decide; cbn; lia.
Qed.

End first_seen.

(** ** Weights *)

Section quorums.
Context `{Crypto}.

(** The weight of the members that satisfy [f]. *)
Definition weight_where (f : Member -> bool) (l : list Member) : Z :=
  sum_z (map (fun m => if f m then mem_weight m else 0) l).

Lemma weight_where_cons f m l :
  weight_where f (m :: l) = (if f m then mem_weight m else 0) + weight_where f l.
Proof. done. Qed.

Lemma weight_where_ext f g l : (forall m, f m = g m) -> weight_where f l = weight_where g l.
Proof. intros Hfg. unfold weight_where. f_equal. apply map_ext. intros m. by rewrite Hfg. Qed.

Lemma weight_where_or f g l :
  (forall m, f m = true -> g m = true -> False) ->
  weight_where (fun m => f m || g m) l = weight_where f l + weight_where g l.
Proof.
  intros Hd. induction l as [|m l IH]; [done|]. rewrite !weight_where_cons, IH.
  destruct (f m) eqn:Hf, (g m) eqn:Hg; cbn [orb]; try lia. by exfalso; apply (Hd m).
Qed.

Lemma weight_where_none f l : (forall m, m ∈ l -> f m = false) -> weight_where f l = 0.
Proof.
  intros Hf. induction l as [|m l IH]; [done|]. rewrite weight_where_cons, Hf, IH; [done|..].
  - intros x Hx. apply Hf. by right.
  - left.
Qed.

Lemma weight_where_bounds f l :
  Forall (fun m => 0 <= mem_weight m) l -> 0 <= weight_where f l <= weights l.
Proof.
  induction 1 as [|m l Hm _ IH]; [done|]. rewrite weight_where_cons. unfold weights in *. cbn [map sum_z fold_right].
  fold (sum_z (map mem_weight l)). destruct (f m); lia.
Qed.

(** At most one member carries an identifier. *)
Lemma weight_where_find (r : Member -> bool) id l :
  NoDup (map mem_id l) ->
  weight_where (fun m => bool_decide (mem_id m = id) && r m) l
  = match find (fun m => bool_decide (mem_id m = id)) l with
    | Some m => if r m then mem_weight m else 0
    | None => 0
    end.
Proof.
  induction l as [|m l IH]; intros Hnd; [done|]. cbn [map] in Hnd. apply NoDup_cons in Hnd as [Hm Hnd].
  rewrite weight_where_cons. cbn [find]. case_bool_decide as Hid; cbn [andb].
  - rewrite weight_where_none; [lia|]. intros x Hx. rewrite bool_decide_false; [done|].
    intros Hxi. apply Hm. rewrite Hid, <- Hxi. by apply list_elem_of_fmap_2.
  - rewrite IH by done. lia.
Qed.

Lemma ascending_NoDup l : ascending l = true -> NoDup l.
Proof.
  induction l as [|x l IH] using rev_ind; intros Ha; [constructor|].
  apply NoDup_app. split_and!; [by eapply IH, ascending_app_l| |by apply NoDup_singleton].
  intros y Hy ->%list_elem_of_singleton. pose proof (ascending_below _ _ _ Ha Hy) as Hlt.
  by apply (irreflexivity bytes_lt) in Hlt.
Qed.

(** ** The signatures of a seal *)

(** Signer identifier and signature value, as trees of the signature map. *)
Definition sig_tree (p : bytes * bytes) : tree * tree := (TText p.1, TBytes p.2).

Definition entry_empty (p : bytes * bytes) : bool := bool_decide (p.2 = []) || bool_decide (p.1 = []).

Definition signs (message : bytes) (p : bytes * bytes) (m : Member) : bool :=
  negb (entry_empty p) && (bool_decide (mem_id m = p.1) && recovers_to message p.2 (mem_key m)).
Definition signed (message : bytes) (sigs : list (bytes * bytes)) (m : Member) : bool :=
  existsb (fun p => signs message p m) sigs.

Lemma weight_signed_cons message p sigs members :
  p.1 ∉ map fst sigs ->
  weight_where (signed message (p :: sigs)) members
  = weight_where (signs message p) members + weight_where (signed message sigs) members.
Proof.
  intros Hp. apply (weight_where_or (signs message p)). intros m Hs (q & Hq & Hs')%existsb_exists.
  unfold signs in Hs, Hs'. rewrite !andb_true_iff, bool_decide_eq_true in Hs.
  rewrite !andb_true_iff, bool_decide_eq_true in Hs'.
  destruct Hs as (_ & Hid & _), Hs' as (_ & Hid' & _).
  apply Hp, list_elem_of_In, in_map_iff. exists q. split; [congruence | done].
Qed.

Lemma weight_signs message p members :
  NoDup (map mem_id members) ->
  weight_where (signs message p) members
  = if entry_empty p then 0 else
    match find (fun m => bool_decide (mem_id m = p.1)) members with
    | Some m => if recovers_to message p.2 (mem_key m) then mem_weight m else 0
    | None => 0
    end.
Proof.
  intros Hnd. unfold signs. destruct (entry_empty p); cbn [negb andb].
  - by apply weight_where_none.
  - by apply (weight_where_find (fun m => recovers_to message p.2 (mem_key m))).
Qed.

Ltac triple :=
  match goal with
  | |- Ok (?a, _, ?c) = Ok (?a', _, ?c') =>
      replace a' with a by lia; replace c' with c by lia; reflexivity
  end.

Lemma count_sigs_spec message members sigs : forall g e n,
  NoDup (map mem_id members) -> Forall (fun m => 0 <= mem_weight m) members ->
  NoDup (map fst sigs) -> 0 <= g -> g + weight_where (signed message sigs) members <= u64_max ->
  count_sigs message members (map view (flatten (map sig_tree sigs))) g e n
  = Ok (g + weight_where (signed message sigs) members, e || existsb entry_empty sigs, n + zlen sigs).
Proof.
  induction sigs as [|p sigs IH]; intros g e n Hm Hw Hs Hg Hmax.
  { cbn. rewrite weight_where_none by done. rewrite orb_false_r. by rewrite !Z.add_0_r. }
  cbn [map] in Hs. apply NoDup_cons in Hs as [Hp Hs].
  rewrite weight_signed_cons, weight_signs in * by done.
  change (flatten (map sig_tree (p :: sigs))) with (TText p.1 :: TBytes p.2 :: flatten (map sig_tree sigs)).
  cbn [map count_sigs view it_data payload existsb]. rewrite zlen_cons.
  pose proof (weight_where_bounds (signed message sigs) members Hw).
  change (bool_decide (p.2 = []) || bool_decide (p.1 = [])) with (entry_empty p).
  destruct (entry_empty p); cbn [orb];
    [rewrite IH, orb_true_r by (done || lia); cbn [orb]; triple|].
  destruct (find _ members) as [m|] eqn:Hf; [|rewrite IH by (done || lia); triple].
  assert (0 <= mem_weight m).
  { rewrite Forall_forall in Hw. apply Hw, list_elem_of_In. by apply find_some in Hf as [? _]. }
  destruct (recovers_to message p.2 (mem_key m)).
  - unfold wrap64. rewrite Z.mod_small by ulia. rewrite IH by (done || lia). triple.
  - rewrite IH by (done || lia). triple.
Qed.

(** ** Tagged parts as trees *)

Lemma tagged_tree strict utf8 n tag t l :
  good strict utf8 max_depth t -> Z.of_nat (size t) <= usize_max -> (1 <= n)%nat ->
  tagged n tag (view t) = Some (Ok l) ->
  exists ts, t = TTag tag (TArray ts) /\ l = map view ts /\ length ts = n.
Proof.
  intros Hg Hs Hn Ht. unfold tagged in Ht. destruct (_ || _) eqn:Hb; [done|].
  apply orb_false_iff in Hb as [H6 Htag]. destruct t as [| | | | |k t|]; try discriminate H6.
  cbn [view it_arg arg it_data payload subtrees encs map concat] in Ht, Htag. rewrite app_nil_r in Ht.
  pose proof (subtrees_good _ _ 15 _ Hg) as [Hg' _]%Forall_cons.
  rewrite (item_view _ _ _ _ Hg') in Ht. assert (k = tag) as -> by lia.
  unfold item_array in Ht. destruct (_ || _) eqn:Hb; [done|]. apply orb_false_iff in Hb as [H4 Hlen].
  destruct t as [| | |ts| | |]; try discriminate H4. exists ts.
  assert (Hg16 : good strict utf8 max_depth (TArray ts)).
  { destruct Hg' as [? ?]. split; [done|]. apply (fits_mono 15); [unfold max_depth; lia | done]. }
  destruct (children_view _ _ _ Hg16) as [Hc _]; [cbn [size] in *; lia | done | done |].
  rewrite Hc in Ht. cbn [option_map subtrees] in Ht. injection Ht as Ht.
  assert (Hlen' : length ts = n) by (cbn [view it_arg arg] in Hlen; ulia).
  unfold fill in Ht. rewrite take_length_app in Ht by (by rewrite length_map).
  split; [done|]. split; [|done]. destruct ts as [|v ts]; cbn in Ht; [by injection Ht|].
  inv_ok Ht. by subst.
Qed.

Lemma sig_pairs_trees kvs : Forall sig_pair kvs -> exists sigs, kvs = map sig_tree sigs.
Proof.
  induction 1 as [|kv kvs (id & sig & -> & _) _ [sigs IH]]; [by exists []|].
  exists ((id, sig) :: sigs). by rewrite IH.
Qed.

Lemma split_last {A} (l : list A) n : length l = S n -> exists l' x, l = l' ++ [x] /\ length l' = n.
Proof.
  intros Hl. destruct l as [|x l _] using rev_ind; [done|].
  rewrite length_app in Hl. cbn in Hl. exists l, x. split; [done | lia].
Qed.

(** The view of an array only depends on the encodings of its elements. *)
Lemma view_last tag ts x y :
  view x = view y -> view (TTag tag (TArray (ts ++ [x]))) = view (TTag tag (TArray (ts ++ [y]))).
Proof.
  intros Hv%(f_equal it_raw). cbn [view it_raw] in Hv.
  unfold view. cbn [enc kind arg payload subtrees encs map concat].
  rewrite !map_app, !concat_app, !zlen_app. cbn [map concat]. by rewrite Hv.
Qed.

Lemma committee_ids l : committee_ok l -> NoDup (map mem_id l).
Proof. intros [Ha _ _]. by apply ascending_NoDup. Qed.

Lemma committee_weights l : committee_ok l -> Forall (fun m => 0 <= mem_weight m) l.
Proof. intros [_ _ HF]. eapply Forall_impl; [exact HF|]. intros m [? _]. lia. Qed.

(** The digest a seal's signatures are made over: the seal with its signature map replaced by null. *)
Definition unsigned_seal (ts : list tree) : bytes := enc (TTag 39005 (TArray (ts ++ [TNull]))).

Lemma seal_message_unsigned c ts m :
  cl_seal c = view (TTag 39005 (TArray (ts ++ [m]))) -> length ts = 7%nat ->
  cl_seal_fields c = map view (ts ++ [m]) ->
  seal_message c = Ok (sha256 (unsigned_seal ts)) /\ at_ (cl_seal_fields c) 7 = view m.
Proof.
  intros Hseal Hl Hsf.
  assert (Hm : at_ (cl_seal_fields c) 7 = view m).
  { rewrite Hsf. unfold at_. rewrite map_app, app_nth2; rewrite length_map, Hl; [done | lia]. }
  split; [|done]. unfold seal_message. rewrite Hm, Hseal. cbn [view it_raw].
  assert (Henc : forall x, enc (TTag 39005 (TArray (ts ++ [x])))
    = (major 6 39005 ++ major 4 8 ++ encs ts) ++ enc x).
  { intros x. cbn [enc]. rewrite map_app, concat_app, zlen_app. cbn [map concat].
    unfold zlen. rewrite Hl, app_nil_r, <- !app_assoc. done. }
  unfold unsigned_seal. rewrite !Henc. unfold drop_suffix. rewrite zlen_app.
  rewrite (proj2 (Z.leb_le _ _)) by (pose proof (zlen_nonneg (major 6 39005 ++ major 4 8 ++ encs ts)); lia).
  rewrite prefix_taken. unfold hash. cbn [rbind concat]. by rewrite app_nil_r.
Qed.

(** The signatures of a claim's seal, as the children of its signature map list them. *)
Fixpoint pair_up (l : list Item) : list (bytes * bytes) :=
  match l with
  | id :: sig :: l => (it_data id, it_data sig) :: pair_up l
  | _ => []
  end.
Definition claim_sigs (c : Claim) : list (bytes * bytes) :=
  match children (at_ (cl_seal_fields c) 7) with Some l => pair_up l | None => [] end.

Lemma pair_up_trees sigs : pair_up (map view (flatten (map sig_tree sigs))) = sigs.
Proof.
  induction sigs as [|[id sig] sigs IH]; [done|].
  change (flatten (map sig_tree ((id, sig) :: sigs)))
    with (TText id :: TBytes sig :: flatten (map sig_tree sigs)).
  cbn [map pair_up view it_data payload]. by rewrite IH.
Qed.

(** A seal has a quorum: some signature, none empty, and the weight of the committee members whose
    signature over the unsigned seal is present reaches the threshold. *)
Definition has_quorum (c : Claim) (e : Entry) : Prop :=
  claim_sigs c <> [] /\ existsb entry_empty (claim_sigs c) = false /\
  exists message, seal_message c = Ok message /\
    threshold (ent_total e) <= weight_where (signed message (claim_sigs c)) (ent_members e).

(** The seal of a parsed claim: null, or a map of signatures that the iterator lists. *)
Record seal_shape (c : Claim) : Prop := {
  ss_children : children (at_ (cl_seal_fields c) 7)
                = Some (map view (flatten (map sig_tree (claim_sigs c))));
  ss_count : null (at_ (cl_seal_fields c) 7) || (it_arg (at_ (cl_seal_fields c) 7) =? 0)
             = bool_decide (claim_sigs c = []);
  ss_distinct : NoDup (map fst (claim_sigs c));
  ss_message : exists ts, length ts = 7%nat /\
    (claim_sigs c <> [] ->
     cl_seal c = view (TTag 39005 (TArray (ts ++ [TMap (map sig_tree (claim_sigs c))]))) /\
     seal_message c = Ok (sha256 (unsigned_seal ts))) }.

Lemma claim_seal_shape c : claim_ok c -> seal_shape c.
Proof.
  intros (uc & f & Hf & _ & _ & _ & _ & _ & Hseal & Hsf).
  destruct (fo_seal _ _ _ _ Hf) as [(t & Ht & Hg & Hs) Htag]. rewrite Ht in Htag.
  apply (tagged_tree true true) in Htag as (ts & -> & Hl & Hlen); [|done|done|lia].
  destruct (split_last ts 7 Hlen) as (ts' & m & -> & Hl'). rewrite Ht in Hseal. rewrite <- Hsf in Hl.
  destruct (seal_message_unsigned c ts' m Hseal Hl' Hl) as [Hmsg Hm].
  pose proof (fo_sigs _ _ _ _ Hf) as Hsigs. rewrite <- Hsf, Hm in Hsigs.
  destruct Hsigs as [[Hn _] | (kvs & Hk & Hz & Hmax & HF & Hch & Ha)].
  - assert (Hc : claim_sigs c = []) by (unfold claim_sigs; rewrite Hm, Hn; done).
    split; rewrite ?Hc, ?Hm, ?Hn; [done|done|constructor|]. exists ts'. split; [done|]. by intros [].
  - destruct (sig_pairs_trees kvs HF) as [sigs ->].
    assert (Hc : claim_sigs c = sigs) by (unfold claim_sigs; rewrite Hm, Hch; apply pair_up_trees).
    specialize (Ha eq_refl). apply ascending_NoDup in Ha. rewrite map_map in Ha. cbn [sig_tree fst] in Ha.
    rewrite <- (map_map fst (fun id => enc (TText id))) in Ha.
    split; rewrite ?Hc, ?Hm.
    + done.
    + rewrite Hk. cbn [view null it_major kind it_arg arg Z.eqb Pos.eqb andb orb].
      unfold zlen. rewrite length_map. destruct sigs; [done|]. by rewrite bool_decide_false.
    + by eapply NoDup_fmap_1.
    + exists ts'. split; [done|]. intros _. split; [|done]. rewrite Hseal. by apply view_last.
Qed.

Lemma quorum_decided c e :
  claim_ok c -> entry_ok e ->
  exists b, quorum c e = Ok (b, zlen (claim_sigs c)) /\ (b = true <-> has_quorum c e).
Proof.
  intros [Hch Hcount Hnd (ts & _ & Hseal)]%claim_seal_shape (Hc & _ & Htotal & Hmax & _).
  unfold quorum. cbv zeta. rewrite Hcount. case_bool_decide as Hnil.
  { exists false. rewrite Hnil. split; [done|]. split; [done|]. by intros [[] _]. }
  destruct (Hseal Hnil) as [_ Hmsg]. rewrite Hmsg, Hch. cbn [rbind panics ok_or].
  pose proof (weight_where_bounds (signed (sha256 (unsigned_seal ts)) (claim_sigs c)) _ (committee_weights _ Hc)).
  rewrite count_sigs_spec by (done || lia || by apply committee_ids || by apply committee_weights).
  cbn [rbind]. rewrite !Z.add_0_l. cbn [orb]. eexists. split; [done|].
  rewrite andb_true_iff, negb_true_iff, Z.leb_le. unfold has_quorum. split.
  - intros [? ?]. eauto.
  - intros (_ & ? & msg & Hmsg' & ?). rewrite Hmsg in Hmsg'. injection Hmsg' as <-. done.
Qed.

(** A committee needs more than two thirds of its weight. *)
Lemma threshold_bounds total : 1 <= total -> 2 * total < 3 * threshold total /\ threshold total <= total.
Proof.
  intros Ht. unfold threshold. pose proof (Z.div_mod (total - 1) 3 ltac:(lia)).
  pose proof (Z.mod_pos_bound (total - 1) 3 ltac:(lia)). lia.
Qed.

Lemma weight_where_and f g l :
  Forall (fun m => 0 <= mem_weight m) l ->
  weight_where f l + weight_where g l <= weights l + weight_where (fun m => f m && g m) l.
Proof.
  induction 1 as [|m l Hm _ IH]; [done|]. rewrite !weight_where_cons. unfold weights in *.
  cbn [map sum_z fold_right]. fold (sum_z (map mem_weight l)). destruct (f m), (g m); cbn [andb]; lia.
Qed.

End quorums.

(** ** Scanning *)

(** What the scan establishes of an occurrence. *)
Definition occurrence_of (o : Occurrence) : Prop :=
  exists s p s', 0 <= sc_tokens s /\ parse_claim s = Ok (p, s') /\
    sc_data s = oc_packed o ++ sc_data s' /\ oc_claim o = pa_claim p /\ oc_paths o = pa_paths p /\
    oc_sigs o = pa_sigs p /\ pa_sigs p <= MAX_SEAL_SIGNATURES.

Lemma occurrence_parsed o :
  occurrence_of o ->
  claim_ok (oc_claim o) /\ 0 <= oc_paths o <= 288 /\ 0 <= oc_sigs o <= MAX_SEAL_SIGNATURES.
Proof.
  intros (s & p & s' & Ht & Hp & _ & -> & -> & -> & Hmax).
  destruct (parse_claim_ok _ _ _ Ht Hp) as [Hok _]. pose proof (parsed_counts p Hok) as [? ?].
  split; [by apply parsed_claim_ok|]. split; [done | lia].
Qed.

Lemma occurrence_inj o1 o2 :
  occurrence_of o1 -> occurrence_of o2 -> oc_packed o1 = oc_packed o2 -> o1 = o2.
Proof.
  intros (s1 & p1 & s1' & _ & Hp1 & Hd1 & Hc1 & Hpa1 & Hs1 & _)
    (s2 & p2 & s2' & _ & Hp2 & Hd2 & Hc2 & Hpa2 & Hs2 & _) Heq.
  rewrite <- Heq in Hd2. pose proof (parse_claim_det _ _ _ _ _ _ _ Hp1 Hp2 Hd1 Hd2) as <-.
  destruct o1, o2; cbn in *. by subst.
Qed.

Lemma parse_claim_prefix s p s' :
  parse_claim s = Ok (p, s') ->
  sc_data s = take (length (sc_data s) - length (sc_data s'))%nat (sc_data s) ++ sc_data s'.
Proof.
  intros (raw & root & uc & f & Hd & _)%parse_claim_packed. rewrite Hd. by rewrite prefix_taken.
Qed.

Lemma scan_claims_ok lim k : forall raw_paths s l s',
  0 <= sc_tokens s -> scan_claims lim k raw_paths s = Ok (l, s') ->
  Forall occurrence_of l /\ length l = k.
Proof.
  induction k as [|k IH]; intros raw s l s' Ht Hs; cbn [scan_claims] in Hs.
  { inv_ok Hs. subst. split; [constructor | done]. }
  set (s0 := if lim_per_uc_items lim then _ else s) in Hs.
  assert (Ht0 : 0 <= sc_tokens s0) by (unfold s0; destruct (lim_per_uc_items lim); cbn; lia).
  clearbody s0. apply rbind_ok_inv in Hs as ([p s1] & Hp & Hs).
  destruct (_ || _) eqn:Hb; [done|]. apply orb_false_iff in Hb as [_ Hsig].
  apply rbind_ok_inv in Hs as (depth & _ & Hs). apply rbind_ok_inv in Hs as (count & _ & Hs).
  destruct (negb _); [done|]. apply rbind_ok_inv in Hs as ([l1 s2] & Hl & Hs). injection Hs as <- <-.
  destruct (parse_claim_ok _ _ _ Ht0 Hp) as [_ Ht1].
  apply IH in Hl as [HF <-]; [|lia]. split; [|done]. constructor; [|done].
  exists s0, p, s1. cbn [oc_packed oc_claim oc_paths oc_sigs]. split_and!; try done; [|lia].
  by apply (parse_claim_prefix _ p).
Qed.

Lemma np_scan_claims lim k : forall raw_paths s,
  0 <= sc_tokens s -> no_panic (scan_claims lim k raw_paths s).
Proof.
  induction k as [|k IH]; intros raw s Ht; cbn [scan_claims]; [done|].
  set (s0 := if lim_per_uc_items lim then _ else s).
  assert (Ht0 : 0 <= sc_tokens s0) by (unfold s0; destruct (lim_per_uc_items lim); cbn; lia).
  clearbody s0. apply np_bind; [by apply np_parse_claim|]. intros [p s1] Hp.
  destruct (parse_claim_ok _ _ _ Ht0 Hp) as [_ Ht1].
  apply np_if; intros _; [done|]. apply np_bind; [apply np_bad|]. intros depth _.
  apply np_bind; [apply np_bad|]. intros count _. apply np_if; intros _; [done|].
  apply np_bind; [apply IH; lia|]. by intros [? ?].
Qed.

(** What a scanned request satisfies. *)
Definition scanned_ok (lim : Limits) (input : bytes) (s : Scanned) : Prop :=
  Forall occurrence_of (sn_claims s) /\
  let d := sn_dims s in let g := group (sn_claims s) in
  dm_c d = zlen input /\ dm_k d = zlen (sn_claims s) /\ 1 <= dm_k d <= lim_claims lim /\
  dm_e d = dm_e g /\ dm_s d = dm_s g /\ dm_q d = dm_q g /\ dm_a d = dm_a g /\ dm_p d = dm_p g /\
  dm_q d <= lim_signatures lim.

Lemma batch_header_ok lim input k rest :
  batch_header lim input = Ok (k, rest) -> 1 <= k <= lim_claims lim.
Proof.
  unfold batch_header. intros Hh. inv_ok Hh. subst.
  apply (uint_n_be 2) in Hok1 as [_ ?]; [|lia]. lia.
Qed.

Lemma batch_scan_ok {E} input gas lim s :
  batch_scan (E := E) input gas lim = Ok s ->
  scanned_ok lim input s /\ batch_scan_gas (zlen input) (dm_k (sn_dims s)) <= gas.
Proof.
  unfold batch_scan. intros Hs. apply rbind_ok_inv in Hs as ([k rest] & Hh & Hs).
  apply map_err_ok_inv, batch_header_ok in Hh. destruct (gas <? _) eqn:Hg; [done|].
  apply rbind_ok_inv in Hs as ([l s1] & Hl & Hs). apply map_err_ok_inv in Hl.
  apply scan_claims_ok in Hl as [HF Hlen]; [|done]. inv_ok Hs. subst s. unfold scanned_ok.
  cbn [sn_claims sn_dims dm_c dm_k dm_e dm_s dm_q dm_a dm_p].
  split; [|lia]. split; [done|]. split_and!; try done; try lia; [ulia|].
  by apply Z.ltb_ge in Heqb0.
Qed.

Lemma batch_scan_no_crash {E} input gas lim : batch_scan (E := E) input gas lim <> Err Crash.
Proof.
  unfold batch_scan. destruct (batch_header lim input) as [[k rest]|]; [|done]. cbn [request_error map_err rbind].
  destruct (gas <? _); [done|].
  destruct (scan_claims _ _ _ _) as [[l s]|e] eqn:Hs; cbn [map_err rbind].
  - repeat case_match; done.
  - destruct e; [done|]. exfalso. by apply (np_scan_claims lim (Z.to_nat k) 0 {| sc_data := rest; sc_tokens := 0 |}).
Qed.

(** ** Evaluation *)

Section evaluation.
Context `{Crypto}.

Lemma claim_sigs_count p : parsed_ok p -> zlen (claim_sigs (pa_claim p)) = pa_sigs p.
Proof.
  intros (uc & f & Hf & (_ & _ & _ & _ & _ & _ & Hsf) & -> & _). unfold claim_sigs. rewrite Hsf.
  destruct (fo_sigs _ _ _ _ Hf) as [[-> ->] | (kvs & _ & <- & _ & HF & -> & _)]; [done|].
  destruct (sig_pairs_trees kvs HF) as [sigs ->]. rewrite pair_up_trees. unfold zlen. by rewrite length_map.
Qed.

Lemma occurrence_sigs o : occurrence_of o -> zlen (claim_sigs (oc_claim o)) = oc_sigs o.
Proof.
  intros (s & p & s' & Ht & Hp & _ & -> & _ & -> & _). apply claim_sigs_count.
  by destruct (parse_claim_ok _ _ _ Ht Hp).
Qed.

(** A seal's bytes determine its fields. *)
Lemma seal_determined c1 c2 :
  claim_ok c1 -> claim_ok c2 -> it_raw (cl_seal c1) = it_raw (cl_seal c2) ->
  cl_seal c1 = cl_seal c2 /\ cl_seal_fields c1 = cl_seal_fields c2.
Proof.
  intros (uc1 & f1 & Hf1 & _ & _ & _ & _ & _ & -> & ->) (uc2 & f2 & Hf2 & _ & _ & _ & _ & _ & -> & ->) Hr.
  destruct (fo_seal _ _ _ _ Hf1) as [(t1 & Ht1 & Hg1 & _) Htag1].
  destruct (fo_seal _ _ _ _ Hf2) as [(t2 & Ht2 & Hg2 & _) Htag2].
  rewrite Ht1, Ht2 in *. cbn [view it_raw] in Hr.
  assert (view t1 = view t2) as Hv.
  { apply item_view in Hg1, Hg2. rewrite Hr in Hg1. congruence. }
  rewrite Hv in *. split; [done|]. congruence.
Qed.

(** The seal is of the registry's network, its round is of the committee's term and has passed. *)
Definition covers_seal (common : CommonV2) (c : Claim) (en : Entry) : Prop :=
  let network := it_arg (at_ (cl_seal_fields c) 1) in
  let round := it_arg (at_ (cl_seal_fields c) 2) in
  network = cm_network common /\ ent_start en <= round <= cm_round common /\
  match ent_end en with Some stop => round < stop | None => True end.

Lemma seal_in_range_iff common c en : seal_in_range common c en = true <-> covers_seal common c en.
Proof.
  unfold seal_in_range, covers_seal. cbv zeta. rewrite negb_true_iff, !orb_false_iff, negb_false_iff.
  destruct (ent_end en) as [x|]; rewrite ?Z.eqb_eq, ?Z.ltb_ge, ?Z.leb_gt; intuition lia.
Qed.

(** The state of a seal under the loaded entries. *)
Definition seal_ok (common : CommonV2) (loaded : gmap Z Entry) (o : Occurrence) : Prop :=
  exists en, loaded !! seal_epoch o = Some en /\ covers_seal common (oc_claim o) en /\
    has_quorum (oc_claim o) en.

Lemma seal_ok_ext common loaded o1 o2 :
  claim_ok (oc_claim o1) -> claim_ok (oc_claim o2) -> seal_raw o1 = seal_raw o2 ->
  seal_ok common loaded o1 -> seal_ok common loaded o2.
Proof.
  intros Hc1 Hc2 Hr. destruct (seal_determined _ _ Hc1 Hc2 Hr) as [Hs Hf].
  unfold seal_ok, seal_epoch, covers_seal, has_quorum, claim_sigs, seal_message.
  by rewrite Hs, Hf.
Qed.

(** ** The three passes over the distinct claims *)

(** [w'] is [w] and at most the work [bound]. *)
Definition spends (w w' bound : Counters) : Prop :=
  (ct_epoch_loads w <= ct_epoch_loads w' <= ct_epoch_loads w + ct_epoch_loads bound
   /\ ct_key_parses w <= ct_key_parses w' <= ct_key_parses w + ct_key_parses bound
   /\ ct_quorums w <= ct_quorums w' <= ct_quorums w + ct_quorums bound
   /\ ct_signatures w <= ct_signatures w' <= ct_signatures w + ct_signatures bound)
  /\ ct_claims w <= ct_claims w' <= ct_claims w + ct_claims bound
  /\ ct_folds w <= ct_folds w' <= ct_folds w + ct_folds bound
  /\ ct_reads w <= ct_reads w' <= ct_reads w + ct_reads bound.

Lemma spends_trans w1 w2 w3 b1 b2 b :
  spends w1 w2 b1 -> spends w2 w3 b2 -> b = add_work b1 b2 -> spends w1 w3 b.
Proof. intros H1 H2 ->. unfold spends in *. cbn [add_work ct_epoch_loads ct_key_parses ct_quorums
  ct_signatures ct_claims ct_folds ct_reads]. lia. Qed.

Definition fold_work (n : Z) : Counters :=
  {| ct_epoch_loads := 0; ct_key_parses := 0; ct_quorums := 0; ct_signatures := 0; ct_claims := n;
     ct_folds := n; ct_reads := 0 |}.

Lemma fold_all_spec l : forall valid work,
  Forall (fun o => claim_ok (oc_claim o)) l ->
  exists b work', fold_all l valid work = Ok (b, work') /\
    (b = true <-> valid = true /\ Forall (fun o => folds (oc_claim o) = Ok true) l) /\
    spends work work' (fold_work (zlen l)).
Proof.
  induction l as [|o l IH]; intros valid work HF; cbn [fold_all].
  - exists valid, work. split; [done|]. split; [rewrite Forall_nil; tauto|].
    unfold spends, zlen. cbn. lia.
  - apply Forall_cons in HF as [Ho HF]. destruct (folds_decided _ Ho) as [[b Hb] _]. rewrite Hb. cbn [rbind].
    edestruct (IH (valid && b)) as (b' & w' & -> & Hiff & Hw); [done|]. exists b', w'.
    split; [done|]. split.
    + rewrite Hiff, Forall_cons, andb_true_iff, Hb. destruct b; intuition congruence.
    + rewrite zlen_cons. unfold spends in *. cbn in *. lia.
Qed.

Lemma slots_free_spec l : forall slots valid,
  slots_free slots l valid = true <->
  valid = true /\ NoDup (map slot_key l) /\ Forall (fun o => slot_key o ∉ slots) l.
Proof.
  induction l as [|o l IH]; intros slots valid; cbn [slots_free map].
  - rewrite Forall_nil, NoDup_nil. tauto.
  - rewrite NoDup_cons, Forall_cons. case_bool_decide as Ho; rewrite IH.
    + intuition congruence.
    + assert (Hcons : Forall (fun o' => slot_key o' ∉ slot_key o :: slots) l
        <-> (slot_key o ∉ map slot_key l) /\ Forall (fun o' => slot_key o' ∉ slots) l).
      { rewrite !Forall_forall. setoid_rewrite not_elem_of_cons. split.
        - intros Hall. split; [|by intros x Hx; apply Hall].
          intros (x & Hk & Hx)%list_elem_of_fmap. destruct (Hall x Hx) as [Hne _]. by apply Hne.
        - intros [Hn Hall] x Hx. split; [|by apply Hall]. intros Hk. apply Hn. rewrite <- Hk.
          by apply list_elem_of_fmap_2. }
      rewrite Hcons. tauto.
Qed.

Definition seal_work (l : list Occurrence) : Counters :=
  {| ct_epoch_loads := 0; ct_key_parses := 0; ct_quorums := zlen l;
     ct_signatures := foldr Z.add 0 (map (fun o => zlen (claim_sigs (oc_claim o))) l); ct_claims := 0;
     ct_folds := 0; ct_reads := 0 |}.

Lemma seal_work_cons o l work work' :
  spends work work' (seal_work l) -> spends work work' (seal_work (o :: l)).
Proof.
  unfold spends, seal_work. pose proof (zlen_nonneg (claim_sigs (oc_claim o))).
  rewrite zlen_cons. cbn in *. lia.
Qed.

Lemma check_seals_spec common loaded l : forall seen valid work,
  Forall (fun o => claim_ok (oc_claim o)) l ->
  (forall e en, loaded !! e = Some en -> entry_ok en) ->
  exists b work', check_seals common loaded seen l valid work = Ok (b, work') /\
    (b = true <-> valid = true /\ Forall (seal_ok common loaded) (first_seen seal_raw seen l)) /\
    spends work work' (seal_work (first_seen seal_raw seen l)).
Proof.
  induction l as [|o l IH]; intros seen valid work HF Hl; cbn [check_seals first_seen].
  { exists valid, work. split; [done|]. rewrite Forall_nil. split; [tauto|].
    unfold spends, seal_work, zlen. cbn. lia. }
  apply Forall_cons in HF as [Ho HF]. case_bool_decide; [by apply IH|].
  set (rest := first_seen seal_raw (seal_raw o :: seen) l).
  assert (Hfalse : ~ seal_ok common loaded o ->
    exists b work', check_seals common loaded (seal_raw o :: seen) l false work = Ok (b, work') /\
    (b = true <-> valid = true /\ Forall (seal_ok common loaded) (o :: rest)) /\
    spends work work' (seal_work (o :: rest))).
  { intros Hno. destruct (IH (seal_raw o :: seen) false work HF Hl) as (b & w & -> & Hiff & Hw).
    exists b, w. split; [done|]. rewrite Forall_cons, Hiff. split; [intuition congruence|].
    by apply seal_work_cons. }
  destruct (loaded !! seal_epoch o) as [en|] eqn:Hen;
    [|apply Hfalse; intros (? & ? & _); congruence].
  destruct (seal_in_range common (oc_claim o) en) eqn:Hr; cbn [negb];
    [apply seal_in_range_iff in Hr|
     apply Hfalse; intros (? & ? & Hc%seal_in_range_iff & _); congruence].
  destruct (quorum_decided (oc_claim o) en Ho (Hl _ _ Hen)) as (b & -> & Hq). cbn [rbind].
  edestruct IH as (b' & w & -> & Hiff & Hw); [done..|]. exists b', w. split; [done|]. split.
  - assert (seal_ok common loaded o <-> has_quorum (oc_claim o) en) as Ho'.
    { split; [intros (en' & ? & _ & ?); congruence | by exists en]. }
    rewrite Hiff, Forall_cons, andb_true_iff, Hq, Ho'. tauto.
  - unfold spends, seal_work in *. pose proof (zlen_nonneg (claim_sigs (oc_claim o))).
    rewrite zlen_cons. fold rest in Hw. cbn in Hw |- *. lia.
Qed.

End evaluation.

(** ** Loading the committees *)

Section loading.
Context `{Crypto} `{RegistryRead}.

(** Errors of registry reads are the registry's or its host's. *)
Definition registry_error (e : Error HostError) : Prop := e = Registry \/ exists h, e = Host h.

Lemma errs_small v : errs (S := Journal) (lift (small v)) registry_error.
Proof. apply errs_lift. unfold small. intros e. case_match; [done|]. intros [= <-]. by left. Qed.

Lemma errs_or_registry {A} (o : option A) : errs (S := Journal) (lift (ok_or o Registry)) registry_error.
Proof. apply errs_lift. intros e. destruct o; cbn; [done|]. intros [= <-]. by left. Qed.

Lemma errs_read_all ks : errs (read_all ks) registry_error.
Proof.
  induction ks as [|k ks IH]; cbn [read_all]; [apply errs_sret|].
  apply errs_bind; [apply errs_via; intros e; right; eauto|]. intros v.
  apply errs_bind; [done|]. intros vs. apply errs_sret.
Qed.

Lemma registry_error_own : registry_error Registry.
Proof. by left. Qed.

#[local] Hint Resolve errs_small errs_or_registry errs_read_all registry_error_own : unicity.

Ltac errs := repeat (first [apply errs_bind; [solve [eauto 3 with unicity]|intros ?]
  | apply errs_if; [solve [eauto 3 with unicity]|] | solve [eauto 3 with unicity]]).

Lemma errs_read_members epoch n : forall j members sum,
  errs (read_members epoch n j members sum) registry_error.
Proof.
  induction n as [|n IH]; intros; cbn [read_members]; [errs|].
  apply errs_bind; [unfold read_member; errs|]. intros m. errs.
Qed.

Lemma errs_entry epoch : errs (entry epoch) registry_error.
Proof.
  unfold entry. apply errs_bind; [apply errs_read_all|]. intros w.
  apply errs_if; [apply errs_if; eauto with unicity|]. errs.
  apply errs_bind; [apply errs_read_members|]. intros [members sum]. errs.
Qed.

Lemma errs_common pins : errs (common_v2 pins) registry_error.
Proof. unfold common_v2. errs. Qed.

(** The entries a request has loaded are the registry's, lie in its range and agree with its clock. *)
Definition loaded_ok (common : CommonV2) (loaded : gmap Z Entry) : Prop :=
  forall e en, loaded !! e = Some en ->
    (exists j j', entry e j = Ok (Some en, j')) /\ entry_ok en /\ cm_genesis common <= e <= cm_origin common /\ ent_start en <= cm_round common /\
    (if e <? cm_origin common then exists x, ent_end en = Some x /\ x <= cm_round common
     else ent_end en = None).

Definition load_work (n : Z) : Counters :=
  {| ct_epoch_loads := n; ct_key_parses := MAX_MEMBERS * n; ct_quorums := 0; ct_signatures := 0;
     ct_claims := 0; ct_folds := 0; ct_reads := EPOCH_WORDS * n |}.

Lemma load_epochs_spec common epochs : forall loaded work j loaded' work' j',
  loaded_ok common loaded ->
  load_epochs common epochs loaded work j = Ok ((loaded', work'), j') ->
  loaded_ok common loaded' /\ (forall e, is_Some (loaded' !! e) <-> is_Some (loaded !! e) \/
    (e ∈ epochs /\ cm_genesis common <= e <= cm_origin common)) /\
  spends work work' (load_work (zlen epochs)).
Proof.
  induction epochs as [|e epochs IH]; intros loaded work j loaded' work' j' Hok Hl; cbn [load_epochs] in Hl.
  { inv_ok Hl. subst. split; [done|]. split; [set_solver|]. unfold spends, load_work, zlen. cbn. lia. }
  rewrite zlen_cons. pose proof (zlen_nonneg epochs). destruct (_ || _) eqn:Hr.
  { apply IH in Hl as (? & Hd & Hw); [|done]. split; [done|]. split.
    { intros e'. rewrite Hd, elem_of_cons. apply orb_true_iff in Hr. rewrite !Z.ltb_lt in Hr.
      split; [tauto|]. intros [|[[->|] ?]]; auto. lia. }
    unfold spends, load_work, EPOCH_WORDS, MAX_MEMBERS in *. cbn in *. lia. }
  inv_ok Hl. apply map_err_ok_inv in Hok0. destruct a as [en|]; [|done].
  apply entry_sound in Hok0 as He. destruct (if e <? _ then _ else _) eqn:Hi; [done|].
  apply IH in Hl as (? & Hd & Hw).
  - split; [done|]. apply orb_false_iff in Hr. rewrite !Z.ltb_ge in Hr. split.
    { intros e'. rewrite Hd, elem_of_cons, lookup_insert_is_Some'. intuition (subst; auto). }
    destruct He as (_ & Hlen & _).
    unfold spends, load_work, EPOCH_WORDS, MAX_MEMBERS in *. cbn in Hw |- *. lia.
  - intros e' en' [[<- <-] | [_ He']]%lookup_insert_Some; [|by apply Hok].
    split; [eauto|]. split; [done|]. apply orb_false_iff in Hr as [? ?]. split; [lia|].
    destruct (e <? cm_origin common); apply orb_false_iff in Hi as [Hend ?]; (split; [lia|]);
      destruct (ent_end en) as [x|]; try done. exists x. split; [done | lia].
Qed.

(** Every error of the loading loop is one of the registry. *)
Lemma errs_load_epochs common epochs : forall loaded work,
  errs (load_epochs common epochs loaded work) (fun e => exists r, e = Refused r /\ registry_error r).
Proof.
  induction epochs as [|e epochs IH]; intros loaded work; cbn [load_epochs]; [apply errs_sret|].
  apply errs_if; [done|]. apply errs_bind.
  - intros j err. unfold via. destruct (entry e j) eqn:He; [done|]. intros [= <-].
    eexists. split; [done|]. by eapply errs_entry.
  - intros [en|]; [apply errs_if; [|done]|]; apply errs_fail; eexists; (split; [done | by left]).
Qed.

End loading.

(** ** The evaluation of a scanned request *)

Lemma sum_bounds {A} (f : A -> Z) m l :
  (forall x, x ∈ l -> 0 <= f x <= m) -> 0 <= sum_z (map f l) <= m * zlen l.
Proof.
  induction l as [|x l IH]; intros Hm; [unfold zlen; cbn; lia|].
  rewrite zlen_cons. cbn [map sum_z fold_right]. fold (sum_z (map f l)).
  pose proof (Hm x ltac:(left)).
  assert (0 <= sum_z (map f l) <= m * zlen l) by (apply IH; intros; apply Hm; by right). lia.
Qed.

Lemma first_seen_zlen {A K} `{EqDecision K} (key : A -> K) l :
  0 <= zlen (first_seen key [] l) <= zlen l.
Proof. pose proof (first_seen_length key [] l). unfold zlen. lia. Qed.

Lemma distinct_in o l : o ∈ distinct l -> o ∈ l.
Proof. by intros [? _]%first_seen_in. Qed.

Lemma group_bounds l :
  Forall occurrence_of l ->
  let g := group l in
  0 <= dm_e g <= zlen l /\ 0 <= dm_s g <= zlen l /\ 0 <= dm_q g <= 16 * zlen l /\
  0 <= dm_a g <= zlen l /\ 0 <= dm_p g <= 288 * zlen l.
Proof.
  intros HF. cbn [group dm_e dm_s dm_q dm_a dm_p]. rewrite Forall_forall in HF.
  pose proof (first_seen_zlen oc_packed l) as Hd. fold (distinct l) in Hd.
  pose proof (first_seen_zlen seal_epoch (distinct l)). pose proof (first_seen_zlen seal_raw (distinct l)).
  assert (Hq : 0 <= sum_z (map oc_sigs (first_seen seal_raw [] (distinct l)))
               <= 16 * zlen (first_seen seal_raw [] (distinct l))).
  { apply sum_bounds. intros o [Ho _]%first_seen_in. by apply occurrence_parsed, HF, distinct_in. }
  assert (Hp : 0 <= sum_z (map oc_paths (distinct l)) <= 288 * zlen (distinct l)).
  { apply sum_bounds. intros o Ho. by apply occurrence_parsed, HF, distinct_in. }
  split_and!; lia.
Qed.

(** The price of a request does not wrap, and covers what was charged before the scan. *)
Lemma dimensions_gas_exact input s :
  scanned_ok STANDARD input s -> zlen input <= MAX_BYTES ->
  let d := sn_dims s in
  batch_scan_gas (zlen input) (dm_k d) = 60000 + 16 * zlen input + 500 * dm_k d * (dm_k d - 1) /\
  dimensions_gas d = batch_scan_gas (zlen input) (dm_k d) + READ_GAS * (COMMON_WORDS + EPOCH_WORDS * dm_e d)
    + 1000 * MAX_MEMBERS * dm_e d + 7200 * dm_q d + 2000 * dm_a d + 250 * dm_p d /\
  saturating_add 60000 (saturating_mul 16 (zlen input)) <= batch_scan_gas (zlen input) (dm_k d) /\
  batch_scan_gas (zlen input) (dm_k d) <= dimensions_gas d <= 10000000.
Proof.
  intros (HF & Hc & Hk & Hkmax & He & _ & Hq & Ha & Hp & Hqmax) Hlen d. fold d in Hc, Hk, Hkmax, He, Hq, Ha, Hp, Hqmax.
  pose proof (group_bounds _ HF) as (? & _ & ? & ? & ?). rewrite <- He, <- Hq, <- Ha, <- Hp, <- Hk in *.
  pose proof (zlen_nonneg input). cbn [STANDARD lim_claims lim_signatures] in *.
  unfold MAX_BYTES, MAX_CLAIMS, MAX_SIGNATURES in *.
  assert (0 <= 500 * dm_k d * (dm_k d - 1) <= 500 * 16 * 15) by nia.
  assert (Hs : batch_scan_gas (zlen input) (dm_k d) = 60000 + 16 * zlen input + 500 * dm_k d * (dm_k d - 1)).
  { unfold batch_scan_gas, wrap64. rewrite Z.mod_small; lia. }
  unfold dimensions_gas, batch_gas. rewrite Hc, Hs.
  unfold wrap64, READ_GAS, COMMON_WORDS, EPOCH_WORDS, MAX_MEMBERS, saturating_add, saturating_mul, u64_max.
  rewrite Z.mod_small by lia. split_and!; lia.
Qed.

Section evaluated.
Context `{Crypto} `{RegistryRead}.

(** Every claim folds to its seal's root, its seal has a quorum of a committee of the registry, and
    no shard has two claims under one seal. *)
Definition accepted (common : CommonV2) (loaded : gmap Z Entry) (l : list Occurrence) : Prop :=
  Forall (fun o => folds_to (oc_claim o) (it_data (at_ (cl_seal_fields (oc_claim o)) 6))) l /\
  Forall (seal_ok common loaded) l /\
  (forall o1 o2, o1 ∈ l -> o2 ∈ l -> slot_key o1 = slot_key o2 -> o1 = o2).

Lemma distinct_all l (P : Occurrence -> Prop) :
  Forall occurrence_of l -> (Forall P (distinct l) <-> Forall P l).
Proof.
  rewrite !Forall_forall. intros HF. split; intros HP o Ho; [|by apply HP, distinct_in].
  destruct (first_seen_cover oc_packed [] l o Ho) as [[]%not_elem_of_nil | (o' & Ho' & Heq)].
  apply occurrence_inj in Heq as <-; [by apply HP | by apply HF, distinct_in | by apply HF].
Qed.

Lemma seals_all common loaded l :
  Forall occurrence_of l ->
  (Forall (seal_ok common loaded) (first_seen seal_raw [] l) <-> Forall (seal_ok common loaded) l).
Proof.
  rewrite !Forall_forall. intros HF. split; intros HP o Ho; [|by apply HP; apply first_seen_in in Ho as [? _]].
  destruct (first_seen_cover seal_raw [] l o Ho) as [[]%not_elem_of_nil | (o' & Ho' & Heq)].
  pose proof (first_seen_in _ _ _ _ Ho') as [Hin _].
  eapply seal_ok_ext; [| |done|by apply HP]; by apply occurrence_parsed, HF.
Qed.

Lemma slots_all l :
  Forall occurrence_of l ->
  (NoDup (map slot_key (distinct l)) <->
   forall o1 o2, o1 ∈ l -> o2 ∈ l -> slot_key o1 = slot_key o2 -> o1 = o2).
Proof.
  intros HF. split.
  - intros Hnd o1 o2 H1 H2 Heq. rewrite Forall_forall in HF.
    assert (Hin : forall o, o ∈ l -> o ∈ distinct l).
    { intros o Ho. destruct (first_seen_cover oc_packed [] l o Ho) as [[]%not_elem_of_nil | (o' & Ho' & He)].
      apply occurrence_inj in He as <-; [done | by apply HF, distinct_in | by apply HF]. }
    apply Hin, list_elem_of_lookup_1 in H1 as [i Hi]. apply Hin, list_elem_of_lookup_1 in H2 as [j Hj].
    assert (i = j) as <-; [|congruence].
    eapply NoDup_lookup; [done| |]; rewrite list_lookup_fmap; [by rewrite Hi | by rewrite Hj, Heq].
  - intros Hinj. assert (Hnd : NoDup (distinct l)) by (eapply NoDup_fmap_1, first_seen_NoDup).
    assert (Hd : forall o, o ∈ distinct l -> o ∈ l) by (intros; by apply distinct_in).
    revert Hnd Hd. induction (distinct l) as [|o d IH]; [constructor|].
    intros [Ho Hnd]%NoDup_cons Hd. constructor; [|apply IH; [done|]; intros; apply Hd; by right].
    intros (o' & Hk & Ho')%list_elem_of_fmap. apply Hinj in Hk as <-; [done| |]; apply Hd; [left | by right].
Qed.

(** The work a request of dimensions [d] pays for. *)
Definition paid (d : Dimensions) : Counters :=
  {| ct_epoch_loads := dm_e d; ct_key_parses := MAX_MEMBERS * dm_e d; ct_quorums := dm_s d;
     ct_signatures := dm_q d; ct_claims := dm_a d; ct_folds := dm_a d;
     ct_reads := COMMON_WORDS + EPOCH_WORDS * dm_e d |}.

Lemma paid_parts l :
  Forall occurrence_of l ->
  paid (group l) = add_work common_reads
    (add_work (load_work (zlen (map seal_epoch (first_seen seal_epoch [] (distinct l)))))
      (add_work (fold_work (zlen (distinct l))) (seal_work (first_seen seal_raw [] (distinct l))))).
Proof.
  intros HF. unfold paid, group, add_work, common_reads, load_work, fold_work, seal_work, COMMON_WORDS.
  cbn [ct_epoch_loads ct_key_parses ct_quorums ct_signatures ct_claims ct_folds ct_reads dm_e dm_s dm_q dm_a].
  assert (Hm : zlen (map seal_epoch (first_seen seal_epoch [] (distinct l)))
    = zlen (first_seen seal_epoch [] (distinct l))) by (unfold zlen; by rewrite length_map).
  rewrite Hm.
  assert (Hs : forall d, (forall o, o ∈ d -> occurrence_of o) ->
    sum_z (map oc_sigs d) = foldr Z.add 0 (map (fun o => zlen (claim_sigs (oc_claim o))) d)).
  { intros d Hd. unfold sum_z. f_equal. apply map_ext_in. intros o Ho%list_elem_of_In.
    symmetry. by apply occurrence_sigs, Hd. }
  rewrite Hs by (intros o [Ho _]%first_seen_in; rewrite Forall_forall in HF; by apply HF, distinct_in).
  f_equal; lia.
Qed.

(** The epochs a request refers to, and the verdict on it: false while the registry is not in use,
    and else whether the claims are accepted against the committees read for those epochs. *)
Definition epochs_of (l : list Occurrence) : list Z := map seal_epoch (first_seen seal_epoch [] (distinct l)).
Definition verdict (l : list Occurrence) (pins : Pins) (j : Journal) (b : bool) : Prop :=
  exists common j1, common_v2 pins j = Ok (common, j1) /\
    ((b = false /\ (cm_phase common = 1 \/ cm_ready common = false)) \/
     exists loaded work j2,
       load_epochs common (epochs_of l) ∅ (add_work no_work common_reads) j1 = Ok ((loaded, work), j2) /\
       loaded_ok common loaded /\
       (forall e, is_Some (loaded !! e) <-> e ∈ epochs_of l /\ cm_genesis common <= e <= cm_origin common) /\
       cm_phase common <> 1 /\ cm_ready common = true /\
       (b = true <-> accepted common loaded l)).

(** The three passes together. *)
Lemma passes_ok common loaded l w1 :
  Forall occurrence_of l -> loaded_ok common loaded ->
  exists b v w2 w3,
    fold_all (distinct l) true w1 = Ok (v, w2) /\
    check_seals common loaded [] (distinct l) (slots_free [] (distinct l) v) w2 = Ok (b, w3) /\
    (b = true <-> accepted common loaded l) /\
    spends w1 w3 (add_work (fold_work (zlen (distinct l))) (seal_work (first_seen seal_raw [] (distinct l)))).
Proof.
  intros HF Hloaded.
  assert (Hd : Forall occurrence_of (distinct l)) by (by apply distinct_all).
  assert (Hcl : Forall (fun o => claim_ok (oc_claim o)) (distinct l))
    by (eapply Forall_impl; [exact Hd|]; intros o Ho; by apply occurrence_parsed).
  destruct (fold_all_spec _ true w1 Hcl) as (v & w2 & Hf & Hv & Hw2).
  destruct (check_seals_spec common loaded (distinct l) [] (slots_free [] (distinct l) v) w2 Hcl)
    as (b & w3 & Hs & Hb & Hw3); [by intros e en (_ & ? & _)%Hloaded|].
  exists b, v, w2, w3. split; [done|]. split; [done|]. split; [|by eapply spends_trans].
  rewrite Hb, slots_free_spec, Hv, (seals_all _ _ _ Hd), !distinct_all, slots_all by done.
  assert (Hfold : Forall (fun o => folds (oc_claim o) = Ok true) l <->
    Forall (fun o => folds_to (oc_claim o) (it_data (at_ (cl_seal_fields (oc_claim o)) 6))) l).
  { rewrite !Forall_forall in *. split; intros Ho o Hin;
      (destruct (folds_decided (oc_claim o)) as [_ Hiff]; [by apply occurrence_parsed, HF|]);
      by apply Hiff, Ho. }
  rewrite Hfold. unfold accepted. split; [tauto|]. intros (? & ? & ?). split_and!; try done.
  apply Forall_forall. intros ? _. apply not_elem_of_nil.
Qed.

Lemma evaluate_ok s pins j b work j' :
  Forall occurrence_of (sn_claims s) -> evaluate s pins j = Ok ((b, work), j') ->
  verdict (sn_claims s) pins j b /\ spends no_work work (paid (group (sn_claims s))).
Proof.
  intros HF He. unfold evaluate in He. apply sbind_ok_inv in He as (common & j1 & Hc & He).
  apply map_err_ok_inv in Hc. fold (epochs_of (sn_claims s)) in He.
  assert (Hcommon : spends no_work (add_work no_work common_reads) common_reads)
    by (unfold spends; cbn; lia).
  destruct (_ || _) eqn:Hphase.
  { inv_ok He. subst b work. pose proof (group_bounds _ HF) as (? & ? & ? & ? & _).
    split; [|unfold spends, paid, COMMON_WORDS, EPOCH_WORDS, MAX_MEMBERS in *; cbn in *; lia].
    exists common, j1. split; [done|]. left. split; [done|].
    apply orb_true_iff in Hphase as [?%Z.eqb_eq | ?%negb_true_iff]; auto. }
  apply orb_false_iff in Hphase as [Hphase%Z.eqb_neq Hready%negb_false_iff].
  apply sbind_ok_inv in He as ([loaded w1] & j2 & Hl & He).
  pose proof Hl as Hload. apply load_epochs_spec in Hl as (Hloaded & Hd & Hw1); [|by intros ? ? ?%lookup_empty_Some].
  destruct (passes_ok common loaded _ w1 HF Hloaded) as (b' & v & w2 & w3 & Hf & Hs & Hb & Hw3).
  rewrite Hf in He. cbn [map_err] in He. unfold sbind, lift in He. rewrite Hs in He. cbn [map_err] in He.
  injection He as -> -> _. split.
  - exists common, j1. split; [done|]. right. exists loaded, w1, j2.
    split_and!; try done. intros e. rewrite Hd, lookup_empty, is_Some_alt. tauto.
  - rewrite paid_parts by done. eapply spends_trans; [exact Hcommon| |done].
    by eapply spends_trans.
Qed.

Lemma errs_evaluate s pins :
  Forall occurrence_of (sn_claims s) ->
  errs (evaluate s pins) (fun e => exists r, e = Refused r /\ registry_error r).
Proof.
  intros HF. unfold evaluate. intros j e He. unfold sbind at 1, via in He.
  destruct (common_v2 pins j) as [[common j1]|r] eqn:Hc; cbn [map_err] in He;
    [|injection He as <-; eexists; split; [done|]; by eapply errs_common].
  destruct (_ || _); [done|]. unfold sbind at 1 in He.
  destruct (load_epochs _ _ _ _ j1) as [[[loaded w1] j2]|r] eqn:Hl;
    [|injection He as <-; by eapply errs_load_epochs].
  apply load_epochs_spec in Hl as (Hloaded & _); [|by intros ? ? ?%lookup_empty_Some].
  destruct (passes_ok common loaded _ w1 HF Hloaded) as (b' & v & w2 & w3 & Hf & Hs & _).
  rewrite Hf in He. cbn [map_err] in He. unfold sbind, lift in He. by rewrite Hs in He.
Qed.

(** ** A whole call *)

(** The scan's result does not depend on the gas, once that covers the scan. *)
Lemma batch_scan_free {E1 E2} input g1 g2 lim s :
  batch_scan (E := E1) input g1 lim = Ok s ->
  batch_scan (E := E2) input g2 lim
  = if g2 <? batch_scan_gas (zlen input) (dm_k (sn_dims s)) then Err (Refused OutOfGas) else Ok s.
Proof.
  unfold batch_scan. intros Hs. apply rbind_ok_inv in Hs as ([k rest] & Hh & Hs).
  apply map_err_ok_inv in Hh. rewrite Hh. cbn [request_error map_err rbind]. destruct (g1 <? _) eqn:Hg1; [done|].
  apply rbind_ok_inv in Hs as ([l s1] & Hl & Hs). apply map_err_ok_inv in Hl. rewrite Hl. cbn [map_err rbind].
  inv_ok Hs. subst s. done.
Qed.

Lemma batch_scan_refused {E1 E2} input g1 g2 lim m :
  batch_scan (E := E1) input g1 lim = Err (Refused (BadRequest m)) ->
  batch_scan (E := E2) input g2 lim = Err (Refused (BadRequest m)) \/
  batch_scan (E := E2) input g2 lim = Err (Refused OutOfGas).
Proof.
  unfold batch_scan. destruct (batch_header lim input) as [[k rest]|m']; cbn [request_error map_err rbind].
  - destruct (g1 <? _), (g2 <? _); try done; auto.
    destruct (scan_claims _ _ _ _) as [[l s1]|[]]; cbn [map_err rbind of_fault]; [|left; congruence|done].
    repeat case_match; left; congruence.
  - left. congruence.
Qed.

Lemma batch_scan_gas_nonneg c k : 0 <= batch_scan_gas c k.
Proof. unfold batch_scan_gas, wrap64. apply Z.mod_pos_bound. lia. Qed.

Lemma batch_scan_gas_small (input : bytes) k : zlen input <= MAX_BYTES -> 1 <= k <= MAX_CLAIMS ->
  0 <= batch_scan_gas (zlen input) k <= 4374304.
Proof.
  intros. pose proof (zlen_nonneg input). unfold batch_scan_gas, wrap64, MAX_BYTES, MAX_CLAIMS in *.
  assert (0 <= 500 * k * (k - 1) <= 500 * 16 * 15) by nia. rewrite Z.mod_small; lia.
Qed.

Lemma batch_scan_err {E} input gas lim e :
  batch_scan (E := E) input gas lim = Err e ->
  (exists m, e = Refused (BadRequest m)) \/
  (e = Refused OutOfGas /\ exists k, 1 <= k <= lim_claims lim /\ gas < batch_scan_gas (zlen input) k).
Proof.
  intros Hs. assert (Hc : e <> Crash) by (intros ->; by apply batch_scan_no_crash in Hs).
  unfold batch_scan in Hs. destruct (batch_header lim input) as [[k rest]|m] eqn:Hh;
    cbn [request_error map_err rbind] in Hs; [|injection Hs as <-; eauto].
  apply batch_header_ok in Hh. destruct (gas <? _) eqn:Hg; [injection Hs as <-; right; split; [done|]; exists k; lia|].
  destruct (scan_claims _ _ _ _) as [[l s1]|[m|]]; cbn [map_err rbind of_fault] in Hs;
    [|injection Hs as <-; eauto|congruence].
  left. repeat case_match; try done; injection Hs as <-; eauto.
Qed.

(** A request is decided, whatever the gas: it is malformed, or it has dimensions. *)
Lemma dimensions_total input :
  exists r, dimensions input = Some r /\
    match r with
    | Ok d => zlen input <= MAX_BYTES /\
        exists s, batch_scan (E := Empty_set) input u64_max STANDARD = Ok s /\ sn_dims s = d
    | Err m => MAX_BYTES < zlen input \/
        batch_scan (E := Empty_set) input u64_max STANDARD = Err (Refused (BadRequest m))
    end.
Proof.
  unfold dimensions, dimensions_with. cbn [STANDARD lim_bytes]. destruct (_ <? _) eqn:Hlen.
  { exists (Err Limit). split; [done|]. left. lia. }
  destruct (batch_scan _ _ _) as [s|e] eqn:Hs.
  - exists (Ok (sn_dims s)). split; [done|]. split; [lia | eauto].
  - apply batch_scan_err in Hs as [[m ->] | (_ & k & Hk & Hg)]; [exists (Err m); eauto|]. exfalso.
    pose proof (batch_scan_gas_small input k ltac:(lia) Hk). unfold u64_max in *. lia.
Qed.

Lemma run_priced input gas pins j d :
  dimensions input = Some (Ok d) ->
  (gas < dimensions_gas d -> run input gas pins j = Err (Refused OutOfGas)) /\
  (dimensions_gas d <= gas ->
    exists s, batch_scan (E := HostError) input gas STANDARD = Ok s /\ scanned_ok STANDARD input s /\ sn_dims s = d /\
      run input gas pins j = match evaluate s pins j with
        | Ok ((b, work), j') => Ok ((versioned (dimensions_gas d) 2 b, work), j')
        | Err e => Err e
        end).
Proof.
  intros Hd. destruct (dimensions_total input) as (r & Hr & Hs). rewrite Hd in Hr. injection Hr as <-.
  destruct Hs as (Hlen & s & Hs & <-). pose proof (batch_scan_ok _ _ _ _ Hs) as [Hok _].
  destruct (dimensions_gas_exact input s Hok Hlen) as (_ & _ & Hpre & Hge & _).
  unfold run, run_with. cbn [STANDARD lim_bytes]. rewrite (proj2 (Z.ltb_ge MAX_BYTES _)) by lia.
  pose proof (batch_scan_free (E2 := HostError) _ _ gas _ _ Hs) as Hfree. split; intros Hgas.
  - destruct (gas <? saturating_add _ _); [done|]. unfold sbind, lift. rewrite Hfree.
    destruct (gas <? batch_scan_gas _ _); [done|]. by rewrite (proj2 (Z.ltb_lt _ _)) by lia.
  - rewrite (proj2 (Z.ltb_ge gas (batch_scan_gas _ _))) in Hfree by lia. exists s.
    split; [done|]. split; [done|]. split; [done|].
    rewrite (proj2 (Z.ltb_ge gas (saturating_add _ _))) by lia. unfold sbind, lift. rewrite Hfree.
    rewrite (proj2 (Z.ltb_ge gas _)) by lia. by destruct (evaluate s pins j) as [[[b work] j']|].
Qed.


(** An answer was paid for. *)
Lemma run_answers input gas pins j out work j' :
  run input gas pins j = Ok ((out, work), j') ->
  exists d, dimensions input = Some (Ok d) /\ dimensions_gas d <= gas.
Proof.
  intros Hr. destruct (dimensions_total input) as ([d|m] & Hd & Hs).
  - exists d. split; [done|]. destruct (run_priced input gas pins j d Hd) as [Hlt _].
    destruct (Z_lt_le_dec gas (dimensions_gas d)); [|done]. by rewrite Hlt in Hr.
  - exfalso. unfold run, run_with in Hr. cbn [STANDARD lim_bytes] in Hr.
    destruct (MAX_BYTES <? zlen input) eqn:Hlen; [done|].
    destruct Hs as [? | Hs]; [lia|]. destruct (gas <? _); [done|]. unfold sbind, lift in Hr.
    destruct (batch_scan_refused (E2 := HostError) _ _ gas _ _ Hs) as [-> | ->] in Hr; done.
Qed.

End evaluated.

(** ** Properties *)

Section properties.
Context `{Crypto}.


(** C26: Two seals that reach a quorum of one committee are both signed by members of more than a
    third of its weight. *)
Theorem quorum_intersection c1 c2 e n1 n2 :
  claim_ok c1 -> claim_ok c2 -> entry_ok e ->
  quorum c1 e = Ok (true, n1) -> quorum c2 e = Ok (true, n2) ->
  exists m1 m2, seal_message c1 = Ok m1 /\ seal_message c2 = Ok m2 /\
    ent_total e
    < 3 * weight_where (fun m => signed m1 (claim_sigs c1) m && signed m2 (claim_sigs c2) m) (ent_members e).
Proof.
  intros Hc1 Hc2 He Hq1 Hq2.
  destruct (quorum_decided c1 e Hc1 He) as (b1 & Hb1 & Hi1), (quorum_decided c2 e Hc2 He) as (b2 & Hb2 & Hi2).
  rewrite Hq1 in Hb1. rewrite Hq2 in Hb2. injection Hb1 as <- _. injection Hb2 as <- _.
  destruct (proj1 Hi1 eq_refl) as (_ & _ & m1 & Hm1 & Hw1), (proj1 Hi2 eq_refl) as (_ & _ & m2 & Hm2 & Hw2).
  exists m1, m2. split; [done|]. split; [done|]. destruct He as (Hc & _ & Htotal & Hmax & _).
  destruct (threshold_bounds (ent_total e) ltac:(lia)) as [Ht _].
  pose proof (weight_where_and (signed m1 (claim_sigs c1)) (signed m2 (claim_sigs c2)) _ (committee_weights _ Hc)).
  lia.
Qed.

Context `{RegistryRead}.


(** The work of a batch call is within what its dimensions pay for, whatever the registry
    holds; the price is a sum below ten million that does not wrap, and contains the price of every
    storage read. *)
Theorem batch_work_paid input gas pins j out work j' :
  run input gas pins j = Ok ((out, work), j') ->
  exists d, dimensions input = Some (Ok d) /\ out_gas out = dimensions_gas d /\
    spends no_work work (paid d) /\
    READ_GAS * ct_reads work <= out_gas out - batch_scan_gas (dm_c d) (dm_k d) /\
    7200 * ct_signatures work + READ_GAS * ct_reads work <= out_gas out <= 10000000.
Proof.
  intros Hr. destruct (run_answers _ _ _ _ _ _ _ Hr) as (d & Hd & Hg).
  destruct (run_priced input gas pins j d Hd) as [_ Hp].
  destruct (Hp Hg) as (s & Hsc & Hok & <- & Hrun). rewrite Hrun in Hr.
  destruct (evaluate s pins j) as [[[b w] j1]|] eqn:He; [|done]. injection Hr as <- <- <-.
  exists (sn_dims s). split; [done|]. split; [done|].
  pose proof Hok as (HF & Hc & _ & _ & H1 & H2 & H3 & H4 & H5 & _). apply evaluate_ok in He as [_ Hw]; [|done].
  assert (Hpaid : paid (sn_dims s) = paid (group (sn_claims s))) by (unfold paid; congruence).
  rewrite Hpaid. split; [done|].
  destruct (dimensions_total input) as (r & Hr & Hlen). rewrite Hd in Hr. injection Hr as <-. destruct Hlen as [Hlen _].
  destruct (dimensions_gas_exact input s Hok Hlen) as (Hsg & Heq & _ & Hle). rewrite <- Hpaid in Hw.
  pose proof (group_bounds _ HF) as Hg'. cbv zeta in Hg'. rewrite <- H1, <- H2, <- H3, <- H4, <- H5 in Hg'.
  destruct Hw as ((_ & _ & _ & Hsigs) & _ & _ & Hreads).
  cbn [versioned out_gas]. unfold paid, READ_GAS, COMMON_WORDS, EPOCH_WORDS, MAX_MEMBERS in *.
  cbn [no_work ct_signatures ct_reads] in *. rewrite Hc.
  pose proof (batch_scan_gas_nonneg (zlen input) (dm_k (sn_dims s))). lia.
Qed.

(** A batch call never panics and neither does the pricing of a request.  A request that is
    malformed halts the call before any storage read; a priced request halts out of gas exactly when
    the gas is below its price, and else returns that price with 64 bytes of version and verdict,
    or fails fatally because the registry's storage is unreadable or inconsistent. *)
Theorem cert_batch_total pins data gas j :
  exists r, dimensions data = Some r /\
    match r with
    | Err _ => cert_batch_call pins data gas j = Some HaltOutOfGas \/
        cert_batch_call pins data gas j = Some (HaltOther "malformed B1 batch request")
    | Ok d =>
        if gas <? dimensions_gas d then cert_batch_call pins data gas j = Some HaltOutOfGas
        else cert_batch_call pins data gas j = Some Fatal \/
          exists b, cert_batch_call pins data gas j
            = Some (Returned (dimensions_gas d) (out_bytes (versioned (dimensions_gas d) 2 b)))
    end.
Proof.
  destruct (dimensions_total data) as (r & Hd & Hs). exists r. split; [done|]. unfold cert_batch_call.
  destruct r as [d|m].
  - destruct (run_priced data gas pins j d Hd) as [Hlt Hge]. destruct (gas <? dimensions_gas d) eqn:Hg.
    { by rewrite Hlt by lia. }
    destruct Hge as (s & _ & [HF _] & <- & ->); [lia|].
    destruct (evaluate s pins j) as [[[b work] j']|e] eqn:He; [right; by exists b | left].
    apply errs_evaluate in He as (r & -> & Hr); [|done]. by destruct Hr as [-> | [h ->]].
  - unfold run, run_with. cbn [STANDARD lim_bytes]. destruct (MAX_BYTES <? zlen data) eqn:Hlen; [by right|].
    destruct Hs as [? | Hs]; [lia|]. destruct (gas <? _); [by left|]. unfold sbind, lift.
    destruct (batch_scan_refused (E2 := HostError) _ _ gas _ _ Hs) as [-> | ->]; [by right | by left].
Qed.

End properties.

(** ** A concrete batch

    A registry with the committee a, b, c of weights 10, 20 and 5 in epoch 3, and one claim whose
    seal a and b sign. *)

Definition common_cells : list (Z * Z) :=
  map (fun p => (fixed_slot (H := toy_crypto) p.1, p.2))
    (zip common_names [7; 2; 1; 3; 9; 2; 3; 3; 1; 200; 3]).
Definition batch_registry : RegistryRead :=
  toy_registry (common_cells ++ entry_cells 3 1 100 None [10; 20; 5]).
Definition batch_journal : Journal (RegistryRead := batch_registry) := ().
Definition sample_pins : Pins := {| genesis_commitment := 7; profile_hash := 9 |}.
Definition sample_sig (i : nat) : bytes := be_bytes 32 (sample_key_word i) ++ replicate 33 Byte.x00.
Definition quorum_sigs : list (tree * tree) :=
  [(TText (ascii "a"), TBytes (sample_sig 0)); (TText (ascii "b"), TBytes (sample_sig 1))].
Definition batch_input (sigs : list (tree * tree)) : bytes :=
  [Byte.x02; Byte.x00; Byte.x00; Byte.x01] ++ pack_claim (sample_uc 100 3 sigs).

Definition sample_run (gas : Z) :=
  run (H := toy_crypto) (H0 := batch_registry) (batch_input quorum_sigs) gas sample_pins batch_journal.
Definition answer {E J} (r : result E (Output * Counters * J)) : option (Z * Z * Z) :=
  match r with
  | Ok ((out, work), _) => Some (out_gas out, byte_at (out_bytes out) 63, ct_reads work)
  | Err _ => None
  end.
Definition batch_parsed : Parsed * Scan :=
  match parse_claim {| sc_data := pack_claim (sample_uc 100 3 quorum_sigs); sc_tokens := 0 |} with
  | Ok r => r
  | Err _ => sample_parsed
  end.

#[local] Strategy expand [sample_run].

Lemma sample_answer : answer (sample_run 1000000) = Some (118140, 1, 46).
Proof. vm_compute. reflexivity. Qed.

Lemma batch_parse :
  parse_claim {| sc_data := pack_claim (sample_uc 100 3 quorum_sigs); sc_tokens := 0 |}
  = Ok (batch_parsed.1, batch_parsed.2).
Proof. vm_compute. reflexivity. Qed.

Definition sample_claim : Claim := pa_claim batch_parsed.1.

Lemma sample_claim_ok : claim_ok sample_claim.
Proof. apply parsed_claim_ok. eapply parse_claim_ok; [|exact batch_parse]. by vm_compute. Qed.

(** The quorum of the sample claim in the committee a read returned. *)
Definition quorum_read {E J} (r : result E (option (Entry (H := toy_crypto)) * J)) : option Z :=
  match r with
  | Ok (Some e, _) => match quorum sample_claim e with Ok (true, n) => Some n | _ => None end
  | _ => None
  end.

Lemma sample_quorum : quorum_read sample_read = Some 2.
Proof. vm_compute. reflexivity. Qed.

#[local] Strategy opaque [sample_claim batch_parsed].


Lemma quorum_intersection_witness :
  exists e j m, sample_read = Ok (Some e, j) /\ seal_message (H := toy_crypto) sample_claim = Ok m /\
    ent_total e < 3 * weight_where (signed (H := toy_crypto) m (claim_sigs sample_claim)) (ent_members e).
Proof.
  pose proof sample_quorum as Hq. destruct sample_read as [[[e|] j]|] eqn:He; [|discriminate Hq..].
  exists e, j. unfold quorum_read in Hq.
  destruct (quorum sample_claim e) as [[[|] n]|] eqn:Hn; [|discriminate Hq..].
  destruct (quorum_intersection (H := toy_crypto) sample_claim sample_claim e n n sample_claim_ok sample_claim_ok
    (sample_read_ok e j He) Hn Hn)
    as (m1 & m2 & Hm1 & Hm2 & Hw).
  rewrite Hm1 in Hm2. injection Hm2 as <-. exists m1. split; [reflexivity|]. split; [exact Hm1|].
  rewrite (weight_where_ext _ (signed m1 (claim_sigs sample_claim))) in Hw; [exact Hw|].
  intros m. apply andb_diag.
Defined.


Lemma batch_work_paid_witness :
  exists d, dimensions (batch_input quorum_sigs) = Some (Ok d) /\ dimensions_gas d = 118140.
Proof.
  pose proof sample_answer as Ha. destruct (sample_run 1000000) as [[[out work] j]|] eqn:Hr; [|discriminate Ha].
  destruct (batch_work_paid (H := toy_crypto) (H0 := batch_registry) _ _ _ _ _ _ _ Hr) as (d & Hd & Hg & _).
  exists d. split; [exact Hd|]. rewrite <- Hg. injection Ha as -> _ _. reflexivity.
Defined.

End B1Batch.
