(* ===== verification/RegistryTransition.v ===== *)
(** The privileged transition of a block: [crates/unicity/execution/src/lib.rs], from
    [prepare_transition] to [derive_timestamp].

    [execute_registry_transition_on_db] checks the parent's registry words and its assignment,
    admits the two companions, and then makes the calls [open], [importRootRecords] and [finalize]
    with exactly the gas left, committing each before the next; it accepts only if the registry then
    stores the round, the outcome commitment and the closed phase.  The ABI encoder is a parameter
    ([Abi]); the [expect] of [prepare_transition] is the fault [Panicked].  The theorems describe a
    successful transition completely, show that it never panics, and that the derived commitments
    bind their arguments. *)
From S2P Require Import Prelude Crypto CborCodec Errors RootInput RecordImport Evm Hook B1Update B1Registry.

(** ** ABI projections *)

Record AssignmentProjection := {
  ap_old_root_epoch : Z; ap_old_shard_epoch : Z; ap_old_active_conf_hash : bytes;
  ap_new_root_epoch : Z; ap_new_shard_epoch : Z; ap_new_active_conf_hash : bytes;
  ap_supersession_span : Z; ap_supersession_commitment : bytes; ap_projection_hash : bytes }.

Record B1Member := {
  bm_node_id_length : Z; bm_node_id : list bytes; bm_key : list bytes; bm_weight : Z }.

Record B1Entry := {
  be_epoch : Z; be_body_kind : Z; be_body_id : bytes; be_activation_commit_id : bytes;
  be_start : Z; be_has_end : bool; be_end : Z; be_signing_scheme : Z;
  be_signing_config_hash : bytes; be_members : list B1Member }.

Record B1UpdateAbi := {
  ba_prior_tip_epoch : Z; ba_has_old_tip_end : bool; ba_old_tip_end : Z;
  ba_new_entries : list B1Entry }.

Record OpenHead := {
  oh_n : Z; oh_root_round : Z; oh_root_epoch : Z; oh_timestamp : Z;
  oh_tree_root : bytes; oh_origin_identity : bytes; oh_tr_hash : bytes; oh_shard_conf_hash : bytes;
  oh_certified_round : Z; oh_cert_epoch : Z; oh_auth_epoch : Z; oh_state_hash : bytes;
  oh_has_block_hash : bool; oh_block_hash : bytes; oh_input_commitment : bytes;
  oh_transition_count : Z; oh_body_id : bytes; oh_genesis_id : bytes; oh_frozen_id : bytes;
  oh_commit_id : bytes; oh_frozen_parent : bytes; oh_successor_tr : bytes;
  oh_active_conf_hash : bytes }.

Record RootRecord := {
  rr_index : Z; rr_record_id : bytes; rr_predecessor : bytes; rr_kind : Z; rr_progress : Z;
  rr_uc_time : Z; rr_data : bytes }.
Record ImportedRecord := { im_record : RootRecord; im_closed_epoch : Z }.
Record ImportRootRecordsCall := {
  ic_n : Z; ic_p : Z; ic_t : Z; ic_target_count : Z; ic_target_tip : bytes;
  ic_entries : list ImportedRecord }.

(** The calls the program encodes; [alloy_sol_types] encodes them. *)
Class Abi := {
  (** [openArgumentsCall { .. }.abi_encode()[4..]]. *)
  abi_open_arguments : OpenHead -> AssignmentProjection -> B1UpdateAbi -> bytes;
  (** [importRootRecordsCall { n, .. }.abi_encode()]. *)
  abi_import_root_records : ImportRootRecordsCall -> bytes;
  (** [finalizeCall { n, sealRegistryCommitment }.abi_encode()]. *)
  abi_finalize : Z -> bytes -> bytes }.

Definition OPEN_SELECTOR : bytes := map z2b [0x72; 0x42; 0x36; 0xc0].

Definition SEAL_REGISTRY_CODE_HASH : bytes :=
  be_bytes 32 0x8c5b57fd322b9ca1370fca310564a1fba8e80b6ad29a78ceb23aa9ae4113cfe4.
Definition GENESIS_SHARD_CONF_HASH_SLOT : Z :=
  0x4d19b7530faa2fa3495319b01857830cdc6ca35a5b20c4084d10119118d44afe.
Definition ASSIGNMENT_EPOCH_SLOT : Z :=
  0xd1358cd157e8920f4cfe36f79ae73373716b602bf47f574ea08d5281befa59ef.
Definition ASSIGNMENT_ROOT_EPOCH_SLOT : Z :=
  0x52ff97c9251b51e7f509a2b0fc46b23b06051f0336a4c2214c3a1b91f9bd79ad.
Definition ASSIGNMENT_ACTIVE_CONF_HASH_SLOT : Z :=
  0xd56125ba33c296e14f68d6694333af40f3cc48fa5a36f9e92163bf6a6a427ce1.
Definition OUTCOMES_ROUND_SLOT : Z :=
  0xdf6054d2856db510df05f205217ce7e44e297a6e8637b87280ec2ea8c9f4c7ee.
Definition OUTCOMES_COMMITMENT_SLOT : Z :=
  0xa20cac25b5a8a5560378675c46b953deb71e952d3a217adf06a367755ed9e14c.
Definition B1_NETWORK_SLOT : Z :=
  0x36655612ed573010c759ea2241753af111519811fe26d69e6b788feffd5d8a5a.
Definition B1_PROFILE_HASH_SLOT : Z :=
  0x134a17ec577b5250d3bf72a1025982cb0e0dcc333f6fcb9e4b09f238d462e907.
Definition B1_INITIALIZED_SLOT : Z :=
  0x86dbc6fb003fd76a5c36b58ac720e220e7b567a5a78a807dd5110458760d889b.
Definition PHASE_SLOT : Z := 0xbd46d80656ebd65ff40d271a180003a97a8f7200d2b0562e68a0b3455cd447d1.

(** [pad_words::<N>]: chunks of 32 bytes, the last padded on the right, missing ones zero. *)
Fixpoint pad_words (n : nat) (raw : bytes) : list bytes :=
  match n with
  | O => []
  | S n =>
      let chunk := take 32 raw in
      (chunk ++ replicate (32 - length chunk)%nat Byte.x00) :: pad_words n (drop 32 raw)
  end.

Definition member_abi (m : Member) : B1Member := {|
  bm_node_id_length := zlen (m_node_id m); bm_node_id := pad_words 4 (m_node_id m);
  bm_key := pad_words 2 (m_key m); bm_weight := m_weight m |}.

Definition entry_abi (e : Entry) : B1Entry := {|
  be_epoch := en_epoch e; be_body_kind := en_body_kind e; be_body_id := en_body_id e;
  be_activation_commit_id := en_activation_commit_id e; be_start := en_start e;
  be_has_end := if en_end e is Some _ then true else false; be_end := default 0 (en_end e);
  be_signing_scheme := en_signing_scheme e; be_signing_config_hash := en_signing_config_hash e;
  be_members := map member_abi (en_members e) |}.

Definition update_abi (u : Update) : B1UpdateAbi := {|
  ba_prior_tip_epoch := up_prior_tip_epoch u;
  ba_has_old_tip_end := if up_old_tip_end u is Some _ then true else false;
  ba_old_tip_end := default 0 (up_old_tip_end u);
  ba_new_entries := map entry_abi (up_new_entries u) |}.

Definition zero_assignment_projection : AssignmentProjection := {|
  ap_old_root_epoch := 0; ap_old_shard_epoch := 0; ap_old_active_conf_hash := ZERO32;
  ap_new_root_epoch := 0; ap_new_shard_epoch := 0; ap_new_active_conf_hash := ZERO32;
  ap_supersession_span := 0; ap_supersession_commitment := ZERO32; ap_projection_hash := ZERO32 |}.

Record ExecutionConfig := { ec_system_gas_limit : Z; ec_b1 : B1Context }.
Record UpdateInput := { ui_bytes : bytes; ui_records : bytes; ui_parent_number : Z }.
Record ExecutionResult := {
  er_admission_gas : Z; er_records_admission_gas : Z;
  er_open_gas_spent : Z; er_open_gas_refunded : Z;
  er_import_gas_spent : Z; er_import_gas_refunded : Z;
  er_finalize_gas_spent : Z; er_finalize_gas_refunded : Z;
  er_total_gas_spent : Z; er_input_commitment : bytes; er_origin_identity : bytes;
  er_technical_record_hash : bytes; er_registry_commitment : bytes }.
Record PreparedTransition := {
  pt_n : Z; pt_open_data : bytes; pt_input_commitment : bytes; pt_origin_identity : bytes;
  pt_technical_record_hash : bytes }.

(** A transition fails with an error of the source, or reaches its [expect]. *)
Inductive TransitionFault :=
| Failed (e : ExecutionError)
| Panicked.
Definition failing {A} (r : result ExecutionError A) : result TransitionFault A := map_err Failed r.

Section transition.
Context `{Crypto} `{Evm} `{Abi}.

Definition call_data (i : RecordImport) (n : Z) : bytes :=
  abi_import_root_records {|
    ic_n := n; ic_p := rec_progress i; ic_t := rec_uc_time i; ic_target_count := rec_target_count i;
    ic_target_tip := rec_target_tip i;
    ic_entries := map (fun e => {|
      im_record := {| rr_index := re_index e; rr_record_id := re_record_id e;
        rr_predecessor := re_predecessor e; rr_kind := re_kind e; rr_progress := re_progress e;
        rr_uc_time := re_uc_time e; rr_data := re_data e |};
      im_closed_epoch := re_closed_epoch e |}) (rec_entries i) |}.

Definition assignment_projection_hash (t : EpochTransition) : bytes :=
  let domain := keccak256 (ascii "unicity.seal-registry.v2/assignment-ack-projection") in
  keccak256 (domain ++ be_bytes 32 (et_old_root_epoch t) ++ be_bytes 32 (et_old_shard_epoch t)
    ++ et_old_active_conf_hash t
    ++ be_bytes 32 (et_new_root_epoch t) ++ be_bytes 32 (et_new_shard_epoch t)
    ++ et_new_active_conf_hash t
    ++ be_bytes 32 (et_supersession_span t) ++ et_supersession_commitment t).

Definition assignment_projection (t : EpochTransition) : AssignmentProjection := {|
  ap_old_root_epoch := et_old_root_epoch t; ap_old_shard_epoch := et_old_shard_epoch t;
  ap_old_active_conf_hash := et_old_active_conf_hash t;
  ap_new_root_epoch := et_new_root_epoch t; ap_new_shard_epoch := et_new_shard_epoch t;
  ap_new_active_conf_hash := et_new_active_conf_hash t;
  ap_supersession_span := et_supersession_span t;
  ap_supersession_commitment := et_supersession_commitment t;
  ap_projection_hash := assignment_projection_hash t |}.

(** [input.transitions.first().map(decode).transpose()]. *)
Definition first_transition (input : RootInputV2) : result ExecutionError (option EpochTransition) :=
  match ri_transitions input with
  | [] => Ok None
  | raw :: _ =>
      let? t := map_err (fun _ => ExecE.InvalidInput "invalid epoch transition encoding")
                  (decode_epoch_transition raw) in
      Ok (Some t)
  end.

(** The certified round, the state hash and the block hash of the origin. *)
Definition certified_state (class : OriginClass) (ir : InputRecordV2)
    : result TransitionFault (Z * bytes * bool * bytes) :=
  match class with
  | Bootstrap => Ok (0, ZERO32, false, ZERO32)
  | _ =>
      let? state_hash := ok_or (ir_state_hash ir) Panicked in
      Ok (ir_round ir, state_hash, if ir_block_hash ir is Some _ then true else false,
          default ZERO32 (ir_block_hash ir))
  end.

Definition open_head (input : RootInputV2) (transition : option EpochTransition)
    (commitment identity tr_hash genesis_shard_conf_hash : bytes)
    (certified : Z * bytes * bool * bytes) : OpenHead :=
  let '(certified_round, state_hash, has_block_hash, block_hash) := certified in
  let origin := ri_origin input in
  let field (f : EpochTransition -> bytes) := from_option f ZERO32 transition in
  {| oh_n := ri_authorized_round input; oh_root_round := ro_root_round origin;
     oh_root_epoch := ro_root_epoch origin; oh_timestamp := ro_reference_time origin;
     oh_tree_root := ro_tree_root origin; oh_origin_identity := identity; oh_tr_hash := tr_hash;
     oh_shard_conf_hash := genesis_shard_conf_hash; oh_certified_round := certified_round;
     oh_cert_epoch := ri_certified_epoch input; oh_auth_epoch := ri_authorized_epoch input;
     oh_state_hash := state_hash; oh_has_block_hash := has_block_hash; oh_block_hash := block_hash;
     oh_input_commitment := commitment;
     oh_transition_count := if transition is Some _ then 1 else 0;
     oh_body_id := field et_body_id; oh_genesis_id := field et_genesis_id;
     oh_frozen_id := field et_frozen_id; oh_commit_id := field et_commit_id;
     oh_frozen_parent := field et_frozen_parent; oh_successor_tr := field et_successor_tr;
     oh_active_conf_hash := from_option et_new_active_conf_hash (ro_shard_conf_hash origin) transition |}.

Definition prepare_transition (input : RootInputV2) (update : Update) (genesis_shard_conf_hash : bytes)
    : result TransitionFault PreparedTransition :=
  let? class := failing (origin_class input) in
  let? transition := failing (first_transition input) in
  let? commitment := failing (input_commitment input) in
  let? identity := failing (origin_identity input) in
  let tr_hash := technical_record_hash (ri_technical input) in
  let assignment := from_option assignment_projection zero_assignment_projection transition in
  let? certified := certified_state class (ro_input_record (ri_origin input)) in
  let head := open_head input transition commitment identity tr_hash genesis_shard_conf_hash certified in
  Ok {| pt_n := ri_authorized_round input;
        pt_open_data := OPEN_SELECTOR ++ abi_open_arguments head assignment (update_abi update);
        pt_input_commitment := commitment; pt_origin_identity := identity;
        pt_technical_record_hash := tr_hash |}.

(** ** Reading the parent *)

Definition registry_word (db : Db) (slot : Z) : result ExecutionError Z :=
  map_err ExecE.Database (storage db SEAL_REGISTRY slot).

(** The pinned words of the parent: slot, expected value and refusal. *)
Definition pinned_words (b1 : B1Context) : list (Z * Z * string) :=
  [(B1_INITIALIZED_SLOT, 1, "B1 registry is not initialized"%string);
   (B1_NETWORK_SLOT, bc_network b1, "B1 network differs from the profile"%string);
   (B1Registry.fixed_slot "b1.format", 2, "B1 registry layout is not the permanent format 2"%string);
   (B1_PROFILE_HASH_SLOT, be_val (bc_profile_hash b1), "B1 profile hash differs from the profile"%string);
   (B1Registry.fixed_slot "genesisCommitment", be_val (bc_genesis_commitment b1),
      "B1 genesis commitment differs from the deployment pin"%string)].

Definition check_word (db : Db) (p : Z * Z * string) : result ExecutionError () :=
  let '(slot, expected, what) := p in
  let? v := registry_word db slot in
  if negb (v =? expected) then Err (ExecE.B1ProfileMismatch what) else Ok ().

Definition check_parent (db : Db) (b1 : B1Context) : result ExecutionError () :=
  let? account := map_err ExecE.Database (basic_code_hash db SEAL_REGISTRY) in
  let? code_hash :=
    ok_or account (ExecE.InvalidInput "SealRegistry account missing from parent state") in
  if negb (bool_decide (code_hash = SEAL_REGISTRY_CODE_HASH))
  then Err (ExecE.InvalidInput "SealRegistry parent code hash does not match pinned artifact") else
  let? _ := each (check_word db) (pinned_words b1) in
  let? ready := registry_word db (B1Registry.fixed_slot "b1.originReady") in
  let? usable := registry_word db (B1Registry.fixed_slot "origin.rootEpoch") in
  let? imported := registry_word db (B1Registry.fixed_slot "b1.importedTipEpoch") in
  if (ready =? 1) && negb (usable =? imported)
  then Err (ExecE.B1ProfileMismatch "B1 registry usable origin differs from its imported tip") else
  Ok ().

(** The assignment in force: root epoch, shard epoch and active configuration. *)
Definition epoch_ok (input : RootInputV2) (transition : option EpochTransition)
    (assigned assigned_shard : Z) (assigned_active : bytes) : bool :=
  let origin := ri_origin input in
  match transition with
  | Some t =>
      (assigned =? et_old_root_epoch t) && (assigned_shard =? et_old_shard_epoch t)
      && bool_decide (assigned_active = et_old_active_conf_hash t)
      && (ro_root_epoch origin =? et_new_root_epoch t)
      && (ri_authorized_epoch input =? et_new_shard_epoch t)
      && (ri_certified_epoch input =? et_old_shard_epoch t)
      && bool_decide (ro_shard_conf_hash origin = et_new_active_conf_hash t)
  | None =>
      (assigned =? ro_root_epoch origin) && (assigned_shard =? ri_authorized_epoch input)
      && bool_decide (assigned_active = ro_shard_conf_hash origin)
      && (ri_certified_epoch input =? ri_authorized_epoch input)
  end.

(** The genesis configuration hash of a parent whose assignment the input continues. *)
Definition check_assignment (input : RootInputV2) (db : Db) : result ExecutionError bytes :=
  let? assigned := registry_word db ASSIGNMENT_ROOT_EPOCH_SLOT in
  let? assigned_shard := registry_word db ASSIGNMENT_EPOCH_SLOT in
  let? assigned_active := registry_word db ASSIGNMENT_ACTIVE_CONF_HASH_SLOT in
  let? genesis := registry_word db GENESIS_SHARD_CONF_HASH_SLOT in
  let assigned_active_hash := be_bytes 32 assigned_active in
  let genesis_shard_conf_hash := be_bytes 32 genesis in
  if bool_decide (assigned_active_hash = ZERO32) || bool_decide (genesis_shard_conf_hash = ZERO32)
  then Err (ExecE.InvalidInput "SealRegistry assignment is not initialized") else
  let? transition := first_transition input in
  if negb (epoch_ok input transition assigned assigned_shard assigned_active_hash)
  then Err (ExecE.RegistryEpochRefused
              (if assigned <=? u64_max then assigned else u64_max) (ro_root_epoch (ri_origin input)))
  else Ok genesis_shard_conf_hash.
(** ** Admission and the three calls *)

Definition over (limit : Z) : ExecutionError := ExecE.GasBudgetExceeded u64_max limit.

(** The admitted update, the admitted import and the admission gas. *)
Definition admissions (input : RootInputV2) (update : UpdateInput) (config : ExecutionConfig)
    : result ExecutionError (Admitted_update * AdmittedImport * Z) :=
  let limit := ec_system_gas_limit config in
  let? identity := origin_identity input in
  let? admitted := map_err ExecE.B1Update
    (admit_update (ui_bytes update) (ec_b1 config)
      {| ub_committed_hash := ri_b1_update_hash input; ub_parent_hash := ri_parent_hash input;
         ub_parent_number := ui_parent_number update; ub_origin_epoch := ro_root_epoch (ri_origin input);
         ub_origin_round := ro_root_round (ri_origin input); ub_origin_identity := identity |}
      limit) in
  let? rest := ok_or (checked_sub limit (ad_gas admitted))
                 (ExecE.GasBudgetExceeded (ad_gas admitted) limit) in
  let? records := map_err ExecE.RecordImport
    (admit_import (ui_records update) (ri_root_records_hash input) rest) in
  let? gas := ok_or (checked_add (ad_gas admitted) (ai_gas records)) (over limit) in
  Ok (admitted, records, gas).

(** One privileged call: the transaction, its failure modes, and the committed result. *)
Definition privileged (db : Db) (failed : string -> ExecutionError) (data : bytes) (gas_limit : Z)
    : result ExecutionError CallResult :=
  let? r := map_err failed (run_system_call mainnet_env db SYSTEM_CALLER SEAL_REGISTRY data gas_limit) in
  if negb (is_success r) then Err (failed (debug r)) else Ok r.

Definition system_outcome_commitment (open_gas_spent : Z) (commitment : bytes) : bytes :=
  sha256 (array 1 ++ array 5 ++ text (ascii "system") ++ uint open_gas_spent ++ uint 1
          ++ text [] ++ byte_string commitment).

(** The post-state the registry must show. *)
Definition check_outcome (db : Db) (round : Z) (commitment : bytes) : result ExecutionError () :=
  let? stored_round := registry_word db OUTCOMES_ROUND_SLOT in
  let? stored_commitment := registry_word db OUTCOMES_COMMITMENT_SLOT in
  let? stored_phase := registry_word db PHASE_SLOT in
  if negb (stored_round =? round) || negb (stored_commitment =? be_val commitment)
     || negb (stored_phase =? 2)
  then Err (ExecE.FinalizeFailed
    "registry post-state does not contain the finalized round and outcome commitment")
  else Ok ().

(** The calls open, import and finalize on a prepared transition, with the gas spent before them. *)
Definition run_calls (input : RootInputV2) (prepared : PreparedTransition) (records : AdmittedImport)
    (admission_gas limit : Z) (db : Db) : result ExecutionError (ExecutionResult * Db) :=
  let? open := privileged db ExecE.OpenFailed (pt_open_data prepared) (wrap64 (limit - admission_gas)) in
  let db := committed open in
  let? after_open := ok_or (checked_add admission_gas (total_gas_spent open)) (over limit) in
  let? import_remaining := ok_or (checked_sub limit after_open)
                             (ExecE.GasBudgetExceeded after_open limit) in
  let? import := privileged db ExecE.ImportFailed (call_data (ai_import records) (pt_n prepared))
                   import_remaining in
  let db := committed import in
  let? staged_gas := ok_or (checked_add after_open (total_gas_spent import)) (over limit) in
  let commitment := system_outcome_commitment staged_gas (pt_input_commitment prepared) in
  let? remaining := ok_or (checked_sub limit staged_gas) (ExecE.GasBudgetExceeded staged_gas limit) in
  let? finalize := privileged db ExecE.FinalizeFailed (abi_finalize (pt_n prepared) commitment) remaining in
  let db := committed finalize in
  let? total := ok_or (checked_add staged_gas (total_gas_spent finalize)) (over limit) in
  if limit <? total then Err (ExecE.GasBudgetExceeded total limit) else
  let? _ := check_outcome db (ri_authorized_round input) commitment in
  Ok ({| er_admission_gas := admission_gas; er_records_admission_gas := ai_gas records;
         er_open_gas_spent := total_gas_spent open; er_open_gas_refunded := gas_refunded open;
         er_import_gas_spent := total_gas_spent import; er_import_gas_refunded := gas_refunded import;
         er_finalize_gas_spent := total_gas_spent finalize;
         er_finalize_gas_refunded := gas_refunded finalize;
         er_total_gas_spent := total; er_input_commitment := pt_input_commitment prepared;
         er_origin_identity := pt_origin_identity prepared;
         er_technical_record_hash := pt_technical_record_hash prepared;
         er_registry_commitment := commitment |}, db).

Definition execute_registry_transition_on_db (input : RootInputV2) (update : UpdateInput) (db : Db)
    (config : ExecutionConfig) : result TransitionFault (ExecutionResult * Db) :=
  let limit := ec_system_gas_limit config in
  if limit =? 0 then Err (Failed (ExecE.InvalidInput "system gas limit must be positive")) else
  let? _ := failing (origin_class input) in
  let? _ := failing (check_parent db (ec_b1 config)) in
  let? genesis_shard_conf_hash := failing (check_assignment input db) in
  let? (admitted, records, admission_gas) := failing (admissions input update config) in
  let? prepared := prepare_transition input (ad_update admitted) genesis_shard_conf_hash in
  failing (run_calls input prepared records admission_gas limit db).

(** The parent is cloned; only the returned candidate is published. *)
Definition execute_registry_transition (input : RootInputV2) (update : UpdateInput) (parent : Db)
    (config : ExecutionConfig) : result TransitionFault (ExecutionResult * Db) :=
  let candidate := parent in
  let? (result, candidate) := execute_registry_transition_on_db input update candidate config in
  Ok (result, candidate).

(** ** Derived header fields *)

Definition derive_round_domain (domain : string) (root_round shard_round : Z) : bytes :=
  sha256 (array 3 ++ text (ascii domain) ++ uint root_round ++ uint shard_round).
Definition derive_prev_randao (root_round shard_round : Z) : bytes :=
  derive_round_domain "UNICITY_EVM_RANDAO" root_round shard_round.
Definition derive_beacon_root (root_round shard_round : Z) : bytes :=
  derive_round_domain "UNICITY_EVM_BEACON" root_round shard_round.
Definition derive_timestamp (reference_time parent_timestamp : Z) : option Z :=
  next ← checked_add parent_timestamp 1; Some (Z.max reference_time next).
End transition.

(** ** The derived commitments bind their arguments *)

Section commitments.
Context `{Crypto}.

(** The byte strings the two commitments are the hashes of. *)
Definition outcome_bytes (open_gas_spent : Z) (commitment : bytes) : bytes :=
  array 1 ++ array 5 ++ text (ascii "system") ++ uint open_gas_spent ++ uint 1 ++ text [] ++ byte_string commitment.
Definition round_bytes (domain : string) (root_round shard_round : Z) : bytes :=
  array 3 ++ text (ascii domain) ++ uint root_round ++ uint shard_round.

Lemma pair_inj x y : sha256 x = sha256 y -> x = y \/ collision_among sha256 [x; y].
Proof. apply digest_inj; [left | right; left]. Qed.

Lemma uint_prefix a b r1 r2 :
  is_u64 a -> is_u64 b -> zlen r1 <= 1000 -> uint a ++ r1 = uint b ++ r2 -> a = b /\ r1 = r2.
Proof.
  intros Ha Hb Hr. apply (codec_prefix (p := read_uint)); try done.
  rewrite zlen_app. pose proof (uint_length a). ulia.
Qed.

Lemma outcome_inj g1 g2 c1 c2 :
  is_u64 g1 -> is_u64 g2 -> is_word c1 -> is_word c2 ->
  system_outcome_commitment g1 c1 = system_outcome_commitment g2 c2 ->
  (g1 = g2 /\ c1 = c2) \/ collision_among sha256 [outcome_bytes g1 c1; outcome_bytes g2 c2].
Proof.
  intros Hg1 Hg2 Hc1 Hc2 [Heq|]%pair_inj; [left|by right].
  rewrite !(app_assoc (array 1)), !(app_assoc (array 1 ++ array 5)) in Heq. apply app_inv_head in Heq.
  apply uint_prefix in Heq as [-> Heq]; [|done..|].
  - split; [done|]. rewrite !(app_assoc (uint 1)) in Heq. apply app_inv_head in Heq.
    unfold byte_string in Heq. unfold zlen in Heq. rewrite Hc1, Hc2 in Heq. by apply app_inv_head in Heq.
  - assert (zlen (byte_string c1) = 34) by (by apply word_string_length).
    rewrite !zlen_app, H0. by vm_compute.
Qed.

Lemma round_domain_inj d1 d2 r1 n1 r2 n2 :
  d1 ∈ ["UNICITY_EVM_RANDAO"; "UNICITY_EVM_BEACON"]%string ->
  d2 ∈ ["UNICITY_EVM_RANDAO"; "UNICITY_EVM_BEACON"]%string ->
  is_u64 r1 -> is_u64 n1 -> is_u64 r2 -> is_u64 n2 ->
  derive_round_domain d1 r1 n1 = derive_round_domain d2 r2 n2 ->
  (d1 = d2 /\ r1 = r2 /\ n1 = n2) \/ collision_among sha256 [round_bytes d1 r1 n1; round_bytes d2 r2 n2].
Proof.
  intros Hd1 Hd2 Hr1 Hn1 Hr2 Hn2 [Heq|]%pair_inj; [left|by right].
  assert (Hd : forall d, d ∈ ["UNICITY_EVM_RANDAO"; "UNICITY_EVM_BEACON"]%string ->
    length (text (ascii d)) = 19%nat).
  { intros d. rewrite !elem_of_cons. intros [-> | [-> | []%not_elem_of_nil]]; by vm_compute. }
  apply app_inv_head in Heq. apply app_inj_1 in Heq as [Ht Heq]; [|by rewrite !Hd].
  apply uint_prefix in Heq as [-> Heq]; [|done..|pose proof (uint_length n1); lia].
  rewrite <- (app_nil_r (uint n1)), <- (app_nil_r (uint n2)) in Heq.
  apply uint_prefix in Heq as [-> _]; [|done..]. split; [|done].
  revert Ht Hd1 Hd2. rewrite !elem_of_cons.
  intros Ht [-> | [-> | []%not_elem_of_nil]] [-> | [-> | []%not_elem_of_nil]]; done.
Qed.

End commitments.

(** ** A successful transition *)

Section transition_theorems.
Context `{Crypto} `{EvmLaws} `{Abi}.

(** The parent's registry is the pinned one, for the pinned deployment. *)
Definition parent_ok (db : Db) (b1 : B1Context) : Prop :=
  basic_code_hash db SEAL_REGISTRY = Ok (Some SEAL_REGISTRY_CODE_HASH) /\
  Forall (fun p => storage db SEAL_REGISTRY p.1.1 = Ok p.1.2) (pinned_words b1) /\
  (storage db SEAL_REGISTRY (B1Registry.fixed_slot "b1.originReady") = Ok 1 ->
   exists e, storage db SEAL_REGISTRY (B1Registry.fixed_slot "origin.rootEpoch") = Ok e /\
     storage db SEAL_REGISTRY (B1Registry.fixed_slot "b1.importedTipEpoch") = Ok e).

Lemma registry_word_ok db slot v : registry_word db slot = Ok v -> storage db SEAL_REGISTRY slot = Ok v.
Proof. apply map_err_ok_inv. Qed.

Lemma check_parent_ok db b1 : check_parent db b1 = Ok () -> parent_ok db b1.
Proof.
  unfold check_parent. intros Hc. inv_ok Hc. apply map_err_ok_inv in Hok.
  apply ok_or_inv in Hok0. apply negb_false_iff, bool_decide_eq_true in Heqb. subst. split; [done|]. destruct a1. split.
  - apply each_ok_Forall in Hok1. eapply Forall_impl; [exact Hok1|].
    intros [[slot expected] what]. unfold check_word. intros Hw. inv_ok Hw.
    apply negb_false_iff, Z.eqb_eq in Heqb. subst. by apply registry_word_ok.
  - intros Hr. apply registry_word_ok in Hok2, Hok3, Hok4. rewrite Hr in Hok2. injection Hok2 as <-.
    apply andb_false_iff in Heqb0 as [Hf|He%negb_false_iff%Z.eqb_eq]; [by vm_compute in Hf|]. subst. eauto.
Qed.

(** The assignment the parent's registry holds. *)
Definition assigned (db : Db) (root_epoch shard_epoch : Z) (conf_hash : bytes) : Prop :=
  storage db SEAL_REGISTRY ASSIGNMENT_ROOT_EPOCH_SLOT = Ok root_epoch /\
  storage db SEAL_REGISTRY ASSIGNMENT_EPOCH_SLOT = Ok shard_epoch /\
  conf_hash <> ZERO32 /\
  exists w, storage db SEAL_REGISTRY ASSIGNMENT_ACTIVE_CONF_HASH_SLOT = Ok w /\ be_bytes 32 w = conf_hash.

(** The input continues it: unchanged, or along one decoded transition. *)
Definition continues (input : RootInputV2) (db : Db) : Prop :=
  let origin := ri_origin input in
  match ri_transitions input with
  | [] => assigned db (ro_root_epoch origin) (ri_authorized_epoch input) (ro_shard_conf_hash origin) /\
      ri_certified_epoch input = ri_authorized_epoch input
  | raw :: _ => exists t, decode_epoch_transition raw = Ok t /\
      assigned db (et_old_root_epoch t) (et_old_shard_epoch t) (et_old_active_conf_hash t) /\
      ro_root_epoch origin = et_new_root_epoch t /\ ri_authorized_epoch input = et_new_shard_epoch t /\
      ri_certified_epoch input = et_old_shard_epoch t /\ ro_shard_conf_hash origin = et_new_active_conf_hash t
  end.

Lemma check_assignment_ok input db g :
  check_assignment input db = Ok g ->
  continues input db /\ g <> ZERO32 /\
  exists w, storage db SEAL_REGISTRY GENESIS_SHARD_CONF_HASH_SLOT = Ok w /\ g = be_bytes 32 w.
Proof.
  unfold check_assignment. intros Hc. inv_ok Hc. subst g.
  apply registry_word_ok in Hok, Hok0, Hok1, Hok2.
  apply orb_false_iff in Heqb as [Ha%bool_decide_eq_false Hg%bool_decide_eq_false].
  split; [|split; [done | eauto]].
  unfold continues, first_transition, epoch_ok in *.
  destruct (ri_transitions input) as [|raw rest].
  - injection Hok3 as <-. apply negb_false_iff in Heqb0. revert Heqb0.
    rewrite !andb_true_iff, !Z.eqb_eq, bool_decide_eq_true. intros [[[-> ->] <-] ->].
    unfold assigned. split_and!; try done. eauto.
  - apply rbind_ok_inv in Hok3 as (t & Ht & Hok3). injection Hok3 as <-. apply map_err_ok_inv in Ht.
    apply negb_false_iff in Heqb0. revert Heqb0.
    rewrite !andb_true_iff, !Z.eqb_eq, !bool_decide_eq_true. intros [[[[[[-> ->] He] ?] ?] ?] ?].
    exists t. unfold assigned. split_and!; try done; [congruence|]. eauto.
Qed.

(** The binding of the update to the input and its parent. *)
Definition binding_of (input : RootInputV2) (update : UpdateInput) (identity : bytes) : UpdateBinding :=
  {| ub_committed_hash := ri_b1_update_hash input; ub_parent_hash := ri_parent_hash input;
     ub_parent_number := ui_parent_number update; ub_origin_epoch := ro_root_epoch (ri_origin input);
     ub_origin_round := ro_root_round (ri_origin input); ub_origin_identity := identity |}.

Lemma admit_import_gas raw h budget a : admit_import raw h budget = Ok a -> 0 <= ai_gas a <= budget.
Proof.
  unfold admit_import. pose proof (zlen_nonneg raw). intros Ha.
  destruct (MAX_IMPORT_BYTES <? zlen raw) eqn:Hlen; [done|].
  rewrite scan_gas_small in Ha by lia. cbn [ok_or rbind] in Ha. inv_ok Ha.
  apply walk_sound in Hok as (i & -> & Hi & -> & _); [|unfold slice_max, MAX_IMPORT_BYTES in *; lia].
  pose proof Hi as (_ & _ & _ & _ & _ & Hn & _). pose proof (zlen_nonneg (rec_entries i)).
  cbn [hd_entries header_of] in Hok0. rewrite entry_gas_small in Hok0 by lia. injection Hok0 as <-.
  subst a. cbn [ai_gas]. unfold SCAN_BASE_GAS, SCAN_BYTE_GAS, ENTRY_GAS in *. lia.
Qed.

Lemma admit_update_gas raw c b budget a : admit_update raw c b budget = Ok a -> 0 <= ad_gas a <= budget.
Proof.
  destruct a as [u g]. intros (_ & _ & Hu & _ & _ & _ & -> & Hle)%admit_inv. cbn [ad_gas]. split; [|done].
  pose proof (zlen_nonneg raw). pose proof (members_of_nonneg u).
  unfold update_gas, UPDATE_SCAN_BASE_GAS, UPDATE_SCAN_BYTE_GAS, MEMBER_GAS. lia.
Qed.

(** What the admissions establish; they never run into the gas guards. *)
Lemma admissions_ok input update config u i g :
  admissions input update config = Ok (u, i, g) ->
  exists identity, origin_identity input = Ok identity /\
    admit_update (ui_bytes update) (ec_b1 config) (binding_of input update identity)
      (ec_system_gas_limit config) = Ok u /\
    admit_import (ui_records update) (ri_root_records_hash input)
      (ec_system_gas_limit config - ad_gas u) = Ok i /\
    g = ad_gas u + ai_gas i /\ 0 <= g <= ec_system_gas_limit config.
Proof.
  unfold admissions. intros Ha. inv_ok Ha. subst.
  apply map_err_ok_inv in Hok0, Hok2. apply ok_or_inv in Hok1, Hok3.
  apply checked_sub_some in Hok1 as [-> Hle]. unfold checked_add in Hok3. case_match; [|done].
  injection Hok3 as <-. pose proof (admit_update_gas _ _ _ _ _ Hok0).
  pose proof (admit_import_gas _ _ _ _ Hok2). exists a. split_and!; try done; lia.
Qed.

(** A committed privileged call. *)
Definition called (db : Db) (data : bytes) (limit : Z) (c : CallResult) : Prop :=
  run_system_call mainnet_env db SYSTEM_CALLER SEAL_REGISTRY data limit = Ok c /\
  is_success c = true /\ 0 <= total_gas_spent c <= limit.

Lemma privileged_ok db failed data limit c :
  0 <= limit -> privileged db failed data limit = Ok c -> called db data limit c.
Proof.
  intros Hl Hp. unfold privileged in Hp. inv_ok Hp. subst. apply map_err_ok_inv in Hok.
  apply negb_false_iff in Heqb. split_and!; try done; eapply call_gas_range; done.
Qed.

(** The three calls, each on the state the previous one committed and with all the gas left. *)
Record calls_done (input : RootInputV2) (p : PreparedTransition) (i : AdmittedImport) (limit : Z)
    (db : Db) (r : ExecutionResult) (db' : Db) : Prop := {
  cd_calls : exists c1 c2 c3,
    called db (pt_open_data p) (limit - er_admission_gas r) c1 /\
    called (committed c1) (call_data (ai_import i) (pt_n p))
      (limit - er_admission_gas r - total_gas_spent c1) c2 /\
    called (committed c2) (abi_finalize (pt_n p) (er_registry_commitment r))
      (limit - er_admission_gas r - total_gas_spent c1 - total_gas_spent c2) c3 /\
    db' = committed c3 /\ er_open_gas_spent r = total_gas_spent c1 /\
    er_import_gas_spent r = total_gas_spent c2 /\ er_finalize_gas_spent r = total_gas_spent c3;
  cd_gas : er_total_gas_spent r = er_admission_gas r + er_open_gas_spent r + er_import_gas_spent r
             + er_finalize_gas_spent r /\ er_total_gas_spent r <= limit;
  cd_commitment : er_registry_commitment r
    = system_outcome_commitment (er_admission_gas r + er_open_gas_spent r + er_import_gas_spent r)
        (pt_input_commitment p);
  cd_state : storage db' SEAL_REGISTRY OUTCOMES_ROUND_SLOT = Ok (ri_authorized_round input) /\
    storage db' SEAL_REGISTRY OUTCOMES_COMMITMENT_SLOT = Ok (be_val (er_registry_commitment r)) /\
    storage db' SEAL_REGISTRY PHASE_SLOT = Ok 2;
  cd_result : er_input_commitment r = pt_input_commitment p /\
    er_origin_identity r = pt_origin_identity p /\
    er_technical_record_hash r = pt_technical_record_hash p /\ er_records_admission_gas r = ai_gas i }.

Lemma check_outcome_ok db round c :
  check_outcome db round c = Ok () ->
  storage db SEAL_REGISTRY OUTCOMES_ROUND_SLOT = Ok round /\
  storage db SEAL_REGISTRY OUTCOMES_COMMITMENT_SLOT = Ok (be_val c) /\
  storage db SEAL_REGISTRY PHASE_SLOT = Ok 2.
Proof.
  unfold check_outcome. intros Hc. inv_ok Hc. apply registry_word_ok in Hok, Hok0, Hok1.
  revert Heqb. rewrite !orb_false_iff, !negb_false_iff, !Z.eqb_eq. by intros [[-> ->] ->].
Qed.

Lemma run_calls_ok input p i g limit db r db' :
  0 <= g <= limit -> is_u64 limit -> run_calls input p i g limit db = Ok (r, db') ->
  calls_done input p i limit db r db' /\ er_admission_gas r = g.
Proof.
  intros Hg Hl Hr. unfold run_calls in Hr. cbv zeta in Hr.
  assert (Hw : wrap64 (limit - g) = limit - g) by (unfold wrap64; apply Z.mod_small; ulia).
  rewrite Hw in Hr. inv_ok Hr.
  unfold checked_add, checked_sub in *.
  repeat match goal with
  | Ho : ok_or (if ?b then _ else _) _ = Ok _ |- _ => destruct b eqn:?; [|discriminate Ho]; injection Ho as <-
  end.
  apply privileged_ok in Hok, Hok2, Hok5; [|lia..]. destruct a7. subst r db'.
  apply check_outcome_ok in Hok7. split; [|done]. split; cbn -[Z.add Z.sub]; try done; [|lia].
  exists a, a2, a5. rewrite !Z.sub_add_distr in *. by split_and!.
Qed.

(** ** Errors that cannot happen *)

(** The error is not the gas guard. *)
Definition not_over {A} (r : result ExecutionError A) : Prop :=
  forall spent limit, r <> Err (ExecE.GasBudgetExceeded spent limit).

Lemma not_over_bind {A B} (c : result ExecutionError A) (k : A -> result ExecutionError B) :
  not_over c -> (forall a, c = Ok a -> not_over (k a)) -> not_over (rbind c k).
Proof. intros Hc Hk. destruct c; [by apply Hk|]. intros s l [= ->]. by eapply Hc. Qed.

Lemma not_over_map {E A} (f : E -> ExecutionError) (c : result E A) :
  (forall e s l, f e <> ExecE.GasBudgetExceeded s l) -> not_over (map_err f c).
Proof. intros Hf s l. destruct c; [done|]. intros [= He]. by apply Hf in He. Qed.

Lemma not_over_some {A} (o : option A) a e : o = Some a -> not_over (ok_or o e).
Proof. by intros ->. Qed.

Lemma origin_class_not_over input : not_over (origin_class input).
Proof.
  unfold origin_class. cbv zeta.
  repeat (match goal with |- not_over (if ?b then _ else _) => destruct b; [done|] end).
  apply not_over_bind.
  - destruct (ri_transitions input) as [|raw rest]; [by destruct (negb _)|].
    apply not_over_bind; [by apply not_over_map|]. intros t _. by destruct (negb _).
  - intros _ _. destruct (negb _); [done|]. unfold classify. repeat case_match; done.
Qed.

Lemma registry_word_not_over db slot : not_over (registry_word db slot).
Proof. by apply not_over_map. Qed.

Ltac not_over := repeat (first [apply not_over_bind; [apply registry_word_not_over|intros ? _]
  | match goal with |- not_over (if ?b then _ else _) => destruct b; [done|] end | done]).

Lemma check_parent_not_over db b1 : not_over (check_parent db b1).
Proof.
  unfold check_parent. apply not_over_bind; [by apply not_over_map|]. intros account _.
  apply not_over_bind; [by destruct account|]. intros code _. not_over.
  apply not_over_bind; [|intros _ _; not_over].
  induction (pinned_words b1) as [|[[slot v] what] l IH]; [done|]. cbn [each].
  apply not_over_bind; [unfold check_word; not_over | done].
Qed.

Lemma first_transition_not_over input : not_over (first_transition input).
Proof.
  unfold first_transition. case_match; [done|]. apply not_over_bind; [by apply not_over_map | done].
Qed.

Lemma check_assignment_not_over input db : not_over (check_assignment input db).
Proof.
  unfold check_assignment. not_over. apply not_over_bind; [apply first_transition_not_over|].
  intros t _. by destruct (negb _).
Qed.

Lemma identity_not_over input : not_over (origin_identity input).
Proof. apply not_over_bind; [apply origin_class_not_over | done]. Qed.

Lemma commitment_not_over input : not_over (input_commitment input).
Proof.
  apply not_over_bind; [|done]. apply not_over_bind; [apply origin_class_not_over | done].
Qed.

Lemma admissions_not_over input update config :
  is_u64 (ec_system_gas_limit config) -> not_over (admissions input update config).
Proof.
  intros Hl. unfold admissions. cbv zeta. apply not_over_bind; [apply identity_not_over|]. intros identity _. apply not_over_bind; [by apply not_over_map|].
  intros u Hu%map_err_ok_inv%admit_update_gas.
  apply not_over_bind.
  { eapply not_over_some, checked_sub_some. split; [done | lia]. }
  intros rest Hr%ok_or_inv%checked_sub_some. destruct Hr as [-> _].
  apply not_over_bind; [by apply not_over_map|]. intros i Hi%map_err_ok_inv%admit_import_gas.
  apply not_over_bind; [|by intros g _]. eapply not_over_some. unfold checked_add.
  by rewrite (proj2 (Z.leb_le _ _)) by ulia.
Qed.

Lemma privileged_not_over db failed data limit :
  (forall m s l, failed m <> ExecE.GasBudgetExceeded s l) -> not_over (privileged db failed data limit).
Proof.
  intros Hf. unfold privileged. apply not_over_bind; [by apply not_over_map|].
  intros c _ s l. destruct (negb _); [|done]. intros [= He]. by apply Hf in He.
Qed.

Lemma run_calls_not_over input p i g limit db :
  0 <= g <= limit -> is_u64 limit -> not_over (run_calls input p i g limit db).
Proof.
  intros Hg Hl. unfold run_calls. cbv zeta.
  assert (Hw : wrap64 (limit - g) = limit - g) by (unfold wrap64; apply Z.mod_small; ulia).
  rewrite Hw. apply not_over_bind; [by apply privileged_not_over|].
  intros c1 (_ & _ & Hs1)%privileged_ok; [|lia].
  unfold checked_add, checked_sub. rewrite (proj2 (Z.leb_le _ u64_max)) by ulia. cbn [ok_or rbind].
  rewrite (proj2 (Z.leb_le _ limit)) by ulia. cbn [ok_or rbind].
  apply not_over_bind; [by apply privileged_not_over|]. intros c2 (_ & _ & H2')%privileged_ok; [|lia].
  rewrite (proj2 (Z.leb_le _ u64_max)) by ulia. cbn [ok_or rbind].
  rewrite (proj2 (Z.leb_le _ limit)) by ulia. cbn [ok_or rbind].
  apply not_over_bind; [by apply privileged_not_over|]. intros c3 (_ & _ & H3')%privileged_ok; [|lia].
  rewrite (proj2 (Z.leb_le _ u64_max)) by ulia. cbn [ok_or rbind].
  rewrite (proj2 (Z.ltb_ge _ _)) by ulia. apply not_over_bind; [|done].
  unfold check_outcome. not_over.
Qed.

(** A stage that is not over its budget, followed by the rest. *)
Lemma fault_bind {A B} (c : result ExecutionError A) (k : A -> result TransitionFault B) e :
  not_over c -> rbind (failing c) k = Err e ->
  (exists err, e = Failed err /\ forall spent limit, err <> ExecE.GasBudgetExceeded spent limit) \/
  exists a, c = Ok a /\ k a = Err e.
Proof.
  intros Hc He. destruct c as [a|err]; cbn [failing map_err rbind] in He; [right; eauto|].
  left. injection He as <-. exists err. split; [done|]. intros s l ->. by eapply Hc.
Qed.

Lemma certified_state_total class input :
  origin_class input = Ok class ->
  exists c, certified_state class (ro_input_record (ri_origin input)) = Ok c.
Proof.
  intros Hc. assert (Hir : classify (ro_input_record (ri_origin input)) = Ok class).
  { unfold origin_class in Hc. cbv zeta in Hc.
    repeat match type of Hc with (if ?b then _ else _) = Ok _ => destruct b; [done|] end.
    apply rbind_ok_inv in Hc as (_ & _ & Hc). by destruct (negb _). }
  unfold certified_state. destruct class; [eauto|..];
    (destruct (ir_state_hash _) eqn:Hs; [cbn [ok_or rbind]; eauto|]);
    unfold classify in Hir; rewrite Hs in Hir; repeat case_match; done.
Qed.

(** The [expect] of the transition is never reached. *)
Lemma failing_calm {A B} (c : result ExecutionError A) (k : A -> result TransitionFault B) :
  (forall a, c = Ok a -> k a <> Err Panicked) -> rbind (failing c) k <> Err Panicked.
Proof. destruct c as [a|err]; cbn; [by intros Hk; apply Hk|done]. Qed.

Lemma prepare_calm input u g : prepare_transition input u g <> Err Panicked.
Proof.
  unfold prepare_transition. apply failing_calm. intros class Hc. do 3 (apply failing_calm; intros ? _). cbv zeta.
  destruct (certified_state_total _ _ Hc) as [c ->]. done.
Qed.

Lemma on_db_calm input update db config : execute_registry_transition_on_db input update db config <> Err Panicked.
Proof.
  unfold execute_registry_transition_on_db. cbv zeta. destruct (_ =? 0); [done|]. do 3 (apply failing_calm; intros ? _).
  apply failing_calm. intros [[u i] g] _. pose proof (prepare_calm input (ad_update u) a1).
  destruct (prepare_transition _ _ _) as [p|f]; cbn [rbind]; [by destruct (run_calls _ _ _ _ _ _)|congruence].
Qed.

Lemma prepare_ok input u g p :
  prepare_transition input u g = Ok p ->
  pt_n p = ri_authorized_round input /\ input_commitment input = Ok (pt_input_commitment p) /\
  origin_identity input = Ok (pt_origin_identity p) /\
  pt_technical_record_hash p = technical_record_hash (ri_technical input).
Proof.
  unfold prepare_transition. cbv zeta. intros Hp. inv_ok Hp. apply map_err_ok_inv in Hok1, Hok2. by subst p.
Qed.

Lemma on_db_ok input update db config r db' :
  is_u64 (ec_system_gas_limit config) ->
  execute_registry_transition_on_db input update db config = Ok (r, db') ->
  parent_ok db (ec_b1 config) /\ continues input db /\
  exists u i p genesis,
    admissions input update config = Ok (u, i, er_admission_gas r) /\
    prepare_transition input (ad_update u) genesis = Ok p /\
    calls_done input p i (ec_system_gas_limit config) db r db' /\
    input_commitment input = Ok (er_input_commitment r) /\
    origin_identity input = Ok (er_origin_identity r).
Proof.
  intros Hl He. unfold execute_registry_transition_on_db in He. cbv zeta in He. inv_ok He.
  apply map_err_ok_inv in He, Hok, Hok0, Hok1, Hok2. destruct a0. subst.
  pose proof (admissions_ok _ _ _ _ _ _ Hok2) as (_ & _ & _ & _ & _ & Hg).
  split; [by apply check_parent_ok|]. split; [by eapply check_assignment_ok|].
  apply run_calls_ok in He as [Hd <-]; [|done..].
  pose proof (prepare_ok _ _ _ _ Hok3) as (_ & Hic & Hid & _). destruct (cd_result _ _ _ _ _ _ _ Hd) as (-> & -> & _).
  eauto 12.
Qed.

(** The reported total is within the limit. *)
Lemma on_db_gas input update db config r db' :
  is_u64 (ec_system_gas_limit config) ->
  execute_registry_transition_on_db input update db config = Ok (r, db') ->
  0 <= er_total_gas_spent r <= ec_system_gas_limit config.
Proof.
  intros Hl He. apply on_db_ok in He as (_ & _ & u & i & p & g & Ha & _ & Hd & _); [|done].
  apply admissions_ok in Ha as (_ & _ & _ & _ & _ & Hg).
  destruct (cd_gas _ _ _ _ _ _ _ Hd) as [-> ?], (cd_calls _ _ _ _ _ _ _ Hd) as (c1 & c2 & c3 & (_ & _ & G1) & (_ & _ & G2) & (_ & _ & G3) & _ & -> & -> & ->).
  lia.
Qed.

(** C3: a transition that succeeds.  The parent's registry runs the pinned code with the pinned words,
    and the input continues its assignment, unchanged or along the one decoded transition; both
    companions were admitted against the input, within the budget.  Exactly three privileged calls
    were committed, open, import and finalize, each on the state of the one before and with exactly
    the gas the budget still had; their gas and the admission gas add up to the reported total, which
    is within the limit.  The registry then stores the authorized round, the closed phase, and the
    commitment to the gas before finalize and to the input, and the result reports these values. *)
Theorem transition_ok input update db config r db' :
  is_u64 (ec_system_gas_limit config) ->
  execute_registry_transition input update db config = Ok (r, db') ->
  parent_ok db (ec_b1 config) /\ continues input db /\
  exists u i p genesis,
    admissions input update config = Ok (u, i, er_admission_gas r) /\
    prepare_transition input (ad_update u) genesis = Ok p /\
    calls_done input p i (ec_system_gas_limit config) db r db' /\
    input_commitment input = Ok (er_input_commitment r) /\
    origin_identity input = Ok (er_origin_identity r).
Proof.
  intros Hl He. apply on_db_ok; [done|]. unfold execute_registry_transition in He. cbv zeta in He.
  apply rbind_ok_inv in He as ([r0 db0] & He & Heq). injection Heq as -> ->. exact He.
Qed.

(** C40: With an engine that never spends more than a call's limit, the gas guards of the transition
    are unreachable, the subtraction that computes the gas of open does not wrap, and the [expect]
    on the certified state hash holds: no transition panics and none fails with
    [GasBudgetExceeded]. *)
Theorem transition_faults input update db config e :
  is_u64 (ec_system_gas_limit config) ->
  execute_registry_transition input update db config = Err e ->
  exists err, e = Failed err /\ forall spent limit, err <> ExecE.GasBudgetExceeded spent limit.
Proof.
  intros Hl He.
  assert (Hon : execute_registry_transition_on_db input update db config = Err e).
  { unfold execute_registry_transition in He. cbv zeta in He.
    destruct (execute_registry_transition_on_db input update db config) as [[r0 db0]|e0]; [done|].
    cbn [rbind] in He. congruence. }
  clear He. unfold execute_registry_transition_on_db in Hon. cbv zeta in Hon.
  destruct (_ =? 0); [injection Hon as <-; eauto|].
  apply fault_bind in Hon as [|(class & Hclass & Hon)]; [done| |apply origin_class_not_over].
  apply fault_bind in Hon as [|([] & _ & Hon)]; [done| |apply check_parent_not_over].
  apply fault_bind in Hon as [|(genesis & _ & Hon)]; [done| |apply check_assignment_not_over].
  apply fault_bind in Hon as [|([[u i] g] & Ha & Hon)]; [done| |by apply admissions_not_over].
  apply admissions_ok in Ha as (_ & _ & _ & _ & _ & Hg).
  destruct (prepare_transition _ _ _) as [p|f] eqn:Hp; cbn [rbind] in Hon.
  - destruct (run_calls _ _ _ _ _ _) as [|err] eqn:Hr; [done|]. injection Hon as <-. exists err.
    split; [done|]. intros s l ->. by eapply run_calls_not_over.
  - injection Hon as ->. unfold prepare_transition in Hp. cbv zeta in Hp.
    apply fault_bind in Hp as [|(class' & Hc' & Hp)]; [done| |apply origin_class_not_over].
    apply fault_bind in Hp as [|(t & _ & Hp)]; [done| |apply first_transition_not_over].
    apply fault_bind in Hp as [|(c & _ & Hp)]; [done| |apply commitment_not_over].
    apply fault_bind in Hp as [|(o & _ & Hp)]; [done| |apply identity_not_over].
    destruct (certified_state_total _ _ Hc') as [cs Hcs]. by rewrite Hcs in Hp.
Qed.
End transition_theorems.

(** The derived values bind what they are derived from.  Equal outcome commitments have equal
    gas figures and input commitments, equal randomness or equal beacon roots have equal root and
    shard rounds, and no randomness equals a beacon root, unless the two byte strings hashed are
    different and have one SHA-256 digest. *)
Theorem derived_binding `{Crypto} g1 g2 c1 c2 r1 r2 n1 n2 :
  is_u64 g1 -> is_u64 g2 -> is_word c1 -> is_word c2 ->
  is_u64 r1 -> is_u64 r2 -> is_u64 n1 -> is_u64 n2 ->
  (system_outcome_commitment g1 c1 = system_outcome_commitment g2 c2 ->
   (g1 = g2 /\ c1 = c2) \/ collision_among sha256 [outcome_bytes g1 c1; outcome_bytes g2 c2]) /\
  (derive_prev_randao r1 n1 = derive_prev_randao r2 n2 -> (r1 = r2 /\ n1 = n2) \/
   collision_among sha256 [round_bytes "UNICITY_EVM_RANDAO" r1 n1; round_bytes "UNICITY_EVM_RANDAO" r2 n2]) /\
  (derive_beacon_root r1 n1 = derive_beacon_root r2 n2 -> (r1 = r2 /\ n1 = n2) \/
   collision_among sha256 [round_bytes "UNICITY_EVM_BEACON" r1 n1; round_bytes "UNICITY_EVM_BEACON" r2 n2]) /\
  (derive_prev_randao r1 n1 = derive_beacon_root r2 n2 ->
   collision_among sha256 [round_bytes "UNICITY_EVM_RANDAO" r1 n1; round_bytes "UNICITY_EVM_BEACON" r2 n2]).
Proof.
  intros. assert (Ha : "UNICITY_EVM_RANDAO"%string ∈ ["UNICITY_EVM_RANDAO"; "UNICITY_EVM_BEACON"]%string) by left.
  assert (Hb : "UNICITY_EVM_BEACON"%string ∈ ["UNICITY_EVM_RANDAO"; "UNICITY_EVM_BEACON"]%string) by (right; left).
  split; [by apply outcome_inj|]. unfold derive_prev_randao, derive_beacon_root.
  split_and!; intros Heq.
  - apply round_domain_inj in Heq as [(_ & ?)|?]; auto.
  - apply round_domain_inj in Heq as [(_ & ?)|?]; auto.
  - apply round_domain_inj in Heq as [(? & _)|?]; auto; discriminate.
Qed.

(** ** A concrete transition

    Round 7 on a parent whose registry carries the assignment of the sample input; the update and the
    import are empty, and the engine answers finalize by storing the outcome. *)

Definition toy_abi : Abi := {|
  abi_open_arguments := fun _ _ _ => [Byte.x01];
  abi_import_root_records := fun _ => [Byte.x02];
  abi_finalize := fun n c => Byte.x03 :: be_bytes 8 n ++ c |}.

Definition transition_answer (db : list (Z * Z)) (to data : bytes) : toy_result :=
  {| toy_success := true; toy_gas := 1000; toy_output := None;
     toy_committed :=
       match data with
       | Byte.x03 :: rest =>
           [(OUTCOMES_ROUND_SLOT, be_val (take 8 rest)); (OUTCOMES_COMMITMENT_SLOT, be_val (drop 8 rest));
            (PHASE_SLOT, 2)] ++ db
       | _ => db
       end |}.
Definition transition_evm : Evm := toy_evm SEAL_REGISTRY_CODE_HASH transition_answer.

Definition transition_update : Update := {|
  up_network := 3; up_root_genesis_id := word_of 41; up_execution_chain_id := 7;
  up_profile_hash := word_of 42; up_parent_hash := word_of 21; up_block_number := 10;
  up_origin_epoch := 1; up_origin_round := 5;
  up_origin_identity := toy_hash (encode_origin (ri_origin (sample_root [z2b 1])));
  up_prior_tip_epoch := 1; up_old_tip_end := None; up_new_entries := [] |}.
Definition transition_import : RecordImport := {|
  rec_progress := 50; rec_uc_time := 2000; rec_target_count := 0; rec_target_tip := ZERO32;
  rec_entries := [] |}.

Definition transition_input : RootInputV2 :=
  let r := sample_root [z2b 1] in {|
  ri_version := 2; ri_network_id := 3; ri_partition_id := 8; ri_shard_id := [z2b 1];
  ri_authorized_round := 7; ri_certified_epoch := 0; ri_authorized_epoch := 0;
  ri_parent_hash := word_of 21; ri_origin := ri_origin r; ri_technical := ri_technical r;
  ri_transitions := []; ri_b1_update_hash := toy_hash (update_to_bytes transition_update);
  ri_root_records_hash := toy_hash (import_to_bytes transition_import) |}.

Definition transition_companions : UpdateInput := {|
  ui_bytes := update_to_bytes transition_update; ui_records := import_to_bytes transition_import;
  ui_parent_number := 9 |}.
Definition transition_config (limit : Z) : ExecutionConfig :=
  {| ec_system_gas_limit := limit; ec_b1 := sample_context sample_hook |}.
Definition transition_parent : list (Z * Z) :=
  map (fun p => p.1) (pinned_words (H := toy_crypto) (sample_context sample_hook)) ++
  [(ASSIGNMENT_ROOT_EPOCH_SLOT, 1); (ASSIGNMENT_EPOCH_SLOT, 0);
   (ASSIGNMENT_ACTIVE_CONF_HASH_SLOT, be_val (word_of 33)); (GENESIS_SHARD_CONF_HASH_SLOT, 5)].

Definition transition_run (limit : Z) :=
  execute_registry_transition (H := toy_crypto) (H0 := transition_evm) (H1 := toy_abi)
    transition_input transition_companions transition_parent (transition_config limit).
#[local] Strategy expand [transition_run].
Definition total_of {D} (r : result TransitionFault (ExecutionResult * D)) : option (Z * Z) :=
  match r with Ok (r, _) => Some (er_admission_gas r, er_total_gas_spent r) | Err _ => None end.
Definition fault_of {D} (r : result TransitionFault D) : option TransitionFault :=
  match r with Ok _ => None | Err e => Some e end.

Lemma transition_sample : total_of (transition_run 100000) = Some (7712, 10712).
Proof. vm_compute. reflexivity. Qed.

Lemma transition_short : fault_of (transition_run 8000) = Some (Failed (ExecE.OpenFailed "out of gas")).
Proof. vm_compute. reflexivity. Qed.

Lemma transition_ok_witness :
  parent_ok (H := toy_crypto) (H0 := transition_evm) transition_parent (sample_context sample_hook) /\
  continues (H0 := transition_evm) transition_input transition_parent.
Proof.
  pose proof transition_sample as Ht.
  destruct (transition_run 100000) as [[r db']|] eqn:Hr; [|discriminate Ht].
  destruct (transition_ok (H := toy_crypto) (H0 := transition_evm) (H2 := toy_abi)
    transition_input transition_companions transition_parent (transition_config 100000) r db'
    ltac:(split; vm_compute; discriminate) Hr) as (Hp & Hc & _).
  split; [exact Hp | exact Hc].
Defined.

Lemma transition_faults_witness :
  exists e, fault_of (transition_run 8000) = Some e /\ e <> Panicked.
Proof.
  pose proof transition_short as Ht.
  destruct (transition_run 8000) as [|e] eqn:Hr; [discriminate Ht|]. exists e. split; [reflexivity|].
  destruct (transition_faults (H := toy_crypto) (H0 := transition_evm) (H2 := toy_abi)
    transition_input transition_companions transition_parent (transition_config 8000) e
    ltac:(split; vm_compute; discriminate) Hr) as (err & -> & _).
  discriminate.
Defined.

Lemma derived_binding_witness :
  (1 = 1 /\ word_of 1 = word_of 1) \/
  collision_among toy_hash [outcome_bytes 1 (word_of 1); outcome_bytes 1 (word_of 1)].
Proof.
  assert (Hu : forall z, 0 <= z <= 7 -> is_u64 z) by (intros; ulia).
  exact (proj1 (derived_binding (H := toy_crypto) 1 1 (word_of 1) (word_of 1) 5 5 7 7
    (Hu 1 ltac:(lia)) (Hu 1 ltac:(lia)) (word_of_word 1) (word_of_word 1)
    (Hu 5 ltac:(lia)) (Hu 5 ltac:(lia)) (Hu 7 ltac:(lia)) (Hu 7 ltac:(lia))) eq_refl).
Defined.
