(* ===== verification/StoreCodec.v ===== *)
(** The record formats of the companion store: [crates/unicity/store/src/encoding.rs],
    [accounting.rs] and [error.rs].

    A companion record is a version byte and length-prefixed frames; an accounting record is 154
    bytes of fixed fields.  Both decoders are shown to be exact inverses of their encoders: a record
    decodes to a value if and only if it is that value's encoding. *)
From S2P Require Import Prelude CborCodec BlockAccounting RootInput.

(** The backing environment's error is opaque. *)
Inductive StoreError (M : Type) :=
| Mdbx (e : M)
| UnknownVersion (v : Z)
| RecordTooLarge
| MalformedRecord (reason : string)
| Corrupt (reason : string)
| HorizonRegression (current requested : Z).
Arguments Mdbx {M} e.
Arguments UnknownVersion {M} v.
Arguments RecordTooLarge {M}.
Arguments MalformedRecord {M} reason.
Arguments Corrupt {M} reason.
Arguments HorizonRegression {M} current requested.

Module StoreCodec.

Definition RECORD_VERSION : Z := 2.
Definition LENGTH_BYTES : Z := 4.

Definition byte_of (l : bytes) (i : nat) : Z := b2z (nth i l Byte.x00).

Section codec.
Context {M : Type}.

(** ** Writing *)

(** [u32::try_from(len)?] and [put_u32]. *)
Definition put_count (count : Z) : result (StoreError M) bytes :=
  if count <=? u32_max then Ok (be_bytes 4 count) else Err RecordTooLarge.
Definition put_frame (x : bytes) : result (StoreError M) bytes :=
  let? prefix := put_count (zlen x) in Ok (prefix ++ x).
Fixpoint put_frames (l : list bytes) : result (StoreError M) bytes :=
  match l with
  | [] => Ok []
  | x :: l => let? f := put_frame x in let? fs := put_frames l in Ok (f ++ fs)
  end.

Definition encode (c : SealCompanion) : result (StoreError M) bytes :=
  let? root_input := put_frame (sc_root_input c) in
  let? b1_update := put_frame (sc_b1_update c) in
  let? records := put_frame (sc_records c) in
  let? pair_binding := put_frame (sc_pair_binding c) in
  let? count := put_count (zlen (sc_witnesses c)) in
  let? witnesses := put_frames (sc_witnesses c) in
  let? provenance := put_frame (sc_provenance c) in
  Ok (z2b RECORD_VERSION :: root_input ++ b1_update ++ records ++ pair_binding ++ count
      ++ witnesses ++ provenance).

(** ** Reading *)

Record Cursor := { cu_bytes : bytes; cu_offset : Z }.
Abbreviation record_reader := (reader Cursor (StoreError M)).

Definition is_empty (r : Cursor) : bool := cu_offset r =? zlen (cu_bytes r).

Definition record_u8 : record_reader Z := fun r =>
  if cu_offset r <? zlen (cu_bytes r)
  then Ok (byte_of (cu_bytes r) (Z.to_nat (cu_offset r)),
           {| cu_bytes := cu_bytes r; cu_offset := cu_offset r + 1 |})
  else Err (MalformedRecord "record ended before its version byte").

(** [self.bytes.get(self.offset..end)] and the move to [end]. *)
Definition record_slice (len : Z) (overflow ended : string) : record_reader bytes := fun r =>
  let? stop := ok_or (checked_add (cu_offset r) len) (MalformedRecord overflow) in
  let? slice := ok_or (get_range (cu_bytes r) (cu_offset r) stop) (MalformedRecord ended) in
  Ok (slice, {| cu_bytes := cu_bytes r; cu_offset := stop |}).

Definition record_u32 : record_reader Z :=
  let* raw := record_slice LENGTH_BYTES "length prefix overflows" "record ended inside a length prefix" in
  sret (be_val raw).

Definition read_frame : record_reader bytes :=
  let* len := record_u32 in
  record_slice len "frame length overflows" "record ended inside a frame".

Definition decode_fields : record_reader SealCompanion :=
  let* version := record_u8 in
  if negb (version =? RECORD_VERSION) then fail (UnknownVersion version) else
  let* root_input := read_frame in
  let* b1_update := read_frame in
  let* records := read_frame in
  let* pair_binding := read_frame in
  let* witness_count := record_u32 in
  let* witnesses := repeat_reader (Z.to_nat witness_count) read_frame in
  let* provenance := read_frame in
  if negb (utf8_valid provenance) then fail (MalformedRecord "provenance is not valid UTF-8") else
  sret {| sc_root_input := root_input; sc_b1_update := b1_update; sc_records := records;
          sc_pair_binding := pair_binding; sc_witnesses := witnesses; sc_provenance := provenance |}.

Definition decode (raw : bytes) : result (StoreError M) SealCompanion :=
  let? (c, r) := decode_fields {| cu_bytes := raw; cu_offset := 0 |} in
  if negb (is_empty r) then Err (MalformedRecord "trailing bytes after record") else Ok c.

(** ** Accounting records *)

Definition SCHEMA : Z := 1.
Definition RULE_VERSION : Z := 1.
Definition RECORD_LEN : Z := 1 + 1 + 8 + 32 + 8 + 32 + 40 + 32.

(** [block_executor.rs]: the accounting this node measured for a completed block. *)
Record LocalParentAccounting := {
  la_block_hash : bytes; la_profile : BlockProfile; la_header_gas : Z; la_system_gas : Z;
  la_ordinary_gas : Z; la_base_fee : Z }.

Record StoredAccounting := {
  sa_chain_id : Z; sa_genesis_hash : bytes; sa_block_number : Z; sa_accounting : LocalParentAccounting }.

#[global] Instance local_accounting_eq_decision : EqDecision LocalParentAccounting.
Proof. solve_decision. Defined.
#[global] Instance accounting_eq_decision : EqDecision StoredAccounting.
Proof. solve_decision. Defined.

Definition accounting_fields (r : StoredAccounting) : list Z :=
  let a := sa_accounting r in let p := la_profile a in
  [max_gas p; system_gas p; base_fee_floor p; elasticity p; change_denominator p;
   la_header_gas a; la_system_gas a; la_ordinary_gas a; la_base_fee a].

Definition encode_accounting (r : StoredAccounting) : bytes :=
  [z2b SCHEMA; z2b RULE_VERSION] ++ be_bytes 8 (sa_chain_id r) ++ sa_genesis_hash r
  ++ be_bytes 8 (sa_block_number r) ++ la_block_hash (sa_accounting r)
  ++ concat (map (be_bytes 8) (accounting_fields r)).

Definition slice (raw : bytes) (start len : nat) : bytes := take len (drop start raw).

Definition decode_accounting (raw : bytes) : result (StoreError M) StoredAccounting :=
  if negb (zlen raw =? RECORD_LEN) then Err (MalformedRecord "accounting record length") else
  if negb (byte_of raw 0 =? SCHEMA) then Err (UnknownVersion (byte_of raw 0)) else
  if negb (byte_of raw 1 =? RULE_VERSION) then Err (UnknownVersion (byte_of raw 1)) else
  let number start := be_val (slice raw start 8) in
  Ok {| sa_chain_id := number 2%nat; sa_genesis_hash := slice raw 10 32; sa_block_number := number 42%nat;
        sa_accounting := {|
          la_block_hash := slice raw 50 32;
          la_profile := {| max_gas := number 82%nat; system_gas := number 90%nat;
            base_fee_floor := number 98%nat; elasticity := number 106%nat;
            change_denominator := number 114%nat |};
          la_header_gas := number 122%nat; la_system_gas := number 130%nat;
          la_ordinary_gas := number 138%nat; la_base_fee := number 146%nat |} |}.

(** ** The reference encoding *)

Definition frame (x : bytes) : bytes := be_bytes 4 (zlen x) ++ x.
Definition fits_frame (x : bytes) : Prop := zlen x <= u32_max.

Definition record_bytes (c : SealCompanion) : bytes :=
  z2b RECORD_VERSION :: frame (sc_root_input c) ++ frame (sc_b1_update c) ++ frame (sc_records c)
  ++ frame (sc_pair_binding c) ++ be_bytes 4 (zlen (sc_witnesses c))
  ++ concat (map frame (sc_witnesses c)) ++ frame (sc_provenance c).

(** Every field fits its length prefix. *)
Definition companion_fits (c : SealCompanion) : Prop :=
  Forall fits_frame [sc_root_input c; sc_b1_update c; sc_records c; sc_pair_binding c; sc_provenance c] /\
  Forall fits_frame (sc_witnesses c) /\ zlen (sc_witnesses c) <= u32_max.

Lemma put_frame_iff x f : put_frame x = Ok f <-> fits_frame x /\ f = frame x.
Proof.
  unfold put_frame, put_count, fits_frame, frame. destruct (Z.leb_spec (zlen x) u32_max); cbn.
  - split; [intros [= <-]; done | intros [_ ->]; done].
  - split; [done | intros [? _]; lia].
Qed.

Lemma put_frames_iff l f : put_frames l = Ok f <-> Forall fits_frame l /\ f = concat (map frame l).
Proof.
  revert f. induction l as [|x l IH]; intros f; cbn [put_frames map concat].
  - split; [intros [= <-]; done | intros [_ ->]; done].
  - rewrite Forall_cons. split.
    + intros Hf. inv_ok Hf. subst. apply put_frame_iff in Hok as [? ->]. by apply IH in Hok0 as [? ->].
    + intros [[Hx Hl] ->]. rewrite (proj2 (put_frame_iff x _) (conj Hx eq_refl)). cbn [rbind].
      by rewrite (proj2 (IH _) (conj Hl eq_refl)).
Qed.

Lemma encode_iff c raw : encode c = Ok raw <-> companion_fits c /\ raw = record_bytes c.
Proof.
  unfold encode, companion_fits, put_count. rewrite !Forall_cons, Forall_nil. split.
  - intros He. inv_ok He. apply put_frame_iff in Hok as [? ->], Hok0 as [? ->], Hok1 as [? ->],
      Hok2 as [? ->], Hok5 as [? ->]. apply put_frames_iff in Hok4 as [? ->].
    destruct (Z.leb_spec (zlen (sc_witnesses c)) u32_max); [|done]. injection Hok3 as <-. subst. done.
  - intros [((H1 & H2 & H3 & H4 & H5 & _) & Hw & Hn) ->].
    rewrite !(proj2 (put_frame_iff _ _) (conj H1 eq_refl)), !(proj2 (put_frame_iff _ _) (conj H2 eq_refl)),
      !(proj2 (put_frame_iff _ _) (conj H3 eq_refl)), !(proj2 (put_frame_iff _ _) (conj H4 eq_refl)),
      !(proj2 (put_frame_iff _ _) (conj H5 eq_refl)), (proj2 (put_frames_iff _ _) (conj Hw eq_refl)).
    cbn [rbind]. by rewrite (proj2 (Z.leb_le _ _) Hn).
Qed.

(** ** The decoder reads exactly the reference encoding *)

(** What the cursor has not read. *)
Definition unread (r : Cursor) (x : bytes) : Prop :=
  0 <= cu_offset r /\ cu_offset r <= zlen (cu_bytes r) <= slice_max /\
  drop (Z.to_nat (cu_offset r)) (cu_bytes r) = x.

Lemma unread_length r x : unread r x -> zlen x = zlen (cu_bytes r) - cu_offset r.
Proof. intros (? & ? & <-). unfold zlen in *. rewrite length_drop. lia. Qed.

(** A reader that accepts exactly the encodings of the values [ok] allows. *)
Class Framed {A} (p : record_reader A) (enc : A -> bytes) (ok : A -> Prop) : Prop := {
  framed_complete : forall v r x, ok v -> unread r (enc v ++ x) -> exists r', p r = Ok (v, r') /\ unread r' x;
  framed_sound : forall v r r' x, unread r x -> p r = Ok (v, r') ->
    exists x', x = enc v ++ x' /\ unread r' x' /\ ok v }.

(** One step of a decoder on an encoding. *)
Ltac framed_step Hv Hr :=
  match goal with |- context [sbind ?p ?k ?r] =>
    let Hc := fresh "Hc" in let r' := fresh "r" in let Hp := fresh "Hp" in let Hr' := fresh "Hr" in
    pose proof (framed_complete (p := p)) as Hc; destruct (Hc _ _ _ Hv Hr) as (r' & Hp & Hr');
    rewrite (sbind_ok _ _ _ _ _ Hp); clear Hc Hr Hp; rename Hr' into Hr
  end.

Lemma unread_skip r v x :
  unread r (v ++ x) -> unread {| cu_bytes := cu_bytes r; cu_offset := cu_offset r + zlen v |} x.
Proof.
  intros Hr. pose proof (unread_length _ _ Hr) as Hl. rewrite zlen_app in Hl. destruct Hr as (H0 & H1 & Hd).
  pose proof (zlen_nonneg v). pose proof (zlen_nonneg x).
  split; [cbn; lia|]. split; [cbn; lia|]. cbn [cu_bytes cu_offset]. rewrite Z2Nat.inj_add by lia.
  rewrite <- drop_drop, Hd. apply drop_length_app. unfold zlen. lia.
Qed.

#[local] Instance slice_framed n overflow ended :
  0 <= n <= u32_max -> Framed (record_slice n overflow ended) (fun v => v) (fun v => zlen v = n).
Proof.
  intros Hn. unfold record_slice, checked_add, get_range. split.
  - intros v r x Hv Hr. pose proof (unread_skip _ _ _ Hr) as Hx. pose proof (unread_length _ _ Hr) as Hl.
    rewrite zlen_app in Hl. pose proof (zlen_nonneg x). destruct Hr as (H0 & H1 & Hd).
    rewrite (proj2 (Z.leb_le _ u64_max)) by ulia. cbn [ok_or rbind].
    rewrite !(proj2 (Z.leb_le _ _)) by lia. cbn [andb ok_or rbind]. rewrite Hd.
    replace (cu_offset r + n - cu_offset r) with n by lia.
    rewrite take_length_app by (unfold zlen in Hv; lia). rewrite Hv in Hx. eauto.
  - intros v r r' x Hr Hs. pose proof (unread_length _ _ Hr) as Hl. destruct Hr as (H0 & H1 & Hd).
    rewrite (proj2 (Z.leb_le _ u64_max)) in Hs by ulia. cbn [ok_or rbind] in Hs.
    destruct (_ && _) eqn:Hb; [|done]. injection Hs as <- <-. apply andb_true_iff in Hb as [_ Hb].
    replace (cu_offset r + n - cu_offset r) with n by lia. rewrite Hd.
    assert (Ht : zlen (take (Z.to_nat n) x) = n) by (unfold zlen in *; rewrite length_take; lia).
    exists (drop (Z.to_nat n) x). rewrite take_drop. split; [done|]. split; [|done].
    pose proof (unread_skip r (take (Z.to_nat n) x) (drop (Z.to_nat n) x)) as Hskip.
    rewrite Ht, take_drop in Hskip. by apply Hskip.
Qed.

#[local] Instance u32_framed : Framed record_u32 (be_bytes 4) (fun v => 0 <= v <= u32_max).
Proof.
  assert (Hs : forall a b, Framed (record_slice LENGTH_BYTES a b) (fun v => v) (fun v => zlen v = 4))
    by (intros; apply slice_framed; unfold LENGTH_BYTES; ulia).
  unfold record_u32. split.
  - intros v r x Hv Hr.
    assert (Hl : zlen (be_bytes 4 v) = 4) by (unfold zlen; by rewrite be_bytes_length).
    framed_step Hl Hr. eexists. unfold sret. rewrite be_val_bytes by ulia. done.
  - intros v r r' x Hr Hu. apply sbind_ok_inv in Hu as (raw & r1 & Hp & Hu). injection Hu as <- <-.
    destruct (framed_sound (Framed := Hs _ _) _ _ _ _ Hr Hp) as (x' & -> & Hx & Hl). exists x'.
    pose proof (be_val_range raw) as Hv. rewrite Hl in Hv.
    rewrite be_bytes_val_n by (unfold zlen in Hl; lia). split; [done|]. split; [done|]. ulia.
Qed.

#[local] Instance frame_framed : Framed read_frame frame fits_frame.
Proof.
  unfold read_frame. split.
  - intros v r x Hv Hr. pose proof (zlen_nonneg v). unfold frame in Hr. rewrite <- app_assoc in Hr.
    assert (Hz : 0 <= zlen v <= u32_max) by (unfold fits_frame in Hv; lia).
    framed_step Hz Hr. by apply (framed_complete (Framed := slice_framed _ _ _ Hz)).
  - intros v r r' x Hr Hu. apply sbind_ok_inv in Hu as (n & r1 & Hp & Hu).
    destruct (framed_sound _ _ _ _ Hr Hp) as (x1 & -> & Hx1 & Hn).
    destruct (framed_sound (Framed := slice_framed _ _ _ Hn) _ _ _ _ Hx1 Hu) as (x' & -> & Hx & Hl).
    exists x'. unfold frame, fits_frame. rewrite Hl, <- app_assoc. split; [done|]. split; [done | lia].
Qed.

#[local] Instance frames_framed n :
  Framed (repeat_reader n read_frame) (fun l => concat (map frame l))
    (fun l => length l = n /\ Forall fits_frame l).
Proof.
  induction n as [|n IH]; cbn [repeat_reader]; split.
  - intros [|] r x [? _] Hr; [|done]. by exists r.
  - intros v r r' x Hr [= <- <-]. exists x. by split_and!.
  - intros [|v l] r x [Hl HF] Hr; [done|]. apply Forall_cons in HF as [Hv HF]. cbn [map concat] in Hr.
    rewrite <- app_assoc in Hr.
    framed_step Hv Hr.
    assert (Hl' : length l = n /\ Forall fits_frame l) by (split; [by injection Hl | done]).
    framed_step Hl' Hr. by eexists.
  - intros l r r' x Hr Hu. apply sbind_ok_inv in Hu as (v & r1 & Hp & Hu).
    apply sbind_ok_inv in Hu as (l' & r2 & Hps & Hu). injection Hu as <- <-.
    destruct (framed_sound _ _ _ _ Hr Hp) as (x1 & -> & Hx1 & Hv).
    destruct (framed_sound (Framed := IH) _ _ _ _ Hx1 Hps) as (x2 & -> & Hx2 & <- & HF).
    exists x2. cbn [map concat]. rewrite <- app_assoc. split; [done|]. split; [done|]. split; [done | by constructor].
Qed.

Lemma byte_of_unread r b x : unread r (b :: x) -> byte_of (cu_bytes r) (Z.to_nat (cu_offset r)) = b2z b.
Proof.
  intros (_ & _ & Hd). unfold byte_of. f_equal. revert Hd. generalize (Z.to_nat (cu_offset r)) as i.
  intros i. revert b x. generalize (cu_bytes r) as l. induction i as [|i IH]; intros [|a l] b x Hd; try done.
  - by injection Hd as -> _.
  - cbn. by apply (IH l b x).
Qed.

#[local] Instance version_framed : Framed record_u8 (fun v => [z2b v]) (fun v => 0 <= v < 256).
Proof.
  unfold record_u8. split.
  - intros v r x Hv Hr. pose proof (unread_skip _ _ _ Hr) as Hx. pose proof (unread_length _ _ Hr) as Hl.
    rewrite zlen_app in Hl. pose proof (zlen_nonneg x). change (zlen [z2b v]) with 1 in *.
    rewrite (proj2 (Z.ltb_lt _ _)) by lia. eexists. split; [|exact Hx].
    by rewrite (byte_of_unread _ _ _ Hr), b2z_z2b_small.
  - intros v r r' x Hr Hu. pose proof (unread_length _ _ Hr) as Hl. destruct (Z.ltb_spec (cu_offset r) (zlen (cu_bytes r))); [|done].
    injection Hu as <- <-. destruct x as [|b x]; [unfold zlen in Hl at 1; cbn in Hl; lia|].
    exists x. pose proof (unread_skip r [b] x Hr) as Hx. rewrite (byte_of_unread _ _ _ Hr), z2b_b2z. split; [done|]. split; [done|]. apply b2z_range.
Qed.

Lemma decode_fields_complete c r x :
  companion_fits c -> utf8_valid (sc_provenance c) = true -> unread r (record_bytes c ++ x) ->
  exists r', decode_fields r = Ok (c, r') /\ unread r' x.
Proof.
  intros (HF & Hw & Hn) Hu Hr. rewrite !Forall_cons in HF. destruct HF as (H1 & H2 & H3 & H4 & H5 & _).
  unfold record_bytes in Hr. rewrite app_comm_cons, <- (app_assoc _ _ x) in Hr.
  change (z2b RECORD_VERSION :: ?a) with ([z2b RECORD_VERSION] ++ a) in Hr. rewrite <- !app_assoc in Hr.
  assert (Hv : 0 <= RECORD_VERSION < 256) by (unfold RECORD_VERSION; lia).
  pose proof (zlen_nonneg (sc_witnesses c)).
  assert (Hc : 0 <= zlen (sc_witnesses c) <= u32_max) by lia.
  assert (Hl : length (sc_witnesses c) = Z.to_nat (zlen (sc_witnesses c)) /\ Forall fits_frame (sc_witnesses c))
    by (split; [unfold zlen; lia | done]).
  unfold decode_fields. framed_step Hv Hr. rewrite Z.eqb_refl. cbn [negb].
  framed_step H1 Hr. framed_step H2 Hr. framed_step H3 Hr. framed_step H4 Hr. framed_step Hc Hr.
  framed_step Hl Hr. framed_step H5 Hr. rewrite Hu. cbn [negb]. destruct c. by eexists.
Qed.

Lemma decode_fields_sound c r r' x :
  unread r x -> decode_fields r = Ok (c, r') ->
  exists x', x = record_bytes c ++ x' /\ unread r' x' /\ companion_fits c /\ utf8_valid (sc_provenance c) = true.
Proof.
  intros Hr Hd. unfold decode_fields in Hd. inv_ok Hd.
  repeat match goal with
  | Hx : unread ?r ?x, Hp : ?p ?r = Ok _ |- _ =>
      let Hs := fresh "Hs" in pose proof (framed_sound (p := p)) as Hs;
      destruct (Hs _ _ _ _ Hx Hp) as (? & -> & ? & ?); clear Hs Hp
  end.
  subst r' c. apply negb_false_iff in Heqb, Heqb0. apply Z.eqb_eq in Heqb. subst a.
  destruct H13 as [Hl Hw]. assert (a4 = zlen a5) as -> by (unfold zlen; lia).
  exists x. unfold record_bytes, companion_fits.
  cbn [sc_root_input sc_b1_update sc_records sc_pair_binding sc_witnesses sc_provenance].
  rewrite !Forall_cons, Forall_nil. split; [cbn [app]; by rewrite <- !app_assoc|]. split_and!; try done. lia.
Qed.

Lemma decode_iff raw c :
  zlen raw <= slice_max ->
  decode raw = Ok c <-> encode c = Ok raw /\ utf8_valid (sc_provenance c) = true.
Proof.
  intros Hlen. rewrite encode_iff. pose proof (zlen_nonneg raw). unfold decode.
  assert (Hr : unread {| cu_bytes := raw; cu_offset := 0 |} raw) by (split_and!; cbn; lia || done). split.
  - intros Hd. inv_ok Hd. subst. apply (decode_fields_sound _ _ _ _ Hr) in Hok as (x' & -> & Hx & Hf & Hu).
    apply negb_false_iff, Z.eqb_eq in Heqb. apply unread_length in Hx.
    assert (x' = []) as -> by (apply zlen_nil_inv; lia). by rewrite app_nil_r.
  - intros [[Hf ->] Hu]. rewrite <- (app_nil_r (record_bytes c)) in Hr at 2.
    destruct (decode_fields_complete c _ [] Hf Hu Hr) as (r' & -> & Hx). cbn [rbind].
    apply unread_length in Hx. unfold is_empty. rewrite (proj2 (Z.eqb_eq _ _)); [done|].
    change (zlen []) with 0 in Hx. lia.
Qed.

(** ** The accounting record *)

Definition profile_typed (p : BlockProfile) : Prop :=
  is_u64 (max_gas p) /\ is_u64 (system_gas p) /\ is_u64 (base_fee_floor p) /\ is_u64 (elasticity p) /\
  is_u64 (change_denominator p).
Definition accounting_typed (r : StoredAccounting) : Prop :=
  is_u64 (sa_chain_id r) /\ is_word (sa_genesis_hash r) /\ is_u64 (sa_block_number r) /\
  is_word (la_block_hash (sa_accounting r)) /\ Forall is_u64 (accounting_fields r).

Lemma slice_skip a b start len :
  (length a <= start)%nat -> slice (a ++ b) start len = slice b (start - length a) len.
Proof. intros Hl. unfold slice. by rewrite drop_app_ge. Qed.

Lemma slice_head a b len : length a = len -> slice (a ++ b) 0 len = a.
Proof. intros <-. unfold slice. rewrite drop_0. by apply take_length_app. Qed.

Lemma slice_cat raw start n m : slice raw start n ++ slice raw (start + n) m = slice raw start (n + m).
Proof. unfold slice. rewrite <- drop_drop. by rewrite take_take_drop. Qed.

Lemma u64_field_range raw start : zlen raw = RECORD_LEN -> (start + 8 <= 154)%nat ->
  is_u64 (be_val (slice raw start 8)) /\ be_bytes 8 (be_val (slice raw start 8)) = slice raw start 8.
Proof.
  intros Hl Hs. assert (Hn : length (slice raw start 8) = 8%nat).
  { unfold slice, RECORD_LEN, zlen in *. rewrite length_take, length_drop. lia. }
  split; [|by apply be_bytes_val_n]. pose proof (be_val_range (slice raw start 8)) as Hr.
  unfold zlen in Hr. rewrite Hn in Hr. ulia.
Qed.

Lemma field_slice l i z :
  l !! i = Some z -> slice (concat (map (be_bytes 8) l)) (8 * i) 8 = be_bytes 8 z.
Proof.
  revert i. induction l as [|y l IH]; intros i Hi; [done|]. cbn [map concat]. destruct i as [|i].
  - injection Hi as ->. apply slice_head, be_bytes_length.
  - rewrite slice_skip by (rewrite be_bytes_length; lia). rewrite be_bytes_length.
    replace (8 * S i - 8)%nat with (8 * i)%nat by lia. by apply IH.
Qed.

(** The fixed part of an accounting record and the fields behind it. *)
Definition accounting_head (r : StoredAccounting) : bytes :=
  [z2b SCHEMA; z2b RULE_VERSION] ++ be_bytes 8 (sa_chain_id r) ++ sa_genesis_hash r
  ++ be_bytes 8 (sa_block_number r) ++ la_block_hash (sa_accounting r).

Lemma accounting_split r : encode_accounting r = accounting_head r ++ concat (map (be_bytes 8) (accounting_fields r)).
Proof. unfold encode_accounting, accounting_head. by rewrite <- !app_assoc. Qed.

Lemma accounting_slices r :
  accounting_typed r ->
  let raw := encode_accounting r in
  zlen raw = RECORD_LEN /\ byte_of raw 0 = SCHEMA /\ byte_of raw 1 = RULE_VERSION /\
  slice raw 2 8 = be_bytes 8 (sa_chain_id r) /\ slice raw 10 32 = sa_genesis_hash r /\
  slice raw 42 8 = be_bytes 8 (sa_block_number r) /\ slice raw 50 32 = la_block_hash (sa_accounting r) /\
  forall i z, accounting_fields r !! i = Some z -> slice raw (82 + 8 * i) 8 = be_bytes 8 z.
Proof.
  intros (_ & Hg & _ & Hh & _) raw. unfold is_word in Hg, Hh. unfold raw.
  assert (Hlen : forall z, length (be_bytes 8 z) = 8%nat) by (intros; apply be_bytes_length).
  assert (Hhead : length (accounting_head r) = 82%nat).
  { unfold accounting_head. rewrite !length_app, !Hlen, Hg, Hh. done. }
  split; [|split; [done|split; [done|]]].
  { rewrite accounting_split. unfold zlen. rewrite length_app, Hhead. cbn [accounting_fields map concat].
    by rewrite !length_app, !Hlen. }
  assert (H2 : length [z2b SCHEMA; z2b RULE_VERSION] = 2%nat) by done.
  split_and!; [unfold encode_accounting..|].
  5:{ intros i z Hi. rewrite accounting_split, slice_skip by lia. rewrite Hhead.
      replace (82 + 8 * i - 82)%nat with (8 * i)%nat by lia. by apply field_slice. }
  all: repeat (rewrite slice_skip by (rewrite ?Hlen, ?Hg, ?H2; lia)); rewrite ?Hlen, ?Hg, ?H2;
    apply slice_head; auto.
Qed.

Lemma decode_accounting_encode r :
  accounting_typed r -> decode_accounting (encode_accounting r) = Ok r.
Proof.
  intros Ht. destruct (accounting_slices r Ht) as (Hz & H0 & H1 & Hc & Hg & Hn & Hh & Hf).
  destruct Ht as (Tc & _ & Tn & _ & Tf).
  assert (Hu : forall z, is_u64 z -> be_val (be_bytes 8 z) = z) by (intros; apply be_val_bytes; ulia).
  assert (Hfield : forall i z, accounting_fields r !! i = Some z ->
    be_val (slice (encode_accounting r) (82 + 8 * i) 8) = z).
  { intros i z Hi. rewrite (Hf i z Hi). apply Hu. rewrite Forall_lookup in Tf. by eapply Tf. }
  unfold decode_accounting. rewrite Hz, H0, H1, Hg, Hh, Hc, Hn, !Hu by done. cbn [negb Z.eqb Pos.eqb].
  rewrite (Hfield 0%nat _ eq_refl : be_val (slice _ 82 8) = _), (Hfield 1%nat _ eq_refl : be_val (slice _ 90 8) = _),
    (Hfield 2%nat _ eq_refl : be_val (slice _ 98 8) = _), (Hfield 3%nat _ eq_refl : be_val (slice _ 106 8) = _),
    (Hfield 4%nat _ eq_refl : be_val (slice _ 114 8) = _), (Hfield 5%nat _ eq_refl : be_val (slice _ 122 8) = _),
    (Hfield 6%nat _ eq_refl : be_val (slice _ 130 8) = _), (Hfield 7%nat _ eq_refl : be_val (slice _ 138 8) = _),
    (Hfield 8%nat _ eq_refl : be_val (slice _ 146 8) = _).
  by destruct r as [chain genesis number [hash [] ]].
Qed.

Lemma decode_accounting_sound raw r :
  decode_accounting raw = Ok r -> accounting_typed r /\ raw = encode_accounting r.
Proof.
  unfold decode_accounting. intros Hd. inv_ok Hd. apply negb_false_iff, Z.eqb_eq in Heqb, Heqb0, Heqb1.
  pose proof (fun s Hs => proj1 (u64_field_range raw s Heqb Hs)) as Hu.
  pose proof (fun s Hs => proj2 (u64_field_range raw s Heqb Hs)) as He.
  assert (Hl : length raw = 154%nat) by (unfold zlen, RECORD_LEN in Heqb; lia).
  assert (Hw : forall s, (s + 32 <= 154)%nat -> is_word (slice raw s 32)).
  { intros s Hs. unfold is_word, slice. rewrite length_take, length_drop. lia. }
  subst r. unfold accounting_typed, accounting_fields, encode_accounting.
  cbn [sa_chain_id sa_genesis_hash sa_block_number sa_accounting la_block_hash la_profile la_header_gas
       la_system_gas la_ordinary_gas la_base_fee max_gas system_gas base_fee_floor elasticity
       change_denominator accounting_fields map concat].
  rewrite !He by lia. rewrite !Forall_cons, Forall_nil.
  split; [split_and!; try done; try (apply Hu; lia); apply Hw; lia|].
  rewrite app_nil_r, !slice_cat. cbn [Nat.add].
  destruct raw as [|b0 [|b1 raw]]; [done|done|]. unfold byte_of in Heqb0, Heqb1. cbn [nth] in Heqb0, Heqb1.
  rewrite <- Heqb0, <- Heqb1, !z2b_b2z. unfold slice. cbn [drop app]. rewrite drop_0. do 2 f_equal.
  symmetry. apply take_ge. cbn in Hl. lia.
Qed.

(** The record formats are exact.  A companion record decodes to a companion if and only if
    it is what [encode] writes for it (and the provenance is UTF-8, as every Rust string is); an
    accounting record decodes to a value if and only if the value is well typed and the record is
    its encoding.  So there is one record per value, and reading back returns what was written. *)
Theorem records_exact raw c r :
  zlen raw <= slice_max ->
  (decode raw = Ok c <-> encode c = Ok raw /\ utf8_valid (sc_provenance c) = true) /\
  (decode_accounting raw = Ok r <-> accounting_typed r /\ raw = encode_accounting r).
Proof.
  intros Hlen. split; [by apply decode_iff|]. split; [apply decode_accounting_sound|].
  intros [Ht ->]. by apply decode_accounting_encode.
Qed.
End codec.

(** ** Samples *)

Definition sample_companion : SealCompanion := {|
  sc_root_input := ascii "root"; sc_b1_update := ascii "update"; sc_records := ascii "records";
  sc_pair_binding := ascii "binding"; sc_witnesses := [ascii "w1"; []]; sc_provenance := ascii "build" |}.

Definition sample_accounting : StoredAccounting := {|
  sa_chain_id := 1; sa_genesis_hash := ZERO32; sa_block_number := 5;
  sa_accounting := {| la_block_hash := word_of 9;
    la_profile := {| max_gas := 30000000; system_gas := 2000000; base_fee_floor := 1000000; elasticity := 2;
      change_denominator := 8 |};
    la_header_gas := 2; la_system_gas := 1; la_ordinary_gas := 1; la_base_fee := 1000000 |} |}.

Lemma sample_typed : accounting_typed sample_accounting.
Proof.
  unfold accounting_typed, accounting_fields. rewrite !Forall_cons, Forall_nil.
  cbn -[is_u64 is_word word_of ZERO32]. split_and!; first [apply word_of_word | ulia | done].
Qed.

Lemma records_exact_witness :
  decode (M := Empty_set) (record_bytes sample_companion) = Ok sample_companion /\
  decode_accounting (M := Empty_set) (encode_accounting sample_accounting) = Ok sample_accounting.
Proof.
  split.
  - refine (proj2 (proj1 (records_exact (record_bytes sample_companion) sample_companion
      sample_accounting _)) _); [vm_compute; discriminate|]. split; vm_compute; reflexivity.
  - refine (proj2 (proj2 (records_exact (encode_accounting sample_accounting) sample_companion
      sample_accounting _)) (conj sample_typed eq_refl)). vm_compute. discriminate.
Defined.
End StoreCodec.
