(* ===== verification/CompanionStore.v ===== *)
(** The durable companion store: [crates/unicity/store/src/store.rs].

    The backing environment is MDBX, a parameter of the model ([MdbxEnv]) whose documented behaviour is
    [MdbxLaws]: tables are finite maps ordered by key bytes, a transaction starts from the committed
    state and commits atomically, and a cursor whose entry is deleted moves on to the next one.  Every
    operation may fail with an error of the environment.  Loops over a cursor carry fuel; the
    theorems show how much is enough.

    [Spec] is what the store promises: a map from hashes to numbered companions, a map of accounting
    records, a horizon and an eviction cursor.  [represents] relates it to the five tables, and the
    theorems show that every operation of the store implements its counterpart on [Spec]. *)
From stdpp Require Import gmap sorting.
From S2P Require Import Prelude CborCodec BlockAccounting RootInput StoreCodec.

#[global] Instance byte_countable : Countable byte := inj_countable' b2z z2b z2b_b2z.

Module CompanionStore.
Import StoreCodec.

(** ** The backing environment *)

Inductive Table := COMPANIONS | BY_NUMBER | META | ACCOUNTING | ACCOUNTING_BY_NUMBER.
#[global] Instance table_eq_decision : EqDecision Table.
Proof. solve_decision. Defined.

Class MdbxEnv := {
  MdbxError : Type;
  (** A committed state of the environment, and a transaction on it. *)
  Environment : Type;
  Txn : Type;
  begin_txn : Environment -> result MdbxError Txn;
  txn_get : Txn -> Table -> bytes -> result MdbxError (option bytes);
  txn_put : Txn -> Table -> bytes -> bytes -> result MdbxError Txn;
  txn_del : Txn -> Table -> bytes -> result MdbxError Txn;
  (** Cursor positions are keys: the first key, the first key not below a bound, the deletion of the
      entry at a key, and the first key after a position. *)
  cursor_first : Txn -> Table -> result MdbxError (option bytes);
  cursor_set_range : Txn -> Table -> bytes -> result MdbxError (option bytes);
  cursor_del : Txn -> Table -> bytes -> result MdbxError Txn;
  cursor_next : Txn -> Table -> bytes -> result MdbxError (option bytes);
  txn_commit : Txn -> result MdbxError Environment;
  env_sync : Environment -> result MdbxError () }.

(** The least key of a table that satisfies [lo]. *)
Definition is_least (m : gmap bytes bytes) (lo : bytes -> Prop) (o : option bytes) : Prop :=
  match o with
  | Some k => is_Some (m !! k) /\ lo k /\ forall k', is_Some (m !! k') -> lo k' -> k' = k \/ bytes_lt k k'
  | None => forall k, is_Some (m !! k) -> ~ lo k
  end.

Class MdbxLaws `{MdbxEnv} := {
  contents : Txn -> Table -> gmap bytes bytes;
  committed_contents : Environment -> Table -> gmap bytes bytes;
  begin_law : forall e t, begin_txn e = Ok t -> forall tb, contents t tb = committed_contents e tb;
  get_law : forall t tb k v, txn_get t tb k = Ok v -> v = contents t tb !! k;
  put_law : forall t tb k v t', txn_put t tb k v = Ok t' ->
    forall tb', contents t' tb' = if decide (tb' = tb) then <[k := v]> (contents t tb) else contents t tb';
  del_law : forall t tb k t', txn_del t tb k = Ok t' ->
    forall tb', contents t' tb' = if decide (tb' = tb) then delete k (contents t tb) else contents t tb';
  first_law : forall t tb o, cursor_first t tb = Ok o -> is_least (contents t tb) (fun _ => True) o;
  set_range_law : forall t tb k o, cursor_set_range t tb k = Ok o ->
    is_least (contents t tb) (fun k' => ~ bytes_lt k' k) o;
  cursor_del_law : forall t tb k t', cursor_del t tb k = Ok t' ->
    forall tb', contents t' tb' = if decide (tb' = tb) then delete k (contents t tb) else contents t tb';
  next_law : forall t tb k o, cursor_next t tb k = Ok o -> is_least (contents t tb) (fun k' => bytes_lt k k') o;
  commit_law : forall t e, txn_commit t = Ok e -> forall tb, committed_contents e tb = contents t tb }.

(** ** Keys and values *)

Definition HORIZON_KEY : bytes := ascii "horizon".
Definition EVICTION_CURSOR_KEY : bytes := ascii "eviction_cursor".
Definition HASH_LEN : nat := 32.
Definition NUMBER_LEN : nat := 8.
Definition INDEX_KEY_LEN : nat := NUMBER_LEN + HASH_LEN.

Definition index_key (number : Z) (hash : bytes) : bytes := be_bytes NUMBER_LEN number ++ hash.

Inductive Lookup :=
| Found (c : SealCompanion)
| Unavailable (horizon : Z)
| Unknown.

(** An operation fails with a store error, or a cursor loop runs out of fuel. *)
Inductive StoreFault (M : Type) :=
| Refused (e : StoreError M)
| Diverged.
Arguments Refused {M} e.
Arguments Diverged {M}.

Section store.
Context `{MdbxEnv}.
Abbreviation fault := (StoreFault MdbxError).
Abbreviation txn_reader := (reader Txn fault).

Definition mdbx {A} (r : result MdbxError A) : result fault A := map_err (fun m => Refused (Mdbx m)) r.
Definition refused {A} (r : result (StoreError MdbxError) A) : result fault A := map_err Refused r.

(** Statements of a transaction: reads leave it, writes replace it. *)
Definition query {A} (f : Txn -> result MdbxError A) : txn_reader A := fun t =>
  let? a := mdbx (f t) in Ok (a, t).
Definition update (f : Txn -> result MdbxError Txn) : txn_reader () := fun t =>
  let? t' := mdbx (f t) in Ok ((), t').

(** A read-write transaction: an error drops it, a commit publishes it, and a failed sync after the
    commit is reported although the state has changed. *)
Definition rw_txn {A} (body : txn_reader A) (e : Environment) : result fault A * Environment :=
  match mdbx (begin_txn e) with
  | Err f => (Err f, e)
  | Ok t =>
      match body t with
      | Err f => (Err f, e)
      | Ok (a, t) =>
          match mdbx (txn_commit t) with
          | Err f => (Err f, e)
          | Ok e' => match mdbx (env_sync e') with Err f => (Err f, e') | Ok _ => (Ok a, e') end
          end
      end
  end.

Definition ro_txn {A} (body : txn_reader A) (e : Environment) : result fault A :=
  let? t := mdbx (begin_txn e) in
  let? (a, _) := body t in
  Ok a.

Definition stored_number (value : bytes) : result (StoreError MdbxError) Z :=
  let? raw := ok_or (get_range value 0 (Z.of_nat NUMBER_LEN)) (Corrupt "stored value has no block number") in
  Ok (be_val raw).

Definition stored_record (value : bytes) : result (StoreError MdbxError) bytes :=
  ok_or (get_range value (Z.of_nat NUMBER_LEN) (zlen value)) (Corrupt "stored value has no record").

Definition read_meta_number (key : bytes) : txn_reader (option Z) :=
  let* value := query (fun t => txn_get t META key) in
  match value with
  | None => sret None
  | Some raw =>
      if negb (zlen raw =? Z.of_nat NUMBER_LEN)
      then fail (Refused (Corrupt "metadata number is not eight bytes"))
      else sret (Some (be_val raw))
  end.

(** ** Accounting *)

Definition put_accounting (r : StoredAccounting) : Environment -> result fault () * Environment :=
  let hash := la_block_hash (sa_accounting r) in
  let value := encode_accounting r in
  rw_txn (
    let* existing := query (fun t => txn_get t ACCOUNTING hash) in
    let* _ := match existing with
      | Some raw =>
          let* old := lift (refused (decode_accounting raw)) in
          if bool_decide (old = r) then sret () else
          fail (Refused (Corrupt "conflicting accounting for block hash"))
      | None => sret ()
      end in
    let* _ := update (fun t => txn_put t ACCOUNTING hash value) in
    update (fun t => txn_put t ACCOUNTING_BY_NUMBER (index_key (sa_block_number r) hash) [])).

Definition get_accounting (hash : bytes) : Environment -> result fault (option StoredAccounting) :=
  ro_txn (
    let* value := query (fun t => txn_get t ACCOUNTING hash) in
    match value with
    | None => sret None
    | Some raw =>
        let* r := lift (refused (decode_accounting raw)) in
        if negb (bool_decide (la_block_hash (sa_accounting r) = hash))
        then fail (Refused (Corrupt "accounting key/hash mismatch")) else sret (Some r)
    end).

(** The loop over a number index: entries below [number] go, with their primary record. *)
Fixpoint prune_loop (fuel : nat) (index primary : Table) (corrupt : string) (number : Z)
    (entry : option bytes) : txn_reader () :=
  match entry with
  | None => sret ()
  | Some key =>
      match fuel with
      | O => fail Diverged
      | S fuel =>
          if negb (length key =? INDEX_KEY_LEN)%nat then fail (Refused (Corrupt corrupt)) else
          if number <=? be_val (take NUMBER_LEN key) then sret () else
          let* _ := update (fun t => txn_del t primary (drop NUMBER_LEN key)) in
          let* _ := update (fun t => cursor_del t index key) in
          let* entry := query (fun t => cursor_next t index key) in
          prune_loop fuel index primary corrupt number entry
      end
  end.

Definition prune_accounting_below (fuel : nat) (number : Z) : Environment -> result fault () * Environment :=
  rw_txn (
    let* entry := query (fun t => cursor_first t ACCOUNTING_BY_NUMBER) in
    prune_loop fuel ACCOUNTING_BY_NUMBER ACCOUNTING "accounting index key length" number entry).

(** ** Companions *)

Definition put (block_hash : bytes) (block_number : Z) (c : SealCompanion) (e : Environment)
    : result fault () * Environment :=
  match refused (encode c) with
  | Err f => (Err f, e)
  | Ok record =>
      let value := be_bytes NUMBER_LEN block_number ++ record in
      rw_txn (
        let* existing := query (fun t => txn_get t COMPANIONS block_hash) in
        let* _ := match existing with
          | Some old =>
              let* old_number := lift (refused (stored_number old)) in
              if negb (old_number =? block_number)
              then update (fun t => txn_del t BY_NUMBER (index_key old_number block_hash))
              else sret ()
          | None => sret ()
          end in
        let* _ := update (fun t => txn_put t COMPANIONS block_hash value) in
        update (fun t => txn_put t BY_NUMBER (index_key block_number block_hash) [])) e
  end.

Definition get (block_hash : bytes) : Environment -> result fault Lookup :=
  ro_txn (
    let* value := query (fun t => txn_get t COMPANIONS block_hash) in
    match value with
    | Some value =>
        let* record := lift (refused (stored_record value)) in
        let* c := lift (refused (decode record)) in
        sret (Found c)
    | None =>
        let* horizon := read_meta_number HORIZON_KEY in
        match horizon with
        | Some horizon => sret (Unavailable horizon)
        | None => sret Unknown
        end
    end).

Definition remove (block_hash : bytes) : Environment -> result fault () * Environment :=
  rw_txn (
    let* existing := query (fun t => txn_get t COMPANIONS block_hash) in
    match existing with
    | Some value =>
        let* number := lift (refused (stored_number value)) in
        let* _ := update (fun t => txn_del t COMPANIONS block_hash) in
        update (fun t => txn_del t BY_NUMBER (index_key number block_hash))
    | None => sret ()
    end).

(** The collecting loop of [entries_in_range], with the pairs found so far. *)
Fixpoint range_loop (fuel : nat) (to : Z) (entries : list (bytes * Z)) (entry : option bytes)
    : txn_reader (list (bytes * Z)) :=
  match entry with
  | None => sret entries
  | Some key =>
      match fuel with
      | O => fail Diverged
      | S fuel =>
          if negb (length key =? INDEX_KEY_LEN)%nat
          then fail (Refused (Corrupt "index key has the wrong length")) else
          let number := be_val (take NUMBER_LEN key) in
          if to <=? number then sret entries else
          let* entry := query (fun t => cursor_next t BY_NUMBER key) in
          range_loop fuel to (entries ++ [(drop NUMBER_LEN key, number)]) entry
      end
  end.

Definition entries_in_range (fuel : nat) (from to : Z) : Environment -> result fault (list (bytes * Z)) :=
  ro_txn (
    let* entry := query (fun t => cursor_set_range t BY_NUMBER (be_bytes NUMBER_LEN from)) in
    range_loop fuel to [] entry).

(** [current.map_or(number, |current| current.max(number))]. *)
Definition raised (current : option Z) (number : Z) : Z :=
  match current with Some c => Z.max c number | None => number end.

Definition prune_below (fuel : nat) (number : Z) : Environment -> result fault () * Environment :=
  rw_txn (
    let* current := read_meta_number HORIZON_KEY in
    let target := raised current number in
    let* entry := query (fun t => cursor_first t BY_NUMBER) in
    let* _ := prune_loop fuel BY_NUMBER COMPANIONS "index key has the wrong length" number entry in
    update (fun t => txn_put t META HORIZON_KEY (be_bytes NUMBER_LEN target))).

Definition set_horizon (number : Z) : Environment -> result fault () * Environment :=
  rw_txn (
    let* current := read_meta_number HORIZON_KEY in
    match current with
    | Some current =>
        if number <? current then fail (Refused (HorizonRegression current number))
        else update (fun t => txn_put t META HORIZON_KEY (be_bytes NUMBER_LEN number))
    | None => update (fun t => txn_put t META HORIZON_KEY (be_bytes NUMBER_LEN number))
    end).

Definition horizon : Environment -> result fault (option Z) := ro_txn (read_meta_number HORIZON_KEY).

Definition eviction_cursor : Environment -> result fault (option Z) :=
  ro_txn (read_meta_number EVICTION_CURSOR_KEY).

Definition set_eviction_cursor (number : Z) : Environment -> result fault () * Environment :=
  rw_txn (
    let* current := read_meta_number EVICTION_CURSOR_KEY in
    update (fun t => txn_put t META EVICTION_CURSOR_KEY (be_bytes NUMBER_LEN (raised current number)))).
End store.

(** ** What the store promises *)

Record Spec := {
  sp_companions : gmap bytes (Z * SealCompanion);
  sp_accounting : gmap bytes StoredAccounting;
  sp_horizon : option Z;
  sp_cursor : option Z }.

Definition empty_spec : Spec :=
  {| sp_companions := ∅; sp_accounting := ∅; sp_horizon := None; sp_cursor := None |}.

Inductive Op :=
| Put (block_hash : bytes) (block_number : Z) (c : SealCompanion)
| Remove (block_hash : bytes)
| PruneBelow (number : Z)
| SetHorizon (number : Z)
| SetEvictionCursor (number : Z)
| PutAccounting (r : StoredAccounting)
| PruneAccountingBelow (number : Z).

Definition with_companions (s : Spec) m : Spec :=
  {| sp_companions := m; sp_accounting := sp_accounting s; sp_horizon := sp_horizon s; sp_cursor := sp_cursor s |}.
Definition with_accounting (s : Spec) m : Spec :=
  {| sp_companions := sp_companions s; sp_accounting := m; sp_horizon := sp_horizon s; sp_cursor := sp_cursor s |}.
Definition with_horizon (s : Spec) n : Spec :=
  {| sp_companions := sp_companions s; sp_accounting := sp_accounting s; sp_horizon := Some n; sp_cursor := sp_cursor s |}.
Definition with_cursor (s : Spec) n : Spec :=
  {| sp_companions := sp_companions s; sp_accounting := sp_accounting s; sp_horizon := sp_horizon s; sp_cursor := Some n |}.

Definition spec_step {M} (op : Op) (s : Spec) : result (StoreError M) Spec :=
  match op with
  | Put h n c =>
      let? _ := encode c in Ok (with_companions s (<[h := (n, c)]> (sp_companions s)))
  | Remove h => Ok (with_companions s (delete h (sp_companions s)))
  | PruneBelow n =>
      Ok (with_horizon (with_companions s (filter (fun e => n <= e.2.1) (sp_companions s)))
            (raised (sp_horizon s) n))
  | SetHorizon n =>
      match sp_horizon s with
      | Some current => if n <? current then Err (HorizonRegression current n) else Ok (with_horizon s n)
      | None => Ok (with_horizon s n)
      end
  | SetEvictionCursor n => Ok (with_cursor s (raised (sp_cursor s) n))
  | PutAccounting r =>
      let h := la_block_hash (sa_accounting r) in
      match sp_accounting s !! h with
      | Some old =>
          if bool_decide (old = r) then Ok s else Err (Corrupt "conflicting accounting for block hash")
      | None => Ok (with_accounting s (<[h := r]> (sp_accounting s)))
      end
  | PruneAccountingBelow n =>
      Ok (with_accounting s (filter (fun e => n <= sa_block_number e.2) (sp_accounting s)))
  end.

Definition spec_get (h : bytes) (s : Spec) : Lookup :=
  match sp_companions s !! h with
  | Some (_, c) => Found c
  | None => match sp_horizon s with Some n => Unavailable n | None => Unknown end
  end.

Definition step `{MdbxEnv} (fuel : nat) (op : Op)
    : Environment -> result (StoreFault MdbxError) () * Environment :=
  match op with
  | Put h n c => put h n c
  | Remove h => remove h
  | PruneBelow n => prune_below fuel n
  | SetHorizon n => set_horizon n
  | SetEvictionCursor n => set_eviction_cursor n
  | PutAccounting r => put_accounting r
  | PruneAccountingBelow n => prune_accounting_below fuel n
  end.

(** ** A table with a number index *)

Lemma index_key_length n h : is_word h -> length (index_key n h) = INDEX_KEY_LEN.
Proof. intros Hh. unfold index_key. rewrite length_app, be_bytes_length, Hh. done. Qed.

Lemma index_key_number n h : is_u64 n -> be_val (take NUMBER_LEN (index_key n h)) = n.
Proof.
  intros Hn. unfold index_key. rewrite take_length_app by apply be_bytes_length.
  apply be_val_bytes. unfold NUMBER_LEN. ulia.
Qed.

Lemma index_key_hash n h : drop NUMBER_LEN (index_key n h) = h.
Proof. unfold index_key. apply drop_length_app, be_bytes_length. Qed.

Lemma index_key_inj n1 n2 h1 h2 :
  is_u64 n1 -> is_u64 n2 -> index_key n1 h1 = index_key n2 h2 -> n1 = n2 /\ h1 = h2.
Proof.
  intros H1 H2 Heq. split.
  - by rewrite <- (index_key_number n1 h1 H1), <- (index_key_number n2 h2 H2), Heq.
  - by rewrite <- (index_key_hash n1 h1), <- (index_key_hash n2 h2), Heq.
Qed.

(** Keys are ordered by number first. *)
Lemma index_key_order n1 n2 h1 h2 :
  is_u64 n1 -> is_u64 n2 -> bytes_lt (index_key n1 h1) (index_key n2 h2) -> n1 <= n2.
Proof.
  intros H1 H2. unfold bytes_lt, index_key. rewrite bytes_ltb_app by (by rewrite !be_bytes_length).
  rewrite be_bytes_ltb by (unfold NUMBER_LEN; ulia). intros [?%Z.ltb_lt | [Heq _]%andb_true_iff]%orb_true_iff; [lia|].
  apply bool_decide_eq_true, be_bytes_inj in Heq; unfold NUMBER_LEN; [lia | ulia..].
Qed.

(** A primary table and its index hold exactly the numbered values [m]. *)
Record indexed (P I : gmap bytes bytes) (m : gmap bytes (Z * bytes)) : Prop := {
  ix_primary : forall h, P !! h = snd <$> m !! h;
  ix_index : forall k, is_Some (I !! k) <-> exists h n v, k = index_key n h /\ m !! h = Some (n, v);
  ix_typed : forall h n v, m !! h = Some (n, v) -> is_word h /\ is_u64 n }.

Lemma indexed_insert P I m h n v :
  indexed P I m -> is_word h -> is_u64 n ->
  (forall n0 v0, m !! h = Some (n0, v0) -> n0 = n) ->
  indexed (<[h := v]> P) (<[index_key n h := []]> I) (<[h := (n, v)]> m).
Proof.
  intros [HP HI HT] Hh Hn Hold. split.
  - intros h'. destruct (decide (h = h')) as [->|Hne]; [by rewrite !lookup_insert_eq|].
    by rewrite !lookup_insert_ne.
  - intros k. destruct (decide (index_key n h = k)) as [<-|Hne].
    + rewrite lookup_insert_eq. split; [|eauto]. intros _. exists h, n, v. by rewrite lookup_insert_eq.
    + rewrite lookup_insert_ne by done. rewrite HI. split; intros (h' & n' & v' & -> & Hm).
      * destruct (decide (h = h')) as [->|Hh']; [by apply Hold in Hm as ->|].
        exists h', n', v'. by rewrite lookup_insert_ne.
      * destruct (decide (h = h')) as [->|Hh'].
        { rewrite lookup_insert_eq in Hm. by injection Hm as <- <-. }
        rewrite lookup_insert_ne in Hm by done. eauto 6.
  - intros h' n' v'. destruct (decide (h = h')) as [->|Hne].
    + rewrite lookup_insert_eq. by intros [= <- <-].
    + rewrite lookup_insert_ne by done. apply HT.
Qed.

Lemma indexed_delete P I m h n v :
  indexed P I m -> m !! h = Some (n, v) -> indexed (delete h P) (delete (index_key n h) I) (delete h m).
Proof.
  intros [HP HI HT] Hm. destruct (HT _ _ _ Hm) as [Hh Hn]. split.
  - intros h'. destruct (decide (h = h')) as [->|Hne]; [by rewrite !lookup_delete_eq|].
    by rewrite !lookup_delete_ne.
  - intros k. destruct (decide (index_key n h = k)) as [<-|Hne].
    + rewrite lookup_delete_eq. split; [by intros []|]. intros (h' & n' & v' & Hk & Hm').
      apply lookup_delete_Some in Hm' as [Hne Hm']. destruct (HT _ _ _ Hm') as [_ Hn'].
      by apply index_key_inj in Hk as [_ ->].
    + rewrite lookup_delete_ne by done. rewrite HI. split; intros (h' & n' & v' & -> & Hm').
      * exists h', n', v'. rewrite lookup_delete_ne; [done|]. intros ->. apply Hne. congruence.
      * apply lookup_delete_Some in Hm' as [_ Hm']. eauto 6.
  - intros h' n' v' [_ Hm']%lookup_delete_Some. by eapply HT.
Qed.

(** The parts of an index key. *)
Lemma indexed_entry P I m k : indexed P I m -> is_Some (I !! k) ->
  exists h n v, k = index_key n h /\ m !! h = Some (n, v) /\ length k = INDEX_KEY_LEN /\
    be_val (take NUMBER_LEN k) = n /\ drop NUMBER_LEN k = h /\ is_u64 n /\ is_word h.
Proof.
  intros [HP HI HT] (h & n & v & -> & Hm)%HI. destruct (HT _ _ _ Hm) as [Hh Hn].
  exists h, n, v. split_and!; first [done | by apply index_key_length | by apply index_key_number | apply index_key_hash].
Qed.

(** ** Transactions *)

Section refinement.
Context `{MdbxLaws}.
Abbreviation fault := (StoreFault MdbxError).

(** The outcome of a transaction body: [post] of the state it leaves, or an error of the environment,
    or an error that [stop] allows. *)
Definition outcome {A} (r : result fault (A * Txn)) (post : A -> Txn -> Prop) (stop : StoreError MdbxError -> Prop)
    : Prop :=
  match r with
  | Ok (a, t) => post a t
  | Err (Refused err) => (exists m, err = Mdbx m) \/ stop err
  | Err Diverged => False
  end.

Lemma outcome_query {A B} (f : Txn -> result MdbxError A) (k : A -> reader Txn fault B) t post stop :
  (forall a, f t = Ok a -> outcome (k a t) post stop) -> outcome (sbind (query f) k t) post stop.
Proof.
  intros Hk. unfold sbind, query. destruct (f t) as [a|m]; cbn; [by apply Hk | left; eauto].
Qed.

Lemma outcome_update {B} (f : Txn -> result MdbxError Txn) (k : () -> reader Txn fault B) t post stop :
  (forall t', f t = Ok t' -> outcome (k () t') post stop) -> outcome (sbind (update f) k t) post stop.
Proof.
  intros Hk. unfold sbind, update. destruct (f t) as [t'|m]; cbn; [by apply Hk | left; eauto].
Qed.

Lemma outcome_last (f : Txn -> result MdbxError Txn) t post stop :
  (forall t', f t = Ok t' -> post () t') -> outcome (update f t) post stop.
Proof. intros Hk. unfold update. destruct (f t) as [t'|m]; cbn; [by apply Hk | left; eauto]. Qed.

Lemma outcome_bind {A B} (p : reader Txn fault A) (k : A -> reader Txn fault B) t mid post stop :
  outcome (p t) mid stop -> (forall a t', mid a t' -> outcome (k a t') post stop) ->
  outcome (sbind p k t) post stop.
Proof. intros Hp Hk. unfold sbind. destruct (p t) as [[a t']|[|]]; cbn in *; [by apply Hk | done..]. Qed.

Lemma outcome_lift {A B} (c : result (StoreError MdbxError) A) (k : A -> reader Txn fault B) t a post stop :
  c = Ok a -> outcome (k a t) post stop -> outcome (sbind (lift (refused c)) k t) post stop.
Proof. by intros ->. Qed.

(** The tables a successful statement leaves. *)
Lemma after_del t tb k t' : txn_del t tb k = Ok t' ->
  contents t' tb = delete k (contents t tb) /\ forall tb', tb' <> tb -> contents t' tb' = contents t tb'.
Proof. intros Hd. pose proof (del_law _ _ _ _ Hd) as Hc. split; [|intros tb' Hne]; rewrite Hc; by case_decide. Qed.

Lemma after_cursor_del t tb k t' : cursor_del t tb k = Ok t' ->
  contents t' tb = delete k (contents t tb) /\ forall tb', tb' <> tb -> contents t' tb' = contents t tb'.
Proof. intros Hd. pose proof (cursor_del_law _ _ _ _ Hd) as Hc. split; [|intros tb' Hne]; rewrite Hc; by case_decide. Qed.

Lemma after_put t tb k v t' : txn_put t tb k v = Ok t' ->
  contents t' tb = <[k := v]> (contents t tb) /\ forall tb', tb' <> tb -> contents t' tb' = contents t tb'.
Proof. intros Hd. pose proof (put_law _ _ _ _ _ Hd) as Hc. split; [|intros tb' Hne]; rewrite Hc; by case_decide. Qed.

(** ** Pruning *)

Lemma filter_all (n : Z) (m : gmap bytes (Z * bytes)) :
  (forall h n' v, m !! h = Some (n', v) -> n <= n') -> filter (fun e => n <= e.2.1) m = m.
Proof. intros Hm. apply map_filter_id. intros h [n' v] Hl. cbn. by eapply Hm. Qed.

Lemma prune_loop_ok index primary corrupt number :
  index <> primary -> forall fuel entry t m,
  indexed (contents t primary) (contents t index) m ->
  is_least (contents t index) (fun _ => True) entry -> (size m <= fuel)%nat ->
  outcome (prune_loop fuel index primary corrupt number entry t)
    (fun _ t' => indexed (contents t' primary) (contents t' index) (filter (fun e => number <= e.2.1) m) /\
       forall tb, tb <> index -> tb <> primary -> contents t' tb = contents t tb)
    (fun _ => False).
Proof.
  intros Hne fuel. induction fuel as [|fuel IH]; intros entry t m Hix Hleast Hfuel.
  { assert (m = ∅) as -> by (apply map_size_empty_inv; lia).
    destruct entry as [key|]; [|by rewrite map_filter_empty].
    destruct Hleast as (Hs & _). apply (indexed_entry _ _ _ _ Hix) in Hs as (h & n & v & _ & Hm & _).
    by rewrite lookup_empty in Hm. }
  destruct entry as [key|]; cbn [prune_loop].
  2:{ cbn. rewrite filter_all; [done|]. intros h n v Hm. exfalso. apply (Hleast (index_key n h)); [|done].
      apply (ix_index _ _ _ Hix). eauto 6. }
  destruct Hleast as (Hs & _ & Hmin).
  destruct (indexed_entry _ _ _ _ Hix Hs) as (h & n & v & Hk & Hm & Hl & Hnum & Hh & Hn & Hw).
  rewrite Hl, Nat.eqb_refl, Hnum, Hh. cbn [negb]. destruct (Z.leb_spec number n) as [Hge|Hlt].
  { cbn. rewrite filter_all; [done|]. intros h' n' v' Hm'.
    destruct (ix_typed _ _ _ Hix _ _ _ Hm') as [_ Hn'].
    destruct (Hmin (index_key n' h')) as [Heq | Horder]; [apply (ix_index _ _ _ Hix); eauto 6|done| |].
    - rewrite Hk in Heq. apply index_key_inj in Heq as [-> _]; done.
    - rewrite Hk in Horder. apply index_key_order in Horder; [lia|done..]. }
  apply outcome_update. intros t1 [Hp1 Ho1]%after_del.
  apply outcome_update. intros t2 [Hi2 Ho2]%after_cursor_del.
  apply outcome_query. intros entry Hnext%next_law.
  assert (Hix2 : indexed (contents t2 primary) (contents t2 index) (delete h m)).
  { rewrite Hi2, (Ho2 primary), Hp1, (Ho1 index) by congruence. rewrite Hk. by eapply indexed_delete. }
  assert (Hleast2 : is_least (contents t2 index) (fun _ => True) entry).
  { assert (Hgt : forall k', is_Some (contents t2 index !! k') -> bytes_lt key k').
    { intros k'. rewrite Hi2, (Ho1 index) by congruence. intros [x [Hk' Hx]%lookup_delete_Some].
      destruct (Hmin k') as [->|]; [by eexists|done|done|done]. }
    destruct entry as [k|]; cbn in Hnext |- *; [destruct Hnext as (? & _ & Hmin'); split_and!; auto|]. intros k Hx _. by apply (Hnext k), Hgt. }
  assert (Hsize : (size (delete h m) <= fuel)%nat).
  { rewrite map_size_delete_Some by (by eexists). lia. }
  specialize (IH entry t2 _ Hix2 Hleast2 Hsize).
  rewrite map_filter_delete_not in IH by (intros [n' v'] Hl' Hp; cbn in Hp; rewrite Hm in Hl'; injection Hl' as -> ->; lia).
  destruct (prune_loop _ _ _ _ _ entry t2) as [[[] t']|[|]]; cbn in *; try done.
  destruct IH as [Hix' Hother]. split; [done|]. intros tb H1 H2'. rewrite Hother, Ho2, Ho1; done.
Qed.

(** ** The tables represent a specification state *)

Definition companion_values (m : gmap bytes (Z * SealCompanion)) : gmap bytes (Z * bytes) :=
  (fun e => (e.1, be_bytes NUMBER_LEN e.1 ++ record_bytes e.2)) <$> m.
Definition accounting_values (m : gmap bytes StoredAccounting) : gmap bytes (Z * bytes) :=
  (fun r => (sa_block_number r, encode_accounting r)) <$> m.

(** Values a Rust caller can pass: hashes are words, numbers are 64-bit, strings are UTF-8, and an
    encoded record fits a vector. *)
Definition companion_typed (c : SealCompanion) : Prop :=
  utf8_valid (sc_provenance c) = true /\ zlen (record_bytes c) + 8 <= slice_max.
Definition companion_ok (c : SealCompanion) : Prop := companion_fits c /\ companion_typed c.

Record represents (C : Table -> gmap bytes bytes) (s : Spec) : Prop := {
  rp_companions : indexed (C COMPANIONS) (C BY_NUMBER) (companion_values (sp_companions s));
  rp_accounting : indexed (C ACCOUNTING) (C ACCOUNTING_BY_NUMBER) (accounting_values (sp_accounting s));
  rp_horizon : C META !! HORIZON_KEY = be_bytes NUMBER_LEN <$> sp_horizon s;
  rp_cursor : C META !! EVICTION_CURSOR_KEY = be_bytes NUMBER_LEN <$> sp_cursor s;
  rp_records : forall h n c, sp_companions s !! h = Some (n, c) -> companion_ok c;
  rp_entries : forall h r, sp_accounting s !! h = Some r -> accounting_typed r /\ la_block_hash (sa_accounting r) = h;
  rp_numbers : forall n, sp_horizon s = Some n \/ sp_cursor s = Some n -> is_u64 n }.

Lemma represents_ext C C' s : (forall tb, C' tb = C tb) -> represents C s -> represents C' s.
Proof. intros Hc [? ? ? ? ? ? ?]. split; rewrite ?Hc; done. Qed.

Lemma outcome_meta {B} key o (k : option Z -> reader Txn fault B) t post stop :
  contents t META !! key = be_bytes NUMBER_LEN <$> o -> (forall n, o = Some n -> is_u64 n) ->
  outcome (k o t) post stop -> outcome (sbind (read_meta_number key) k t) post stop.
Proof.
  intros Hm Hn Hk. unfold read_meta_number, query, mdbx. unfold sbind at 1 2.
  destruct (txn_get t META key) as [v|m] eqn:Hg; cbn; [|left; eauto].
  apply get_law in Hg as ->. rewrite Hm. destruct o as [n|]; cbn [fmap option_fmap option_map]; [|done].
  assert (Hz : zlen (be_bytes NUMBER_LEN n) = 8) by (unfold zlen; by rewrite be_bytes_length).
  rewrite Hz, be_val_bytes by (specialize (Hn n eq_refl); unfold NUMBER_LEN; ulia). done.
Qed.

Lemma companion_value m h :
  companion_values m !! h = (fun e => (e.1, be_bytes NUMBER_LEN e.1 ++ record_bytes e.2)) <$> m !! h.
Proof. apply lookup_fmap. Qed.

Lemma stored_number_ok n c : is_u64 n -> stored_number (be_bytes NUMBER_LEN n ++ record_bytes c) = Ok n.
Proof.
  intros Hn. unfold stored_number, get_range. rewrite zlen_app.
  assert (Hz : zlen (be_bytes NUMBER_LEN n) = 8) by (unfold zlen; by rewrite be_bytes_length).
  pose proof (zlen_nonneg (record_bytes c)). rewrite Hz. change (Z.of_nat NUMBER_LEN) with 8.
  rewrite !(proj2 (Z.leb_le _ _)) by lia. cbn [andb ok_or rbind Z.to_nat]. rewrite drop_0.
  change (Z.to_nat (8 - 0)) with 8%nat. rewrite take_length_app by apply be_bytes_length.
  rewrite be_val_bytes; [done|]. unfold NUMBER_LEN. ulia.
Qed.

Lemma stored_record_ok n x : stored_record (be_bytes NUMBER_LEN n ++ x) = Ok x.
Proof.
  unfold stored_record, get_range. rewrite zlen_app.
  assert (Hz : zlen (be_bytes NUMBER_LEN n) = 8) by (unfold zlen; by rewrite be_bytes_length).
  pose proof (zlen_nonneg x). rewrite Hz. change (Z.of_nat NUMBER_LEN) with 8.
  rewrite !(proj2 (Z.leb_le _ _)) by lia. cbn [andb ok_or].
  rewrite drop_length_app by apply be_bytes_length. rewrite take_ge; [done|]. unfold zlen. lia.
Qed.

(** What a read-write transaction does to the committed state. *)
Lemma rw_txn_outcome {A} (body : reader Txn fault A) e res e' post stop :
  (forall t, begin_txn e = Ok t -> outcome (body t) post stop) -> rw_txn body e = (res, e') ->
  (e' = e /\ exists err, res = Err (Refused err) /\ ((exists m, err = Mdbx m) \/ stop err)) \/
  (exists a t', post a t' /\ (forall tb, committed_contents e' tb = contents t' tb) /\
     (res = Ok a \/ exists m, res = Err (Refused (Mdbx m)))).
Proof.
  intros Hb. unfold rw_txn, mdbx. destruct (begin_txn e) as [t|m] eqn:Ht; cbn [map_err].
  2:{ intros [= <- <-]. left. eauto 6. }
  specialize (Hb t eq_refl). destruct (body t) as [[a t']|[err|]]; cbn in Hb; [|intros [= <- <-]; left; eauto|done].
  destruct (txn_commit t') as [e1|m] eqn:Hc; cbn [map_err]; [|intros [= <- <-]; left; eauto 6].
  pose proof (commit_law _ _ Hc) as Hcc.
  destruct (env_sync e1) as [|m]; cbn [map_err]; intros [= <- <-]; right; eauto 8.
Qed.

(** The effect of one operation on the committed state. *)
Definition simulates (op : Op) (s : Spec) (e : Environment) (res : result fault ()) (e' : Environment) : Prop :=
  (res = Ok () /\ exists s', spec_step (M := MdbxError) op s = Ok s' /\ represents (committed_contents e') s') \/
  (exists err, res = Err (Refused err) /\ spec_step op s = Err err /\ e' = e) \/
  (exists m, res = Err (Refused (Mdbx m)) /\
     (e' = e \/ exists s', spec_step (M := MdbxError) op s = Ok s' /\ represents (committed_contents e') s')).

Lemma rw_simulates op s body e res e' :
  represents (committed_contents e) s ->
  (forall t, represents (contents t) s ->
     outcome (body t) (fun _ t' => exists s', spec_step (M := MdbxError) op s = Ok s' /\ represents (contents t') s')
       (fun err => spec_step op s = Err err)) ->
  rw_txn body e = (res, e') -> simulates op s e res e'.
Proof.
  intros Hr Hb Hrw. eapply rw_txn_outcome in Hrw.
  2:{ intros t Ht. apply Hb. eapply represents_ext; [|exact Hr]. apply begin_law, Ht. }
  destruct Hrw as [[-> (err & -> & [[m ->]|Herr])] | ([] & t' & (s' & Hs & Hr') & Hc & Hres)].
  - right; right. eauto.
  - right; left. eauto.
  - assert (represents (committed_contents e') s') by (by eapply represents_ext).
    destruct Hres as [-> | [m ->]]; [left | right; right]; eauto 8.
Qed.

(** ** Updating one part of the state *)

Lemma represents_horizon C C' s n :
  represents C s -> is_u64 n -> C' META = <[HORIZON_KEY := be_bytes NUMBER_LEN n]> (C META) ->
  (forall tb, tb <> META -> C' tb = C tb) -> represents C' (with_horizon s n).
Proof.
  intros [? ? ? Hc ? ? Hn] Hu Hm Ho. split; rewrite ?Ho by done; try done; cbn [with_horizon sp_horizon sp_cursor].
  - by rewrite Hm, lookup_insert_eq.
  - rewrite Hm, lookup_insert_ne; [done|]. by vm_compute.
  - intros n' [[= <-] | Hs]; [done|]. apply Hn. by right.
Qed.

Lemma represents_cursor C C' s n :
  represents C s -> is_u64 n -> C' META = <[EVICTION_CURSOR_KEY := be_bytes NUMBER_LEN n]> (C META) ->
  (forall tb, tb <> META -> C' tb = C tb) -> represents C' (with_cursor s n).
Proof.
  intros [? ? Hh ? ? ? Hn] Hu Hm Ho. split; rewrite ?Ho by done; try done; cbn [with_cursor sp_horizon sp_cursor].
  - rewrite Hm, lookup_insert_ne; [done|]. by vm_compute.
  - by rewrite Hm, lookup_insert_eq.
  - intros n' [Hs | [= <-]]; [|done]. apply Hn. by left.
Qed.

Lemma represents_companions C C' s m :
  represents C s -> indexed (C' COMPANIONS) (C' BY_NUMBER) (companion_values m) ->
  (forall tb, tb <> COMPANIONS -> tb <> BY_NUMBER -> C' tb = C tb) ->
  (forall h n c, m !! h = Some (n, c) -> companion_ok c) -> represents C' (with_companions s m).
Proof. intros [? ? ? ? ? ? ?] Hi Ho Hc. split; rewrite ?Ho by done; done. Qed.

Lemma represents_accounting C C' s m :
  represents C s -> indexed (C' ACCOUNTING) (C' ACCOUNTING_BY_NUMBER) (accounting_values m) ->
  (forall tb, tb <> ACCOUNTING -> tb <> ACCOUNTING_BY_NUMBER -> C' tb = C tb) ->
  (forall h r, m !! h = Some r -> accounting_typed r /\ la_block_hash (sa_accounting r) = h) ->
  represents C' (with_accounting s m).
Proof. intros [? ? ? ? ? ? ?] Hi Ho Hc. split; rewrite ?Ho by done; done. Qed.

Lemma companion_values_filter n m :
  filter (fun e => n <= e.2.1) (companion_values m) = companion_values (filter (fun e => n <= e.2.1) m).
Proof.
  unfold companion_values. rewrite map_filter_fmap. f_equal.
Qed.

Lemma accounting_values_filter n m :
  filter (fun e => n <= e.2.1) (accounting_values m) = accounting_values (filter (fun e => n <= sa_block_number e.2) m).
Proof. unfold accounting_values. rewrite map_filter_fmap. f_equal. Qed.

Lemma raised_u64 o n : (forall c, o = Some c -> is_u64 c) -> is_u64 n -> is_u64 (raised o n).
Proof. intros Ho Hn. destruct o as [c|]; [|done]. cbn. specialize (Ho c eq_refl). ulia. Qed.

(** ** The operations *)

Lemma set_horizon_sim n s e res e' :
  represents (committed_contents e) s -> is_u64 n -> set_horizon n e = (res, e') ->
  simulates (SetHorizon n) s e res e'.
Proof.
  intros Hr Hn. apply rw_simulates; [done|]. intros t Ht.
  apply (outcome_meta HORIZON_KEY (sp_horizon s)); [apply Ht | intros; apply Ht; by left|].
  assert (Hput : forall t', txn_put t META HORIZON_KEY (be_bytes NUMBER_LEN n) = Ok t' ->
    represents (contents t') (with_horizon s n)).
  { intros t' [Hm Ho]%after_put. by eapply represents_horizon. }
  cbn [spec_step]. destruct (sp_horizon s) as [current|].
  - destruct (n <? current); [by right|]. apply outcome_last. eauto.
  - apply outcome_last. eauto.
Qed.

Lemma set_cursor_sim n s e res e' :
  represents (committed_contents e) s -> is_u64 n -> set_eviction_cursor n e = (res, e') ->
  simulates (SetEvictionCursor n) s e res e'.
Proof.
  intros Hr Hn. apply rw_simulates; [done|]. intros t Ht.
  assert (Hu : forall c, sp_cursor s = Some c -> is_u64 c) by (intros; apply Ht; by right).
  apply (outcome_meta EVICTION_CURSOR_KEY (sp_cursor s)); [apply Ht | done|].
  apply outcome_last. intros t' [Hm Ho]%after_put. eexists. split; [done|].
  eapply represents_cursor; try done. by apply raised_u64.
Qed.

Lemma remove_sim h s e res e' :
  represents (committed_contents e) s -> remove h e = (res, e') -> simulates (Remove h) s e res e'.
Proof.
  intros Hr. apply rw_simulates; [done|]. intros t Ht. pose proof (rp_companions _ _ Ht) as Hix.
  apply outcome_query. intros existing ->%get_law. rewrite (ix_primary _ _ _ Hix), companion_value.
  destruct (sp_companions s !! h) as [[n c]|] eqn:Hl; cbn [fmap option_fmap option_map snd fst].
  - assert (Hm : companion_values (sp_companions s) !! h = Some (n, be_bytes NUMBER_LEN n ++ record_bytes c))
      by (rewrite companion_value, Hl; done).
    destruct (ix_typed _ _ _ Hix _ _ _ Hm) as [_ Hn].
    eapply outcome_lift; [by apply stored_number_ok|].
    apply outcome_update. intros t1 [H1 Ho1]%after_del. apply outcome_last. intros t2 [H2' Ho2]%after_del.
    eexists. split; [done|]. eapply represents_companions; [done| | |].
    + rewrite H2', (Ho2 COMPANIONS), H1, (Ho1 BY_NUMBER) by done. unfold companion_values. rewrite fmap_delete.
      by eapply indexed_delete.
    + intros tb Ha Hb. by rewrite Ho2, Ho1.
    + intros h' n' c' [_ Hl']%lookup_delete_Some. by eapply rp_records.
  - eexists. split; [done|]. rewrite delete_id by done. by destruct s.
Qed.

Lemma put_sim h n c s e res e' :
  represents (committed_contents e) s -> is_word h -> is_u64 n -> companion_typed c ->
  put h n c e = (res, e') -> simulates (Put h n c) s e res e'.
Proof.
  intros Hr Hh Hn Hc. unfold put. destruct (encode c) as [record|err] eqn:He; cbn [refused map_err].
  2:{ intros [= <- <-]. right; left. exists err. cbn [spec_step]. by rewrite He. }
  pose proof He as He'. apply encode_iff in He' as [Hf ->].
  apply rw_simulates; [done|]. intros t Ht. pose proof (rp_companions _ _ Ht) as Hix.
  set (m := companion_values (sp_companions s)) in Hix. set (v := be_bytes NUMBER_LEN n ++ record_bytes c).
  (* once the old index entry is gone, the two puts restore the invariant *)
  assert (Hputs : forall t1 I, contents t1 COMPANIONS = contents t COMPANIONS -> contents t1 BY_NUMBER = I ->
    (forall tb, tb <> COMPANIONS -> tb <> BY_NUMBER -> contents t1 tb = contents t tb) ->
    indexed (<[h := v]> (contents t COMPANIONS)) (<[index_key n h := []]> I) (<[h := (n, v)]> m) ->
    outcome ((let* _ := update (fun t => txn_put t COMPANIONS h v) in
              update (fun t => txn_put t BY_NUMBER (index_key n h) []))%unicity t1)
      (fun _ t' => exists s', spec_step (M := MdbxError) (Put h n c) s = Ok s' /\ represents (contents t') s')
      (fun err => spec_step (Put h n c) s = Err err)).
  { intros t1 I Hp1 Hi1 Ho1 Hnew. apply outcome_update. intros t2 [H2' Ho2]%after_put.
    apply outcome_last. intros t3 [H3 Ho3]%after_put. cbn [spec_step]. rewrite He. cbn [rbind].
    eexists. split; [done|]. eapply represents_companions; [done| | |].
    - rewrite H3, (Ho3 COMPANIONS), H2', (Ho2 BY_NUMBER), Hp1, Hi1 by done.
      unfold companion_values. by rewrite fmap_insert.
    - intros tb Ha Hb. by rewrite Ho3, Ho2, Ho1.
    - intros h' n' c' [[_ [= <- <-]] | [_ Hl]]%lookup_insert_Some; [by split | by eapply rp_records]. }
  apply outcome_query. intros existing ->%get_law. rewrite (ix_primary _ _ _ Hix).
  destruct (m !! h) as [[n0 v0]|] eqn:Hl; cbn [fmap option_fmap option_map snd].
  - destruct (ix_typed _ _ _ Hix _ _ _ Hl) as [_ Hn0].
    assert (Hv0 : stored_number (H := H) v0 = Ok n0).
    { unfold m in Hl. rewrite companion_value in Hl. destruct (sp_companions s !! h) as [[n1 c1]|]; [|done].
      injection Hl as <- <-. by apply stored_number_ok. }
    eapply outcome_bind with (mid := fun _ t1 => contents t1 COMPANIONS = contents t COMPANIONS /\
      (forall tb, tb <> COMPANIONS -> tb <> BY_NUMBER -> contents t1 tb = contents t tb) /\
      indexed (<[h := v]> (contents t COMPANIONS)) (<[index_key n h := []]> (contents t1 BY_NUMBER)) (<[h := (n, v)]> m)).
    + eapply outcome_lift; [exact Hv0|]. destruct (Z.eqb_spec n0 n) as [->|Hne]; cbn [negb].
      * split; [done|]. split; [done|]. apply indexed_insert; [done..|]. intros n1 v1. rewrite Hl. by intros [= -> _].
      * apply outcome_last. intros t1 [H1 Ho1]%after_del. rewrite (Ho1 COMPANIONS) by done. split; [done|].
        split; [intros; by apply Ho1|]. rewrite H1.
        rewrite <- (insert_delete_eq (contents t COMPANIONS) h), <- (insert_delete_eq m h).
        apply indexed_insert; [by eapply indexed_delete|done..|]. intros n1 v1. by rewrite lookup_delete_eq.
    + intros [] t1 (Ha & Hb & Hnew). by eapply Hputs.
  - apply (Hputs t (contents t BY_NUMBER)); [done..|]. apply indexed_insert; [done..|]. intros n1 v1. by rewrite Hl.
Qed.

Lemma put_accounting_sim r s e res e' :
  represents (committed_contents e) s -> accounting_typed r ->
  put_accounting r e = (res, e') -> simulates (PutAccounting r) s e res e'.
Proof.
  intros Hr Hty. apply rw_simulates; [done|]. intros t Ht. pose proof (rp_accounting _ _ Ht) as Hix.
  set (h := la_block_hash (sa_accounting r)).
  assert (Hputs : forall m, accounting_values m = <[h := (sa_block_number r, encode_accounting r)]>
      (accounting_values (sp_accounting s)) ->
    (forall n0 v0, accounting_values (sp_accounting s) !! h = Some (n0, v0) -> n0 = sa_block_number r) ->
    (forall h r, m !! h = Some r -> accounting_typed r /\ la_block_hash (sa_accounting r) = h) ->
    outcome ((let* _ := update (fun t => txn_put t ACCOUNTING h (encode_accounting r)) in
              update (fun t => txn_put t ACCOUNTING_BY_NUMBER (index_key (sa_block_number r) h) []))%unicity t)
      (fun _ t' => represents (contents t') (with_accounting s m)) (fun _ => False)).
  { intros m Hm Hold Hent. apply outcome_update. intros t2 [H2' Ho2]%after_put.
    apply outcome_last. intros t3 [H3 Ho3]%after_put. eapply represents_accounting; [done| | |done].
    - rewrite H3, (Ho3 ACCOUNTING), H2', (Ho2 ACCOUNTING_BY_NUMBER), Hm by done.
      apply indexed_insert; [done|apply Hty|apply Hty|done].
    - intros tb Ha Hb. by rewrite Ho3, Ho2. }
  assert (Hweak : forall A (c : result fault (A * Txn)) (P Q : A -> Txn -> Prop) S,
    outcome c P (fun _ => False) -> (forall a t, P a t -> Q a t) -> outcome c Q S).
  { intros A c P Q S Hc HPQ. destruct c as [[a t']|[err|]]; cbn in *; [by apply HPQ | left; tauto | done]. }
  apply outcome_query. intros existing ->%get_law. rewrite (ix_primary _ _ _ Hix).
  unfold accounting_values at 1. rewrite lookup_fmap. fold h. cbn [spec_step]. fold h.
  destruct (sp_accounting s !! h) as [old|] eqn:Hl; cbn [fmap option_fmap option_map snd].
  - destruct (rp_entries _ _ Ht _ _ Hl) as [Hto _].
    unfold sbind at 1. rewrite (sbind_ok _ _ _ old t) by (unfold lift; by rewrite decode_accounting_encode).
    case_bool_decide as Heq; [|by right]. subst old. cbn [sret]. eapply Hweak.
    + apply (Hputs (sp_accounting s)); [|intros n0 v0|by eapply rp_entries].
      * rewrite insert_id; [done|]. unfold accounting_values. by rewrite lookup_fmap, Hl.
      * unfold accounting_values. rewrite lookup_fmap, Hl. by intros [= <- _].
    + intros [] t' Hrep. exists s. split; [done|]. by destruct s.
  - unfold sbind at 1. cbn [sret]. eapply Hweak.
    + apply (Hputs (<[h := r]> (sp_accounting s))); [|intros n0 v0|].
      * unfold accounting_values. by rewrite fmap_insert.
      * unfold accounting_values. by rewrite lookup_fmap, Hl.
      * intros h' r' [[<- <-] | [_ Hl']]%lookup_insert_Some; [done | by eapply rp_entries].
    + intros [] t' Hrep. eauto.
Qed.

Lemma prune_accounting_sim fuel n s e res e' :
  represents (committed_contents e) s -> (size (sp_accounting s) <= fuel)%nat ->
  prune_accounting_below fuel n e = (res, e') -> simulates (PruneAccountingBelow n) s e res e'.
Proof.
  intros Hr Hfuel. apply rw_simulates; [done|]. intros t Ht. pose proof (rp_accounting _ _ Ht) as Hix.
  apply outcome_query. intros entry Hfirst%first_law.
  assert (Hsize : (size (accounting_values (sp_accounting s)) <= fuel)%nat)
    by (unfold accounting_values; by rewrite map_size_fmap).
  pose proof (prune_loop_ok ACCOUNTING_BY_NUMBER ACCOUNTING "accounting index key length" n
    ltac:(done) fuel entry t _ Hix Hfirst Hsize) as Hl.
  destruct (prune_loop _ _ _ _ _ entry t) as [[[] t']|[err|]]; cbn in Hl |- *; [|tauto|done].
  destruct Hl as [Hix' Ho]. eexists. split; [done|]. rewrite accounting_values_filter in Hix'.
  eapply represents_accounting; [done|done|by intros tb ? ?; apply Ho|].
  intros h r [Hl _]%map_lookup_filter_Some. by eapply rp_entries.
Qed.

Lemma prune_sim fuel n s e res e' :
  represents (committed_contents e) s -> is_u64 n -> (size (sp_companions s) <= fuel)%nat ->
  prune_below fuel n e = (res, e') -> simulates (PruneBelow n) s e res e'.
Proof.
  intros Hr Hn Hfuel. apply rw_simulates; [done|]. intros t Ht. pose proof (rp_companions _ _ Ht) as Hix.
  assert (Hu : forall c, sp_horizon s = Some c -> is_u64 c) by (intros; apply Ht; by left).
  apply (outcome_meta HORIZON_KEY (sp_horizon s)); [apply Ht | done|].
  apply outcome_query. intros entry Hfirst%first_law.
  assert (Hsize : (size (companion_values (sp_companions s)) <= fuel)%nat)
    by (unfold companion_values; by rewrite map_size_fmap).
  pose proof (prune_loop_ok BY_NUMBER COMPANIONS "index key has the wrong length" n
    ltac:(done) fuel entry t _ Hix Hfirst Hsize) as Hl.
  unfold sbind at 1. destruct (prune_loop _ _ _ _ _ entry t) as [[[] t1]|[err|]]; cbn in Hl; [|by left; tauto|done].
  destruct Hl as [Hix' Ho]. rewrite companion_values_filter in Hix'.
  apply outcome_last. intros t2 [H2' Ho2]%after_put. eexists. split; [done|].
  eapply represents_horizon; [|by apply raised_u64|exact H2'|done].
  eapply represents_companions; [done|done|by intros tb ? ?; apply Ho|].
  intros h n' c [Hl _]%map_lookup_filter_Some. by eapply rp_records.
Qed.

(** Arguments a Rust caller can pass, and enough fuel for the cursor loops. *)
Definition op_typed (op : Op) : Prop :=
  match op with
  | Put h n c => is_word h /\ is_u64 n /\ companion_typed c
  | Remove h => is_word h
  | PruneBelow n | SetHorizon n | SetEvictionCursor n | PruneAccountingBelow n => is_u64 n
  | PutAccounting r => accounting_typed r
  end.

Lemma step_simulates fuel op s e res e' :
  represents (committed_contents e) s -> op_typed op ->
  (size (sp_companions s) <= fuel)%nat -> (size (sp_accounting s) <= fuel)%nat ->
  step fuel op e = (res, e') -> simulates op s e res e'.
Proof.
  intros Hr Ht H1 H2' Hs. destruct op; cbn [step op_typed] in *.
  - destruct Ht as (? & ? & ?). by apply put_sim.
  - by apply remove_sim.
  - by eapply prune_sim.
  - by apply set_horizon_sim.
  - by apply set_cursor_sim.
  - by apply put_accounting_sim.
  - by eapply prune_accounting_sim.
Qed.

(** ** Reads *)

Lemma ro_txn_outcome {A} (body : reader Txn fault A) e (post : A -> Prop) :
  (forall t, begin_txn e = Ok t -> outcome (body t) (fun a _ => post a) (fun _ => False)) ->
  (exists m, ro_txn body e = Err (Refused (Mdbx m))) \/ exists a, ro_txn body e = Ok a /\ post a.
Proof.
  intros Hb. unfold ro_txn, mdbx. destruct (begin_txn e) as [t|m] eqn:Ht; cbn [map_err rbind]; [|eauto].
  specialize (Hb t eq_refl). destruct (body t) as [[a t']|[err|]]; cbn in *; [eauto| |done].
  destruct Hb as [[m ->]|[]]. eauto.
Qed.

Lemma begin_represents e t s : represents (committed_contents e) s -> begin_txn e = Ok t -> represents (contents t) s.
Proof. intros Hr Ht. eapply represents_ext; [|exact Hr]. apply begin_law, Ht. Qed.

(** The pairs of a range read: exactly the entries numbered in the range, in key order. *)
Definition range_of (m : gmap bytes (Z * bytes)) (from to : Z) (l : list (bytes * Z)) : Prop :=
  (forall h n, (h, n) ∈ l <-> (exists v, m !! h = Some (n, v)) /\ from <= n < to) /\
  StronglySorted (fun a b => bytes_lt (index_key a.2 a.1) (index_key b.2 b.1)) l.

Lemma listed_size (m : gmap bytes (Z * bytes)) (l : list (bytes * Z)) :
  NoDup l -> (forall h n, (h, n) ∈ l -> exists v, m !! h = Some (n, v)) -> (length l <= size m)%nat.
Proof.
  intros Hnd Hin.
  assert (Hf : NoDup (fst <$> l)).
  { apply NoDup_fmap_2_strong; [|done]. intros [h n] [h' n'] H1 H2' [= ->].
    destruct (Hin _ _ H1) as [v Hv], (Hin _ _ H2') as [v' Hv']. congruence. }
  rewrite <- (length_fmap fst l), <- (size_list_to_set (C := gset bytes) _ Hf), <- (size_dom (D := gset bytes) m).
  apply subseteq_size. intros h. rewrite elem_of_list_to_set. intros ([h' n] & -> & Hl)%list_elem_of_fmap.
  apply elem_of_dom. cbn. destruct (Hin _ _ Hl) as [v ->]. by eexists.
Qed.

Lemma sorted_NoDup {A} (R : A -> A -> Prop) `{!Irreflexive R} l : StronglySorted R l -> NoDup l.
Proof.
  induction 1 as [|x l _ IH HF]; constructor; [|done]. intros Hx. rewrite Forall_forall in HF.
  by apply (irreflexivity R x), HF.
Qed.

Lemma sorted_append {A} (R : A -> A -> Prop) l y :
  StronglySorted R l -> (forall x, x ∈ l -> R x y) -> StronglySorted R (l ++ [y]).
Proof.
  induction 1 as [|x l Hl IH HF]; intros Hy; cbn [app]; [by repeat constructor|].
  constructor; [apply IH; intros; apply Hy; by right|]. apply Forall_app. split; [done|].
  constructor; [apply Hy; left | done].
Qed.

Definition key_lt (a b : bytes * Z) : Prop := bytes_lt (index_key a.2 a.1) (index_key b.2 b.1).
#[local] Instance key_lt_irreflexive : Irreflexive key_lt.
Proof. intros a. apply (irreflexivity bytes_lt). Qed.

(** The loop's invariant: the pairs collected are the entries of the range below the cursor. *)
Definition collected (m : gmap bytes (Z * bytes)) (from to : Z) (lo : bytes -> Prop) (l : list (bytes * Z)) : Prop :=
  (forall h n, (h, n) ∈ l <-> (exists v, m !! h = Some (n, v)) /\ from <= n < to /\ ~ lo (index_key n h)) /\
  StronglySorted key_lt l.

Lemma range_loop_ok t m from to :
  indexed (contents t COMPANIONS) (contents t BY_NUMBER) m -> forall fuel lo entry l,
  (forall k k', lo k -> bytes_lt k k' -> lo k') -> (forall n h, is_u64 n -> lo (index_key n h) -> from <= n) ->
  is_least (contents t BY_NUMBER) lo entry -> collected m from to lo l -> (size m <= fuel + length l)%nat ->
  outcome (range_loop fuel to l entry t) (fun l' _ => range_of m from to l') (fun _ => False).
Proof.
  intros Hix fuel. induction fuel as [|fuel IH]; intros lo entry l Hup Hfrom Hleast [Hin Hsort] Hfuel.
  all: destruct entry as [key|]; cbn [range_loop].
  2,4: cbn in Hleast |- *; split; [|exact Hsort]; intros h n; rewrite Hin; split; [tauto|];
    intros [[v Hv] Hn]; split_and!; [by eexists|lia|lia|]; apply Hleast, (ix_index _ _ _ Hix); eauto 6.
  all: destruct Hleast as (Hs & Hlo & Hmin);
    destruct (indexed_entry _ _ _ _ Hix Hs) as (h & n & v & Hk & Hm & Hl & Hnum & Hh & Hn & Hw).
  all: assert (Hkey : forall h' n', (h', n') ∈ l -> bytes_lt (index_key n' h') key) by
    (intros h' n' (_ & _ & Hnlo)%Hin; destruct (bytes_lt_total (index_key n' h') key) as [|[Heq|Hgt]]; [done| |];
     exfalso; apply Hnlo; [by rewrite Heq | by eapply Hup]).
  all: assert (Hsort' : StronglySorted key_lt (l ++ [(h, n)])) by
    (apply sorted_append; [done|]; intros [h' n'] Hx; unfold key_lt; cbn; rewrite <- Hk; by apply Hkey).
  all: assert (Hlen : (length (l ++ [(h, n)]) <= size m)%nat) by
    (apply listed_size; [by eapply (sorted_NoDup key_lt)|]; intros h' n' [Hx%Hin | Hx%list_elem_of_singleton]%elem_of_app;
     [tauto | injection Hx as -> ->; by eexists]).
  { rewrite length_app in Hlen. cbn in Hlen. lia. }
  rewrite Hl, Nat.eqb_refl, Hnum. cbn [negb]. rewrite Hk in Hlo. destruct (Z.leb_spec to n) as [Hge|Hlt].
  - cbn. split; [|exact Hsort]. intros h' n'. rewrite Hin. split; [tauto|]. intros [[v' Hv'] Hn'].
    split; [by eexists|]. split; [lia|]. intros Hlo'. destruct (ix_typed _ _ _ Hix _ _ _ Hv') as [_ Hu'].
    destruct (Hmin (index_key n' h')) as [Heq|Horder]; [apply (ix_index _ _ _ Hix); eauto 6|done| |].
    + rewrite Hk in Heq. apply index_key_inj in Heq as [-> _]; [lia|done..].
    + rewrite Hk in Horder. apply index_key_order in Horder; [lia|done..].
  - apply outcome_query. intros entry Hnext%next_law. rewrite Hh.
    eapply (IH (fun k' => bytes_lt key k')); [| |exact Hnext| |rewrite length_app; cbn; lia].
    + intros k k' Hk1 Hk2. by etransitivity.
    + intros n' h' Hu' Hlt'. rewrite Hk in Hlt'. apply index_key_order in Hlt'; [|done..].
      specialize (Hfrom n h Hn Hlo). lia.
    + split; [|exact Hsort']. intros h' n'. rewrite elem_of_app, list_elem_of_singleton, Hin. split.
      * intros [(Hv' & Hn' & Hnlo) | [= -> ->]].
        -- split; [done|]. split; [done|]. intros Hgt. apply Hnlo. eapply Hup; [|exact Hgt]. by rewrite Hk.
        -- split; [by eexists|]. split; [specialize (Hfrom n h Hn Hlo); lia|]. rewrite <- Hk. apply (irreflexivity bytes_lt).
      * intros ([v' Hv'] & Hn' & Hngt). destruct (decide ((h', n') = (h, n))) as [|Hne]; [by right|]. left.
        split; [by eexists|]. split; [done|]. intros Hlo'.
        destruct (Hmin (index_key n' h')) as [Heq|]; [apply (ix_index _ _ _ Hix); eauto 6|done| |done].
        rewrite Hk in Heq. destruct (ix_typed _ _ _ Hix _ _ _ Hv') as [_ Hu'].
        apply index_key_inj in Heq as [-> ->]; done.
Qed.

Lemma below_prefix n h from : is_u64 n -> is_u64 from ->
  bytes_lt (index_key n h) (be_bytes NUMBER_LEN from) <-> n < from.
Proof.
  intros Hn Hf. unfold bytes_lt, index_key. rewrite <- (app_nil_r (be_bytes NUMBER_LEN from)).
  rewrite bytes_ltb_app by (by rewrite !be_bytes_length). rewrite be_bytes_ltb by (unfold NUMBER_LEN; ulia).
  assert (Hnil : bytes_ltb h [] = false) by (by destruct h). rewrite Hnil, andb_false_r, orb_false_r. apply Z.ltb_lt.
Qed.

Lemma outcome_mono {A} (r : result fault (A * Txn)) (post post' : A -> Prop) :
  outcome r (fun a _ => post a) (fun _ => False) -> (forall a, post a -> post' a) ->
  outcome r (fun a _ => post' a) (fun _ => False).
Proof. destruct r as [[]|[]]; cbn; auto. Qed.

(** A read answers [v], or the environment failed. *)
Definition answers {A} (r : result fault A) (v : A) : Prop :=
  r = Ok v \/ exists m, r = Err (Refused (Mdbx m)).

Lemma ro_answers {A} (body : reader Txn fault A) e s v :
  represents (committed_contents e) s ->
  (forall t, represents (contents t) s -> outcome (body t) (fun a _ => a = v) (fun _ => False)) ->
  answers (ro_txn body e) v.
Proof.
  intros Hr Hb. destruct (ro_txn_outcome body e (fun a => a = v)) as [Hm|(a & Ha & ->)].
  - intros t Ht. apply Hb. by eapply begin_represents.
  - by right.
  - by left.
Qed.

Lemma get_answers h s e : represents (committed_contents e) s -> answers (get h e) (spec_get h s).
Proof.
  intros Hr. apply (ro_answers _ _ s); [done|]. intros t Ht. pose proof (rp_companions _ _ Ht) as Hix.
  apply outcome_query. intros value ->%get_law. rewrite (ix_primary _ _ _ Hix), companion_value.
  unfold spec_get. destruct (sp_companions s !! h) as [[n c]|] eqn:Hl; cbn [fmap option_fmap option_map snd fst].
  - destruct (rp_records _ _ Ht _ _ _ Hl) as [Hf [Hu Hz]].
    eapply outcome_lift; [apply stored_record_ok|]. eapply outcome_lift; [|done].
    apply decode_iff; [lia|]. split; [|done]. by apply encode_iff.
  - apply (outcome_meta HORIZON_KEY (sp_horizon s)); [apply Ht | intros; apply Ht; by left|].
    by destruct (sp_horizon s).
Qed.

Lemma meta_answers key o s e :
  represents (committed_contents e) s ->
  (forall t, represents (contents t) s -> contents t META !! key = be_bytes NUMBER_LEN <$> o) ->
  (forall n, o = Some n -> is_u64 n) -> answers (ro_txn (read_meta_number key) e) o.
Proof.
  intros Hr Hk Ho. apply (ro_answers _ _ s); [done|]. intros t Ht.
  assert (Hm : outcome (sbind (read_meta_number key) sret t) (fun a _ => a = o) (fun _ => False))
    by (apply (outcome_meta key o); [by apply Hk | done | done]).
  unfold sbind in Hm. by destruct (read_meta_number key t) as [[]|].
Qed.

Lemma get_accounting_answers h s e :
  represents (committed_contents e) s -> answers (get_accounting h e) (sp_accounting s !! h).
Proof.
  intros Hr. apply (ro_answers _ _ s); [done|]. intros t Ht. pose proof (rp_accounting _ _ Ht) as Hix.
  apply outcome_query. intros value ->%get_law. rewrite (ix_primary _ _ _ Hix).
  unfold accounting_values. rewrite lookup_fmap.
  destruct (sp_accounting s !! h) as [r|] eqn:Hl; cbn [fmap option_fmap option_map snd]; [|done].
  destruct (rp_entries _ _ Ht _ _ Hl) as [Hty Hh]. eapply outcome_lift; [by apply decode_accounting_encode|].
  by rewrite bool_decide_true.
Qed.

(** A put that succeeds leaves its record readable. *)
Lemma put_accounting_stored r s e e' :
  represents (committed_contents e) s -> accounting_typed r -> put_accounting r e = (Ok (), e') ->
  exists s', represents (committed_contents e') s' /\ sp_accounting s' !! la_block_hash (sa_accounting r) = Some r.
Proof.
  intros Hr Ht Hp. destruct (put_accounting_sim _ _ _ _ _ Hr Ht Hp) as [(_ & s' & Hs & Hr')|[(? & ? & _)|(? & ? & _)]];
    [|done..]. exists s'. split; [done|]. cbn in Hs. destruct (sp_accounting s !! _) as [old|] eqn:Hl.
  - case_bool_decide; [|done]. injection Hs as <-. congruence.
  - injection Hs as <-. cbn. apply lookup_insert_eq.
Qed.

(** A companion the table holds under a hash. *)
Definition retains (C : gmap bytes bytes) (h : bytes) (c : SealCompanion) : Prop :=
  exists v record, C !! h = Some v /\ stored_record v = Ok record /\ decode (M := MdbxError) record = Ok c.

Lemma get_found h e c : get h e = Ok (Found c) -> retains (committed_contents e COMPANIONS) h c.
Proof.
  unfold get, ro_txn, mdbx. destruct (begin_txn e) as [t|m] eqn:Ht; cbn [map_err rbind]; [|done].
  unfold sbind, query, lift, refused, mdbx. destruct (txn_get t COMPANIONS h) as [o|m] eqn:Hg; cbn [map_err rbind]; [|done].
  apply get_law in Hg. rewrite (begin_law _ _ Ht) in Hg. destruct o as [v|].
  - destruct (stored_record v) as [record|] eqn:Hs; cbn [map_err rbind]; [|done].
    destruct (decode record) as [c'|] eqn:Hd; cbn [map_err rbind]; [|done]. intros [= ->]. by exists v, record.
  - intros Hr. destruct (read_meta_number HORIZON_KEY t) as [[[n|] t']|]; done.
Qed.

(** Publishing an accounting leaves the companions alone, whatever its result. *)
Lemma put_accounting_frame r e res e' :
  put_accounting r e = (res, e') -> committed_contents e' COMPANIONS = committed_contents e COMPANIONS.
Proof.
  intros Hp. eapply (rw_txn_outcome _ _ _ _
    (fun _ t' => contents t' COMPANIONS = committed_contents e COMPANIONS) (fun _ => True)) in Hp.
  - destruct Hp as [[-> _]|(a & t' & Ht & Hc & _)]; [done|]. by rewrite Hc.
  - intros t Ht. rewrite <- (begin_law _ _ Ht). apply outcome_query. intros existing _.
    assert (Hw : outcome ((let* _ := update (fun t => txn_put t ACCOUNTING (la_block_hash (sa_accounting r)) (encode_accounting r)) in
      update (fun t => txn_put t ACCOUNTING_BY_NUMBER (index_key (sa_block_number r) (la_block_hash (sa_accounting r))) [])) t)
      (fun _ t' => contents t' COMPANIONS = contents t COMPANIONS) (fun _ => True)).
    { apply outcome_update. intros t1 [_ H1]%after_put. apply outcome_last. intros t2 [_ H2]%after_put.
      by rewrite H2, H1. }
    destruct existing as [raw|]; [|exact Hw]. eapply (outcome_bind _ _ t (fun _ t' => t' = t)); [|by intros _ t' ->].
    unfold sbind, lift, refused. destruct (decode_accounting raw) as [old|]; cbn; [|by right].
    case_bool_decide; cbn; [done|by right].
Qed.

(** The entries of a state in a range of numbers. *)
Definition entries_of (s : Spec) (from to : Z) (l : list (bytes * Z)) : Prop :=
  (forall h n, (h, n) ∈ l <-> (exists c, sp_companions s !! h = Some (n, c)) /\ from <= n < to) /\
  StronglySorted key_lt l.

Lemma entries_answers fuel from to s e :
  represents (committed_contents e) s -> is_u64 from -> (size (sp_companions s) <= fuel)%nat ->
  (exists m, entries_in_range fuel from to e = Err (Refused (Mdbx m))) \/
  exists l, entries_in_range fuel from to e = Ok l /\ entries_of s from to l.
Proof.
  intros Hr Hf Hfuel. set (m := companion_values (sp_companions s)).
  assert (Hspec : forall l, range_of m from to l -> entries_of s from to l).
  { intros l [Hin Hs]. split; [|done]. intros h n. rewrite Hin. unfold m. rewrite companion_value.
    destruct (sp_companions s !! h) as [[n' c]|]; cbn; split; intros [[v Hv] Hn]; simplify_eq; eauto. }
  apply ro_txn_outcome.
  intros t Ht. pose proof (rp_companions _ _ (begin_represents _ _ _ Hr Ht)) as Hix.
  apply outcome_query. intros entry Hentry%set_range_law. eapply outcome_mono; [|exact Hspec].
  eapply (range_loop_ok t m from to Hix); [| |exact Hentry| |].
  - intros k k' Hk Hkk' Hlt. apply Hk. by etransitivity.
  - intros n h Hn Hlo. cbv beta in Hlo. rewrite below_prefix in Hlo by done. lia.
  - split; [|constructor]. intros h n. rewrite elem_of_nil. split; [done|].
    intros ([v Hv] & Hn & Hnlo). apply Hnlo. rewrite below_prefix; [lia| |done]. by eapply ix_typed.
  - unfold m, companion_values. rewrite map_size_fmap. cbn. lia.
Qed.

(** C4: the store refines its specification.  On a committed state that represents a specification
    state, with typed arguments and fuel for as many rounds as the state has entries, every
    operation either succeeds and leaves a state that represents the specification's successor; or
    refuses exactly as the specification does (a field too large, a horizon moved backwards,
    conflicting accounting) and changes nothing; or reports an error of the environment, having
    changed nothing or made exactly the specified change.  In particular no cursor loop diverges and
    no bookkeeping error is reachable. *)
Theorem store_refines fuel op s e :
  represents (committed_contents e) s -> op_typed op ->
  (size (sp_companions s) <= fuel)%nat -> (size (sp_accounting s) <= fuel)%nat ->
  simulates op s e (step fuel op e).1 (step fuel op e).2.
Proof. intros Hr Ht H1 H2'. eapply step_simulates; try done. by destruct (step fuel op e). Qed.

(** Reads answer from the specification state.  A lookup returns the companion of the hash, or
    the horizon below which it may have been pruned, or that it is unknown; the horizon, the eviction
    cursor and the accounting of a hash are the state's; a range read returns exactly the entries
    numbered in the half-open range, once each, in ascending order of number and hash.  The only
    other answer is an error of the environment; the range loop needs at most as many rounds as the
    state has companions. *)
Theorem store_reads fuel s e h from to :
  represents (committed_contents e) s -> is_u64 from -> (size (sp_companions s) <= fuel)%nat ->
  answers (get h e) (spec_get h s) /\ answers (horizon e) (sp_horizon s) /\
  answers (eviction_cursor e) (sp_cursor s) /\ answers (get_accounting h e) (sp_accounting s !! h) /\
  ((exists m, entries_in_range fuel from to e = Err (Refused (Mdbx m))) \/
   exists l, entries_in_range fuel from to e = Ok l /\ entries_of s from to l).
Proof.
  intros Hr Hf Hfuel. split_and!; [by apply get_answers| | |by apply get_accounting_answers|by apply entries_answers].
  all: eapply meta_answers; [exact Hr|intros t Ht; apply Ht|intros n Hn; apply (rp_numbers _ _ Hr); auto].
Qed.
End refinement.

(** ** An environment in memory *)

(** The least of the keys that satisfy [lo]. *)
Definition least_key (lo : bytes -> bool) (m : gmap bytes bytes) : option bytes :=
  foldr (fun k acc =>
    if lo k then match acc with Some k' => if bytes_ltb k' k then acc else Some k | None => Some k end
    else acc) None (fst <$> map_to_list m).

Definition with_table (f : gmap bytes bytes -> gmap bytes bytes) (tables : Table -> gmap bytes bytes) (tb : Table)
    : Table -> gmap bytes bytes :=
  fun tb' => if decide (tb' = tb) then f (tables tb) else tables tb'.

#[global] Instance memory_env : MdbxEnv := {|
  MdbxError := Empty_set;
  Environment := Table -> gmap bytes bytes;
  Txn := Table -> gmap bytes bytes;
  begin_txn e := Ok e;
  txn_get t tb k := Ok (t tb !! k);
  txn_put t tb k v := Ok (with_table <[k := v]> t tb);
  txn_del t tb k := Ok (with_table (delete k) t tb);
  cursor_first t tb := Ok (least_key (fun _ => true) (t tb));
  cursor_set_range t tb k := Ok (least_key (fun k' => negb (bytes_ltb k' k)) (t tb));
  cursor_del t tb k := Ok (with_table (delete k) t tb);
  cursor_next t tb k := Ok (least_key (fun k' => bytes_ltb k k') (t tb));
  txn_commit t := Ok t;
  env_sync _ := Ok () |}.

Lemma least_of_keys (lo : bytes -> bool) (l : list bytes) :
  match foldr (fun k acc =>
    if lo k then match acc with Some k' => if bytes_ltb k' k then acc else Some k | None => Some k end
    else acc) None l with
  | Some k => k ∈ l /\ lo k = true /\ forall k', k' ∈ l -> lo k' = true -> k' = k \/ bytes_lt k k'
  | None => forall k, k ∈ l -> lo k <> true
  end.
Proof.
  induction l as [|k l IH]; cbn [foldr]; [set_solver|].
  destruct (lo k) eqn:Hk.
  2:{ destruct (foldr _ _ _) as [k'|]; [destruct IH as (? & ? & IH); split_and!|]; [set_solver|done| |].
      all: intros k2 [->|H2]%elem_of_cons; [congruence|auto]. }
  destruct (foldr _ _ _) as [k'|].
  - destruct IH as (Hin & Hlo & IH). destruct (bytes_ltb k' k) eqn:Hlt.
    + split_and!; [set_solver|done|]. intros k2 [->|H2]%elem_of_cons Hlo2; [by right|auto].
    + split_and!; [set_solver|done|]. intros k2 [->|H2]%elem_of_cons Hlo2; [by left|].
      destruct (bytes_lt_total k k') as [Hkk|[->|Hkk]]; [|auto|unfold bytes_lt in Hkk; congruence].
      right. destruct (IH k2 H2 Hlo2) as [->|]; [done|by etransitivity].
  - split_and!; [set_solver|done|]. intros k2 [->|H2]%elem_of_cons Hlo2; [by left|]. by destruct (IH k2 H2).
Qed.

Lemma least_key_least (lo : bytes -> bool) m : is_least m (fun k => lo k = true) (least_key lo m).
Proof.
  assert (Hin : forall k, is_Some (m !! k) <-> k ∈ (fst <$> map_to_list m)).
  { intros k. rewrite list_elem_of_fmap. split.
    - intros [v Hv%elem_of_map_to_list]. by exists (k, v).
    - intros [[k' v] [-> Hv%elem_of_map_to_list]]. by exists v. }
  pose proof (least_of_keys lo (fst <$> map_to_list m)) as Hl. unfold is_least, least_key.
  destruct (foldr _ _ _); [destruct Hl as (? & ? & ?); split_and!; [by apply Hin|done|]|];
    intros ? ?%Hin; auto.
Qed.

Lemma is_least_ext m (lo lo' : bytes -> Prop) o :
  (forall k, lo' k <-> lo k) -> is_least m lo' o -> is_least m lo o.
Proof.
  intros Hlo. destruct o as [k|]; cbn; [intros (Hk & Hl & Hmin)|intros Hmin].
  - split_and!; [done|by apply Hlo|]. intros k' Hk' Hl'%Hlo. auto.
  - intros k Hk Hl%Hlo. by eapply Hmin.
Qed.

#[global] Instance memory_laws : MdbxLaws.
Proof.
  refine {| contents := fun t : @Txn memory_env => t; committed_contents := fun e : @Environment memory_env => e |};
    cbn; intros; simplify_eq; try done.
  - by eapply is_least_ext, (least_key_least (fun _ => true)).
  - eapply is_least_ext, (least_key_least (fun k' => negb (bytes_ltb k' k))). intros k'. unfold bytes_lt.
    by destruct (bytes_ltb k' k).
  - apply least_key_least.
Defined.

Definition no_tables : @Environment memory_env := fun _ => ∅.
Definition sample_put : Op := Put (word_of 9) 5 sample_companion.
Definition one_companion : Spec := with_companions empty_spec (<[word_of 9 := (5, sample_companion)]> ∅).

Lemma no_tables_represent : represents (committed_contents (MdbxLaws := memory_laws) no_tables) empty_spec.
Proof.
  split; try done; [| |intros n [?|?]; done].
  all: split; try done; intros k; split; [intros [v Hv]; done|intros (? & ? & ? & _ & ?); done].
Qed.

Lemma sample_put_typed : op_typed sample_put.
Proof. split_and!; [apply word_of_word|ulia|]. vm_compute. done. Qed.

Lemma sample_put_step : spec_step (M := Empty_set) sample_put empty_spec = Ok one_companion.
Proof.
  unfold spec_step, sample_put. rewrite (proj2 (encode_iff _ (record_bytes sample_companion))); [reflexivity|].
  split; [|reflexivity]. apply (proj1 (proj1 (encode_iff (M := Empty_set) sample_companion _) eq_refl)).
Qed.

Lemma one_companion_represented :
  represents (committed_contents (MdbxLaws := memory_laws) (step 0 sample_put no_tables).2) one_companion.
Proof.
  destruct (step_simulates (H0 := memory_laws) 0 sample_put empty_spec no_tables (step 0 sample_put no_tables).1
    (step 0 sample_put no_tables).2 no_tables_represent sample_put_typed ltac:(done) ltac:(done) (surjective_pairing _))
    as [(_ & s' & Hs & Hr)|[(err & _ & Hs & _)|([] & _)]].
  all: pose proof (eq_trans (eq_sym Hs) sample_put_step) as Hstep.
  - by injection Hstep as ->.
  - discriminate Hstep.
Qed.

Lemma store_refines_witness :
  simulates (H0 := memory_laws) sample_put empty_spec no_tables
    (step 0 sample_put no_tables).1 (step 0 sample_put no_tables).2.
Proof. apply store_refines; [apply no_tables_represent|apply sample_put_typed|done|done]. Defined.

Lemma store_reads_witness :
  answers (get (word_of 9) (step 0 sample_put no_tables).2) (Found sample_companion) /\
  exists l, entries_in_range 1 3 7 (step 0 sample_put no_tables).2 = Ok l /\ entries_of one_companion 3 7 l.
Proof.
  destruct (store_reads (H0 := memory_laws) 1 one_companion (step 0 sample_put no_tables).2 (word_of 9) 3 7
    one_companion_represented ltac:(ulia) ltac:(vm_compute; lia)) as (Hg & _ & _ & _ & [[[] _]|He]).
  split; [|exact He]. unfold spec_get, one_companion in Hg. cbn [sp_companions with_companions] in Hg.
  by rewrite lookup_insert_eq in Hg.
Defined.

End CompanionStore.
