(* ===== verification/EthConsensus.v ===== *)
(** Headers and the stock consensus checks: [crates/consensus/common/src/validation.rs] and
    [crates/ethereum/consensus/src/lib.rs], [validation.rs].

    The block executor runs these checks on every block it builds or replays, and the node's consensus
    replaces one of them, the parent base fee.  Which hard forks are active, the fee and blob
    parameters, the tries and the constants of the [alloy] and [reth] core crates are parameters
    ([ChainSpec], [ConsensusConstants], [Primitives]). *)
From S2P Require Import Prelude.

(** ** Headers *)

(** [alloy_consensus::Header]. *)
Record BlockHeader := {
  bh_parent_hash : bytes; bh_ommers_hash : bytes; bh_beneficiary : bytes; bh_state_root : bytes;
  bh_transactions_root : bytes; bh_receipts_root : bytes; bh_logs_bloom : bytes; bh_difficulty : Z;
  bh_number : Z; bh_gas_limit : Z; bh_gas_used : Z; bh_timestamp : Z; bh_extra_data : bytes;
  bh_mix_hash : bytes; bh_nonce : Z; bh_base_fee_per_gas : option Z; bh_withdrawals_root : option bytes;
  bh_blob_gas_used : option Z; bh_excess_blob_gas : option Z; bh_parent_beacon_block_root : option bytes;
  bh_requests_hash : option bytes; bh_block_access_list_hash : option bytes; bh_slot_number : option Z }.
#[global] Instance block_header_eq_decision : EqDecision BlockHeader.
Proof. solve_decision. Defined.

(** [SealedHeader]: a header with a cached hash, which need not be its own. *)
Record SealedHeader := { sh_header : BlockHeader; sh_hash : bytes }.
#[global] Instance sealed_header_eq_decision : EqDecision SealedHeader.
Proof. solve_decision. Defined.

(** [Header::hash_slow], the hash of the RLP encoding. *)
Class HeaderHash := { hash_slow : BlockHeader -> bytes }.

(** ** The chain's configuration *)

(** [BlobParams]: the maximum per block, and the excess after a parent's excess, used gas and fee. *)
Record BlobParams := {
  max_blob_gas_per_block : Z; next_block_excess_blob_gas_osaka : Z -> Z -> Z -> Z }.

(** [EthChainSpec + EthereumHardforks]. *)
Record ChainSpec := {
  cs_chain_id : Z; cs_genesis_hash : bytes;
  is_byzantium_active_at_block : Z -> bool;
  is_london_active_at_block : Z -> bool;
  (** [ethereum_fork_activation(London).transitions_at_block]. *)
  london_transitions_at_block : Z -> bool;
  is_paris_active_at_block : Z -> bool;
  is_shanghai_active_at_timestamp : Z -> bool;
  is_cancun_active_at_timestamp : Z -> bool;
  is_prague_active_at_timestamp : Z -> bool;
  is_osaka_active_at_timestamp : Z -> bool;
  is_amsterdam_active_at_timestamp : Z -> bool;
  elasticity_multiplier_at_timestamp : Z -> Z;
  (** [next_block_base_fee(parent, timestamp)] on the parent's gas, limit and fee. *)
  calc_next_block_base_fee : Z -> Z -> Z -> Z -> Z;
  blob_params_at_timestamp : Z -> option BlobParams }.

(** Constants of the core crates. *)
Class ConsensusConstants := {
  MAXIMUM_GAS_LIMIT_BLOCK : Z; MINIMUM_GAS_LIMIT : Z; GAS_LIMIT_BOUND_DIVISOR : Z;
  DATA_GAS_PER_BLOB : Z; MAXIMUM_EXTRA_DATA_SIZE : Z; EMPTY_OMMER_ROOT_HASH : bytes;
  INITIAL_BASE_FEE : Z; ALLOWED_FUTURE_BLOCK_TIME_SECONDS : Z; BLOB_CANCUN : BlobParams }.

Definition MAX_RLP_BLOCK_SIZE : Z := 8388608.

Record GotExpected (A : Type) := { got : A; expected : A }.
Arguments got {A} _.
Arguments expected {A} _.
Arguments Build_GotExpected {A} _ _.

(** The errors the modelled checks return; [ParentAccountingUnavailable] is the value that the node's
    consensus wraps in [Other]. *)
Inductive ConsensusError :=
| HeaderGasUsedExceedsGasLimit (gas_used gas_limit : Z)
| HeaderGasLimitExceedsMax (gas_limit : Z)
| BlockGasUsed (gas : GotExpected Z)
| BodyOmmersHashDiff (d : GotExpected bytes)
| BodyTransactionRootDiff (d : GotExpected bytes)
| BodyReceiptRootDiff (d : GotExpected bytes)
| BodyBloomLogDiff (d : GotExpected bytes)
| BodyWithdrawalsRootDiff (d : GotExpected bytes)
| BodyRequestsHashDiff (d : GotExpected bytes)
| ParentBlockNumberMismatch (parent_block_number block_number : Z)
| ParentHashMismatch (d : GotExpected bytes)
| TimestampIsInFuture (timestamp present_timestamp : Z)
| BaseFeeMissing
| ExtraDataExceedsMax (len : Z)
| TheMergeDifficultyIsNotZero
| TheMergeNonceIsNotZero
| TheMergeOmmerRootIsNotEmpty
| WithdrawalsRootMissing
| RequestsHashMissing
| BlockAccessListHashMissing
| SlotNumberMissing
| WithdrawalsRootUnexpected
| RequestsHashUnexpected
| BlockAccessListHashUnexpected
| SlotNumberUnexpected
| BodyWithdrawalsMissing
| BlobGasUsedMissing
| BlobGasUsedUnexpected
| ExcessBlobGasMissing
| ExcessBlobGasUnexpected
| ParentBeaconBlockRootMissing
| ParentBeaconBlockRootUnexpected
| BlobGasUsedExceedsMaxBlobGasPerBlock (blob_gas_used max_blob_gas : Z)
| BlobGasUsedNotMultipleOfBlobGasPerBlob (blob_gas_used blob_gas_per_blob : Z)
| BlobGasUsedDiff (d : GotExpected Z)
| BaseFeeDiff (d : GotExpected Z)
| ExcessBlobGasDiff (d : GotExpected Z) (parent_excess_blob_gas parent_blob_gas_used : Z)
| GasLimitInvalidIncrease (parent_gas_limit child_gas_limit : Z)
| GasLimitInvalidMinimum (child_gas_limit : Z)
| GasLimitInvalidDecrease (parent_gas_limit child_gas_limit : Z)
| TimestampIsInPast (parent_timestamp timestamp : Z)
| BlockTooLarge (rlp_length max_rlp_length : Z)
| BlockAccessListHashMismatch (d : GotExpected bytes)
| UnavailableParent (hash : bytes).

Definition is_none {A} (o : option A) : bool := match o with None => true | Some _ => false end.
Definition is_some {A} (o : option A) : bool := negb (is_none o).

(** ** Header checks *)

Section validation.
Context `{ConsensusConstants}.

Definition validate_header_gas (h : BlockHeader) : result ConsensusError () :=
  if bh_gas_limit h <? bh_gas_used h then Err (HeaderGasUsedExceedsGasLimit (bh_gas_used h) (bh_gas_limit h)) else
  if MAXIMUM_GAS_LIMIT_BLOCK <? bh_gas_limit h then Err (HeaderGasLimitExceedsMax (bh_gas_limit h)) else Ok ().

Definition validate_header_base_fee (h : BlockHeader) (spec : ChainSpec) : result ConsensusError () :=
  if is_london_active_at_block spec (bh_number h) && is_none (bh_base_fee_per_gas h)
  then Err BaseFeeMissing else Ok ().

Definition validate_4844_header_standalone (h : BlockHeader) (p : BlobParams) : result ConsensusError () :=
  let? blob_gas_used := ok_or (bh_blob_gas_used h) BlobGasUsedMissing in
  if is_none (bh_parent_beacon_block_root h) then Err ParentBeaconBlockRootMissing else
  if negb (blob_gas_used mod DATA_GAS_PER_BLOB =? 0)
  then Err (BlobGasUsedNotMultipleOfBlobGasPerBlob blob_gas_used DATA_GAS_PER_BLOB) else
  if max_blob_gas_per_block p <? blob_gas_used
  then Err (BlobGasUsedExceedsMaxBlobGasPerBlock blob_gas_used (max_blob_gas_per_block p)) else Ok ().

Definition validate_header_extra_data (h : BlockHeader) (max_size : Z) : result ConsensusError () :=
  if max_size <? zlen (bh_extra_data h) then Err (ExtraDataExceedsMax (zlen (bh_extra_data h))) else Ok ().

(** ** Checks against the parent *)

Definition validate_against_parent_hash_number (h : BlockHeader) (parent : SealedHeader)
    : result ConsensusError () :=
  if negb (bool_decide (sh_hash parent = bh_parent_hash h))
  then Err (ParentHashMismatch {| got := bh_parent_hash h; expected := sh_hash parent |}) else
  match checked_add (bh_number (sh_header parent)) 1 with
  | None => Err (ParentBlockNumberMismatch (bh_number (sh_header parent)) u64_max)
  | Some parent_number =>
      if negb (parent_number =? bh_number h)
      then Err (ParentBlockNumberMismatch (bh_number (sh_header parent)) (bh_number h)) else Ok ()
  end.

Definition validate_against_parent_eip1559_base_fee (h parent : BlockHeader) (spec : ChainSpec)
    : result ConsensusError () :=
  if is_london_active_at_block spec (bh_number h) then
    let? base_fee := ok_or (bh_base_fee_per_gas h) BaseFeeMissing in
    let? expected_base_fee :=
      if london_transitions_at_block spec (bh_number h) then Ok INITIAL_BASE_FEE else
      let? parent_fee := ok_or (bh_base_fee_per_gas parent) BaseFeeMissing in
      Ok (calc_next_block_base_fee spec (bh_gas_used parent) (bh_gas_limit parent) parent_fee (bh_timestamp h)) in
    if negb (expected_base_fee =? base_fee)
    then Err (BaseFeeDiff {| expected := expected_base_fee; got := base_fee |}) else Ok ()
  else Ok ().

Definition validate_against_parent_timestamp (h parent : BlockHeader) : result ConsensusError () :=
  if bh_timestamp h <=? bh_timestamp parent
  then Err (TimestampIsInPast (bh_timestamp parent) (bh_timestamp h)) else Ok ().

Definition validate_against_parent_gas_limit (h parent : BlockHeader) (spec : ChainSpec)
    : result ConsensusError () :=
  let parent_gas_limit :=
    if negb (is_london_active_at_block spec (bh_number parent)) && is_london_active_at_block spec (bh_number h)
    then wrap64 (bh_gas_limit parent * wrap64 (elasticity_multiplier_at_timestamp spec (bh_timestamp h)))
    else bh_gas_limit parent in
  let? _ :=
    if parent_gas_limit <? bh_gas_limit h then
      if parent_gas_limit / GAS_LIMIT_BOUND_DIVISOR <=? bh_gas_limit h - parent_gas_limit
      then Err (GasLimitInvalidIncrease parent_gas_limit (bh_gas_limit h)) else Ok ()
    else if parent_gas_limit / GAS_LIMIT_BOUND_DIVISOR <=? parent_gas_limit - bh_gas_limit h
    then Err (GasLimitInvalidDecrease parent_gas_limit (bh_gas_limit h)) else Ok () in
  if bh_gas_limit h <? MINIMUM_GAS_LIMIT then Err (GasLimitInvalidMinimum (bh_gas_limit h)) else Ok ().

Definition validate_against_parent_4844 (h parent : BlockHeader) (p : BlobParams) : result ConsensusError () :=
  let parent_blob_gas_used := default 0 (bh_blob_gas_used parent) in
  let parent_excess_blob_gas := default 0 (bh_excess_blob_gas parent) in
  if is_none (bh_blob_gas_used h) then Err BlobGasUsedMissing else
  let? excess_blob_gas := ok_or (bh_excess_blob_gas h) ExcessBlobGasMissing in
  let expected_excess_blob_gas := next_block_excess_blob_gas_osaka p parent_excess_blob_gas
    parent_blob_gas_used (default 0 (bh_base_fee_per_gas parent)) in
  if negb (expected_excess_blob_gas =? excess_blob_gas)
  then Err (ExcessBlobGasDiff {| got := excess_blob_gas; expected := expected_excess_blob_gas |}
              parent_excess_blob_gas parent_blob_gas_used)
  else Ok ().
End validation.

(** ** Blocks *)

(** Transactions and receipts, and the tries and hashes over them. *)
Class Primitives := {
  Tx : Type;
  Receipt : Type;
  (** A withdrawal's encoding stands for it. *)
  calculate_tx_root : list Tx -> bytes;
  calculate_ommers_root : list BlockHeader -> bytes;
  calculate_withdrawals_root : list bytes -> bytes;
  body_blob_gas_used : list Tx -> Z;
  cumulative_gas_used : Receipt -> Z;
  receipt_bloom : Receipt -> bytes;
  calculate_receipt_root : list Receipt -> bytes;
  requests_hash : list bytes -> bytes;
  (** The RLP length of a block, of its header and body. *)
  rlp_length : BlockHeader -> list Tx -> list BlockHeader -> option (list bytes) -> Z }.

Section blocks.
Context `{ConsensusConstants} `{Primitives}.

Record BlockBody := {
  bb_transactions : list Tx; bb_ommers : list BlockHeader; bb_withdrawals : option (list bytes) }.

Record Block := { bk_header : SealedHeader; bk_body : BlockBody }.

Definition bk_transactions (b : Block) : list Tx := bb_transactions (bk_body b).

(** What execution of a block returns. *)
Record BlockResult := {
  br_gas_used : Z; br_blob_gas_used : Z; br_receipts : list Receipt; br_requests : list bytes }.

(** [receipts.last().map(TxReceipt::cumulative_gas_used).unwrap_or(0)]. *)
Definition last_cumulative (l : list Receipt) : Z := default 0 (cumulative_gas_used <$> last l).

Definition validate_shanghai_withdrawals (b : Block) : result ConsensusError () :=
  let? withdrawals := ok_or (bb_withdrawals (bk_body b)) BodyWithdrawalsMissing in
  let root := calculate_withdrawals_root withdrawals in
  let? header_root := ok_or (bh_withdrawals_root (sh_header (bk_header b))) WithdrawalsRootMissing in
  if negb (bool_decide (root = header_root))
  then Err (BodyWithdrawalsRootDiff {| got := root; expected := header_root |}) else Ok ().

Definition validate_cancun_gas (b : Block) : result ConsensusError () :=
  let? header_blob_gas_used := ok_or (bh_blob_gas_used (sh_header (bk_header b))) BlobGasUsedMissing in
  let total_blob_gas := body_blob_gas_used (bk_transactions b) in
  if negb (total_blob_gas =? header_blob_gas_used)
  then Err (BlobGasUsedDiff {| got := header_blob_gas_used; expected := total_blob_gas |}) else Ok ().

Definition validate_body_against_header (body : BlockBody) (h : BlockHeader) : result ConsensusError () :=
  let ommers_hash := calculate_ommers_root (bb_ommers body) in
  if negb (bool_decide (bh_ommers_hash h = ommers_hash))
  then Err (BodyOmmersHashDiff {| got := ommers_hash; expected := bh_ommers_hash h |}) else
  let tx_root := calculate_tx_root (bb_transactions body) in
  if negb (bool_decide (bh_transactions_root h = tx_root))
  then Err (BodyTransactionRootDiff {| got := tx_root; expected := bh_transactions_root h |}) else
  match bh_withdrawals_root h, calculate_withdrawals_root <$> bb_withdrawals body with
  | Some header_root, Some root =>
      if negb (bool_decide (root = header_root))
      then Err (BodyWithdrawalsRootDiff {| got := root; expected := header_root |}) else Ok ()
  | None, None => Ok ()
  | _, _ => Err WithdrawalsRootUnexpected
  end.

Definition post_merge_hardfork_fields (b : Block) (spec : ChainSpec) : result ConsensusError () :=
  let h := sh_header (bk_header b) in
  let ommers_hash := calculate_ommers_root (bb_ommers (bk_body b)) in
  if negb (bool_decide (bh_ommers_hash h = ommers_hash))
  then Err (BodyOmmersHashDiff {| got := ommers_hash; expected := bh_ommers_hash h |}) else
  let? _ := if is_shanghai_active_at_timestamp spec (bh_timestamp h)
            then validate_shanghai_withdrawals b else Ok () in
  let? _ := if is_cancun_active_at_timestamp spec (bh_timestamp h) then validate_cancun_gas b else Ok () in
  let length := rlp_length h (bk_transactions b) (bb_ommers (bk_body b)) (bb_withdrawals (bk_body b)) in
  if is_osaka_active_at_timestamp spec (bh_timestamp h) && (MAX_RLP_BLOCK_SIZE <? length)
  then Err (BlockTooLarge length MAX_RLP_BLOCK_SIZE) else Ok ().

Definition validate_block_pre_execution_with_tx_root (b : Block) (spec : ChainSpec)
    (transaction_root : option bytes) : result ConsensusError () :=
  let? _ := post_merge_hardfork_fields b spec in
  let expected_root := bh_transactions_root (sh_header (bk_header b)) in
  let root := default (calculate_tx_root (bk_transactions b)) transaction_root in
  if negb (bool_decide (root = expected_root))
  then Err (BodyTransactionRootDiff {| got := root; expected := expected_root |}) else Ok ().

Definition validate_block_pre_execution (b : Block) (spec : ChainSpec) : result ConsensusError () :=
  validate_block_pre_execution_with_tx_root b spec None.

(** ** After execution *)

(** [Bloom], 256 bytes, joined bitwise. *)
Definition BLOOM_ZERO : bytes := replicate 256 Byte.x00.
Definition bloom_or (a b : bytes) : bytes := zip_with (fun x y => z2b (Z.lor (b2z x) (b2z y))) a b.

Definition compare_receipts_root_and_logs_bloom (root bloom expected_root expected_bloom : bytes)
    : result ConsensusError () :=
  if negb (bool_decide (root = expected_root))
  then Err (BodyReceiptRootDiff {| got := root; expected := expected_root |}) else
  if negb (bool_decide (bloom = expected_bloom))
  then Err (BodyBloomLogDiff {| got := bloom; expected := expected_bloom |}) else Ok ().

Definition verify_receipts (expected_root expected_bloom : bytes) (receipts : list Receipt)
    : result ConsensusError () :=
  let bloom := fold_left (fun bloom r => bloom_or bloom (receipt_bloom r)) receipts BLOOM_ZERO in
  compare_receipts_root_and_logs_bloom (calculate_receipt_root receipts) bloom expected_root expected_bloom.

Definition validate_block_post_execution_with_bal_hashes (b : Block) (spec : ChainSpec) (r : BlockResult)
    (receipt_root_bloom : option (bytes * bytes)) (block_access_list_hash : option bytes)
    (allow_bal_hashes : bool) : result ConsensusError () :=
  let h := sh_header (bk_header b) in
  if negb (bh_gas_used h =? br_gas_used r)
  then Err (BlockGasUsed {| got := br_gas_used r; expected := bh_gas_used h |}) else
  let? _ := if is_byzantium_active_at_block spec (bh_number h) then
      match receipt_root_bloom with
      | Some (root, bloom) => compare_receipts_root_and_logs_bloom root bloom (bh_receipts_root h) (bh_logs_bloom h)
      | None => verify_receipts (bh_receipts_root h) (bh_logs_bloom h) (br_receipts r)
      end
    else Ok () in
  let? _ := if is_prague_active_at_timestamp spec (bh_timestamp h) then
      let? header_requests_hash := ok_or (bh_requests_hash h) RequestsHashMissing in
      let hash := requests_hash (br_requests r) in
      if negb (bool_decide (hash = header_requests_hash))
      then Err (BodyRequestsHashDiff {| got := hash; expected := header_requests_hash |}) else Ok ()
    else Ok () in
  let amsterdam := is_amsterdam_active_at_timestamp spec (bh_timestamp h) in
  let is_allowed_pre_amsterdam_bal_hash :=
    allow_bal_hashes && negb amsterdam && is_some (bh_block_access_list_hash h) in
  match block_access_list_hash with
  | Some hash =>
      if amsterdam || is_allowed_pre_amsterdam_bal_hash then
        let block_bal_hash := default ZERO32 (bh_block_access_list_hash h) in
        if negb (bool_decide (hash = block_bal_hash))
        then Err (BlockAccessListHashMismatch {| got := hash; expected := block_bal_hash |}) else Ok ()
      else Ok ()
  | None => Ok ()
  end.

Definition validate_block_post_execution (b : Block) (spec : ChainSpec) (r : BlockResult)
    (receipt_root_bloom : option (bytes * bytes)) (block_access_list_hash : option bytes)
    : result ConsensusError () :=
  validate_block_post_execution_with_bal_hashes b spec r receipt_root_bloom block_access_list_hash false.
End blocks.

(** ** [EthBeaconConsensus] *)

Record EthBeaconConsensus := {
  ec_chain_spec : ChainSpec; ec_max_extra_data_size : Z; ec_skip_gas_limit_ramp_check : bool;
  ec_skip_blob_gas_used_check : bool; ec_skip_requests_hash_check : bool; ec_allow_bal_hashes : bool }.

Section beacon.
Context `{ConsensusConstants}.

Definition new_consensus (spec : ChainSpec) : EthBeaconConsensus := {|
  ec_chain_spec := spec; ec_max_extra_data_size := MAXIMUM_EXTRA_DATA_SIZE;
  ec_skip_gas_limit_ramp_check := false; ec_skip_blob_gas_used_check := false;
  ec_skip_requests_hash_check := false; ec_allow_bal_hashes := false |}.

(** [now] is the clock in seconds, read before the merge only; its sum with the allowance is exact. *)
Definition validate_header (c : EthBeaconConsensus) (now : Z) (sealed : SealedHeader) : result ConsensusError () :=
  let h := sh_header sealed in
  let spec := ec_chain_spec c in
  let? _ :=
    if is_paris_active_at_block spec (bh_number h) then
      if negb (bh_difficulty h =? 0) then Err TheMergeDifficultyIsNotZero else
      if negb (bh_nonce h =? 0) then Err TheMergeNonceIsNotZero else
      if negb (bool_decide (bh_ommers_hash h = EMPTY_OMMER_ROOT_HASH)) then Err TheMergeOmmerRootIsNotEmpty
      else Ok ()
    else if now + ALLOWED_FUTURE_BLOCK_TIME_SECONDS <? bh_timestamp h
    then Err (TimestampIsInFuture (bh_timestamp h) now) else Ok () in
  let? _ := validate_header_extra_data h (ec_max_extra_data_size c) in
  let? _ := validate_header_gas h in
  let? _ := validate_header_base_fee h spec in
  let shanghai := is_shanghai_active_at_timestamp spec (bh_timestamp h) in
  if shanghai && is_none (bh_withdrawals_root h) then Err WithdrawalsRootMissing else
  if negb shanghai && is_some (bh_withdrawals_root h) then Err WithdrawalsRootUnexpected else
  let? _ :=
    if is_cancun_active_at_timestamp spec (bh_timestamp h) then
      if negb (ec_skip_blob_gas_used_check c)
      then validate_4844_header_standalone h (default BLOB_CANCUN (blob_params_at_timestamp spec (bh_timestamp h)))
      else Ok ()
    else if is_some (bh_blob_gas_used h) then Err BlobGasUsedUnexpected
    else if is_some (bh_excess_blob_gas h) then Err ExcessBlobGasUnexpected
    else if is_some (bh_parent_beacon_block_root h) then Err ParentBeaconBlockRootUnexpected else Ok () in
  let? _ :=
    if is_prague_active_at_timestamp spec (bh_timestamp h) then
      if is_none (bh_requests_hash h) then Err RequestsHashMissing else Ok ()
    else if is_some (bh_requests_hash h) then Err RequestsHashUnexpected else Ok () in
  if is_amsterdam_active_at_timestamp spec (bh_timestamp h) then
    if is_none (bh_block_access_list_hash h) then Err BlockAccessListHashMissing else
    if is_none (bh_slot_number h) then Err SlotNumberMissing else Ok ()
  else
    if is_some (bh_block_access_list_hash h) && negb (ec_allow_bal_hashes c) then Err BlockAccessListHashUnexpected else
    if is_some (bh_slot_number h) then Err SlotNumberUnexpected else Ok ().

Definition validate_header_against_parent (c : EthBeaconConsensus) (h parent : SealedHeader)
    : result ConsensusError () :=
  let spec := ec_chain_spec c in
  let? _ := validate_against_parent_hash_number (sh_header h) parent in
  let? _ := validate_against_parent_timestamp (sh_header h) (sh_header parent) in
  let? _ := if negb (ec_skip_gas_limit_ramp_check c)
            then validate_against_parent_gas_limit (sh_header h) (sh_header parent) spec else Ok () in
  let? _ := validate_against_parent_eip1559_base_fee (sh_header h) (sh_header parent) spec in
  match blob_params_at_timestamp spec (bh_timestamp (sh_header h)) with
  | Some p => validate_against_parent_4844 (sh_header h) (sh_header parent) p
  | None => Ok ()
  end.

(** The [FullConsensus] check after execution. *)
Definition beacon_post_execution `{Primitives} (c : EthBeaconConsensus) (b : Block) (r : BlockResult)
    (receipt_root_bloom : option (bytes * bytes)) (block_access_list_hash : option bytes)
    : result ConsensusError () :=
  let res := validate_block_post_execution_with_bal_hashes b (ec_chain_spec c) r receipt_root_bloom
    block_access_list_hash (ec_allow_bal_hashes c) in
  match res with
  | Err (BodyRequestsHashDiff _) => if ec_skip_requests_hash_check c then Ok () else res
  | _ => res
  end.
End beacon.

(** ** What the checks mean *)

Lemma is_none_iff {A} (o : option A) : is_none o = true <-> o = None.
Proof. by destruct o. Qed.
Lemma is_none_false {A} (o : option A) : is_none o = false <-> is_Some o.
Proof. destruct o as [a|]; cbn; split; [by exists a|done|done|by intros []]. Qed.
Lemma is_some_iff {A} (o : option A) : is_some o = true <-> is_Some o.
Proof. unfold is_some. rewrite negb_true_iff. apply is_none_false. Qed.
Lemma is_some_false {A} (o : option A) : is_some o = false <-> o = None.
Proof. unfold is_some. rewrite negb_false_iff. apply is_none_iff. Qed.

(** A guard of the form "return an error if": what its passing says. *)
Lemma guard_ok {E} (b : bool) (e : E) (k : result E ()) : (if b then Err e else k) = Ok () <-> b = false /\ k = Ok ().
Proof. destruct b; naive_solver. Qed.

Lemma seq_ok {E} (a b : result E ()) : rbind a (fun _ => b) = Ok () <-> a = Ok () /\ b = Ok ().
Proof. destruct a as [[]|]; cbn; naive_solver. Qed.

Lemma choice_ok {E} (b : bool) (p q : result E ()) :
  (if b then p else q) = Ok () <-> (b = true -> p = Ok ()) /\ (b = false -> q = Ok ()).
Proof. destruct b; naive_solver. Qed.

Section facts.
Context `{ConsensusConstants}.

(** The child's gas limit moves by less than the bound and stays above the minimum. *)
Definition gas_limit_follows (spec : ChainSpec) (h parent : BlockHeader) : Prop :=
  let limit :=
    if negb (is_london_active_at_block spec (bh_number parent)) && is_london_active_at_block spec (bh_number h)
    then wrap64 (bh_gas_limit parent * wrap64 (elasticity_multiplier_at_timestamp spec (bh_timestamp h)))
    else bh_gas_limit parent in
  Z.abs (bh_gas_limit h - limit) < limit / GAS_LIMIT_BOUND_DIVISOR /\ MINIMUM_GAS_LIMIT <= bh_gas_limit h.

Lemma gas_limit_iff spec h parent :
  validate_against_parent_gas_limit h parent spec = Ok () <-> gas_limit_follows spec h parent.
Proof.
  unfold validate_against_parent_gas_limit, gas_limit_follows. cbv zeta. set (limit := if _ && _ then _ else _).
  rewrite seq_ok, guard_ok, Z.ltb_ge. destruct (Z.ltb_spec limit (bh_gas_limit h)); rewrite guard_ok, Z.leb_gt.
  all: split; [intros ([Ha _] & Hb & _)|intros [Ha Hb]]; split_and!; (done || lia).
Qed.

(** The excess blob gas is the one the parent determines. *)
Definition blob_follows (h parent : BlockHeader) (p : BlobParams) : Prop :=
  is_Some (bh_blob_gas_used h) /\
  bh_excess_blob_gas h = Some (next_block_excess_blob_gas_osaka p (default 0 (bh_excess_blob_gas parent))
    (default 0 (bh_blob_gas_used parent)) (default 0 (bh_base_fee_per_gas parent))).

Lemma blob_follows_iff h parent p : validate_against_parent_4844 h parent p = Ok () <-> blob_follows h parent p.
Proof.
  unfold validate_against_parent_4844, blob_follows. cbv zeta. rewrite guard_ok, is_none_false.
  destruct (bh_excess_blob_gas h) as [x|]; cbn [ok_or rbind]; [|naive_solver].
  rewrite guard_ok, negb_false_iff, Z.eqb_eq. split; [intros (? & -> & _)|intros [? [= ->]]]; done.
Qed.

Lemma hash_number_iff h parent :
  validate_against_parent_hash_number h parent = Ok () <->
  bh_parent_hash h = sh_hash parent /\ checked_add (bh_number (sh_header parent)) 1 = Some (bh_number h).
Proof.
  unfold validate_against_parent_hash_number. rewrite guard_ok, negb_false_iff, bool_decide_eq_true.
  destruct (checked_add _ 1) as [n|]; [|naive_solver]. rewrite guard_ok, negb_false_iff, Z.eqb_eq. naive_solver.
Qed.

Lemma timestamp_iff h parent :
  validate_against_parent_timestamp h parent = Ok () <-> bh_timestamp parent < bh_timestamp h.
Proof. unfold validate_against_parent_timestamp. rewrite guard_ok, Z.leb_gt. naive_solver. Qed.

(** Everything the stock consensus asks of a child but its base fee. *)
Definition follows (spec : ChainSpec) (h parent : SealedHeader) : Prop :=
  bh_parent_hash (sh_header h) = sh_hash parent /\
  checked_add (bh_number (sh_header parent)) 1 = Some (bh_number (sh_header h)) /\
  bh_timestamp (sh_header parent) < bh_timestamp (sh_header h) /\
  gas_limit_follows spec (sh_header h) (sh_header parent) /\
  forall p, blob_params_at_timestamp spec (bh_timestamp (sh_header h)) = Some p ->
    blob_follows (sh_header h) (sh_header parent) p.

(** The stock rule of the base fee. *)
Definition stock_fee (spec : ChainSpec) (h parent : BlockHeader) : Prop :=
  is_london_active_at_block spec (bh_number h) = true ->
  if london_transitions_at_block spec (bh_number h) then bh_base_fee_per_gas h = Some INITIAL_BASE_FEE else
  exists fee, bh_base_fee_per_gas parent = Some fee /\ bh_base_fee_per_gas h =
    Some (calc_next_block_base_fee spec (bh_gas_used parent) (bh_gas_limit parent) fee (bh_timestamp h)).

Lemma stock_fee_iff spec h parent :
  validate_against_parent_eip1559_base_fee h parent spec = Ok () <-> stock_fee spec h parent.
Proof.
  unfold validate_against_parent_eip1559_base_fee, stock_fee.
  destruct (is_london_active_at_block spec (bh_number h)); [|naive_solver].
  destruct (bh_base_fee_per_gas h) as [fee|]; cbn [ok_or rbind].
  2:{ split; [done|]. intros Hf. specialize (Hf eq_refl). destruct (london_transitions_at_block _ _); [done|].
      by destruct Hf as (? & _ & ?). }
  destruct (london_transitions_at_block spec (bh_number h)); cbn [rbind].
  - rewrite guard_ok, negb_false_iff, Z.eqb_eq. naive_solver.
  - destruct (bh_base_fee_per_gas parent) as [pf|]; cbn [ok_or rbind].
    + rewrite guard_ok, negb_false_iff, Z.eqb_eq. naive_solver.
    + split; [done|]. intros Hf. by destruct (Hf eq_refl) as (? & ? & _).
Qed.

(** The stock check of a child, exactly. *)
Lemma against_parent_iff spec h parent :
  validate_header_against_parent (new_consensus spec) h parent = Ok () <->
  follows spec h parent /\ stock_fee spec (sh_header h) (sh_header parent).
Proof.
  unfold validate_header_against_parent, follows. cbn [new_consensus ec_chain_spec ec_skip_gas_limit_ramp_check negb].
  rewrite !seq_ok, hash_number_iff, timestamp_iff, gas_limit_iff, stock_fee_iff.
  destruct (blob_params_at_timestamp _ _) as [p|]; [rewrite blob_follows_iff|]; naive_solver.
Qed.

Definition blob_header_ok (h : BlockHeader) (p : BlobParams) : Prop :=
  is_Some (bh_parent_beacon_block_root h) /\
  exists used, bh_blob_gas_used h = Some used /\ used mod DATA_GAS_PER_BLOB = 0 /\ used <= max_blob_gas_per_block p.

Lemma blob_header_iff h p : validate_4844_header_standalone h p = Ok () <-> blob_header_ok h p.
Proof.
  unfold validate_4844_header_standalone, blob_header_ok. destruct (bh_blob_gas_used h) as [used|]; cbn [ok_or rbind].
  - rewrite !guard_ok, is_none_false, negb_false_iff, Z.eqb_eq, Z.ltb_ge. naive_solver.
  - naive_solver.
Qed.

(** What a header must be on its own, fork by fork. *)
Record header_valid (spec : ChainSpec) (now : Z) (h : BlockHeader) : Prop := {
  hv_merge : if is_paris_active_at_block spec (bh_number h)
    then bh_difficulty h = 0 /\ bh_nonce h = 0 /\ bh_ommers_hash h = EMPTY_OMMER_ROOT_HASH
    else bh_timestamp h <= now + ALLOWED_FUTURE_BLOCK_TIME_SECONDS;
  hv_extra : zlen (bh_extra_data h) <= MAXIMUM_EXTRA_DATA_SIZE;
  hv_gas : bh_gas_used h <= bh_gas_limit h <= MAXIMUM_GAS_LIMIT_BLOCK;
  hv_fee : is_london_active_at_block spec (bh_number h) = true -> is_Some (bh_base_fee_per_gas h);
  hv_withdrawals : is_some (bh_withdrawals_root h) = is_shanghai_active_at_timestamp spec (bh_timestamp h);
  hv_blob : if is_cancun_active_at_timestamp spec (bh_timestamp h)
    then blob_header_ok h (default BLOB_CANCUN (blob_params_at_timestamp spec (bh_timestamp h)))
    else bh_blob_gas_used h = None /\ bh_excess_blob_gas h = None /\ bh_parent_beacon_block_root h = None;
  hv_requests : is_some (bh_requests_hash h) = is_prague_active_at_timestamp spec (bh_timestamp h);
  hv_access_list : is_some (bh_block_access_list_hash h) = is_amsterdam_active_at_timestamp spec (bh_timestamp h);
  hv_slot : is_some (bh_slot_number h) = is_amsterdam_active_at_timestamp spec (bh_timestamp h) }.

(** A field present exactly when its fork is active. *)
Lemma presence_iff {A} (active : bool) (o : option A) (missing unexpected : ConsensusError) :
  (if active then if is_none o then Err missing else Ok () else if is_some o then Err unexpected else Ok ()) = Ok () <->
  is_some o = active.
Proof. destruct active, o; naive_solver. Qed.

Lemma withdrawals_iff {A} (active : bool) (o : option A) :
  active && is_none o = false /\ negb active && is_some o = false <-> is_some o = active.
Proof. destruct active, o; naive_solver. Qed.

Lemma merge_iff spec now h :
  (if is_paris_active_at_block spec (bh_number h) then
     if negb (bh_difficulty h =? 0) then Err TheMergeDifficultyIsNotZero else
     if negb (bh_nonce h =? 0) then Err TheMergeNonceIsNotZero else
     if negb (bool_decide (bh_ommers_hash h = EMPTY_OMMER_ROOT_HASH)) then Err TheMergeOmmerRootIsNotEmpty
     else Ok ()
   else if now + ALLOWED_FUTURE_BLOCK_TIME_SECONDS <? bh_timestamp h
   then Err (TimestampIsInFuture (bh_timestamp h) now) else Ok ()) = Ok () <->
  if is_paris_active_at_block spec (bh_number h)
  then bh_difficulty h = 0 /\ bh_nonce h = 0 /\ bh_ommers_hash h = EMPTY_OMMER_ROOT_HASH
  else bh_timestamp h <= now + ALLOWED_FUTURE_BLOCK_TIME_SECONDS.
Proof.
  destruct (is_paris_active_at_block _ _); rewrite !guard_ok, ?negb_false_iff, ?Z.eqb_eq, ?Z.ltb_ge, ?bool_decide_eq_true; tauto.
Qed.

Lemma blob_fields_iff spec h :
  (if is_cancun_active_at_timestamp spec (bh_timestamp h) then
     validate_4844_header_standalone h (default BLOB_CANCUN (blob_params_at_timestamp spec (bh_timestamp h)))
   else if is_some (bh_blob_gas_used h) then Err BlobGasUsedUnexpected
   else if is_some (bh_excess_blob_gas h) then Err ExcessBlobGasUnexpected
   else if is_some (bh_parent_beacon_block_root h) then Err ParentBeaconBlockRootUnexpected else Ok ()) = Ok () <->
  if is_cancun_active_at_timestamp spec (bh_timestamp h)
  then blob_header_ok h (default BLOB_CANCUN (blob_params_at_timestamp spec (bh_timestamp h)))
  else bh_blob_gas_used h = None /\ bh_excess_blob_gas h = None /\ bh_parent_beacon_block_root h = None.
Proof.
  destruct (is_cancun_active_at_timestamp _ _); [apply blob_header_iff|]. rewrite !guard_ok, !is_some_false. tauto.
Qed.

Lemma amsterdam_iff {A B} (active : bool) (o : option A) (n : option B) :
  (if active then
     if is_none o then Err BlockAccessListHashMissing else if is_none n then Err SlotNumberMissing else Ok ()
   else
     if is_some o && true then Err BlockAccessListHashUnexpected else
     if is_some n then Err SlotNumberUnexpected else Ok ()) = Ok () <->
  is_some o = active /\ is_some n = active.
Proof. destruct active, o, n; naive_solver. Qed.

Lemma header_valid_exact spec now sealed :
  validate_header (new_consensus spec) now sealed = Ok () <-> header_valid spec now (sh_header sealed).
Proof.
  set (h := sh_header sealed). unfold validate_header.
  cbn [new_consensus ec_chain_spec ec_max_extra_data_size ec_skip_blob_gas_used_check ec_allow_bal_hashes negb].
  fold h. rewrite !seq_ok, !guard_ok, !seq_ok, merge_iff, blob_fields_iff, presence_iff, amsterdam_iff.
  unfold validate_header_extra_data, validate_header_gas, validate_header_base_fee.
  rewrite !guard_ok, !Z.ltb_ge.
  pose proof (withdrawals_iff (is_shanghai_active_at_timestamp spec (bh_timestamp h)) (bh_withdrawals_root h)) as Hw.
  assert (Hf : is_london_active_at_block spec (bh_number h) && is_none (bh_base_fee_per_gas h) = false <->
    (is_london_active_at_block spec (bh_number h) = true -> is_Some (bh_base_fee_per_gas h))).
  { rewrite andb_false_iff, is_none_false. destruct (is_london_active_at_block _ _); naive_solver. }
  split.
  - intros (? & [? _] & (? & ? & _) & [? _] & ? & ? & ? & ? & ? & ?). split; first [tauto | lia].
  - intros []. tauto.
Qed.

Lemma header_valid_ok spec now sealed :
  validate_header (new_consensus spec) now sealed = Ok () -> header_valid spec now (sh_header sealed).
Proof. apply header_valid_exact. Qed.

(** The post-execution check compares the gas used. *)
Lemma post_execution_gas `{Primitives} blk spec r root bal :
  validate_block_post_execution blk spec r root bal = Ok () -> bh_gas_used (sh_header (bk_header blk)) = br_gas_used r.
Proof.
  unfold validate_block_post_execution, validate_block_post_execution_with_bal_hashes. cbv zeta.
  destruct (negb _) eqn:Hg; [done|]. intros _. by apply negb_false_iff, Z.eqb_eq in Hg.
Qed.

(** C24: the stock header check, exactly.  A header passes if and only if it satisfies the rule of every
    fork: after the merge no difficulty, nonce or ommers; extra data and gas within their bounds;
    a base fee from London on; and each fork's fields present exactly when it is active, with blob
    gas a whole number of blobs within the maximum. *)
Theorem header_valid_iff spec now sealed :
  validate_header (new_consensus spec) now sealed = Ok () <-> header_valid spec now (sh_header sealed).
Proof. apply header_valid_exact. Qed.
End facts.
