(* ===== verification/BlockJob.v ===== *)
(** Block jobs: the bindings of [crates/unicity/execution/src/block_executor.rs], and the two binding
    functions of [wire.rs].

    A job binds one root input, its companions and the accounting of its parent.  The accounting is an
    opaque token ([CompletedParent]) that only a completed build or replay mints; it can be exported
    to disk and is restored only for the header it was exported for.  A job determines every header
    field of its block, and both sides check them: the build path its attributes, the import path the
    header.  The theorems make both exact, and show that the checks agree. *)
From S2P Require Import Prelude Crypto BlockAccounting RootInput Hook B1Update RegistryTransition StoreCodec EthConsensus.
Import StoreCodec.

(** ** Jobs and tokens *)

Record BoundExecutionInput := {
  be_input : RootInputV2; be_profile : BlockProfile; be_parent_hash : bytes; be_parent_number : Z;
  be_parent_timestamp : Z; be_parent_execution : ParentExecutionOutcome; be_fee_collector : bytes;
  be_b1 : B1Job }.

(** The opaque token. *)
Record CompletedParent := Completed { completed : ParentExecutionOutcome }.

Definition for_local_storage (t : CompletedParent) : LocalParentAccounting :=
  let o := completed t in
  {| la_block_hash := parent_hash o; la_profile := profile o; la_header_gas := header (gas o);
     la_system_gas := system (gas o); la_ordinary_gas := ordinary_gas o; la_base_fee := base_fee o |}.

Section jobs.
Context `{Crypto} `{HeaderHash}.

Definition from_local_storage (r : LocalParentAccounting) (header : SealedHeader) (p : BlockProfile)
    : result BlockAccountingError CompletedParent :=
  let h := sh_header header in
  if negb (bool_decide (hash_slow h = sh_hash header))
     || negb (bool_decide (la_block_hash r = sh_hash header))
     || negb (bool_decide (la_profile r = p))
     || negb (bh_gas_limit h =? max_gas p)
     || negb (bh_gas_used h =? la_header_gas r)
     || negb (bool_decide (bh_base_fee_per_gas h = Some (la_base_fee r)))
  then Err ParentGasMismatch else
  let? outcome := reconcile p (la_block_hash r) (la_header_gas r) (la_system_gas r) (la_base_fee r) in
  if negb (ordinary_gas outcome =? la_ordinary_gas r) then Err ParentGasMismatch else
  Ok (Completed outcome).

Definition checked_next_base_fee (t : CompletedParent) (parent : SealedHeader) (p : BlockProfile)
    : result BlockAccountingError Z :=
  let o := completed t in
  let h := sh_header parent in
  if negb (bool_decide (hash_slow h = sh_hash parent))
     || negb (bool_decide (parent_hash o = sh_hash parent))
     || negb (bool_decide (profile o = p))
     || negb (bh_gas_limit h =? max_gas p)
     || negb (bh_gas_used h =? header (gas o))
     || negb (bool_decide (bh_base_fee_per_gas h = Some (base_fee o)))
  then Err ParentGasMismatch else
  let? checked := reconcile p (sh_hash parent) (bh_gas_used h) (system (gas o)) (base_fee o) in
  if negb (ordinary_gas checked =? ordinary_gas o) then Err ParentGasMismatch else
  next_base_fee checked.

Definition genesis_next_base_fee (parent : SealedHeader) (genesis_hash : bytes) (p : BlockProfile)
    : result BlockAccountingError Z :=
  let h := sh_header parent in
  if negb (bh_number h =? 0) || negb (bool_decide (sh_hash parent = genesis_hash))
     || negb (bool_decide (hash_slow h = genesis_hash)) || negb (bh_gas_used h =? 0)
  then Err ParentGasMismatch else
  let? fee := ok_or (bh_base_fee_per_gas h) InvalidParentBaseFee in
  let? accounting := reconcile p genesis_hash 0 0 fee in
  next_base_fee accounting.

Definition from_validated_genesis (input : RootInputV2) (b1 : B1Job) (p : BlockProfile)
    (parent : SealedHeader) (configured_genesis_hash fee_collector : bytes)
    : result BlockAccountingError BoundExecutionInput :=
  let h := sh_header parent in
  let hash := sh_hash parent in
  if negb (bool_decide (hash = hash_slow h)) || negb (bool_decide (hash = configured_genesis_hash))
     || negb (bh_number h =? 0) || negb (bh_gas_used h =? 0)
     || negb (bool_decide (ri_parent_hash input = hash))
  then Err ParentGasMismatch else
  let? _ := check_bound b1 input p in
  let? fee := ok_or (bh_base_fee_per_gas h) InvalidParentBaseFee in
  let? parent_execution := reconcile p hash (bh_gas_used h) 0 fee in
  Ok {| be_input := input; be_profile := p; be_parent_hash := hash; be_parent_number := bh_number h;
        be_parent_timestamp := bh_timestamp h; be_parent_execution := parent_execution;
        be_fee_collector := fee_collector; be_b1 := b1 |}.

Definition from_completed_parent (input : RootInputV2) (b1 : B1Job) (p : BlockProfile)
    (parent : SealedHeader) (t : CompletedParent) (fee_collector : bytes)
    : result BlockAccountingError BoundExecutionInput :=
  let h := sh_header parent in
  if negb (bool_decide (hash_slow h = sh_hash parent))
     || negb (bool_decide (ri_parent_hash input = sh_hash parent))
     || negb (bool_decide (parent_hash (completed t) = sh_hash parent))
     || negb (bool_decide (profile (completed t) = p))
  then Err ParentGasMismatch else
  let? _ := check_bound b1 input p in
  let? _ := checked_next_base_fee t parent p in
  Ok {| be_input := input; be_profile := p; be_parent_hash := sh_hash parent;
        be_parent_number := bh_number h; be_parent_timestamp := bh_timestamp h;
        be_parent_execution := completed t; be_fee_collector := fee_collector; be_b1 := b1 |}.

(** [wire.rs] forwards to them. *)
Definition bind_completed_parent := from_completed_parent.
Definition bind_validated_genesis := from_validated_genesis.

(** ** The checks of the build path and of the import path *)

(** [NextBlockEnvAttributes]. *)
Record NextBlockEnvAttributes := {
  na_timestamp : Z; na_suggested_fee_recipient : bytes; na_prev_randao : bytes; na_gas_limit : Z;
  na_parent_beacon_block_root : option bytes; na_withdrawals : option (list bytes);
  na_extra_data : bytes; na_slot_number : option Z }.

Definition validate_parent (b : BoundExecutionInput) (parent : SealedHeader) : result string () :=
  if negb (bool_decide (hash_slow (sh_header parent) = sh_hash parent))
     || negb (bool_decide (sh_hash parent = be_parent_hash b))
     || negb (bool_decide (ri_parent_hash (be_input b) = sh_hash parent))
  then Err "bound parent hash mismatch"%string else
  if negb (bool_decide (parent_hash (be_parent_execution b) = sh_hash parent))
  then Err "parent execution identity mismatch"%string else Ok ().

Definition job_randao (b : BoundExecutionInput) : bytes :=
  derive_prev_randao (ro_root_round (ri_origin (be_input b))) (ri_authorized_round (be_input b)).
Definition job_beacon_root (b : BoundExecutionInput) : bytes :=
  derive_beacon_root (ro_root_round (ri_origin (be_input b))) (ri_authorized_round (be_input b)).
Definition job_timestamp (b : BoundExecutionInput) : option Z :=
  derive_timestamp (ro_reference_time (ri_origin (be_input b))) (be_parent_timestamp b).
Definition job_commitment (b : BoundExecutionInput) : result string bytes :=
  map_err (fun _ => "invalid bound root input"%string) (input_commitment (be_input b)).
Definition job_base_fee (b : BoundExecutionInput) : result string Z :=
  map_err (fun _ => "next base fee derivation failed"%string) (next_base_fee (be_parent_execution b)).

Definition validate_next_attributes (b : BoundExecutionInput) (a : NextBlockEnvAttributes)
    : result string () :=
  let? timestamp := ok_or (job_timestamp b) "timestamp overflow"%string in
  if negb (na_timestamp a =? timestamp) then Err "next-block timestamp mismatch"%string else
  if negb (bool_decide (na_prev_randao a = job_randao b))
  then Err "next-block prev_randao mismatch"%string else
  if negb (bool_decide (na_parent_beacon_block_root a = Some (job_beacon_root b)))
  then Err "next-block parent_beacon_block_root mismatch"%string else
  if negb (na_gas_limit a =? max_gas (be_profile b)) then Err "next-block gas_limit mismatch"%string else
  if negb (bool_decide (na_suggested_fee_recipient a = be_fee_collector b))
  then Err "next-block suggested_fee_recipient mismatch"%string else
  if match na_withdrawals a with Some (_ :: _) => true | _ => false end
  then Err "next-block withdrawals mismatch"%string else
  if match na_slot_number a with Some _ => true | None => false end
  then Err "next-block slot_number mismatch"%string else
  let? commitment := job_commitment b in
  if negb (bool_decide (na_extra_data a = commitment)) then Err "next-block extra_data mismatch"%string
  else Ok ().

Definition validate_payload_job (b : BoundExecutionInput) (parent : SealedHeader)
    (a : NextBlockEnvAttributes) : result string () :=
  let? _ := validate_parent b parent in validate_next_attributes b a.

(** The base fee and the gas limit of the next block's environment; the inner configuration
    contributes its specification ([cancun]). *)
Definition next_evm_env (cancun : bool) (b : BoundExecutionInput) (parent : BlockHeader)
    (a : NextBlockEnvAttributes) : result string (Z * Z) :=
  let? _ := validate_parent b {| sh_header := parent; sh_hash := hash_slow parent |} in
  let? _ := validate_next_attributes b a in
  if negb cancun then Err "only the fixed Cancun profile is supported"%string else
  let? fee := job_base_fee b in
  Ok (fee, max_gas (be_profile b)).

Definition DIVERGES : string := "block header diverges from bound execution input".

(** [context_for_block], up to the inner, infallible context. *)
Definition context_for_block (b : BoundExecutionInput) (h : BlockHeader) : result string () :=
  let? commitment := job_commitment b in
  let? timestamp := ok_or (job_timestamp b) "timestamp overflow"%string in
  if negb (bool_decide (ri_parent_hash (be_input b) = be_parent_hash b))
     || negb (bool_decide (bh_parent_hash h = be_parent_hash b)) then Err DIVERGES else
  let? number := ok_or (checked_add (be_parent_number b) 1) "parent block number overflow"%string in
  if negb (bh_number h =? number) || negb (bool_decide (bh_extra_data h = commitment))
     || negb (bh_timestamp h =? timestamp) || negb (bool_decide (bh_mix_hash h = job_randao b))
     || negb (bool_decide (bh_parent_beacon_block_root h = Some (job_beacon_root b)))
  then Err DIVERGES else
  let? fee := job_base_fee b in
  if negb (bool_decide (bh_base_fee_per_gas h = Some fee))
     || negb (bh_gas_limit h =? max_gas (be_profile b))
     || negb (bool_decide (bh_beneficiary h = be_fee_collector b))
  then Err DIVERGES else Ok ().

(** Whether an input with epoch transitions comes with transactions. *)
Definition acknowledges {A} (b : BoundExecutionInput) (transactions : list A) : bool :=
  match ri_transitions (be_input b), transactions with _ :: _, _ :: _ => true | _, _ => false end.

Definition validate_payload_candidate `{Primitives} (b : BoundExecutionInput) (blk : Block) : result string () :=
  if acknowledges b (bk_transactions blk)
  then Err "epoch acknowledgement block contains user transactions"%string else
  context_for_block b (sh_header (bk_header blk)).
End jobs.

(** ** Tokens *)

(** A token whose accounting the header reconciles to. *)
Definition token_of `{HeaderHash} (header : SealedHeader) (p : BlockProfile) (t : CompletedParent) : Prop :=
  let h := sh_header header in let o := completed t in
  hash_slow h = sh_hash header /\ bh_gas_limit h = max_gas p /\
  bh_base_fee_per_gas h = Some (base_fee o) /\
  reconcile p (sh_hash header) (bh_gas_used h) (system (gas o)) (base_fee o) = Ok o.

Lemma reconcile_fields p h hdr sys fee o :
  reconcile p h hdr sys fee = Ok o ->
  profile o = p /\ parent_hash o = h /\ base_fee o = fee /\ system (gas o) = sys /\ header (gas o) = hdr.
Proof.
  unfold reconcile. intros Hr. inv_ok Hr. unfold derive in Hok1. inv_ok Hok1. subst. cbn in *.
  apply negb_false_iff, Z.eqb_eq in Heqb0. done.
Qed.

Lemma reconcile_ordinary p h hdr sys fee o :
  reconcile p h hdr sys fee = Ok o -> ordinary_gas o = hdr - sys.
Proof.
  unfold reconcile. intros Hr. inv_ok Hr. apply ok_or_inv in Hok0. apply checked_sub_some in Hok0 as [-> _].
  unfold derive in Hok1. inv_ok Hok1. by subst.
Qed.

Section token_lemmas.
Context `{HeaderHash}.

Ltac guards Hg :=
  rewrite ?orb_false_iff, ?negb_false_iff, ?bool_decide_eq_true, ?Z.eqb_eq in Hg.

Lemma from_local_storage_iff r header p t :
  from_local_storage r header p = Ok t <-> r = for_local_storage t /\ token_of header p t.
Proof.
  unfold from_local_storage, token_of. cbv zeta. split.
  - intros Hf. destruct (_ || _) eqn:Hg; [done|]. guards Hg. destruct Hg as [[[[[Hh Hb] Hp] Hl] Hu] Hfee].
    inv_ok Hf. subst t. cbn [completed].
    pose proof (reconcile_fields _ _ _ _ _ _ Hok) as (E1 & E2 & E3 & E4 & E5).
    apply negb_false_iff, Z.eqb_eq in Heqb. subst p. split.
    + unfold for_local_storage. cbn [completed]. rewrite E1, E2, E3, E4, E5, Heqb. by destruct r.
    + rewrite E3, E4, Hu, <- Hb. split_and!; congruence.
  - intros (-> & Hh & Hl & Hfee & Hr). pose proof (reconcile_fields _ _ _ _ _ _ Hr) as (E1 & E2 & _ & _ & E5).
    unfold for_local_storage. cbn. rewrite E1, E2, E5, Hh, Hfee, Hl, !bool_decide_true, !Z.eqb_refl by done.
    cbn [negb orb]. rewrite Hr. cbn. rewrite Z.eqb_refl. cbn. by destruct t.
Qed.

Lemma checked_next_base_fee_iff t header p f :
  checked_next_base_fee t header p = Ok f <-> token_of header p t /\ next_base_fee (completed t) = Ok f.
Proof.
  unfold checked_next_base_fee, token_of. cbv zeta. destruct t as [o]. cbn [completed]. split.
  - intros Hf. destruct (_ || _) eqn:Hg; [done|]. guards Hg. destruct Hg as [[[[[Hh Hb] Hp] Hl] Hu] Hfee].
    inv_ok Hf. pose proof (reconcile_fields _ _ _ _ _ _ Hok) as (E1 & E2 & E3 & E4 & E5).
    apply negb_false_iff, Z.eqb_eq in Heqb.
    assert (a = o) as -> by (destruct a as [? ? [] ?], o as [? ? [] ?]; unfold ordinary_gas in *; cbn in *; congruence).
    done.
  - intros ((Hh & Hl & Hfee & Hr) & Hn). pose proof (reconcile_fields _ _ _ _ _ _ Hr) as (E1 & E2 & _ & _ & E5).
    rewrite E1, E2, E5, Hh, Hfee, Hl, !bool_decide_true, !Z.eqb_refl by done.
    cbn [negb orb]. rewrite Hr. cbn. by rewrite Z.eqb_refl.
Qed.

Lemma token_next_fee header p t :
  profile_typed p -> is_u64 (bh_gas_used (sh_header header)) -> is_u64 (system (gas (completed t))) ->
  token_of header p t ->
  exists f, next_base_fee (completed t) = Ok f /\ base_fee_floor p <= f <= MAX_BASE_FEE.
Proof. intros Hp Hu Hs (_ & _ & _ & Hr). exact (reconciled_next_fee _ _ _ _ _ _ Hp Hu Hs Hr). Qed.

(** Parent accounting tokens are exact.  A record restores to a token for a header and a profile
    exactly when it is what the token exports and the header, whose cached hash is its own, reconciles
    to the token's accounting.  The checked next fee exists exactly for such tokens and is the fee
    rule's value on the accounting; for typed tokens it always exists and lies in the profile's
    range, so a restored token never fails later. *)
Theorem token_exact r header p t f :
  profile_typed p -> is_u64 (bh_gas_used (sh_header header)) -> is_u64 (system (gas (completed t))) ->
  (from_local_storage r header p = Ok t <-> r = for_local_storage t /\ token_of header p t) /\
  (checked_next_base_fee t header p = Ok f <-> token_of header p t /\ next_base_fee (completed t) = Ok f) /\
  (token_of header p t -> exists g, checked_next_base_fee t header p = Ok g /\ base_fee_floor p <= g <= MAX_BASE_FEE).
Proof.
  intros Hp Hu Hs. split; [apply from_local_storage_iff|]. split; [apply checked_next_base_fee_iff|].
  intros Ht. destruct (token_next_fee header p t Hp Hu Hs Ht) as (g & Hg & Hr).
  exists g. split; [|done]. by apply checked_next_base_fee_iff.
Qed.

End token_lemmas.

(** ** Jobs *)

Section job_lemmas.
Context `{Crypto} `{HeaderHash}.

(** The job of an input, its companions and a parent whose accounting is [o]. *)
Definition job (input : RootInputV2) (b1 : B1Job) (p : BlockProfile) (parent : SealedHeader)
    (o : ParentExecutionOutcome) (fee_collector : bytes) : BoundExecutionInput :=
  {| be_input := input; be_profile := p; be_parent_hash := sh_hash parent;
     be_parent_number := bh_number (sh_header parent);
     be_parent_timestamp := bh_timestamp (sh_header parent); be_parent_execution := o;
     be_fee_collector := fee_collector; be_b1 := b1 |}.

Lemma from_completed_parent_iff input b1 p parent t c b :
  from_completed_parent input b1 p parent t c = Ok b <->
  check_bound b1 input p = Ok () /\ ri_parent_hash input = sh_hash parent /\ token_of parent p t /\
  (exists f, next_base_fee (completed t) = Ok f) /\ b = job input b1 p parent (completed t) c.
Proof.
  unfold from_completed_parent. cbv zeta. split.
  - intros Hf. destruct (_ || _) eqn:Hg; [done|].
    rewrite !orb_false_iff, !negb_false_iff, !bool_decide_eq_true in Hg. destruct Hg as [[[Hh Hi] Hb] Hp].
    inv_ok Hf. destruct a. apply checked_next_base_fee_iff in Hok0 as [Ht Hn]. subst b. eauto 10.
  - intros (Hc & Hi & Ht & [f Hn] & ->). pose proof Ht as (Hh & _ & _ & Hr).
    pose proof (reconcile_fields _ _ _ _ _ _ Hr) as (E1 & E2 & _).
    rewrite !bool_decide_true by done. cbn [negb orb]. rewrite Hc. cbn [rbind].
    rewrite (proj2 (checked_next_base_fee_iff t parent p f)) by done. done.
Qed.

Lemma from_validated_genesis_iff input b1 p parent g c b :
  from_validated_genesis input b1 p parent g c = Ok b <->
  check_bound b1 input p = Ok () /\ ri_parent_hash input = sh_hash parent /\
  hash_slow (sh_header parent) = sh_hash parent /\ sh_hash parent = g /\
  bh_number (sh_header parent) = 0 /\ bh_gas_used (sh_header parent) = 0 /\
  exists fee o, bh_base_fee_per_gas (sh_header parent) = Some fee /\ reconcile p g 0 0 fee = Ok o /\
    b = job input b1 p parent o c.
Proof.
  unfold from_validated_genesis. cbv zeta. split.
  - intros Hf. destruct (_ || _) eqn:Hg; [done|].
    rewrite !orb_false_iff, !negb_false_iff, !bool_decide_eq_true, !Z.eqb_eq in Hg.
    destruct Hg as [[[[Hh Hc] Hn] Hu] Hi]. inv_ok Hf. destruct a. subst b.
    rewrite Hu, Hc in Hok1. apply ok_or_inv in Hok0. split_and!; try done. eauto 10.
  - intros (Hc & Hi & Hh & Hg & Hn & Hu & fee & o & Hfee & Hr & ->).
    rewrite Hn, Hu, !Z.eqb_refl, !bool_decide_true by done. cbn [negb orb].
    rewrite Hc. cbn [rbind]. rewrite Hfee. cbn [ok_or rbind]. rewrite Hg, Hr. cbn [rbind].
    unfold job. by rewrite Hn, Hg.
Qed.

(** What a bound job is.  The two constructors produce a job exactly when the parent header's
    cached hash is its own and the input names it, both companions hash to the input's commitments and
    the profile covers their envelope, and the parent's accounting is the given token, or the zero
    split of the configured genesis; the job records exactly these.  Its base fee always exists and
    lies in the profile's range. *)
Theorem job_bound input b1 p parent t g c b :
  profile_typed p -> is_u64 (bh_gas_used (sh_header parent)) -> is_u64 (system (gas (completed t))) ->
  (bind_completed_parent input b1 p parent t c = Ok b <->
   check_bound b1 input p = Ok () /\ ri_parent_hash input = sh_hash parent /\ token_of parent p t /\
   b = job input b1 p parent (completed t) c) /\
  (bind_validated_genesis input b1 p parent g c = Ok b <->
   check_bound b1 input p = Ok () /\ ri_parent_hash input = sh_hash parent /\
   hash_slow (sh_header parent) = sh_hash parent /\ sh_hash parent = g /\
   bh_number (sh_header parent) = 0 /\ bh_gas_used (sh_header parent) = 0 /\
   exists fee o, bh_base_fee_per_gas (sh_header parent) = Some fee /\ reconcile p g 0 0 fee = Ok o /\
     b = job input b1 p parent o c) /\
  (bind_completed_parent input b1 p parent t c = Ok b \/ bind_validated_genesis input b1 p parent g c = Ok b ->
   exists f, job_base_fee b = Ok f /\ base_fee_floor p <= f <= MAX_BASE_FEE).
Proof.
  intros Hp Hu Hs. split_and!.
  - unfold bind_completed_parent. rewrite from_completed_parent_iff. split; [tauto|].
    intros (? & ? & Ht & ?). split_and!; try done.
    destruct (token_next_fee parent p t Hp Hu Hs Ht) as (f & Hf & _). eauto.
  - apply from_validated_genesis_iff.
  - intros [Hb|Hb].
    + apply from_completed_parent_iff in Hb as (_ & _ & Ht & _ & ->).
      destruct (token_next_fee parent p t Hp Hu Hs Ht) as (f & Hf & Hr). exists f. split; [|done].
      unfold job_base_fee. cbn. by rewrite Hf.
    + apply from_validated_genesis_iff in Hb as (_ & _ & _ & _ & _ & _ & fee & o & _ & Hr & ->).
      destruct (reconciled_next_fee p g 0 0 fee o Hp ltac:(ulia) ltac:(ulia) Hr) as (f & Hf & Hrange).
      exists f. split; [|done]. unfold job_base_fee. cbn. by rewrite Hf.
Qed.

(** ** Headers *)

(** The header fields a job determines. *)
Definition job_header (b : BoundExecutionInput) (h : BlockHeader) : Prop :=
  ri_parent_hash (be_input b) = be_parent_hash b /\ bh_parent_hash h = be_parent_hash b /\
  checked_add (be_parent_number b) 1 = Some (bh_number h) /\
  input_commitment (be_input b) = Ok (bh_extra_data h) /\ job_timestamp b = Some (bh_timestamp h) /\
  bh_mix_hash h = job_randao b /\ bh_parent_beacon_block_root h = Some (job_beacon_root b) /\
  (exists fee, next_base_fee (be_parent_execution b) = Ok fee /\ bh_base_fee_per_gas h = Some fee) /\
  bh_gas_limit h = max_gas (be_profile b) /\ bh_beneficiary h = be_fee_collector b.

Lemma context_for_block_iff b h : context_for_block b h = Ok () <-> job_header b h.
Proof.
  unfold context_for_block, job_header, job_commitment, job_base_fee. split.
  - intros Hc. inv_ok Hc. apply map_err_ok_inv in Hok, Hok2. apply ok_or_inv in Hok0, Hok1.
    rewrite !orb_false_iff, !negb_false_iff, !bool_decide_eq_true, !Z.eqb_eq in *.
    destruct Heqb0 as [? ?], Heqb1 as [[[[? ?] ?] ?] ?], Heqb2 as [[? ?] ?]. subst. split_and!; eauto.
  - intros (Hi & Hp & Hn & Hc & Ht & Hm & Hb & (fee & Hf & Hfee) & Hg & Hcol).
    rewrite Hc. cbn [map_err rbind]. rewrite Ht. cbn [ok_or rbind]. rewrite Hn. cbn [ok_or rbind].
    rewrite Hf. cbn [map_err rbind]. rewrite Hi, Hp, Hm, Hb, Hfee, Hg, Hcol, !bool_decide_true, !Z.eqb_refl by done.
    done.
Qed.

Lemma validate_parent_iff b parent :
  validate_parent b parent = Ok () <->
  hash_slow (sh_header parent) = sh_hash parent /\ sh_hash parent = be_parent_hash b /\
  ri_parent_hash (be_input b) = sh_hash parent /\ parent_hash (be_parent_execution b) = sh_hash parent.
Proof.
  unfold validate_parent. split.
  - intros Hv. inv_ok Hv. rewrite !orb_false_iff, !negb_false_iff, !bool_decide_eq_true in *. tauto.
  - intros (? & ? & ? & ?). by rewrite !bool_decide_true.
Qed.

Lemma validate_next_attributes_iff b a :
  validate_next_attributes b a = Ok () <->
  job_timestamp b = Some (na_timestamp a) /\ na_prev_randao a = job_randao b /\
  na_parent_beacon_block_root a = Some (job_beacon_root b) /\ na_gas_limit a = max_gas (be_profile b) /\
  na_suggested_fee_recipient a = be_fee_collector b /\ default [] (na_withdrawals a) = [] /\
  na_slot_number a = None /\ input_commitment (be_input b) = Ok (na_extra_data a).
Proof.
  unfold validate_next_attributes, job_commitment. split.
  - intros Hv. inv_ok Hv. apply map_err_ok_inv in Hok0. apply ok_or_inv in Hok.
    rewrite !negb_false_iff, !bool_decide_eq_true, !Z.eqb_eq in *. subst.
    split_and!; try done; [destruct (na_withdrawals a) as [[]|]|destruct (na_slot_number a)]; done.
  - intros (Ht & Hr & Hb & Hg & Hf & Hw & Hs & Hc). rewrite Ht, Hr, Hb, Hg, Hf, Hs, Hc. cbn.
    rewrite !Z.eqb_refl, !bool_decide_true by done. cbn. by destruct (na_withdrawals a) as [[]|].
Qed.

(** The fields of the attributes that a block's header repeats. *)
Definition carries (a : NextBlockEnvAttributes) (h : BlockHeader) : Prop :=
  bh_timestamp h = na_timestamp a /\ bh_mix_hash h = na_prev_randao a /\
  bh_parent_beacon_block_root h = na_parent_beacon_block_root a /\ bh_gas_limit h = na_gas_limit a /\
  bh_beneficiary h = na_suggested_fee_recipient a /\ bh_extra_data h = na_extra_data a.

(** C23: build and import agree on a job's header.  The import path accepts a header exactly when its
    parent, number, extra data, timestamp, randomness, beacon root, base fee, gas limit and
    beneficiary are the ones the job determines.  And for attributes and a parent the build path
    accepts, these are exactly the headers that repeat the attributes on that parent, with the next
    number and the base fee of the build environment. *)
Theorem build_import_agree b parent a h :
  (context_for_block b h = Ok () <-> job_header b h) /\
  (validate_payload_job b parent a = Ok () ->
   (context_for_block b h = Ok () <->
    carries a h /\ bh_parent_hash h = sh_hash parent /\
    checked_add (be_parent_number b) 1 = Some (bh_number h) /\
    exists fee, next_evm_env true b (sh_header parent) a = Ok (fee, bh_gas_limit h) /\
      bh_base_fee_per_gas h = Some fee)).
Proof.
  split; [apply context_for_block_iff|]. intros Hv. rewrite context_for_block_iff.
  unfold validate_payload_job in Hv. inv_ok Hv. destruct a0.
  pose proof Hv as Ha. apply validate_next_attributes_iff in Ha as (Ht & Hr & Hb & Hg & Hf & Hw & Hs & Hc).
  pose proof Hok as Hp. apply validate_parent_iff in Hp as (Hh & He & Hi & Ho).
  assert (Hsealed : {| sh_header := sh_header parent; sh_hash := hash_slow (sh_header parent) |} = parent)
    by (destruct parent; cbn in *; congruence).
  unfold next_evm_env. rewrite Hsealed, Hok, Hv. cbn [rbind negb].
  unfold job_header, carries, job_base_fee. rewrite Ht, Hr, Hb, Hg, Hf, Hc, He. split.
  - intros (? & ? & ? & [= ->] & [= ->] & ? & ? & (fee & -> & ?) & -> & ?). split_and!; try done. by exists fee.
  - intros ((-> & -> & -> & _ & -> & ->) & -> & Hn & fee & Henv & Hfee).
    destruct (next_base_fee _) as [f|]; [|done]. cbn in Henv. injection Henv as -> <-.
    split_and!; try done; [congruence|by exists fee].
Qed.

End job_lemmas.

(** ** A concrete job *)

Definition toy_header_hash : HeaderHash := {| hash_slow := fun h => word_of (bh_number h) |}.

Definition no_hook : RecordsHook :=
  {| custody := ZERO20; h_records := 0; record_gas := 0; election := ZERO20; elect_gas := 0 |}.
Definition sample_b1 : B1Job :=
  {| bj_context := sample_context no_hook; bj_update := ascii "update"; bj_records := ascii "records" |}.

Definition sample_token : CompletedParent := Completed {|
  profile := small_profile; parent_hash := word_of 21;
  gas := {| system := 1800000; ordinary := 14000000; header := 15800000 |}; base_fee := 10000000 |}.

Definition sample_parent : SealedHeader := {|
  sh_hash := word_of 21;
  sh_header := {|
    bh_parent_hash := word_of 20; bh_beneficiary := ZERO20; bh_state_root := word_of 65;
    bh_number := 21; bh_gas_limit := 60000000; bh_gas_used := 15800000; bh_timestamp := 1700000000;
    bh_extra_data := []; bh_mix_hash := word_of 61; bh_base_fee_per_gas := Some 10000000;
    bh_blob_gas_used := Some 0; bh_excess_blob_gas := Some 0; bh_parent_beacon_block_root := Some (word_of 62);
    bh_requests_hash := None; bh_block_access_list_hash := None; bh_slot_number := None; bh_ommers_hash := word_of 3; bh_transactions_root := word_of 4; bh_receipts_root := word_of 5;
    bh_logs_bloom := []; bh_difficulty := 0; bh_nonce := 0; bh_withdrawals_root := Some (word_of 6) |} |}.

Definition sample_job : BoundExecutionInput :=
  job (sample_root [z2b 1]) sample_b1 small_profile sample_parent (completed sample_token) ZERO20.

Definition sample_attributes : NextBlockEnvAttributes := {|
  na_timestamp := 1700000001; na_suggested_fee_recipient := ZERO20;
  na_prev_randao := derive_prev_randao (H := toy_crypto) 5 7; na_gas_limit := 60000000;
  na_parent_beacon_block_root := Some (derive_beacon_root (H := toy_crypto) 5 7); na_withdrawals := Some [];
  na_extra_data := toy_hash (sample_encoding [z2b 1]); na_slot_number := None |}.

Definition sample_child : BlockHeader := {|
  bh_parent_hash := word_of 21; bh_beneficiary := ZERO20; bh_state_root := word_of 66;
  bh_number := 22; bh_gas_limit := 60000000; bh_gas_used := 0; bh_timestamp := 1700000001;
  bh_extra_data := toy_hash (sample_encoding [z2b 1]); bh_mix_hash := derive_prev_randao (H := toy_crypto) 5 7;
  bh_base_fee_per_gas := Some 9916667; bh_blob_gas_used := Some 0; bh_excess_blob_gas := Some 0;
  bh_parent_beacon_block_root := Some (derive_beacon_root (H := toy_crypto) 5 7);
  bh_requests_hash := None; bh_block_access_list_hash := None; bh_slot_number := None; bh_ommers_hash := word_of 3; bh_transactions_root := word_of 4; bh_receipts_root := word_of 5;
    bh_logs_bloom := []; bh_difficulty := 0; bh_nonce := 0; bh_withdrawals_root := Some (word_of 6) |}.

Lemma small_profile_typed : profile_typed small_profile.
Proof. unfold profile_typed. simpl. ulia. Qed.

Lemma sample_token_of : token_of (H := toy_header_hash) sample_parent small_profile sample_token.
Proof. split_and!; reflexivity. Qed.

Lemma token_exact_witness :
  exists g, checked_next_base_fee (H0 := toy_header_hash) sample_token sample_parent small_profile = Ok g /\
    base_fee_floor small_profile <= g <= MAX_BASE_FEE.
Proof.
  apply (token_exact (H := toy_header_hash) (for_local_storage sample_token) sample_parent small_profile
    sample_token 0 small_profile_typed); [cbn; ulia|cbn; ulia|apply sample_token_of].
Defined.

Lemma job_bound_witness :
  bind_completed_parent (H := toy_crypto) (H0 := toy_header_hash) (sample_root [z2b 1]) sample_b1 small_profile
    sample_parent sample_token ZERO20 = Ok sample_job.
Proof.
  refine (proj2 (proj1 (job_bound (H := toy_crypto) (H0 := toy_header_hash) (sample_root [z2b 1]) sample_b1
    small_profile sample_parent sample_token (word_of 21) ZERO20 sample_job small_profile_typed _ _)) _);
    [cbn; ulia|cbn; ulia|].
  split_and!; [vm_compute; reflexivity|reflexivity|apply sample_token_of|reflexivity].
Defined.

Lemma build_import_agree_witness :
  context_for_block (H := toy_crypto) sample_job sample_child = Ok () /\ carries sample_attributes sample_child.
Proof.
  assert (Hc : context_for_block (H := toy_crypto) sample_job sample_child = Ok ()) by (vm_compute; reflexivity).
  split; [exact Hc|].
  apply (build_import_agree (H := toy_crypto) (H0 := toy_header_hash) sample_job sample_parent sample_attributes
    sample_child); [vm_compute; reflexivity|exact Hc].
Defined.
