(* ===== verification/BlockExecutor.v ===== *)
(** The block executor: [crates/unicity/execution/src/block_executor.rs].

    The executor wraps the stock Ethereum executor.  Before any transaction it runs the system prefix,
    the registry transition, the stock pre-execution changes and the mandatory hooks, exactly once;
    then it admits ordinary transactions up to the profile's ordinary capacity; and it finishes with
    the header gas of the two kinds of work together.  [build_complete] and [replay_complete] drive it
    and mint the accounting token of the block.

    The stock executor, the consensus checks of [reth] and the block assembler are parameters, with
    the behaviour the code relies on stated as laws. *)
From stdpp Require Import sets.
From S2P Require Import Prelude Crypto Errors BlockAccounting RootInput Evm Hook B1Update RegistryTransition.
From S2P Require Import StoreCodec EthConsensus BlockJob.

Definition MISSING_EXECUTION_INPUT_ERROR : string :=
  "no bound execution input registered for block commitment".

(** ** The stock executor *)

Class EthExecutor `{Evm} `{Primitives} := {
  (** [EthBlockExecutor] with its context. *)
  Inner : Type;
  withdrawals : Inner -> option (list bytes);
  inner_db : Inner -> Db;
  with_db : Inner -> Db -> Inner;
  (** [HookEnv::from_evm]. *)
  hook_env : Inner -> Env;
  cumulative_tx_gas_used : Inner -> Z;
  inner_pre : Inner -> result string Inner;
  tx_signer : Tx -> bytes;
  tx_gas_limit : Tx -> Z;
  tx_blob_gas_used : Tx -> option Z;
  (** The Keccak hash of the encoded transaction. *)
  tx_hash : Tx -> bytes;
  TxOutput : Type;
  tx_gas_used : TxOutput -> Z;
  inner_execute : Inner -> Tx -> result string TxOutput * Inner;
  inner_commit : Inner -> TxOutput -> Inner;
  inner_finish : Inner -> result string BlockResult }.

(** The context is fixed and the ordinary gas counter is a 64-bit integer; pre-execution changes and
    executing without commit do not touch the counter, a commit adds the gas of its transaction and a
    receipt while the sum fits, and the result reports the counter. *)
Class EthExecutorLaws `{EthExecutor} := {
  with_db_db : forall i d, inner_db (with_db i d) = d;
  with_db_rest : forall i d, cumulative_tx_gas_used (with_db i d) = cumulative_tx_gas_used i /\
    withdrawals (with_db i d) = withdrawals i;
  inner_pre_rest : forall i i', inner_pre i = Ok i' ->
    cumulative_tx_gas_used i' = cumulative_tx_gas_used i /\ withdrawals i' = withdrawals i;
  cumulative_typed : forall i, is_u64 (cumulative_tx_gas_used i);
  inner_execute_rest : forall i tx,
    cumulative_tx_gas_used (inner_execute i tx).2 = cumulative_tx_gas_used i /\
    withdrawals (inner_execute i tx).2 = withdrawals i;
  tx_gas_nonneg : forall o, 0 <= tx_gas_used o;
  inner_commit_gas : forall i o, cumulative_tx_gas_used i + tx_gas_used o <= u64_max ->
    cumulative_tx_gas_used (inner_commit i o) = cumulative_tx_gas_used i + tx_gas_used o;
  inner_commit_rest : forall i o, withdrawals (inner_commit i o) = withdrawals i;
  inner_finish_gas : forall i r, inner_finish i = Ok r ->
    br_gas_used r = cumulative_tx_gas_used i /\ last_cumulative (br_receipts r) = cumulative_tx_gas_used i }.

(** ** The executor *)

(** An error carries a text; where the text is that of another error, it stands for it.  [Panic] is
    the panic of the process. *)
Inductive BlockError :=
| Msg (text : string)
| ExecutionMsg (e : ExecutionError)
| AccountingMsg (e : BlockAccountingError)
| ConsensusMsg (e : ConsensusError)
| InvalidTx (hash : bytes) (reason : string)
| TransactionGasLimitMoreThanAvailableBlockGas (transaction_gas_limit block_available_gas : Z)
| Other (text : string)
| Panic.

Definition of_transition (f : TransitionFault) : BlockError :=
  match f with Failed e => ExecutionMsg e | Panicked => Panic end.

Inductive PrefixState :=
| Pending
| Ready (system : Z)
| Poisoned.

Section executor.
Context `{Crypto} `{HeaderHash} `{Abi} `{EthExecutor}.

(** [system_gas] is the slot that the executor shares with its configuration. *)
Record Executor := {
  ex_inner : Inner; ex_bound : option BoundExecutionInput; ex_system_gas : option Z; ex_prefix : PrefixState }.

Definition new_executor (i : Inner) (b : option BoundExecutionInput) : Executor :=
  {| ex_inner := i; ex_bound := b; ex_system_gas := None; ex_prefix := Pending |}.

Definition bound (e : Executor) : result BlockError BoundExecutionInput :=
  ok_or (ex_bound e) (Msg MISSING_EXECUTION_INPUT_ERROR).

Definition with_prefix (e : Executor) (i : Inner) (s : PrefixState) : Executor :=
  {| ex_inner := i; ex_bound := ex_bound e; ex_system_gas := ex_system_gas e; ex_prefix := s |}.

(** The system prefix: its gross gas and the state it leaves. *)
Definition run_prefix (b : BoundExecutionInput) (i : Inner) : result BlockError (Z * Inner) :=
  let p := be_profile b in
  let? _ := map_err AccountingMsg (validate p) in
  let? (r, db) := map_err of_transition (execute_registry_transition_on_db (be_input b)
    {| ui_bytes := bj_update (be_b1 b); ui_records := bj_records (be_b1 b);
       ui_parent_number := be_parent_number b |}
    (inner_db i)
    {| ec_system_gas_limit := system_gas p; ec_b1 := bj_context (be_b1 b) |}) in
  let? i := map_err Other (inner_pre (with_db i db)) in
  let system := er_total_gas_spent r in
  let hook := bc_hook (bj_context (be_b1 b)) in
  if hook_enabled hook then
    let? remaining := ok_or (checked_sub (system_gas p) system)
                        (Msg "system gas exhausted before the records hook") in
    let? origin := map_err ExecutionMsg (origin_identity (be_input b)) in
    let? (outcome, db) := map_err ExecutionMsg (run_hooks (inner_db i) hook (hook_env i) origin remaining) in
    let? system := ok_or (checked_add system (ho_gas_spent outcome))
                     (Msg "system gas overflow after the records hook") in
    Ok (system, with_db i db)
  else Ok (system, i).

(** An error after the first step leaves the executor poisoned; its state is to be discarded. *)
Definition apply_pre_execution_changes (e : Executor) : result BlockError () * Executor :=
  if match withdrawals (ex_inner e) with Some (_ :: _) => true | _ => false end
  then (Err (Msg "withdrawals are unsupported"), e) else
  let poisoned := with_prefix e (ex_inner e) Poisoned in
  match ex_prefix e with
  | Pending =>
      match (let? b := bound e in run_prefix b (ex_inner e)) with
      | Err err => (Err err, poisoned)
      | Ok (system, i) => (Ok (), with_prefix e i (Ready system))
      end
  | _ => (Err (Msg "pre-execution changes already applied"), poisoned)
  end.

(** What is left of the capacity for [tx]: the checks made before the transaction runs. *)
Definition ordinary_available (e : Executor) (tx : Tx) : result BlockError Z :=
  match ex_prefix e with
  | Ready _ =>
      let? b := bound e in
      if match ri_transitions (be_input b) with [] => false | _ => true end
      then Err (Msg "epoch acknowledgement block contains user transactions") else
      if bool_decide (tx_signer tx = SYSTEM_CALLER)
      then Err (InvalidTx (tx_hash tx) "reserved sender") else
      if negb (default 0 (tx_blob_gas_used tx) =? 0)
      then Err (InvalidTx (tx_hash tx) "blob transactions are unsupported") else
      let? capacity := map_err AccountingMsg (ordinary_capacity (be_profile b)) in
      let? available := ok_or (checked_sub capacity (cumulative_tx_gas_used (ex_inner e)))
                          (Msg "ordinary gas capacity exceeded") in
      if available <? tx_gas_limit tx
      then Err (TransactionGasLimitMoreThanAvailableBlockGas (tx_gas_limit tx) available) else Ok available
  | _ => Err (Msg "ordinary transaction before system prefix")
  end.

(** The result, which the caller holds until it commits it, and the executor after the call. *)
Definition execute_transaction_without_commit (e : Executor) (tx : Tx) : result BlockError TxOutput * Executor :=
  match ordinary_available e tx with
  | Err err => (Err err, e)
  | Ok available =>
      let '(r, i) := inner_execute (ex_inner e) tx in
      ((let? o := map_err Other r in
        if available <? tx_gas_used o then Err (Msg "ordinary gas capacity exceeded") else Ok o),
       with_prefix e i (ex_prefix e))
  end.

Definition commit_transaction (e : Executor) (o : TxOutput) : Executor :=
  with_prefix e (inner_commit (ex_inner e) o) (ex_prefix e).

(** [BlockExecutor::execute_transaction]: execute, then commit. *)
Definition execute_transaction (e : Executor) (tx : Tx) : result BlockError Executor :=
  let '(r, e) := execute_transaction_without_commit e tx in
  let? o := r in
  Ok (commit_transaction e o).

(** The result, and the slot after the call. *)
Definition finish (e : Executor) : result BlockError BlockResult * option Z :=
  match ex_prefix e with
  | Ready system =>
      ((let? b := bound e in
        let? r := map_err Other (inner_finish (ex_inner e)) in
        if negb (br_blob_gas_used r =? 0) then Err (Msg "blob gas is unsupported") else
        let? g := map_err AccountingMsg (derive (be_profile b) system (br_gas_used r)) in
        Ok {| br_gas_used := header g; br_blob_gas_used := br_blob_gas_used r; br_receipts := br_receipts r;
              br_requests := br_requests r |}),
       Some system)
  | _ => (Err (Msg "pre-execution changes not applied"), ex_system_gas e)
  end.

(** The token of a block whose executor left [slot]. *)
Definition completed_parent_for (b : BoundExecutionInput) (slot : option Z) (sealed : SealedHeader)
    : result BlockAccountingError CompletedParent :=
  let? system := ok_or slot ParentGasMismatch in
  let? fee := ok_or (bh_base_fee_per_gas (sh_header sealed)) InvalidParentBaseFee in
  let? o := reconcile (be_profile b) (sh_hash sealed) (bh_gas_used (sh_header sealed)) system fee in
  Ok (Completed o).
End executor.

(** ** Driving the executor *)

Section chain.
Context `{EthExecutor}.

(** The chain's specification, the clock, the environments, the state and the assembler. *)
Class Chain := {
  chain_spec : ChainSpec;
  now : Z;
  (** The parent state a job runs on. *)
  StateView : Type;
  (** Whether the environment of a header, or of the block after one, is Cancun. *)
  cancun : BlockHeader -> bool;
  cancun_next : BlockHeader -> NextBlockEnvAttributes -> bool;
  (** The stock executor of the next block, and of a given block. *)
  next_inner : StateView -> SealedHeader -> NextBlockEnvAttributes -> Z * Z -> Inner;
  block_inner : StateView -> Block -> Inner;
  post_state_root : StateView -> Inner -> result string bytes;
  (** Finishing a build: state root and assembly. *)
  assemble : StateView -> SealedHeader -> NextBlockEnvAttributes -> Z * Z -> Inner -> BlockResult ->
    list Tx -> result string Block }.
End chain.

Class ChainLaws `{EthExecutor} `{!Chain} := {
  next_inner_gas : forall s parent a env, cumulative_tx_gas_used (next_inner s parent a env) = 0;
  block_inner_gas : forall s blk, cumulative_tx_gas_used (block_inner s blk) = 0;
  (** The assembler copies the attributes, the environment and the gas, and numbers the block. *)
  assemble_fields : forall s parent a env i r txs blk, assemble s parent a env i r txs = Ok blk ->
    let h := sh_header (bk_header blk) in
    carries a h /\ bh_parent_hash h = sh_hash parent /\ bh_number h = bh_number (sh_header parent) + 1 /\
    bh_gas_used h = br_gas_used r /\ bh_base_fee_per_gas h = Some env.1 /\ bk_transactions blk = txs }.

Section jobs.
Context `{Crypto} `{HeaderHash} `{Abi} `{ConsensusConstants} `{EthExecutor} `{!Chain}.

Fixpoint execute_transactions (e : Executor) (txs : list Tx) : result BlockError Executor :=
  match txs with
  | [] => Ok e
  | tx :: txs => let? e := execute_transaction e tx in execute_transactions e txs
  end.

(** Pre-execution changes, the transactions, and the end of the block; the slot afterwards. *)
Definition execute_block (b : BoundExecutionInput) (i : Inner) (txs : list Tx)
    : result BlockError (BlockResult * Inner) * option Z :=
  match apply_pre_execution_changes (new_executor i (Some b)) with
  | (Err err, _) => (Err err, None)
  | (Ok _, e) =>
      match execute_transactions e txs with
      | Err err => (Err err, None)
      | Ok e =>
          let '(r, slot) := finish e in
          ((let? r := r in Ok (r, ex_inner e)), slot)
      end
  end.

Definition validate_fixed_block (b : BoundExecutionInput) (blk : Block) : result BlockError () :=
  let sealed := bk_header blk in
  let h := sh_header sealed in
  if acknowledges b (bk_transactions blk)
  then Err (Msg "epoch acknowledgement block contains user transactions") else
  if negb (bool_decide (hash_slow h = sh_hash sealed)) then Err (Msg "sealed block hash mismatch") else
  let? _ := map_err ConsensusMsg (validate_header (new_consensus chain_spec) now
    {| sh_header := h; sh_hash := sh_hash sealed |}) in
  if negb (bool_decide (bh_blob_gas_used h = Some 0)) || negb (bool_decide (bh_excess_blob_gas h = Some 0))
     || (if bh_requests_hash h is Some _ then true else false)
     || (if bh_block_access_list_hash h is Some _ then true else false)
     || (if bh_slot_number h is Some _ then true else false)
  then Err (Msg "header is outside the fixed Cancun profile") else
  map_err ConsensusMsg (validate_block_pre_execution blk chain_spec).

(** The accounting of a finished block: its receipts' gas is ordinary, the rest is the system's. *)
Definition mint (b : BoundExecutionInput) (sealed : SealedHeader) (r : BlockResult)
    : result BlockError CompletedParent :=
  let ordinary := last_cumulative (br_receipts r) in
  let? system := ok_or (checked_sub (br_gas_used r) ordinary) (Msg "gross gas below ordinary receipt gas") in
  let? fee := ok_or (bh_base_fee_per_gas (sh_header sealed)) (Msg "base fee missing") in
  let? accounting := map_err AccountingMsg
    (reconcile (be_profile b) (sh_hash sealed) (br_gas_used r) system fee) in
  Ok (Completed accounting).

(** [config.builder_for_next_block]: the environment's checks, then the context's. *)
Definition builder_for_next_block (b : BoundExecutionInput) (parent : SealedHeader)
    (a : NextBlockEnvAttributes) : result BlockError (Z * Z) :=
  let? env := map_err Other (next_evm_env (cancun_next (sh_header parent) a) b (sh_header parent) a) in
  let? _ := map_err Other (validate_payload_job b parent a) in
  Ok env.

Definition build_complete (b : BoundExecutionInput) (s : StateView) (parent : SealedHeader)
    (a : NextBlockEnvAttributes) (txs : list Tx)
    : result BlockError (Block * BlockResult * CompletedParent) * option Z :=
  if acknowledges b txs
  then (Err (Msg "epoch acknowledgement block contains user transactions"), None) else
  match builder_for_next_block b parent a with
  | Err err => (Err err, None)
  | Ok env =>
      let '(r, slot) := execute_block b (next_inner s parent a env) txs in
      ((let? (r, i) := r in
        let? blk := map_err Other (assemble s parent a env i r txs) in
        let? _ := validate_fixed_block b blk in
        let? token := mint b (bk_header blk) r in
        Ok (blk, r, token)), slot)
  end.

(** The executor of an existing block. *)
Definition execute_existing (b : BoundExecutionInput) (s : StateView) (blk : Block)
    : result BlockError (BlockResult * Inner) * option Z :=
  let h := sh_header (bk_header blk) in
  if negb (cancun h) then (Err (Other "only the fixed Cancun profile is supported"), None) else
  match context_for_block b h with
  | Err err => (Err (Other err), None)
  | Ok _ => execute_block b (block_inner s blk) (bk_transactions blk)
  end.

Definition replay_complete (b : BoundExecutionInput) (s : StateView) (blk : Block)
    : result BlockError (BlockResult * CompletedParent) * option Z :=
  match validate_fixed_block b blk with
  | Err err => (Err err, None)
  | Ok _ =>
      let '(r, slot) := execute_existing b s blk in
      ((let? (r, i) := r in
        let? _ := map_err ConsensusMsg (validate_block_post_execution blk chain_spec r None None) in
        let? root := map_err Other (post_state_root s i) in
        if negb (bool_decide (root = bh_state_root (sh_header (bk_header blk))))
        then Err (Msg "post-state root mismatch") else
        let? token := mint b (bk_header blk) r in
        Ok (r, token)), slot)
  end.
End jobs.

(** ** No panic *)

Section calm.
Context `{Crypto} `{HeaderHash} `{Evm} `{!Abi} `{!ConsensusConstants} `{!Primitives} `{!EthExecutor} `{!Chain}.

Definition calm {A} (r : result BlockError A) : Prop := r <> Err Panic.

Lemma calm_bind {A B} (c : result BlockError A) (k : A -> result BlockError B) :
  calm c -> (forall a, calm (k a)) -> calm (rbind c k).
Proof. unfold calm. destruct c; cbn; [auto|congruence]. Qed.
Lemma calm_map_err {E A} (f : E -> BlockError) (r : result E A) : (forall e, f e <> Panic) -> calm (map_err f r).
Proof. unfold calm. destruct r; cbn; congruence. Qed.
Lemma calm_ok_or {A} (o : option A) e : e <> Panic -> calm (ok_or o e).
Proof. unfold calm. destruct o; cbn; congruence. Qed.
Lemma calm_if {A} (b : bool) (r r' : result BlockError A) : calm r -> calm r' -> calm (if b then r else r').
Proof. by destruct b. Qed.

(** Walks down a computation whose errors are not panics. *)
Ltac calm_go := repeat first
  [ progress intros | done | apply calm_if | apply calm_map_err; by intros [] | apply calm_map_err; done
  | apply calm_ok_or; done | apply calm_bind | match goal with |- calm (match ?x with _ => _ end) => destruct x end ].

Lemma run_prefix_calm b i : calm (run_prefix b i).
Proof.
  unfold run_prefix. cbv zeta. apply calm_bind; [calm_go|]. intros _. apply calm_bind; [|calm_go].
  pose proof (on_db_calm (be_input b) {| ui_bytes := bj_update (be_b1 b); ui_records := bj_records (be_b1 b);
    ui_parent_number := be_parent_number b |} (inner_db i) {| ec_system_gas_limit := system_gas (be_profile b);
    ec_b1 := bj_context (be_b1 b) |}) as Hc.
  unfold calm. by destruct (execute_registry_transition_on_db _ _ _ _) as [|[]].
Qed.

Lemma execute_calm e tx : calm (execute_transaction_without_commit e tx).1.
Proof.
  unfold execute_transaction_without_commit.
  assert (Ha : calm (ordinary_available e tx)) by (unfold ordinary_available, bound; calm_go).
  destruct (ordinary_available e tx); [|unfold calm in *; cbn; congruence].
  destruct (inner_execute _ _). cbn [fst]. calm_go.
Qed.

Lemma execute_transactions_calm txs : forall e, calm (execute_transactions e txs).
Proof.
  induction txs as [|tx txs IH]; intros e; [done|]. cbn [execute_transactions]. apply calm_bind; [|done].
  unfold execute_transaction. pose proof (execute_calm e tx) as Hc.
  destruct (execute_transaction_without_commit e tx) as [r e']. by apply calm_bind.
Qed.

Lemma execute_block_calm b i txs : calm (execute_block b i txs).1.
Proof.
  unfold execute_block.
  assert (Hp : calm (apply_pre_execution_changes (new_executor i (Some b))).1).
  { unfold apply_pre_execution_changes. destruct (match withdrawals _ with Some _ => _ | None => _ end); [done|]. cbn.
    pose proof (run_prefix_calm b i) as Hr. destruct (run_prefix b i) as [[]|]; [done|]. unfold calm in *. cbn. congruence. }
  destruct (apply_pre_execution_changes _) as [[[]|err] e]; [|unfold calm in *; cbn in *; congruence].
  pose proof (execute_transactions_calm txs e) as Hx. destruct (execute_transactions e txs) as [e1|err]; [|unfold calm in *; cbn; congruence].
  assert (Hf : calm (finish e1).1) by (unfold finish, bound; destruct (ex_prefix e1); cbn [fst]; calm_go).
  destruct (finish e1) as [r slot]. cbn [fst] in *. by apply calm_bind.
Qed.

Lemma replay_calm b s blk : calm (replay_complete b s blk).1.
Proof.
  unfold replay_complete. assert (Hv : calm (validate_fixed_block b blk)) by (unfold validate_fixed_block; calm_go).
  destruct (validate_fixed_block b blk); [|unfold calm in *; cbn; congruence].
  assert (He : calm (execute_existing b s blk).1).
  { unfold execute_existing. destruct (negb _); [done|]. destruct (context_for_block _ _); [apply execute_block_calm|done]. }
  destruct (execute_existing b s blk) as [r slot]. cbn [fst] in *. apply calm_bind; [done|]. unfold mint. calm_go.
Qed.
End calm.

(** ** The calls of a block *)

Section executor_lemmas.
Context `{Crypto} `{HeaderHash} `{EvmLaws} `{!Abi} `{!Primitives} `{!EthExecutor} `{!EthExecutorLaws}.

(** The values of a job have their Rust types. *)
Definition bound_typed (b : BoundExecutionInput) : Prop :=
  profile_typed (be_profile b) /\ 0 <= h_records (bc_hook (bj_context (be_b1 b))).

Lemma run_prefix_ok b i system i' :
  bound_typed b -> run_prefix b i = Ok (system, i') ->
  profile_valid (be_profile b) /\ 0 <= system <= system_gas (be_profile b) /\
  cumulative_tx_gas_used i' = cumulative_tx_gas_used i /\ withdrawals i' = withdrawals i.
Proof.
  intros [Hp Hh] Hr. unfold run_prefix in Hr. cbv zeta in Hr.
  apply rbind_ok_inv in Hr as (p & Hok & Hr). apply rbind_ok_inv in Hr as ([r db] & Hok0 & Hr).
  apply rbind_ok_inv in Hr as (i1 & Hok1 & Hr).
  apply map_err_ok_inv in Hok, Hok0, Hok1. apply validate_ok in Hok as [_ Hv]; [|done].
  pose proof Hp as (_ & Hs & _). apply on_db_gas in Hok0; [|done]. cbn [ec_system_gas_limit] in Hok0.
  apply inner_pre_rest in Hok1 as [Hg Hw]. destruct (with_db_rest i db) as [Hg' Hw']. rewrite Hg' in Hg.
  rewrite Hw' in Hw. split; [done|]. destruct (hook_enabled _) eqn:Hen; [|injection Hr as <- <-; done].
  inv_ok Hr. apply ok_or_inv in Hok, Hok3. apply map_err_ok_inv in Hok1, Hok2.
  apply checked_sub_some in Hok as [-> Hle]. unfold checked_add in Hok3. case_match; [|done].
  injection Hok3 as <-. apply run_hooks_done in Hok2 as (db1 & _ & _ & Hb & _); [|done|done|lia].
  subst. destruct (with_db_rest i1 d) as [-> ->]. split; [lia|done].
Qed.

(** The calls a caller makes before it finishes a block.  Executing a transaction and committing its
    result are calls of their own; a caller may hold several results before it commits any, in any
    order, and may drop some. *)
Inductive Call := Pre | Execute (tx : Tx) | Commit (held : nat).

Record Driver := { dr_executor : Executor; dr_held : list TxOutput }.

Definition new_driver (b : BoundExecutionInput) (i : Inner) : Driver :=
  {| dr_executor := new_executor i (Some b); dr_held := [] |}.

Definition call (d : Driver) (c : Call) : Driver :=
  match c with
  | Pre => {| dr_executor := (apply_pre_execution_changes (dr_executor d)).2; dr_held := dr_held d |}
  | Execute tx =>
      let '(r, e) := execute_transaction_without_commit (dr_executor d) tx in
      {| dr_executor := e; dr_held := match r with Ok o => dr_held d ++ [o] | Err _ => dr_held d end |}
  | Commit n =>
      match dr_held d !! n with
      | Some o => {| dr_executor := commit_transaction (dr_executor d) o; dr_held := delete n (dr_held d) |}
      | None => d
      end
  end.

(** The calls of a caller that executes a transaction only when it holds no result. *)
Fixpoint sequential (d : Driver) (cs : list Call) : Prop :=
  match cs with
  | [] => True
  | c :: cs => match c with Execute _ => dr_held d = [] | _ => True end /\ sequential (call d c) cs
  end.

Definition cumulative (e : Executor) : Z := cumulative_tx_gas_used (ex_inner e).
Definition capacity (b : BoundExecutionInput) : Z := max_gas (be_profile b) - system_gas (be_profile b).

(** What holds of an executor of the job [b], and of a driver's, at any time. *)
Definition executor_ok (b : BoundExecutionInput) (e : Executor) : Prop :=
  ex_bound e = Some b /\
  match ex_prefix e with
  | Pending => cumulative e = 0
  | Ready system =>
      profile_valid (be_profile b) /\ 0 <= system <= system_gas (be_profile b) /\
      (ri_transitions (be_input b) <> [] -> cumulative e = 0)
  | Poisoned => True
  end.
Definition driver_ok (b : BoundExecutionInput) (d : Driver) : Prop :=
  executor_ok b (dr_executor d) /\
  match ex_prefix (dr_executor d) with
  | Pending => dr_held d = []
  | Ready _ => ri_transitions (be_input b) <> [] -> dr_held d = []
  | Poisoned => True
  end.

(** The gas committed and the gas held fit the capacity. *)
Definition fits (b : BoundExecutionInput) (d : Driver) : Prop :=
  match ex_prefix (dr_executor d) with
  | Ready _ => cumulative (dr_executor d) + sum_z (map tx_gas_used (dr_held d)) <= capacity b
  | _ => True
  end.

Lemma execute_rest e tx :
  let e' := (execute_transaction_without_commit e tx).2 in
  ex_bound e' = ex_bound e /\ ex_prefix e' = ex_prefix e /\ cumulative e' = cumulative e /\
  withdrawals (ex_inner e') = withdrawals (ex_inner e).
Proof.
  unfold execute_transaction_without_commit. destruct (ordinary_available e tx); [|done].
  pose proof (inner_execute_rest (ex_inner e) tx) as [Hg Hw]. unfold cumulative. by destruct (inner_execute _ _).
Qed.

(** A result is handed out only by a ready executor, outside an acknowledgement block, and within
    what the gas committed so far leaves of the capacity. *)
Lemma execute_result e tx o b :
  (execute_transaction_without_commit e tx).1 = Ok o -> ex_bound e = Some b -> profile_typed (be_profile b) ->
  profile_valid (be_profile b) ->
  (exists system, ex_prefix e = Ready system) /\ ri_transitions (be_input b) = [] /\
  cumulative e + tx_gas_used o <= capacity b.
Proof.
  unfold execute_transaction_without_commit. destruct (ordinary_available e tx) as [available|] eqn:Ha; [|done].
  destruct (inner_execute _ _) as [x i]. cbn [fst]. intros (o' & _ & Ho)%rbind_ok_inv Hb Ht Hv.
  destruct (Z.ltb_spec available (tx_gas_used o')) as [|Hle]; [done|]. injection Ho as ->.
  unfold ordinary_available, bound in Ha. destruct (ex_prefix e) as [|system|]; [done| |done].
  rewrite Hb in Ha. cbn [ok_or rbind] in Ha. destruct (ri_transitions (be_input b)) eqn:Htr; [|done]. inv_ok Ha.
  rewrite (proj1 (valid_capacity _ Ht Hv)) in Hok. injection Hok as <-.
  apply ok_or_inv in Hok0. apply checked_sub_some in Hok0 as [-> Hs]. unfold cumulative, capacity.
  split; [by exists system|]. split; [done|]. subst. lia.
Qed.

Lemma not_ready_execute e tx :
  ex_prefix e = Pending \/ ex_prefix e = Poisoned -> exists err, execute_transaction_without_commit e tx = (Err err, e).
Proof.
  intros Hp. unfold execute_transaction_without_commit, ordinary_available. destruct Hp as [-> | ->]; by eexists.
Qed.

Lemma pre_ok b e : bound_typed b -> executor_ok b e -> executor_ok b (apply_pre_execution_changes e).2.
Proof.
  intros Ht [Hb Hp]. unfold apply_pre_execution_changes.
  destruct (match withdrawals _ with Some _ => _ | None => _ end); [by split|].
  destruct (ex_prefix e) eqn:He; [|by split..]. unfold bound. rewrite Hb. cbn [ok_or rbind].
  destruct (run_prefix b (ex_inner e)) as [[system i]|] eqn:Hr; [|by split].
  apply run_prefix_ok in Hr as (Hv & Hs & Hg & _); [|done]. split; [done|]. unfold cumulative. cbn. by rewrite Hg.
Qed.

(** From where a pre-execution call gets to where. *)
Lemma pre_prefix e :
  let e' := (apply_pre_execution_changes e).2 in
  e' = e \/ ex_prefix e' = Poisoned \/
  ex_prefix e = Pending /\ default [] (withdrawals (ex_inner e)) = [] /\
    exists b system i, ex_bound e = Some b /\ run_prefix b (ex_inner e) = Ok (system, i) /\ e' = with_prefix e i (Ready system).
Proof.
  unfold apply_pre_execution_changes. destruct (match withdrawals _ with Some _ => _ | None => _ end) eqn:Hw; [by left|].
  destruct (ex_prefix e) eqn:He; [|by right; left..]. unfold bound. destruct (ex_bound e) as [b|] eqn:Hb; [|by right; left].
  cbn [ok_or rbind]. destruct (run_prefix b (ex_inner e)) as [[system i]|] eqn:Hr; [|by right; left].
  right. right. split; [done|]. split; [by destruct (withdrawals (ex_inner e)) as [[]|]|]. by exists b, system, i.
Qed.

Lemma commit_rest e o :
  ex_bound (commit_transaction e o) = ex_bound e /\ ex_prefix (commit_transaction e o) = ex_prefix e /\
  withdrawals (ex_inner (commit_transaction e o)) = withdrawals (ex_inner e).
Proof. split_and!; [done|done|apply inner_commit_rest]. Qed.

Lemma not_ready_call d tx :
  ex_prefix (dr_executor d) = Pending \/ ex_prefix (dr_executor d) = Poisoned -> call d (Execute tx) = d.
Proof. intros [err He]%(not_ready_execute _ tx). cbn [call]. rewrite He. by destruct d. Qed.

Lemma call_ok b d c : bound_typed b -> driver_ok b d -> driver_ok b (call d c).
Proof.
  intros Ht [He Hh]. destruct c as [|tx|n].
  - split; [by apply pre_ok|]. cbn. destruct (pre_prefix (dr_executor d)) as [-> | [-> | (Hp & _ & ? & ? & ? & _ & _ & ->)]]; try done.
    cbn. by rewrite Hp in Hh.
  - destruct (ex_prefix (dr_executor d)) as [|system|] eqn:Hp.
    1,3: rewrite not_ready_call by auto; split; by rewrite ?Hp.
    destruct He as [Hb He]. rewrite Hp in He. destruct He as (Hv & Hs & Hack).
    cbn [call]. pose proof (execute_rest (dr_executor d) tx) as (Eb & Ep & Eg & _). cbv zeta in *.
    pose proof (fun o Ho => execute_result (dr_executor d) tx o b Ho Hb (proj1 Ht) Hv) as Hres.
    destruct (execute_transaction_without_commit (dr_executor d) tx) as [r e']. cbn [fst snd] in *.
    split; cbn; [split; [congruence|]|]; rewrite Ep, Hp; [by rewrite Eg|].
    intros Htr. destruct r as [o|]; [|by apply Hh]. by destruct (Hres o eq_refl) as (_ & ? & _).
  - cbn [call]. destruct (dr_held d !! n) as [o|] eqn:Ho; [|by split].
    destruct He as [Hb He]. unfold driver_ok, executor_ok. cbn [dr_executor dr_held].
    destruct (commit_rest (dr_executor d) o) as (-> & -> & _).
    destruct (ex_prefix (dr_executor d)); [by rewrite Hh in Ho| |done]. destruct He as (Hv & Hs & _).
    assert (Htr : ri_transitions (be_input b) <> [] -> False) by (intros Htr; by rewrite Hh in Ho).
    split; [|by intros ?%Htr]. split_and!; (done || apply Hs || by intros ?%Htr).
Qed.

Lemma sum_z_delete l n x : l !! n = Some x -> sum_z (map tx_gas_used l) = tx_gas_used x + sum_z (map tx_gas_used (delete n l)).
Proof.
  revert n. induction l as [|y l IH]; intros [|n] Hn; try done; cbn [map] in *; rewrite sum_z_cons.
  - by injection Hn as ->.
  - cbn in Hn. change (delete (S n) (y :: l)) with (y :: delete n l). cbn [map]. rewrite sum_z_cons. rewrite (IH n) by done. lia.
Qed.

Lemma held_nonneg l : 0 <= sum_z (map tx_gas_used l).
Proof. induction l as [|o l IH]; [done|]. cbn [map]. rewrite sum_z_cons. pose proof (tx_gas_nonneg o). lia. Qed.

Lemma call_fits b d c :
  bound_typed b -> driver_ok b d -> fits b d -> match c with Execute _ => dr_held d = [] | _ => True end -> fits b (call d c).
Proof.
  intros Ht [[Hb He] Hh] Hf Hseq. unfold fits in *. destruct c as [|tx|n].
  - cbn. destruct (pre_prefix (dr_executor d)) as [-> | [-> | (Hp & _ & b' & system & i & Hb' & Hr & ->)]]; try done.
    rewrite Hb in Hb'. injection Hb' as <-. cbn. rewrite Hp in Hh, He. rewrite Hh. unfold cumulative in *. cbn.
    apply run_prefix_ok in Hr as (Hv & _ & -> & _); [|done]. rewrite He. pose proof Hv as (? & _). unfold capacity. lia.
  - destruct (ex_prefix (dr_executor d)) as [|system|] eqn:Hp.
    1,3: rewrite not_ready_call by auto; by rewrite Hp.
    destruct He as (Hv & _). cbn [call]. pose proof (execute_rest (dr_executor d) tx) as (Eb & Ep & Eg & _). cbv zeta in *.
    pose proof (fun o Ho => execute_result (dr_executor d) tx o b Ho Hb (proj1 Ht) Hv) as Hres.
    destruct (execute_transaction_without_commit (dr_executor d) tx) as [r e']. cbn in *.
    rewrite Ep, Eg, Hp.
    destruct r as [o|]; rewrite Hseq in Hf |- *; cbn in *; [|done]. destruct (Hres o eq_refl) as (_ & _ & ?). lia.
  - cbn [call]. destruct (dr_held d !! n) as [o|] eqn:Ho; [|done]. cbn [dr_executor dr_held].
    destruct (commit_rest (dr_executor d) o) as (_ & -> & _). destruct (ex_prefix (dr_executor d)); try done.
    rewrite (sum_z_delete _ _ _ Ho) in Hf. unfold cumulative in *. cbn. pose proof (held_nonneg (delete n (dr_held d))).
    pose proof (proj1 Ht) as (Hm & Hsys & _). unfold capacity in *. rewrite inner_commit_gas by ulia. lia.
Qed.

(** When the prefix ran: once, and before every transaction. *)
Definition ran_once (b : BoundExecutionInput) (i : Inner) (cs : list Call) (e : Executor) : Prop :=
  match ex_prefix e with
  | Pending => ex_inner e = i /\ (default [] (withdrawals i) = [] -> Pre ∉ cs)
  | Ready system =>
      default [] (withdrawals (ex_inner e)) = [] /\
      exists before after i1, cs = before ++ Pre :: after /\ (Pre ∉ before) /\ (Pre ∉ after) /\
        run_prefix b i = Ok (system, i1)
  | Poisoned => True
  end.

Lemma withdrawals_guard (o : option (list bytes)) :
  match o with Some (_ :: _) => true | _ => false end = false <-> default [] o = [].
Proof. by destruct o as [[]|]. Qed.

Lemma snoc_other c cs : c <> Pre -> Pre ∉ cs -> Pre ∉ cs ++ [c].
Proof. intros Hn Hc [?|?%list_elem_of_singleton]%elem_of_app; congruence. Qed.

(** A call other than the pre-execution one keeps what [ran_once] says. *)
Lemma ran_once_other b i cs e e' c :
  c <> Pre -> ran_once b i cs e -> ex_prefix e' = ex_prefix e -> (ex_prefix e = Pending -> ex_inner e' = ex_inner e) ->
  withdrawals (ex_inner e') = withdrawals (ex_inner e) -> ran_once b i (cs ++ [c]) e'.
Proof.
  unfold ran_once. intros Hc Hr -> Hi ->. destruct (ex_prefix e) as [|system|]; [..|done].
  - destruct Hr as [<- Hp]. split; [by apply Hi|]. intros Hw. apply snoc_other; auto.
  - destruct Hr as (Hw & before & after & i1 & -> & Hb & Ha & Hrun). split; [done|].
    exists before, (after ++ [c]), i1. split_and!; try done; [by rewrite <- app_assoc|by apply snoc_other].
Qed.

Lemma pre_ran_once b i cs e :
  bound_typed b -> ex_bound e = Some b -> ran_once b i cs e -> ran_once b i (cs ++ [Pre]) (apply_pre_execution_changes e).2.
Proof.
  intros Ht Hb Hr. unfold ran_once in Hr. unfold apply_pre_execution_changes.
  destruct (match withdrawals (ex_inner e) with Some _ => _ | None => _ end) eqn:Hw.
  - unfold ran_once. cbn [snd]. destruct (ex_prefix e) as [|system|]; [..|done].
    + destruct Hr as [<- _]. split; [done|]. intros Hd%withdrawals_guard. congruence.
    + destruct Hr as [Hd%withdrawals_guard _]. congruence.
  - apply withdrawals_guard in Hw. destruct (ex_prefix e) as [|system|]; [|done..]. destruct Hr as [Hi Hpre].
    unfold bound. rewrite Hb, Hi in *. cbn [ok_or rbind]. destruct (run_prefix b i) as [[system i1]|] eqn:Hrun; [|done].
    unfold ran_once. cbn. apply run_prefix_ok in Hrun as Hrest; [|done]. destruct Hrest as (_ & _ & _ & ->).
    split; [done|]. exists cs, [], i1. split_and!; [done|by apply Hpre|set_solver|done].
Qed.

Lemma call_ran_once b i cs d c :
  bound_typed b -> driver_ok b d -> ran_once b i cs (dr_executor d) -> ran_once b i (cs ++ [c]) (dr_executor (call d c)).
Proof.
  intros Ht [[Hb _] Hh] Hr. destruct c as [|tx|n]; [by apply pre_ran_once|..].
  - pose proof (execute_rest (dr_executor d) tx) as (_ & Ep & _ & Ew). pose proof (not_ready_execute (dr_executor d) tx) as Hn.
    cbn [call]. destruct (execute_transaction_without_commit (dr_executor d) tx) as [r e']. cbn in *.
    apply (ran_once_other _ _ _ (dr_executor d)); try done. intros Hp. destruct Hn as [err [= _ ->]]; auto.
  - cbn [call]. destruct (dr_held d !! n) as [o|] eqn:Ho.
    + cbn. destruct (commit_rest (dr_executor d) o) as (_ & Ep & Ew). apply (ran_once_other _ _ _ (dr_executor d)); try done.
      intros Hp. rewrite Hp in Hh. by rewrite Hh in Ho.
    + by apply (ran_once_other _ _ _ (dr_executor d)).
Qed.

Lemma calls_ok b i cs :
  bound_typed b -> cumulative_tx_gas_used i = 0 ->
  let d := foldl call (new_driver b i) cs in driver_ok b d /\ ran_once b i cs (dr_executor d).
Proof.
  intros Ht Hi. cbv zeta. induction cs as [|c cs [IH1 IH2]] using rev_ind.
  - cbn. split; [by repeat split|]. split; [done|]. set_solver.
  - rewrite foldl_snoc. split; [by apply call_ok | by apply call_ran_once].
Qed.

Lemma calls_fit b d cs : bound_typed b -> driver_ok b d -> fits b d -> sequential d cs -> fits b (foldl call d cs).
Proof.
  intros Ht. revert d. induction cs as [|c cs IH]; intros d Hd Hf; [done|]. intros [Hc Hs]. cbn [foldl].
  apply IH; [by apply call_ok|by apply call_fits|done].
Qed.

(** What [finish] answers on an executor whose prefix is ready. *)
Lemma finish_ready b e system r :
  bound_typed b -> executor_ok b e -> ex_prefix e = Ready system -> inner_finish (ex_inner e) = Ok r -> br_blob_gas_used r = 0 ->
  (finish e).1 =
    if capacity b <? cumulative e then Err (AccountingMsg CapacityExceeded)
    else Ok {| br_gas_used := system + cumulative e; br_blob_gas_used := 0; br_receipts := br_receipts r;
               br_requests := br_requests r |}.
Proof.
  intros Ht [Hb Hok] Hp Hr Hblob. rewrite Hp in Hok. destruct Hok as (Hv & Hs & _). unfold finish. rewrite Hp. cbn [fst].
  unfold bound. rewrite Hb. cbn [ok_or rbind]. rewrite Hr. cbn [map_err rbind]. rewrite Hblob. cbn [Z.eqb negb].
  destruct (inner_finish_gas _ _ Hr) as [-> _]. pose proof (proj1 Ht) as (Hm & Hsys & _).
  pose proof (cumulative_typed (ex_inner e)) as Hc. fold (cumulative e) in *. destruct (Z.ltb_spec (capacity b) (cumulative e)) as [Hlt|Hle].
  - unfold derive. rewrite (proj1 (valid_capacity _ (proj1 Ht) Hv)). cbn [rbind]. fold (capacity b).
    rewrite (proj2 (Z.ltb_lt (capacity b) (cumulative e))), orb_true_r by done. done.
  - rewrite (proj2 (derive_ok (be_profile b) system (cumulative e) _ (proj1 Ht) ltac:(ulia) Hc)
      (conj Hv (conj (proj2 Hs) (conj Hle eq_refl)))). done.
Qed.

(** C15: any sequence of calls on the executor of a job, where executing a transaction and committing
    its result are separate calls and a caller may hold several results.  Throughout, the system work
    is within the reservation and an acknowledgement block has no ordinary work.  The prefix is ready
    only if exactly one pre-execution call was made, and it ran on the initial state, so
    before every transaction.  A ready executor whose stock executor finishes without blob gas answers
    by its capacity alone: the header gas is the system and the committed ordinary gas together,
    within the gas limit, or it is refused as over the capacity; the slot holds the system gas.  A
    caller that holds no result when it executes is never over the capacity; one that executes
    several transactions before it commits them can be, and then gets no block.  Any other executor
    refuses to finish and leaves the slot alone. *)
Theorem executor_calls b i cs :
  bound_typed b -> cumulative_tx_gas_used i = 0 ->
  let d := foldl call (new_driver b i) cs in
  let e := dr_executor d in
  driver_ok b d /\ ran_once b i cs e /\
  match ex_prefix e with
  | Ready system =>
      (finish e).2 = Some system /\
      (forall r, inner_finish (ex_inner e) = Ok r -> br_blob_gas_used r = 0 ->
        (finish e).1 =
          if capacity b <? cumulative e then Err (AccountingMsg CapacityExceeded)
          else Ok {| br_gas_used := system + cumulative e; br_blob_gas_used := 0; br_receipts := br_receipts r;
                     br_requests := br_requests r |}) /\
      (cumulative e <= capacity b -> system + cumulative e <= max_gas (be_profile b)) /\
      (sequential (new_driver b i) cs -> cumulative e + sum_z (map tx_gas_used (dr_held d)) <= capacity b)
  | _ => finish e = (Err (Msg "pre-execution changes not applied"), ex_system_gas e)
  end.
Proof.
  intros Ht Hi d e. destruct (calls_ok b i cs Ht Hi) as [Hok Hran]. fold d in Hok, Hran. fold e in Hran.
  split; [done|]. split; [done|].
  assert (Hfit : sequential (new_driver b i) cs -> fits b d) by (apply calls_fit; [done|by repeat split|done]).
  unfold fits in Hfit. fold e in Hfit. destruct (ex_prefix e) as [|system|] eqn:Hp; [by unfold finish; rewrite Hp| |by unfold finish; rewrite Hp].
  split; [by unfold finish; rewrite Hp|]. split; [intros r Hr Hb; by apply finish_ready; [|apply Hok|..]|]. split; [|done].
  destruct Hok as [[_ He] _]. fold e in He. rewrite Hp in He. destruct He as (_ & Hs & _). unfold capacity. lia.
Qed.
End executor_lemmas.

(** ** Built and replayed blocks *)

Section job_lemmas.
Context `{Crypto} `{HeaderHash} `{EvmLaws} `{!Abi} `{!ConsensusConstants} `{!Primitives} `{!EthExecutor}
  `{!EthExecutorLaws} `{!Chain} `{!ChainLaws}.

(** Executing a transaction is the two calls in sequence. *)
Definition idle (e : Executor) : Driver := {| dr_executor := e; dr_held := [] |}.

Lemma execute_transaction_calls e tx e' :
  execute_transaction e tx = Ok e' -> foldl call (idle e) [Execute tx; Commit 0] = idle e' /\ ex_prefix e' = ex_prefix e.
Proof.
  unfold execute_transaction. cbn. pose proof (execute_rest e tx) as (_ & Ep & _). cbv zeta in Ep.
  destruct (execute_transaction_without_commit e tx) as [r e1]. intros (o & -> & [= <-])%rbind_ok_inv. done.
Qed.

Lemma execute_transactions_ok b txs : forall e e',
  bound_typed b -> driver_ok b (idle e) -> execute_transactions e txs = Ok e' ->
  driver_ok b (idle e') /\ ex_prefix e' = ex_prefix e.
Proof.
  induction txs as [|tx txs IH]; intros e e' Ht He Hx; cbn in Hx.
  - by injection Hx as <-.
  - apply rbind_ok_inv in Hx as (e1 & [Hc <-]%execute_transaction_calls & Hx). apply IH; [done| |done].
    rewrite <- Hc. cbn [foldl]. by apply call_ok, call_ok.
Qed.

(** What executing a whole block gives. *)
Lemma execute_block_ok b i txs r i' slot :
  bound_typed b -> cumulative_tx_gas_used i = 0 -> execute_block b i txs = (Ok (r, i'), slot) ->
  profile_valid (be_profile b) /\
  exists sys, slot = Some sys /\ 0 <= sys <= system_gas (be_profile b) /\
    br_gas_used r = sys + last_cumulative (br_receipts r) /\
    0 <= last_cumulative (br_receipts r) <= max_gas (be_profile b) - system_gas (be_profile b).
Proof.
  intros Ht Hi Hx. unfold execute_block in Hx.
  destruct (calls_ok b i [Pre] Ht Hi) as [He _].
  change (foldl call (new_driver b i) [Pre]) with (idle (apply_pre_execution_changes (new_executor i (Some b))).2) in He.
  destruct (apply_pre_execution_changes _) as [[[]|err] e] eqn:Hp; [|done]. cbn [snd] in He.
  assert (exists system, ex_prefix e = Ready system) as [system Hs].
  { unfold apply_pre_execution_changes in Hp. cbn in Hp. repeat case_match; simplify_eq; eexists; reflexivity. }
  destruct (execute_transactions e txs) as [e1|] eqn:Hxs; [|done].
  apply (execute_transactions_ok b txs e e1 Ht He) in Hxs as [[[Hb He1] _] Hs1].
  rewrite Hs in Hs1. cbn [idle dr_executor] in *. rewrite Hs1 in He1.
  unfold finish in Hx. rewrite Hs1 in Hx. injection Hx as Hf <-. destruct He1 as (Hv & Hsys & _).
  split; [done|]. exists system. split; [done|]. split; [done|]. unfold bound in Hf. rewrite Hb in Hf.
  cbn [ok_or rbind] in Hf. inv_ok Hf. subst. inv_ok Hok. subst.
  cbn [br_gas_used br_receipts].
  apply map_err_ok_inv in Hok0, Hok1. apply inner_finish_gas in Hok0 as [Eg ->]. rewrite Eg in Hok1.
  pose proof (proj1 Ht) as (Hm & Hsg & _).
  apply (derive_ok _ _ _ _ (proj1 Ht)) in Hok1 as (_ & _ & Hcap & ->); [|ulia|apply cumulative_typed]. cbn.
  pose proof (cumulative_typed (ex_inner e1)). ulia.
Qed.

(** A block in the fixed profile: its hash is its own, its header valid by the stock rules, its blob
    gas none, and its body the one its header names. *)
Definition fixed_block (b : BoundExecutionInput) (blk : Block) : Prop :=
  let h := sh_header (bk_header blk) in
  acknowledges b (bk_transactions blk) = false /\ hash_slow h = sh_hash (bk_header blk) /\
  header_valid chain_spec now h /\
  bh_blob_gas_used h = Some 0 /\ bh_excess_blob_gas h = Some 0 /\ bh_requests_hash h = None /\
  bh_block_access_list_hash h = None /\ bh_slot_number h = None /\
  bh_transactions_root h = calculate_tx_root (bk_transactions blk) /\
  bh_ommers_hash h = calculate_ommers_root (bb_ommers (bk_body blk)).

Lemma validate_fixed_ok b blk : validate_fixed_block b blk = Ok () -> fixed_block b blk.
Proof.
  intros Hv. unfold validate_fixed_block in Hv. cbv zeta in Hv.
  destruct (acknowledges b (bk_transactions blk)) eqn:Hack; [done|].
  destruct (negb (bool_decide _)) eqn:Hh; [done|]. apply negb_false_iff, bool_decide_eq_true in Hh.
  apply rbind_ok_inv in Hv as ([] & Hhv & Hv). apply map_err_ok_inv in Hhv.
  apply header_valid_ok in Hhv. destruct (_ || _) eqn:Hf; [done|].
  rewrite !orb_false_iff, !negb_false_iff, !bool_decide_eq_true in Hf. destruct Hf as [[[[H1' H2'] H3'] H4'] H5'].
  apply map_err_ok_inv in Hv. unfold validate_block_pre_execution, validate_block_pre_execution_with_tx_root in Hv.
  apply rbind_ok_inv in Hv as ([] & Hpost & Hv). destruct (negb (bool_decide _)) eqn:Htx; [done|].
  apply negb_false_iff, bool_decide_eq_true in Htx. unfold post_merge_hardfork_fields in Hpost.
  destruct (negb (bool_decide _)) eqn:Hom; [done|]. apply negb_false_iff, bool_decide_eq_true in Hom.
  unfold fixed_block. split_and!; try done.
  - by destruct (bh_requests_hash _).
  - by destruct (bh_block_access_list_hash _).
  - by destruct (bh_slot_number _).
Qed.

Lemma built_header b parent a env h :
  builder_for_next_block b parent a = Ok env -> be_parent_number b = bh_number (sh_header parent) ->
  is_u64 (bh_number (sh_header parent) + 1) -> carries a h -> bh_parent_hash h = sh_hash parent ->
  bh_number h = bh_number (sh_header parent) + 1 -> bh_base_fee_per_gas h = Some env.1 ->
  context_for_block b h = Ok ().
Proof.
  intros Henv Hn Hu (Ht & Hm & Hb & Hg & Hf & Hc) Hp Hnum Hfee. unfold builder_for_next_block, validate_payload_job in Henv.
  inv_ok Henv. subst a0. apply map_err_ok_inv in Hok, Hok0. unfold next_evm_env in Hok. inv_ok Hok.
  unfold job_base_fee in Hok3. apply map_err_ok_inv in Hok3. subst env. cbn [fst] in Hfee.
  inv_ok Hok0. repeat match goal with u : () |- _ => destruct u end. apply validate_parent_iff in Hok as (_ & He & Hi & _).
  apply validate_next_attributes_iff in Hok2 as (At & Ar & Ab & Ag & Af & _ & _ & Ac).
  apply context_for_block_iff. unfold job_header. rewrite Ht, Hm, Hb, Hg, Hf, Hc, Hp, Hnum, Hn.
  split_and!; try done; [congruence|unfold checked_add; case_match; [done|ulia]|by exists a3].
Qed.

(** The accounting a completed job leaves for its child: the header is the job's, the token is the
    header's, with the system gas of the executor and the ordinary gas of the receipts. *)
Definition accounted (b : BoundExecutionInput) (sealed : SealedHeader) (r : BlockResult)
    (t : CompletedParent) (slot : option Z) : Prop :=
  job_header b (sh_header sealed) /\ token_of sealed (be_profile b) t /\
  bh_gas_used (sh_header sealed) = br_gas_used r /\ br_gas_used r <= max_gas (be_profile b) /\
  ordinary_gas (completed t) = last_cumulative (br_receipts r) /\
  slot = Some (system (gas (completed t))) /\ completed_parent_for b slot sealed = Ok t /\
  exists fee, checked_next_base_fee t sealed (be_profile b) = Ok fee /\
    base_fee_floor (be_profile b) <= fee <= MAX_BASE_FEE.

Lemma mint_accounted b i txs r i' slot sealed t :
  bound_typed b -> cumulative_tx_gas_used i = 0 -> execute_block b i txs = (Ok (r, i'), slot) ->
  mint b sealed r = Ok t -> hash_slow (sh_header sealed) = sh_hash sealed ->
  bh_gas_used (sh_header sealed) = br_gas_used r -> job_header b (sh_header sealed) ->
  accounted b sealed r t slot.
Proof.
  intros Ht Hi Hx Hm Hh Hg Hj. destruct (execute_block_ok _ _ _ _ _ _ Ht Hi Hx) as (Hv & sys & -> & Hs & Hr & Ho).
  pose proof (proj1 Ht) as (Hmax & Hsys & _). pose proof Hv as (Hlt & _).
  unfold mint in Hm. inv_ok Hm. apply ok_or_inv in Hok, Hok0. apply map_err_ok_inv in Hok1.
  apply checked_sub_some in Hok as [-> _]. subst t. replace (br_gas_used r - _) with sys in Hok1 by lia.
  pose proof (reconcile_fields _ _ _ _ _ _ Hok1) as (_ & _ & Ef & Es & Eh).
  assert (Htok : token_of sealed (be_profile b) (Completed a1)).
  { split_and!; [done|apply Hj|by rewrite Hok0; cbn; rewrite Ef|]. cbn. by rewrite Es, Ef, Hg. }
  destruct (token_next_fee sealed (be_profile b) (Completed a1)) as (f & Hf & Hfr); [apply Ht|ulia|cbn; ulia|done|].
  unfold accounted. split_and!; try done; [lia| |by rewrite <- Es| |].
  - cbn. rewrite (reconcile_ordinary _ _ _ _ _ _ Hok1). lia.
  - unfold completed_parent_for. cbn [ok_or rbind]. rewrite Hok0. cbn [ok_or rbind]. by rewrite Hg, Hok1.
  - exists f. split; [|done]. by apply checked_next_base_fee_iff.
Qed.

(** C14: a completed build and a completed replay leave the same accounting.  The block of a build is
    one the import path accepts for the job, built on the job's parent with the given transactions.
    In both cases the block is in the fixed profile, valid by the stock header rules, and the token is
    the block's own: its split is the system gas of the executor and the ordinary gas of the receipts,
    the configuration's slot mints the same token from the sealed header, and the token yields the base
    fee of the child, within the profile's range. *)
Theorem completed_token b s parent a txs blk r t slot :
  bound_typed b -> be_parent_number b = bh_number (sh_header parent) ->
  is_u64 (bh_number (sh_header parent) + 1) ->
  (build_complete b s parent a txs = (Ok (blk, r, t), slot) ->
   context_for_block b (sh_header (bk_header blk)) = Ok () /\ bk_transactions blk = txs /\
   fixed_block b blk /\ accounted b (bk_header blk) r t slot) /\
  (replay_complete b s blk = (Ok (r, t), slot) ->
   fixed_block b blk /\ accounted b (bk_header blk) r t slot).
Proof.
  intros Ht Hn Hu. split.
  - intros Hb. unfold build_complete in Hb. destruct (acknowledges b txs) eqn:Hack; [done|].
    destruct (builder_for_next_block b parent a) as [env|] eqn:Henv; [|done].
    destruct (execute_block _ _ _) as [[[r1 i1]|] slot1] eqn:Hx; cbn [rbind] in Hb; injection Hb as Hb <-; [|done].
    inv_ok Hb. subst. apply map_err_ok_inv in Hok. destruct a1. apply validate_fixed_ok in Hok0 as Hfix.
    destruct (assemble_fields _ _ _ _ _ _ _ _ Hok) as (Hc & Hp & Hnum & Hg & Hfee & Htx).
    assert (Hj : context_for_block b (sh_header (bk_header blk)) = Ok ())
      by (eapply built_header; eauto).
    split_and!; try done. eapply mint_accounted; eauto; [apply next_inner_gas|apply Hfix|].
    by apply context_for_block_iff.
  - intros Hb. unfold replay_complete in Hb. destruct (validate_fixed_block b blk) as [[]|] eqn:Hv; [|done].
    unfold execute_existing in Hb. destruct (negb _); [done|].
    destruct (context_for_block b _) as [[]|] eqn:Hc; [|done].
    destruct (execute_block _ _ _) as [[[r1 i1]|] slot1] eqn:Hx; cbn [rbind] in Hb; injection Hb as Hb <-; [|done].
    inv_ok Hb. subst. apply map_err_ok_inv in Hok. destruct a0. apply post_execution_gas in Hok.
    apply validate_fixed_ok in Hv as Hfix. split; [done|].
    eapply mint_accounted; eauto; [apply block_inner_gas|apply Hfix|].
    by apply context_for_block_iff.
Qed.
End job_lemmas.

(** ** A concrete executor and chain

    The stock executor adds up the gas of its transactions over the engine of the transition sample,
    and the assembler copies what it is given. *)

(** A transaction is its gas, a receipt the cumulative gas. *)
Definition toy_primitives : Primitives := {|
  Tx := Z; Receipt := Z;
  calculate_tx_root := fun _ => word_of 4; calculate_ommers_root := fun _ => word_of 3;
  calculate_withdrawals_root := fun _ => word_of 6; body_blob_gas_used := fun _ => 0;
  cumulative_gas_used := fun r => r; receipt_bloom := fun _ => BLOOM_ZERO;
  calculate_receipt_root := fun _ => word_of 5; requests_hash := fun _ => word_of 7;
  rlp_length := fun _ _ _ _ => 0 |}.

Definition toy_constants : ConsensusConstants := {|
  MAXIMUM_GAS_LIMIT_BLOCK := 9223372036854775807; MINIMUM_GAS_LIMIT := 5000; GAS_LIMIT_BOUND_DIVISOR := 1024;
  DATA_GAS_PER_BLOB := 131072; MAXIMUM_EXTRA_DATA_SIZE := 32; EMPTY_OMMER_ROOT_HASH := word_of 3;
  INITIAL_BASE_FEE := 1000000000; ALLOWED_FUTURE_BLOCK_TIME_SECONDS := 15;
  BLOB_CANCUN := {| max_blob_gas_per_block := 786432; next_block_excess_blob_gas_osaka := fun _ _ _ => 0 |} |}.

(** Every fork up to Cancun is active. *)
Definition toy_spec : ChainSpec := {|
  cs_chain_id := 7; cs_genesis_hash := word_of 1;
  is_byzantium_active_at_block := fun _ => true; is_london_active_at_block := fun _ => true;
  london_transitions_at_block := fun _ => false; is_paris_active_at_block := fun _ => true;
  is_shanghai_active_at_timestamp := fun _ => true; is_cancun_active_at_timestamp := fun _ => true;
  is_prague_active_at_timestamp := fun _ => false; is_osaka_active_at_timestamp := fun _ => false;
  is_amsterdam_active_at_timestamp := fun _ => false; elasticity_multiplier_at_timestamp := fun _ => 2;
  calc_next_block_base_fee := fun _ _ fee _ => fee; blob_params_at_timestamp := fun _ => None |}.

Record toy_inner := { ti_db : list (Z * Z); ti_gas : Z; ti_receipts : list Z }.

Definition toy_executor : EthExecutor (H := transition_evm) (H0 := toy_primitives) := {|
  Inner := toy_inner;
  withdrawals := fun _ => Some [];
  inner_db := ti_db : toy_inner -> Db (Evm := transition_evm);
  with_db := fun i (d : Db (Evm := transition_evm)) =>
    {| ti_db := d; ti_gas := ti_gas i; ti_receipts := ti_receipts i |};
  hook_env := fun _ => () : Env (Evm := transition_evm);
  cumulative_tx_gas_used := fun i => wrap64 (ti_gas i);
  inner_pre := Ok;
  tx_signer := fun _ : Tx (Primitives := toy_primitives) => ZERO20;
  tx_gas_limit := fun g : Tx (Primitives := toy_primitives) => g;
  tx_blob_gas_used := fun _ => None;
  tx_hash := word_of : Tx (Primitives := toy_primitives) -> bytes;
  TxOutput := Z;
  tx_gas_used := Z.max 0;
  inner_execute := fun i (g : Tx (Primitives := toy_primitives)) => (Ok (g : Z), i);
  inner_commit := fun i g => {| ti_db := ti_db i; ti_gas := ti_gas i + Z.max 0 g;
    ti_receipts := ti_receipts i ++ [wrap64 (ti_gas i + Z.max 0 g)] |};
  inner_finish := fun i =>
    if default 0 (last (ti_receipts i)) =? wrap64 (ti_gas i)
    then Ok (@Build_BlockResult toy_primitives (wrap64 (ti_gas i)) 0 (ti_receipts i) [])
    else Err "receipts" |}.

#[global] Instance toy_executor_laws : EthExecutorLaws (H1 := toy_executor).
Proof.
  split; cbn; try done.
  - by intros i i' [= ->].
  - intros i. unfold wrap64. pose proof (Z.mod_pos_bound (ti_gas i) 18446744073709551616). ulia.
  - intros o. lia.
  - intros i o Hle. unfold wrap64 in *. rewrite <- Z.add_mod_idemp_l by done. apply Z.mod_small.
    pose proof (Z.mod_pos_bound (ti_gas i) 18446744073709551616). ulia.
  - intros i r. destruct (Z.eqb_spec (default 0 (last (ti_receipts i))) (wrap64 (ti_gas i))) as [E|]; [|done].
    intros [= <-]. cbn. split; [done|]. unfold last_cumulative. cbn. rewrite option_fmap_id. exact E.
Qed.

(** The hash of a header numbered [n] is the word [n + 12]. *)
Definition shifted_hash : HeaderHash := {| hash_slow := fun h => word_of (bh_number h + 12) |}.

Definition toy_header (parent : SealedHeader) (a : NextBlockEnvAttributes) (env : Z * Z) (used : Z) : BlockHeader := {|
  bh_parent_hash := sh_hash parent; bh_beneficiary := na_suggested_fee_recipient a; bh_state_root := word_of 66;
  bh_number := bh_number (sh_header parent) + 1; bh_gas_limit := na_gas_limit a; bh_gas_used := used;
  bh_timestamp := na_timestamp a; bh_extra_data := na_extra_data a; bh_mix_hash := na_prev_randao a;
  bh_base_fee_per_gas := Some env.1; bh_blob_gas_used := Some 0; bh_excess_blob_gas := Some 0;
  bh_parent_beacon_block_root := na_parent_beacon_block_root a; bh_requests_hash := None;
  bh_block_access_list_hash := None; bh_slot_number := None; bh_ommers_hash := word_of 3; bh_transactions_root := word_of 4; bh_receipts_root := word_of 5;
    bh_logs_bloom := BLOOM_ZERO; bh_difficulty := 0; bh_nonce := 0; bh_withdrawals_root := Some (word_of 6) |}.

Definition toy_chain : Chain (H1 := toy_executor) := {|
  chain_spec := toy_spec;
  now := 0;
  StateView := list (Z * Z);
  cancun := fun _ => true;
  cancun_next := fun _ _ => true;
  next_inner := fun s _ _ _ => {| ti_db := s; ti_gas := 0; ti_receipts := [] |} : Inner (EthExecutor := toy_executor);
  block_inner := fun s _ => {| ti_db := s; ti_gas := 0; ti_receipts := [] |} : Inner (EthExecutor := toy_executor);
  post_state_root := fun _ _ => Ok (word_of 66);
  assemble := fun _ parent a env _ r txs =>
    let h := toy_header parent a env (br_gas_used r) in
    Ok (@Build_Block toy_primitives {| sh_header := h; sh_hash := hash_slow (HeaderHash := shifted_hash) h |}
         (@Build_BlockBody toy_primitives txs [] (Some []))) |}.

#[global] Instance toy_chain_laws : ChainLaws (H2 := toy_chain).
Proof.
  split; cbn; try done. intros s parent a env i r txs blk [= <-]. by cbn.
Qed.

Definition toy_parent : SealedHeader := {|
  sh_hash := word_of 21;
  sh_header := {|
    bh_parent_hash := word_of 20; bh_beneficiary := ZERO20; bh_state_root := word_of 65;
    bh_number := 9; bh_gas_limit := 60000000; bh_gas_used := 15800000; bh_timestamp := 1700000000;
    bh_extra_data := []; bh_mix_hash := word_of 61; bh_base_fee_per_gas := Some 10000000;
    bh_blob_gas_used := Some 0; bh_excess_blob_gas := Some 0; bh_parent_beacon_block_root := Some (word_of 62);
    bh_requests_hash := None; bh_block_access_list_hash := None; bh_slot_number := None; bh_ommers_hash := word_of 3; bh_transactions_root := word_of 4; bh_receipts_root := word_of 5;
    bh_logs_bloom := []; bh_difficulty := 0; bh_nonce := 0; bh_withdrawals_root := Some (word_of 6) |} |}.
Definition toy_job : BoundExecutionInput :=
  job transition_input
    {| bj_context := sample_context no_hook; bj_update := ui_bytes transition_companions;
       bj_records := ui_records transition_companions |}
    small_profile toy_parent (completed sample_token) ZERO20.
Definition toy_attributes : NextBlockEnvAttributes := {|
  na_timestamp := 1700000001; na_suggested_fee_recipient := ZERO20;
  na_prev_randao := derive_prev_randao (H := toy_crypto) 5 7; na_gas_limit := 60000000;
  na_parent_beacon_block_root := Some (derive_beacon_root (H := toy_crypto) 5 7); na_withdrawals := Some [];
  na_extra_data := match input_commitment (H := toy_crypto) transition_input with Ok c => c | Err _ => [] end;
  na_slot_number := None |}.
Definition toy_build :=
  build_complete (H := toy_crypto) (H0 := shifted_hash) (H1 := toy_abi) (H2 := toy_constants)
    (H5 := toy_executor) (H6 := toy_chain) toy_job transition_parent toy_parent toy_attributes [21000; 50000].
#[local] Strategy expand [toy_build].
Definition build_summary {B} (o : result BlockError (B * BlockResult (H0 := toy_primitives) * CompletedParent) * option Z)
    : option (Z * Z) :=
  match o with (Ok (_, r, t), _) => Some (br_gas_used r, system (gas (completed t))) | _ => None end.

Lemma toy_build_sample : build_summary toy_build = Some (81712, 10712).
Proof. vm_compute. reflexivity. Qed.

Lemma toy_job_typed : bound_typed toy_job.
Proof. split; [apply small_profile_typed|cbn; lia]. Qed.

Definition toy_start : Inner (EthExecutor := toy_executor) :=
  {| ti_db := transition_parent; ti_gas := 0; ti_receipts := [] |}.
(** Two transactions executed before either is committed, and the same ones in sequence. *)
Definition toy_calls : list (Call (H4 := toy_primitives)) :=
  [Pre; Execute (H4 := toy_primitives) 21000; Execute (H4 := toy_primitives) 29990000; Commit 1; Commit 0].
Definition toy_sequence : list (Call (H4 := toy_primitives)) :=
  [Pre; Execute (H4 := toy_primitives) 21000; Commit 0; Execute (H4 := toy_primitives) 29979000; Commit 0].
#[local] Notation toy_driver cs :=
  (foldl (call (H := toy_crypto) (H3 := toy_abi) (H5 := toy_executor)) (new_driver (H5 := toy_executor) toy_job toy_start) cs).

Lemma toy_calls_over :
  ex_prefix (dr_executor (toy_driver toy_calls)) = Ready 10712 /\
  cumulative (dr_executor (toy_driver toy_calls)) = 30011000 /\ capacity toy_job = 30000000 /\
  (let? r := inner_finish (ex_inner (dr_executor (toy_driver toy_calls))) in Ok (br_blob_gas_used r)) = Ok 0.
Proof. split; [|split; [|split]]; vm_compute; reflexivity. Qed.

Lemma toy_sequential :
  ex_prefix (dr_executor (toy_driver toy_sequence)) = Ready 10712 /\ dr_held (toy_driver toy_sequence) = [] /\
  sequential (H := toy_crypto) (H3 := toy_abi) (new_driver (H5 := toy_executor) toy_job toy_start) toy_sequence.
Proof.
  split; [vm_compute; reflexivity|]. split; [vm_compute; reflexivity|].
  unfold toy_sequence. cbn [sequential]. refine (conj I (conj _ (conj I (conj _ (conj I I))))); vm_compute; reflexivity.
Qed.

Lemma executor_calls_witness :
  (finish (dr_executor (toy_driver toy_calls))).1 = Err (AccountingMsg CapacityExceeded) /\
  cumulative (dr_executor (toy_driver toy_sequence)) <= capacity toy_job.
Proof.
  pose proof (fun cs => executor_calls (H := toy_crypto) (H3 := toy_abi) (H5 := toy_executor) toy_job
    toy_start cs toy_job_typed eq_refl) as Hall. cbv zeta in Hall.
  destruct toy_calls_over as (Hp & Hc & Hcap & Hf). apply rbind_ok_inv in Hf as (r & Hr & [= Hb]). split.
  - destruct (Hall toy_calls) as (_ & _ & Hover). rewrite Hp in Hover. destruct Hover as (_ & Hfin & _).
    rewrite (Hfin r Hr Hb), Hc, Hcap. reflexivity.
  - destruct toy_sequential as (Hps & Hh & Hs). destruct (Hall toy_sequence) as (_ & _ & Hseq).
    rewrite Hps, Hh in Hseq. destruct Hseq as (_ & _ & _ & Hle). specialize (Hle Hs). rewrite Z.add_0_r in Hle. exact Hle.
Defined.

Lemma completed_token_witness :
  exists blk r t slot, toy_build = (Ok (blk, r, t), slot) /\
    header_valid (H := toy_constants) toy_spec 0 (sh_header (bk_header blk)) /\
    accounted (H := toy_crypto) (H0 := shifted_hash) toy_job (bk_header blk) r t slot.
Proof.
  pose proof toy_build_sample as Hs.
  destruct toy_build as [[[[blk r] t]|] slot] eqn:Hb; [|discriminate Hs].
  exists blk, r, t, slot. split; [reflexivity|].
  destruct (proj1 (completed_token (H := toy_crypto) (H0 := shifted_hash) (H3 := toy_abi) (H4 := toy_constants)
    (H8 := toy_chain) toy_job transition_parent toy_parent toy_attributes [21000; 50000] blk r t slot
    toy_job_typed eq_refl ltac:(cbn; ulia)) Hb) as (_ & _ & Hfix & Hacc).
  split; [exact (proj1 (proj2 (proj2 Hfix)))|exact Hacc].
Defined.
