(* ===== verification/ParentAccountings.v ===== *)
(** The bounded store of parent-accounting tokens: the second half of
    [crates/unicity/payload/src/registry.rs].

    Builds and imports publish the token of a block they completed; a child's build or import resolves
    its parent's token and holds a lease on it meanwhile.  Every method locks one mutex, so a run of
    the node is a sequence of critical sections, in any interleaving: they are the steps of
    [registry_step], and the theorems hold in every reachable state.  The composed methods [publish],
    [restore_exact] and [resolve] are functions here, shown to be sequences of these steps.

    The node attaches one sidecar to this store and reads its companions from the same one;
    [pa_store] is the committed state of that sidecar. *)
From stdpp Require Import gmap sets.
From S2P Require Import Prelude Crypto BlockAccounting RootInput B1Update StoreCodec CompanionStore EthConsensus BlockJob.

Module Accountings.
Import StoreCodec CompanionStore.

(** ** The in-memory entries *)

Definition DEFAULT_PARENT_ACCOUNTING_CAPACITY : nat := 16.

Record ParentAccountingEntry := {
  pe_hash : bytes; pe_number : Z; pe_token : CompletedParent; pe_identity : option (Z * bytes);
  pe_pins : Z; pe_admitted : bool }.

Record ParentAccountingInner := {
  tokens : list ParentAccountingEntry; capacity : nat; protected : option bytes }.

Definition with_tokens (i : ParentAccountingInner) (l : list ParentAccountingEntry) : ParentAccountingInner :=
  {| tokens := l; capacity := capacity i; protected := protected i |}.
Definition with_pins (e : ParentAccountingEntry) (pins : Z) : ParentAccountingEntry :=
  {| pe_hash := pe_hash e; pe_number := pe_number e; pe_token := pe_token e; pe_identity := pe_identity e;
     pe_pins := pins; pe_admitted := pe_admitted e |}.

(** [tokens.iter().find(|entry| entry.hash == hash)]. *)
Fixpoint find_entry (hash : bytes) (l : list ParentAccountingEntry) : option ParentAccountingEntry :=
  match l with
  | [] => None
  | e :: l => if bool_decide (pe_hash e = hash) then Some e else find_entry hash l
  end.

(** Replacing what [iter_mut().find(..)] found. *)
Fixpoint set_entry (hash : bytes) (e' : ParentAccountingEntry) (l : list ParentAccountingEntry)
    : list ParentAccountingEntry :=
  match l with
  | [] => []
  | e :: l => if bool_decide (pe_hash e = hash) then e' :: l else e :: set_entry hash e' l
  end.

(** The loop of [evict_lowest]. *)
Fixpoint scan_lowest (protected : option bytes) (index : nat) (l : list ParentAccountingEntry)
    (lowest : option (nat * Z)) : option (nat * Z) :=
  match l with
  | [] => lowest
  | e :: l =>
      let lowest :=
        if (pe_pins e =? 0) && negb (bool_decide (protected = Some (pe_hash e)))
           && match lowest with None => true | Some (_, number) => pe_number e <? number end
        then Some (index, pe_number e) else lowest in
      scan_lowest protected (S index) l lowest
  end.

Definition evict_lowest (i : ParentAccountingInner) : bool * ParentAccountingInner :=
  match scan_lowest (protected i) 0 (tokens i) None with
  | Some (index, _) => (true, with_tokens i (delete index (tokens i)))
  | None => (false, i)
  end.

(** The eviction loop of [unpin]; [None] when the fuel is spent. *)
Fixpoint evict_to_capacity (fuel : nat) (i : ParentAccountingInner) : option ParentAccountingInner :=
  if (length (tokens i) <=? capacity i)%nat then Some i else
  match fuel with
  | O => None
  | S fuel =>
      match evict_lowest i with
      | (true, i) => evict_to_capacity fuel i
      | (false, i) => Some i
      end
  end.

(** [entry.pins -= 1] overflows at zero. *)
Inductive UnpinFault := PinsOverflow | LoopDiverged.

Definition unpin (hash : bytes) (i : ParentAccountingInner) : result UnpinFault ParentAccountingInner :=
  let? i := match find_entry hash (tokens i) with
    | Some e =>
        let? pins := ok_or (checked_sub (pe_pins e) 1) PinsOverflow in
        Ok (with_tokens i (set_entry hash (with_pins e pins) (tokens i)))
    | None => Ok i
    end in
  ok_or (evict_to_capacity (length (tokens i)) i) LoopDiverged.

Definition insert_inner (block_hash : bytes) (number : Z) (token : CompletedParent)
    (identity : option (Z * bytes)) (admitted : bool) (i : ParentAccountingInner) : ParentAccountingInner :=
  match find_entry block_hash (tokens i) with
  | Some e =>
      if 0 <? pe_pins e then i else
      with_tokens i (set_entry block_hash
        {| pe_hash := pe_hash e; pe_number := Z.max (pe_number e) number; pe_token := token;
           pe_identity := identity; pe_pins := pe_pins e; pe_admitted := pe_admitted e || admitted |}
        (tokens i))
  | None =>
      let i := if (capacity i <=? length (tokens i))%nat then (evict_lowest i).2 else i in
      with_tokens i (tokens i ++ [{| pe_hash := block_hash; pe_number := number; pe_token := token;
        pe_identity := identity; pe_pins := 0; pe_admitted := admitted |}])
  end.

(** Whether a token is cached, and the pinned state. *)
Definition pin (block_hash : bytes) (i : ParentAccountingInner) : option ParentAccountingInner :=
  match find_entry block_hash (tokens i) with
  | Some e => Some (with_tokens i (set_entry block_hash (with_pins e (pe_pins e + 1)) (tokens i)))
  | None => None
  end.

Definition admit_entry (block_hash : bytes) (i : ParentAccountingInner) : bool * ParentAccountingInner :=
  match find_entry block_hash (tokens i) with
  | Some e =>
      (true, {| tokens := set_entry block_hash
                  {| pe_hash := pe_hash e; pe_number := pe_number e; pe_token := pe_token e;
                     pe_identity := pe_identity e; pe_pins := pe_pins e; pe_admitted := true |} (tokens i);
                capacity := capacity i; protected := Some block_hash |})
  | None => (false, i)
  end.

Definition is_admitted (block_hash : bytes) (i : ParentAccountingInner) : bool :=
  existsb (fun e => bool_decide (pe_hash e = block_hash) && pe_admitted e) (tokens i).

Definition get (block_hash : bytes) (i : ParentAccountingInner) : option CompletedParent :=
  pe_token <$> find_entry block_hash (tokens i).

Definition len (i : ParentAccountingInner) : nat := length (tokens i).
Definition is_empty (i : ParentAccountingInner) : bool := match tokens i with [] => true | _ => false end.

(** ** Leases *)

Record ParentAccountingLease := { le_hash : bytes; le_token : CompletedParent; le_next_fee : Z }.

(** [ParentAccountingUnavailable] carries the hash. *)
Record ParentAccountingUnavailable := Unavailable_for { unavailable : bytes }.

(** The identity of the chain: its id and genesis hash. *)
Record ChainIdentity := { ch_id : Z; ch_genesis_hash : bytes }.

Section resolver.
Context `{HeaderHash}.

(** The last critical section of [resolve]. *)
Definition resolve_cached (parent : SealedHeader) (chain : ChainIdentity) (p : BlockProfile)
    (i : ParentAccountingInner)
    : result ParentAccountingUnavailable (ParentAccountingLease * ParentAccountingInner) :=
  let hash := sh_hash parent in
  let? e := ok_or (find_entry hash (tokens i)) (Unavailable_for hash) in
  if negb (pe_admitted e) || negb (bool_decide (pe_identity e = Some (ch_id chain, ch_genesis_hash chain)))
  then Err (Unavailable_for hash) else
  let? next_fee := map_err (fun _ => Unavailable_for hash) (checked_next_base_fee (pe_token e) parent p) in
  Ok ({| le_hash := hash; le_token := pe_token e; le_next_fee := next_fee |},
      {| tokens := set_entry hash (with_pins e (pe_pins e + 1)) (tokens i);
         capacity := capacity i; protected := Some hash |}).
End resolver.

(** ** The store *)

Section store.
Context `{HeaderHash} `{MdbxEnv}.
Abbreviation fault := (StoreFault MdbxError).

(** [pa_attached]: whether the sidecar is attached. *)
Record UnicityParentAccountings := {
  pa_inner : ParentAccountingInner; pa_attached : bool; pa_store : Environment;
  pa_durability_required : bool; pa_repair_limit : Z }.

Definition with_inner (s : UnicityParentAccountings) (i : ParentAccountingInner) : UnicityParentAccountings :=
  {| pa_inner := i; pa_attached := pa_attached s; pa_store := pa_store s;
     pa_durability_required := pa_durability_required s; pa_repair_limit := pa_repair_limit s |}.
Definition with_store (s : UnicityParentAccountings) (e : Environment) : UnicityParentAccountings :=
  {| pa_inner := pa_inner s; pa_attached := pa_attached s; pa_store := e;
     pa_durability_required := pa_durability_required s; pa_repair_limit := pa_repair_limit s |}.

(** [None] when the capacity is zero and the constructor panics. *)
Definition with_capacity (capacity : nat) (repair_limit : Z) (e : Environment) : option UnicityParentAccountings :=
  if (capacity =? 0)%nat then None else
  Some {| pa_inner := {| tokens := []; capacity := capacity; protected := None |};
          pa_attached := false; pa_store := e; pa_durability_required := false;
          pa_repair_limit := repair_limit |}.

Definition set_repair_limit (limit : Z) (s : UnicityParentAccountings) : UnicityParentAccountings :=
  {| pa_inner := pa_inner s; pa_attached := pa_attached s; pa_store := pa_store s;
     pa_durability_required := pa_durability_required s; pa_repair_limit := limit |}.
Definition require_durability (s : UnicityParentAccountings) : UnicityParentAccountings :=
  {| pa_inner := pa_inner s; pa_attached := pa_attached s; pa_store := pa_store s;
     pa_durability_required := true; pa_repair_limit := pa_repair_limit s |}.
Definition attach_store (s : UnicityParentAccountings) : UnicityParentAccountings :=
  {| pa_inner := pa_inner s; pa_attached := true; pa_store := pa_store s;
     pa_durability_required := pa_durability_required s; pa_repair_limit := pa_repair_limit s |}.

Definition publish (block_hash : bytes) (block_number chain_id : Z) (genesis_hash : bytes)
    (token : CompletedParent) (s : UnicityParentAccountings) : result fault () * UnicityParentAccountings :=
  if negb (bool_decide (la_block_hash (for_local_storage token) = block_hash))
  then (Err (Refused (Corrupt "token/hash mismatch")), s) else
  let '(r, s) :=
    if pa_attached s then
      let '(r, e) := put_accounting {| sa_chain_id := chain_id; sa_genesis_hash := genesis_hash;
        sa_block_number := block_number; sa_accounting := for_local_storage token |} (pa_store s) in
      (r, with_store s e)
    else if pa_durability_required s then (Err (Refused (Corrupt "accounting store unavailable")), s)
    else (Ok (), s) in
  match r with
  | Err f => (Err f, s)
  | Ok _ =>
      (Ok (), with_inner s (insert_inner block_hash block_number token (Some (chain_id, genesis_hash)) true
                              (pa_inner s)))
  end.

Definition restore_exact (header : SealedHeader) (chain_id : Z) (genesis_hash : bytes) (p : BlockProfile)
    (s : UnicityParentAccountings) : result fault (option CompletedParent * UnicityParentAccountings) :=
  match find_entry (sh_hash header) (tokens (pa_inner s)) with
  | Some e =>
      if negb (bool_decide (pe_identity e = Some (chain_id, genesis_hash)))
         || negb (is_ok (checked_next_base_fee (pe_token e) header p))
      then Err (Refused (Corrupt "cached accounting mismatch")) else
      Ok (Some (pe_token e), s)
  | None =>
      if negb (pa_attached s) then
        if pa_durability_required s then Err (Refused (Corrupt "accounting store unavailable")) else Ok (None, s)
      else
      let? record := get_accounting (sh_hash header) (pa_store s) in
      match record with
      | None => Ok (None, s)
      | Some r =>
          if negb (sa_chain_id r =? chain_id) || negb (bool_decide (sa_genesis_hash r = genesis_hash))
             || negb (sa_block_number r =? bh_number (sh_header header))
          then Err (Refused (Corrupt "accounting chain identity")) else
          let? token := map_err (fun _ => Refused (Corrupt "accounting/header mismatch"))
                          (from_local_storage (sa_accounting r) header p) in
          let? _ := map_err (fun _ => Refused (Corrupt "accounting fee mismatch"))
                      (checked_next_base_fee token header p) in
          Ok (Some token, with_inner s (insert_inner (sh_hash header) (bh_number (sh_header header)) token
                (Some (chain_id, genesis_hash)) false (pa_inner s)))
      end
  end.

Definition insert (block_hash : bytes) (token : CompletedParent) (s : UnicityParentAccountings)
    : UnicityParentAccountings :=
  with_inner s (insert_inner block_hash 0 token None true (pa_inner s)).

Definition insert_for_chain (block_hash : bytes) (token : CompletedParent) (chain_id : Z)
    (genesis_hash : bytes) (s : UnicityParentAccountings) : UnicityParentAccountings :=
  with_inner s (insert_inner block_hash 0 token (Some (chain_id, genesis_hash)) true (pa_inner s)).

Definition resolve (parent : SealedHeader) (chain : ChainIdentity) (p : BlockProfile)
    (s : UnicityParentAccountings)
    : result ParentAccountingUnavailable ParentAccountingLease * UnicityParentAccountings :=
  let hash := sh_hash parent in
  let exists_ := existsb (fun e => bool_decide (pe_hash e = hash)) (tokens (pa_inner s)) in
  match (if exists_ then Ok s else
         match restore_exact parent (ch_id chain) (ch_genesis_hash chain) p s with
         | Ok (_, s) => Ok s
         | Err _ => Err (Unavailable_for hash)
         end) with
  | Err u => (Err u, s)
  | Ok s =>
      match resolve_cached parent chain p (pa_inner s) with
      | Err u => (Err u, s)
      | Ok (lease, i) => (Ok lease, with_inner s i)
      end
  end.
End store.

(** ** Entries by hash *)

Abbreviation hashes l := (map pe_hash l).

Lemma find_entry_split h l e : find_entry h l = Some e ->
  exists l1 l2, l = l1 ++ e :: l2 /\ (h ∉ hashes l1) /\ pe_hash e = h /\
    forall e', set_entry h e' l = l1 ++ e' :: l2.
Proof.
  induction l as [|x l IH]; cbn; [done|]. case_bool_decide as Hx.
  - intros [= ->]. exists [], l. split_and!; [done|set_solver|done|done].
  - intros (l1 & l2 & -> & Hn & He & Hs)%IH. exists (x :: l1), l2. split_and!; [done|set_solver|done|].
    intros e'. cbn. by rewrite Hs.
Qed.

Lemma find_entry_none h l : find_entry h l = None <-> (h ∉ hashes l).
Proof. induction l as [|x l IH]; cbn; [set_solver|]. case_bool_decide; [set_solver|]. rewrite IH. set_solver. Qed.

Lemma find_entry_app h l1 e l2 : (h ∉ hashes l1) -> pe_hash e = h -> find_entry h (l1 ++ e :: l2) = Some e.
Proof.
  intros Hn He. induction l1 as [|x l1 IH]; cbn.
  - by rewrite bool_decide_true.
  - rewrite bool_decide_false by set_solver. apply IH. set_solver.
Qed.

Lemma find_entry_snoc h l x e : find_entry h l = Some e -> find_entry h (l ++ [x]) = Some e.
Proof. induction l as [|y l IH]; cbn; [done|]. by case_bool_decide. Qed.

Lemma find_entry_some h l e : NoDup (hashes l) -> find_entry h l = Some e <-> e ∈ l /\ pe_hash e = h.
Proof.
  intros Hd. split.
  - intros (l1 & l2 & -> & _ & He & _)%find_entry_split. set_solver.
  - intros [(l1 & l2 & ->)%list_elem_of_split <-]. apply find_entry_app; [|done].
    rewrite map_app in Hd. apply NoDup_app in Hd as (_ & Hd & _). intros Hin. by apply (Hd (pe_hash e)); [|left].
Qed.

(** ** Eviction *)

(** What eviction must keep. *)
Definition kept (p : option bytes) (e : ParentAccountingEntry) : Prop :=
  pe_pins e <> 0 \/ p = Some (pe_hash e).
#[global] Instance kept_decision p e : Decision (kept p e).
Proof. unfold kept. solve_decision. Defined.

Definition not_below (p : option bytes) (n : Z) (l : list ParentAccountingEntry) : Prop :=
  forall e, e ∈ l -> ~ kept p e -> n <= pe_number e.

Lemma scan_lowest_spec p l : forall index lowest,
  match scan_lowest p index l lowest with
  | None => lowest = None /\ Forall (kept p) l
  | Some (j, n) =>
      (lowest = Some (j, n) /\ not_below p n l) \/
      (exists l1 e l2, l = l1 ++ e :: l2 /\ j = (index + length l1)%nat /\ n = pe_number e /\ ~ kept p e /\
         not_below p (n + 1) l1 /\ not_below p n l2 /\ forall j' n', lowest = Some (j', n') -> n < n')
  end.
Proof.
  induction l as [|e l IH]; intros index lowest; cbn [scan_lowest].
  { destruct lowest as [[j n]|]; [left|done]. split; [done|]. intros e He. set_solver. }
  assert (Hk : (pe_pins e =? 0) && negb (bool_decide (p = Some (pe_hash e))) = bool_decide (~ kept p e)).
  { unfold kept. destruct (Z.eqb_spec (pe_pins e) 0); repeat case_bool_decide; cbn; naive_solver. }
  rewrite Hk. destruct (bool_decide_reflect (~ kept p e)) as [He|He]; cbn [andb].
  2:{ specialize (IH (S index) lowest). destruct (scan_lowest p (S index) l lowest) as [[j n]|].
      - destruct IH as [[-> Hb]|(l1 & e1 & l2 & -> & -> & -> & H1 & H2 & H3 & H4)].
        + left. split; [done|]. intros e' [->|]%elem_of_cons; [naive_solver|by apply Hb].
        + right. exists (e :: l1), e1, l2. cbn. split_and!; try done; try lia.
          intros e' [->|]%elem_of_cons; [naive_solver|by apply H2].
      - destruct IH as [-> Hf]. split; [done|]. constructor; [|done]. by apply dec_stable. }
  destruct (match lowest with None => true | Some (_, n) => pe_number e <? n end) eqn:Hlt.
  - specialize (IH (S index) (Some (index, pe_number e))).
    destruct (scan_lowest _ _ l _) as [[j n]|]; [|by destruct IH]. right.
    destruct IH as [[[= <- <-] Hb]|(l1 & e1 & l2 & -> & -> & -> & H1 & H2 & H3 & H4)].
    + exists [], e, l. cbn. split_and!; try done; try lia; [intros e' ?; set_solver|].
      intros j' n' ->. by apply Z.ltb_lt in Hlt.
    + exists (e :: l1), e1, l2. specialize (H4 _ _ eq_refl). cbn. split_and!; try done; try lia.
      * intros e' [->|]%elem_of_cons; [lia|by apply H2].
      * intros j' n' ->. apply Z.ltb_lt in Hlt. lia.
  - destruct lowest as [[j0 n0]|]; [|done]. apply Z.ltb_ge in Hlt. specialize (IH (S index) (Some (j0, n0))).
    destruct (scan_lowest _ _ l _) as [[j n]|]; [|by destruct IH].
    destruct IH as [[[= -> ->] Hb]|(l1 & e1 & l2 & -> & -> & -> & H1 & H2 & H3 & H4)].
    + left. split; [done|]. intros e' [->|]%elem_of_cons; [done|by apply Hb].
    + right. specialize (H4 _ _ eq_refl) as Hj. exists (e :: l1), e1, l2. cbn. split_and!; try done; try lia.
      intros e' [->|]%elem_of_cons; [lia|by apply H2].
Qed.

(** Eviction removes the first of the lowest entries that may go, or finds none. *)
Lemma evict_lowest_spec i :
  match evict_lowest i with
  | (true, i') => exists l1 e l2, tokens i = l1 ++ e :: l2 /\ i' = with_tokens i (l1 ++ l2) /\
      ~ kept (protected i) e /\ not_below (protected i) (pe_number e + 1) l1 /\
      not_below (protected i) (pe_number e) l2
  | (false, i') => i' = i /\ Forall (kept (protected i)) (tokens i)
  end.
Proof.
  unfold evict_lowest. pose proof (scan_lowest_spec (protected i) (tokens i) 0 None) as Hs.
  destruct (scan_lowest _ _ _ _) as [[j n]|]; [|naive_solver].
  destruct Hs as [[[=] _]|(l1 & e & l2 & Hl & -> & -> & He & H1 & H2 & _)].
  exists l1, e, l2. split_and!; try done. f_equal. rewrite Hl. cbn. apply delete_middle.
Qed.

(** Zero or more evictions. *)
Record evicts (i i' : ParentAccountingInner) : Prop := {
  ev_capacity : capacity i' = capacity i;
  ev_protected : protected i' = protected i;
  ev_sublist : tokens i' `sublist_of` tokens i;
  ev_kept : filter (kept (protected i)) (tokens i') = filter (kept (protected i)) (tokens i) }.

Lemma evicts_refl i : evicts i i.
Proof. by split. Qed.

Lemma evicts_trans i j k : evicts i j -> evicts j k -> evicts i k.
Proof.
  intros [C1 P1 S1 K1] [C2 P2 S2 K2]. split; [congruence|congruence|by etrans|]. rewrite P1 in K2. congruence.
Qed.

Lemma evict_lowest_evicts i : evicts i (evict_lowest i).2.
Proof.
  pose proof (evict_lowest_spec i) as Hs. destruct (evict_lowest i) as [[] i']; cbn.
  - destruct Hs as (l1 & e & l2 & Hl & -> & He & _). split; cbn; [done|done| |].
    + rewrite Hl. apply sublist_app; [done|]. by apply sublist_cons.
    + rewrite Hl, !filter_app, filter_cons_False by done. done.
  - destruct Hs as [-> _]. apply evicts_refl.
Qed.

(** The loop ends within its fuel: below the capacity, or with nothing left to evict. *)
Lemma evict_to_capacity_ends fuel : forall i, (length (tokens i) <= fuel)%nat ->
  exists i', evict_to_capacity fuel i = Some i' /\ evicts i i' /\
    ((length (tokens i') <= capacity i)%nat \/ Forall (kept (protected i)) (tokens i')).
Proof.
  induction fuel as [|fuel IH]; intros i Hf; cbn [evict_to_capacity];
    destruct (Nat.leb_spec (length (tokens i)) (capacity i)) as [Hc|Hc];
    try (exists i; split_and!; [done|apply evicts_refl|by left]); [lia|].
  pose proof (evict_lowest_spec i) as Hs. pose proof (evict_lowest_evicts i) as He.
  destruct (evict_lowest i) as [[] i1]; cbn [snd] in He.
  - destruct Hs as (l1 & e & l2 & Hl & -> & _).
    destruct (IH (with_tokens i (l1 ++ l2))) as (i' & -> & He' & Hend).
    { cbn. rewrite Hl, length_app in Hf. cbn in Hf. rewrite length_app. lia. }
    exists i'. split_and!; [done|by eapply evicts_trans|done].
  - destruct Hs as [-> Hk]. exists i. split_and!; [done|apply evicts_refl|by right].
Qed.

(** ** The invariant *)

(** A live lease or pin: the hash, and the token it was taken on. *)
Abbreviation Hold := (bytes * CompletedParent)%type.

Definition holds (h : bytes) (held : list Hold) : Z := zlen (filter (fun x => x.1 = h) held).
Definition pinned (l : list ParentAccountingEntry) : nat := length (filter (fun e => pe_pins e <> 0) l).

Record registry_core (i : ParentAccountingInner) (held : list Hold) : Prop := {
  ok_unique : NoDup (hashes (tokens i));
  ok_pins : forall e, e ∈ tokens i -> pe_pins e = holds (pe_hash e) held;
  ok_held : forall h t, (h, t) ∈ held -> exists e, find_entry h (tokens i) = Some e /\ pe_token e = t;
  ok_protected : forall h, protected i = Some h ->
    exists e, find_entry h (tokens i) = Some e /\ pe_admitted e = true }.

(** How far pins and the protected head can hold the store over its capacity. *)
Definition bounded (i : ParentAccountingInner) : Prop :=
  (length (tokens i) <= Nat.max (capacity i) (pinned (tokens i) + 2))%nat.

Definition registry_ok (i : ParentAccountingInner) (held : list Hold) : Prop :=
  registry_core i held /\ bounded i.

Lemma holds_pos h t held : (h, t) ∈ held -> 0 < holds h held.
Proof.
  intros Hin. unfold holds, zlen. assert ((h, t) ∈ filter (fun x => x.1 = h) held) as Hf
    by (by apply list_elem_of_filter). destruct (filter _ held); [by apply not_elem_of_nil in Hf|cbn; lia].
Qed.

Lemma holds_cons h h' t held : holds h ((h', t) :: held) = (if decide (h' = h) then 1 else 0) + holds h held.
Proof. unfold holds. rewrite filter_cons. cbn. case_decide; [by rewrite zlen_cons|done]. Qed.

Lemma holds_app h l1 l2 : holds h (l1 ++ l2) = holds h l1 + holds h l2.
Proof. unfold holds. by rewrite filter_app, zlen_app. Qed.

(** Entries that eviction keeps: at most the pinned ones and the protected one. *)
Lemma kept_length p l : NoDup (hashes l) -> Forall (kept p) l -> (length l <= pinned l + 1)%nat.
Proof.
  unfold pinned. induction l as [|e l IH]; [cbn; lia|].
  intros [Hn Hd]%NoDup_cons [He Hl]%Forall_cons. rewrite filter_cons. cbn [length].
  case_decide as Hp; cbn [length]; [specialize (IH Hd Hl); lia|].
  destruct He as [He|He]; [done|].
  enough (filter (fun e => pe_pins e <> 0) l = l) as -> by lia. clear IH Hd.
  assert (Hall : Forall (fun e => pe_pins e <> 0) l).
  2:{ induction Hall as [|x l Hx _ IHl]; [done|]. rewrite filter_cons_True by done. f_equal. apply IHl; [set_solver|].
      by apply Forall_cons in Hl as [_ Hl]. }
  rewrite Forall_forall in Hl |- *. intros x Hx. destruct (Hl x Hx) as [|Hx']; [done|].
  exfalso. apply Hn. apply list_elem_of_fmap. exists x. split; [congruence|done].
Qed.

Lemma evicts_pinned i i' : evicts i i' -> pinned (tokens i') = pinned (tokens i).
Proof.
  intros [_ _ _ Hk]. unfold pinned. f_equal.
  assert (Hf : forall l : list ParentAccountingEntry, filter (fun e => pe_pins e <> 0) l =
    filter (fun e => pe_pins e <> 0) (filter (kept (protected i)) l)).
  { intros l. symmetry. apply list_filter_filter_l. by left. }
  by rewrite Hf, Hk, <- Hf.
Qed.

Lemma evicts_find i i' h e : NoDup (hashes (tokens i)) -> evicts i i' ->
  find_entry h (tokens i) = Some e -> kept (protected i) e -> find_entry h (tokens i') = Some e.
Proof.
  intros Hd [_ _ Hs Hk] Hf He. apply find_entry_some in Hf as [Hin Hh]; [|done].
  apply find_entry_some; [by eapply sublist_NoDup, (fmap_sublist pe_hash)|]. split; [|done].
  enough (Hx : e ∈ filter (kept (protected i)) (tokens i')) by (by apply list_elem_of_filter in Hx as [_ Hx]).
  rewrite Hk. by apply list_elem_of_filter.
Qed.

Lemma evicts_core i i' held : registry_core i held -> evicts i i' -> registry_core i' held.
Proof.
  intros [Hd Hp Hh Hpr] He. pose proof He as [Hc Hpp Hs _]. split.
  - by eapply sublist_NoDup, (fmap_sublist pe_hash).
  - intros e Hin. apply Hp. by eapply elem_of_sublist.
  - intros h t Hin. destruct (Hh h t Hin) as (e & Hf & Ht). exists e. split; [|done].
    eapply evicts_find; eauto. left. apply find_entry_some in Hf as [Hin' <-]; [|done].
    rewrite (Hp e Hin'). pose proof (holds_pos _ _ _ Hin). lia.
  - intros h Hpe. rewrite Hpp in Hpe. destruct (Hpr h Hpe) as (e & Hf & Ha). exists e. split; [|done].
    eapply evicts_find; eauto. right. apply find_entry_some in Hf as [_ <-]; done.
Qed.

(** ** Every critical section keeps the invariant *)

Lemma set_entry_find h e e' l : find_entry h l = Some e -> pe_hash e' = h ->
  forall h', find_entry h' (set_entry h e' l) = if decide (h' = h) then Some e' else find_entry h' l.
Proof.
  intros Hf He' h'. revert Hf. induction l as [|x l IH]; cbn; [done|].
  destruct (bool_decide_reflect (pe_hash x = h)) as [Hx|Hx]; cbn.
  - intros [= ->]. rewrite He'. destruct (decide (h' = h)) as [->|Hne]; [by rewrite bool_decide_true|].
    rewrite !bool_decide_false by congruence. done.
  - intros Hf. rewrite IH by done. destruct (decide (h' = h)) as [->|Hne]; [by rewrite bool_decide_false|done].
Qed.

Lemma set_entry_core i held held' h e e' p' :
  registry_core i held -> find_entry h (tokens i) = Some e -> pe_hash e' = h ->
  pe_pins e' = holds h held' -> (forall h', h' <> h -> holds h' held' = holds h' held) ->
  (forall h' t, (h', t) ∈ held' -> (h', t) ∈ held \/ h' = h /\ t = pe_token e) ->
  (pe_token e' = pe_token e \/ holds h held' = 0) -> (pe_admitted e = true -> pe_admitted e' = true) ->
  (forall x, p' = Some x -> protected i = Some x \/ x = h /\ pe_admitted e' = true) ->
  registry_core {| tokens := set_entry h e' (tokens i); capacity := capacity i; protected := p' |} held'.
Proof.
  intros [Hd Hp Hh Hpr] Hf He' Hpins Hother Hheld Htok Hadm Hprot.
  destruct (find_entry_split _ _ _ Hf) as (l1 & l2 & Hl & Hn & Heh & Hs). specialize (Hs e').
  split; cbn [tokens protected].
  - rewrite Hs, map_app. cbn. rewrite He', <- Heh. by rewrite Hl, map_app in Hd.
  - intros x. rewrite Hs. intros Hx. assert (x = e' \/ x ∈ l1 ++ l2) as [->|Hx'] by set_solver; [by rewrite He'|].
    rewrite Hother; [apply Hp; rewrite Hl; set_solver|].
    intros Hxh. rewrite Hl, map_app in Hd. cbn in Hd. apply NoDup_app in Hd as (_ & Hd1 & [Hd2 _]%NoDup_cons).
    rewrite Heh in Hd1, Hd2. apply elem_of_app in Hx' as [Hx'|Hx'].
    + apply Hn. rewrite <- Hxh. by apply list_elem_of_fmap_2.
    + apply Hd2. rewrite <- Hxh. by apply list_elem_of_fmap_2.
  - intros h' t Hin. rewrite (set_entry_find _ _ _ _ Hf He'). destruct (decide (h' = h)) as [->|Hne].
    + exists e'. split; [done|]. pose proof (holds_pos _ _ _ Hin). destruct Htok as [->|]; [|lia].
      destruct (Hheld _ _ Hin) as [Hold|[_ ->]]; [|done]. destruct (Hh _ _ Hold) as (e0 & Hf0 & <-). congruence.
    + destruct (Hheld _ _ Hin) as [Hold|[? _]]; [by apply Hh|done].
  - intros x Hx. rewrite (set_entry_find _ _ _ _ Hf He'). destruct (Hprot x Hx) as [Hold|[-> Ha]].
    + destruct (Hpr x Hold) as (e0 & Hf0 & Ha0). destruct (decide (x = h)) as [->|Hne]; [|eauto].
      exists e'. split; [done|]. apply Hadm. congruence.
    + exists e'. by rewrite decide_True.
Qed.

Lemma set_entry_pinned h e e' l : find_entry h l = Some e -> (pe_pins e <> 0 -> pe_pins e' <> 0) ->
  (pinned l <= pinned (set_entry h e' l))%nat /\ length (set_entry h e' l) = length l.
Proof.
  intros Hf Hp. destruct (find_entry_split _ _ _ Hf) as (l1 & l2 & -> & _ & _ & ->). unfold pinned.
  rewrite !filter_app, !length_app, !filter_cons. cbn [length].
  split; [|lia]. do 2 case_decide; cbn [length]; (lia || tauto).
Qed.

Lemma set_entry_bounded i h e e' p' :
  bounded i -> find_entry h (tokens i) = Some e -> (pe_pins e <> 0 -> pe_pins e' <> 0) ->
  bounded {| tokens := set_entry h e' (tokens i); capacity := capacity i; protected := p' |}.
Proof.
  intros Hb Hf Hp. destruct (set_entry_pinned h e e' (tokens i) Hf Hp) as [Hpn Hlen].
  unfold bounded in *. cbn [tokens capacity]. rewrite Hlen. lia.
Qed.

Lemma append_bounded i e :
  (0 < capacity i)%nat -> NoDup (hashes (tokens i)) -> bounded i -> pe_pins e = 0 ->
  let i1 := if (capacity i <=? length (tokens i))%nat then (evict_lowest i).2 else i in
  bounded (with_tokens i1 (tokens i1 ++ [e])).
Proof.
  intros Hcap Hd Hb He. cbv zeta. unfold bounded in *.
  assert (Hpin : forall l, pinned (l ++ [e]) = pinned l).
  { intros l. unfold pinned. rewrite filter_app, length_app, filter_cons_False by (rewrite He; tauto). cbn. lia. }
  cbn [with_tokens tokens capacity]. rewrite Hpin, length_app. cbn [length].
  destruct (Nat.leb_spec (capacity i) (length (tokens i))) as [Hle|Hlt]; [|lia].
  pose proof (evict_lowest_spec i) as Hs. pose proof (evict_lowest_evicts i) as Hev.
  pose proof (evicts_pinned _ _ Hev) as Hpp. rewrite Hpp.
  destruct (evict_lowest i) as [[] i1]; cbn [snd] in *.
  - destruct Hs as (l1 & x & l2 & Hl & -> & _). cbn [with_tokens tokens capacity] in *.
    rewrite Hl in Hb at 1. rewrite !length_app in *. cbn [length] in Hb. lia.
  - destruct Hs as [-> Hk]. pose proof (kept_length _ _ Hd Hk). lia.
Qed.

(** A pinned entry: one more hold on the token it has. *)
Lemma pin_ok i held h e p' :
  registry_ok i held -> find_entry h (tokens i) = Some e ->
  (forall x, p' = Some x -> protected i = Some x \/ x = h /\ pe_admitted e = true) ->
  registry_ok {| tokens := set_entry h (with_pins e (pe_pins e + 1)) (tokens i);
                 capacity := capacity i; protected := p' |} ((h, pe_token e) :: held).
Proof.
  intros [Hc Hb] Hf Hp. pose proof (find_entry_split _ _ _ Hf) as (l1 & l2 & Hl & _ & Hh & _).
  assert (Hpins : pe_pins e = holds h held) by (rewrite <- Hh; apply Hc; rewrite Hl; set_solver).
  pose proof (zlen_nonneg (filter (fun x : Hold => x.1 = h) held)) as Hz. fold (holds h held) in Hz.
  split.
  - apply (set_entry_core i held) with (e := e); try done.
    + rewrite holds_cons, decide_True by done. cbn. lia.
    + intros h' Hne. rewrite holds_cons, decide_False by done. lia.
    + intros h' t [[= -> ->]|]%elem_of_cons; tauto.
    + by left.
  - eapply set_entry_bounded; [done..|]. cbn. lia.
Qed.

Lemma admit_ok i held h : registry_ok i held -> registry_ok (admit_entry h i).2 held.
Proof.
  intros [Hc Hb]. unfold admit_entry. destruct (find_entry h (tokens i)) as [e|] eqn:Hf; [|done].
  pose proof (find_entry_split _ _ _ Hf) as (l1 & l2 & Hl & _ & Hh & _). split; cbn [snd].
  - apply (set_entry_core i held) with (e := e); try done; cbn.
    + rewrite <- Hh. apply Hc. rewrite Hl. set_solver.
    + tauto.
    + by left.
    + intros x [= <-]. by right.
  - by eapply set_entry_bounded.
Qed.

Lemma insert_inner_ok i held h n t id a :
  (0 < capacity i)%nat -> registry_ok i held -> registry_ok (insert_inner h n t id a i) held.
Proof.
  intros Hcap [Hc Hb]. unfold insert_inner. destruct (find_entry h (tokens i)) as [e|] eqn:Hf.
  - pose proof (find_entry_split _ _ _ Hf) as (l1 & l2 & Hl & _ & Hh & _).
    assert (Hpins : pe_pins e = holds h held) by (rewrite <- Hh; apply Hc; rewrite Hl; set_solver).
    pose proof (zlen_nonneg (filter (fun x : Hold => x.1 = h) held)) as Hz. fold (holds h held) in Hz.
    destruct (Z.ltb_spec 0 (pe_pins e)) as [|Hle]; [done|]. split.
    + apply (set_entry_core i held) with (e := e); try done; cbn; [tauto|right; lia|by intros ->|tauto].
    + by eapply set_entry_bounded.
  - set (i1 := if (capacity i <=? length (tokens i))%nat then (evict_lowest i).2 else i).
    assert (He : evicts i i1) by (unfold i1; destruct (_ <=? _)%nat; [apply evict_lowest_evicts|apply evicts_refl]).
    apply find_entry_none in Hf. pose proof (evicts_core _ _ _ Hc He) as [Hd Hp Hhe Hpr].
    pose proof He as [Ec Ep Es _].
    assert (Hf1 : (h ∉ hashes (tokens i1))) by (intros Hin; apply Hf; eapply elem_of_sublist; [done|by apply (fmap_sublist pe_hash)]).
    split; [split; cbn [with_tokens tokens protected]|].
    + rewrite map_app. apply NoDup_app. split_and!; [done| |cbn; apply NoDup_singleton].
      intros x Hin Hx%list_elem_of_singleton. by subst x.
    + intros e [Hin|Hin%list_elem_of_singleton]%elem_of_app; [by apply Hp|]. subst e. cbn.
      unfold holds. destruct (filter _ held) as [|[h' t'] l] eqn:Hfl; [done|].
      assert ((h', t') ∈ filter (fun x : Hold => x.1 = h) held) as [Hh' Hin]%list_elem_of_filter by (rewrite Hfl; left).
      cbn in Hh'. subst h'. destruct (Hhe _ _ Hin) as (e & He' & _).
      exfalso. apply Hf1. apply find_entry_split in He' as (l1 & l2 & -> & _ & <- & _).
      rewrite map_app. cbn. set_solver.
    + intros h' t' Hin. destruct (Hhe _ _ Hin) as (e & He' & Ht). exists e. split; [by apply find_entry_snoc|done].
    + intros x Hxp. destruct (Hpr _ Hxp) as (e & He' & Ht). exists e. split; [by apply find_entry_snoc|done].
    + apply append_bounded; try done. apply Hc.
Qed.

Lemma insert_capacity h n t id a i : capacity (insert_inner h n t id a i) = capacity i.
Proof.
  unfold insert_inner. destruct (find_entry _ _); [by destruct (_ <? _)|].
  destruct (_ <=? _)%nat; [|done]. apply (evict_lowest_evicts i).
Qed.

(** Dropping a hold: no overflow, the loop ends, and the invariant holds again. *)
Lemma unpin_ok i h t l1 l2 :
  registry_ok i (l1 ++ (h, t) :: l2) ->
  exists i', unpin h i = Ok i' /\ registry_ok i' (l1 ++ l2) /\ capacity i' = capacity i /\
    protected i' = protected i /\ exists e j, find_entry h (tokens i) = Some e /\
      j = with_tokens i (set_entry h (with_pins e (pe_pins e - 1)) (tokens i)) /\ evicts j i' /\
      ((length (tokens i') <= capacity i)%nat \/ Forall (kept (protected i)) (tokens i')).
Proof.
  intros [Hc Hb]. destruct (ok_held _ _ Hc h t) as (e & Hf & Ht); [set_solver|].
  pose proof (find_entry_split _ _ _ Hf) as (k1 & k2 & Hl & _ & Hh & _).
  assert (Hpins : pe_pins e = holds h (l1 ++ l2) + 1).
  { rewrite (ok_pins _ _ Hc e) by (rewrite Hl; set_solver). rewrite Hh, !holds_app, holds_cons, decide_True by done. lia. }
  pose proof (zlen_nonneg (filter (fun x : Hold => x.1 = h) (l1 ++ l2))) as Hz. fold (holds h (l1 ++ l2)) in Hz.
  unfold unpin. rewrite Hf. unfold checked_sub. destruct (Z.leb_spec 1 (pe_pins e)) as [_|]; [|lia].
  cbn [ok_or rbind]. set (j := with_tokens i _).
  assert (Hj : registry_core j (l1 ++ l2)).
  { apply (set_entry_core i (l1 ++ (h, t) :: l2)) with (e := e); try done; cbn.
    - lia.
    - intros h' Hne. rewrite !holds_app, holds_cons, decide_False by done. lia.
    - intros h' t' Hin. left. set_solver.
    - by left.
    - tauto. }
  destruct (evict_to_capacity_ends (length (tokens j)) j) as (i' & -> & He & Hend); [done|].
  cbn [ok_or]. exists i'. pose proof He as [Ec Ep _ _]. cbn in Ec, Ep.
  split_and!; [done| |done|done|eauto 8]. split; [by eapply evicts_core|].
  unfold bounded. rewrite Ec. destruct Hend as [Hlen|Hk]; [cbn in Hlen; lia|].
  pose proof (kept_length _ _ (ok_unique _ _ (evicts_core _ _ _ Hj He)) Hk). lia.
Qed.

(** ** Runs of the registry *)

Section runs.
Context `{HeaderHash}.

(** The critical sections, and the end of a lease. *)
Inductive Event :=
| Insert (hash : bytes) (number : Z) (token : CompletedParent) (identity : option (Z * bytes)) (admitted : bool)
| Pin (hash : bytes)
| Admit (hash : bytes)
| Resolve (parent : SealedHeader) (chain : ChainIdentity) (profile : BlockProfile)
| Unpin (hash : bytes).

Record Registry := { rg_inner : ParentAccountingInner; rg_held : list Hold }.

Inductive registry_step : Registry -> Event -> Registry -> Prop :=
| step_insert i held h n t id a :
    registry_step {| rg_inner := i; rg_held := held |} (Insert h n t id a)
                  {| rg_inner := insert_inner h n t id a i; rg_held := held |}
| step_pin i held h i' t : pin h i = Some i' -> get h i = Some t ->
    registry_step {| rg_inner := i; rg_held := held |} (Pin h) {| rg_inner := i'; rg_held := (h, t) :: held |}
| step_pin_none i held h : pin h i = None ->
    registry_step {| rg_inner := i; rg_held := held |} (Pin h) {| rg_inner := i; rg_held := held |}
| step_admit i held h :
    registry_step {| rg_inner := i; rg_held := held |} (Admit h)
                  {| rg_inner := (admit_entry h i).2; rg_held := held |}
| step_resolve i held parent chain p lease i' : resolve_cached parent chain p i = Ok (lease, i') ->
    registry_step {| rg_inner := i; rg_held := held |} (Resolve parent chain p)
                  {| rg_inner := i'; rg_held := (le_hash lease, le_token lease) :: held |}
| step_resolve_none i held parent chain p u : resolve_cached parent chain p i = Err u ->
    registry_step {| rg_inner := i; rg_held := held |} (Resolve parent chain p)
                  {| rg_inner := i; rg_held := held |}
| step_unpin i l1 h t l2 i' : unpin h i = Ok i' ->
    registry_step {| rg_inner := i; rg_held := l1 ++ (h, t) :: l2 |} (Unpin h)
                  {| rg_inner := i'; rg_held := l1 ++ l2 |}.

(** The runs from a state, and those from an empty registry. *)
Inductive run_from (s : Registry) : list Event -> Registry -> Prop :=
| run_nil : run_from s [] s
| run_snoc es s1 ev s2 : run_from s es s1 -> registry_step s1 ev s2 -> run_from s (es ++ [ev]) s2.

Definition empty_registry (capacity : nat) : Registry :=
  {| rg_inner := {| tokens := []; capacity := capacity; protected := None |}; rg_held := [] |}.

Lemma resolve_cached_iff parent chain p i lease i' :
  resolve_cached parent chain p i = Ok (lease, i') <->
  exists e, find_entry (sh_hash parent) (tokens i) = Some e /\ pe_admitted e = true /\
    pe_identity e = Some (ch_id chain, ch_genesis_hash chain) /\
    token_of parent p (pe_token e) /\ next_base_fee (completed (pe_token e)) = Ok (le_next_fee lease) /\
    le_hash lease = sh_hash parent /\ le_token lease = pe_token e /\
    i' = {| tokens := set_entry (sh_hash parent) (with_pins e (pe_pins e + 1)) (tokens i);
            capacity := capacity i; protected := Some (sh_hash parent) |}.
Proof.
  unfold resolve_cached. split.
  - intros Hr. inv_ok Hr. apply ok_or_inv in Hok. apply map_err_ok_inv in Hok0.
    apply orb_false_iff in Heqb as [Ha%negb_false_iff Hi%negb_false_iff%bool_decide_eq_true].
    apply checked_next_base_fee_iff in Hok0 as [Ht Hn]. subst. cbn. eauto 12.
  - intros (e & Hf & Ha & Hi & Ht & Hn & Eh & Et & ->). rewrite Hf. cbn [ok_or rbind].
    rewrite Ha, bool_decide_true by done. cbn [negb orb].
    rewrite (proj2 (checked_next_base_fee_iff _ _ _ _) (conj Ht Hn)). cbn.
    destruct lease; cbn in *; congruence.
Qed.

Lemma step_ok s ev s' :
  (0 < capacity (rg_inner s))%nat -> registry_ok (rg_inner s) (rg_held s) -> registry_step s ev s' ->
  registry_ok (rg_inner s') (rg_held s') /\ capacity (rg_inner s') = capacity (rg_inner s).
Proof.
  intros Hcap Hok Hs. destruct Hs as [i held h n t id a|i held h i' t Hp Hg|i held h Hp|i held h|i held pa ch p lease i' Hr|i held pa ch p u Hr|i l1 h t l2 i' Hu];
    cbn in Hcap, Hok |- *; try done.
  - split; [by apply insert_inner_ok|apply insert_capacity].
  - unfold pin in Hp. unfold get in Hg. destruct (find_entry h (tokens i)) as [e|] eqn:Hf; [|done].
    injection Hp as <-. injection Hg as <-. split; [|done]. apply pin_ok; [done..|tauto].
  - split; [by apply admit_ok|]. unfold admit_entry. by destruct (find_entry _ _).
  - apply resolve_cached_iff in Hr as (e & Hf & Ha & _ & _ & _ & -> & -> & ->). split; [|done].
    apply pin_ok; [done..|]. intros x [= <-]. tauto.
  - destruct (unpin_ok _ _ _ _ _ Hok) as (i1 & Hu1 & Hok1 & Hc & _). rewrite Hu in Hu1. by injection Hu1 as <-.
Qed.

Lemma empty_ok cap : registry_ok (rg_inner (empty_registry cap)) [].
Proof. split; [|unfold bounded; cbn; lia]. split; cbn; [constructor|set_solver|set_solver|done]. Qed.

Lemma run_ok cap es s : (0 < cap)%nat -> run_from (empty_registry cap) es s ->
  registry_ok (rg_inner s) (rg_held s) /\ capacity (rg_inner s) = cap.
Proof.
  intros Hcap. induction 1 as [|es s1 ev s2 _ [IH Hc] Hs].
  - split; [apply empty_ok|done].
  - destruct (step_ok s1 ev s2 ltac:(lia) IH Hs) as [? ->]. done.
Qed.

(** ** Where entries come from *)

(** The value of an entry was inserted under its hash; an admission was an event of its own. *)
Definition sourced (es : list Event) (e : ParentAccountingEntry) : Prop :=
  (exists n a, Insert (pe_hash e) n (pe_token e) (pe_identity e) a ∈ es) /\
  (pe_admitted e = true ->
   Admit (pe_hash e) ∈ es \/ exists n t id, Insert (pe_hash e) n t id true ∈ es).

Lemma sourced_app es es' e : sourced es e -> sourced (es ++ es') e.
Proof.
  intros [(n & a & Hi) Ha]. split; [exists n, a; apply elem_of_app; by left|].
  intros Hadm. destruct (Ha Hadm) as [?|(n' & t & id & ?)]; [left|right; exists n', t, id]; apply elem_of_app; by left.
Qed.

Lemma set_entry_forall (P : ParentAccountingEntry -> Prop) h e' l : Forall P l -> P e' -> Forall P (set_entry h e' l).
Proof.
  intros Hl He. induction Hl as [|x l Hx Hl IH]; cbn; [constructor|]. by case_bool_decide; constructor.
Qed.

Lemma evicts_forall (P : ParentAccountingEntry -> Prop) i i' : evicts i i' -> Forall P (tokens i) -> Forall P (tokens i').
Proof. intros [_ _ Hs _] Hf. rewrite Forall_forall in *. intros x Hx. apply Hf. by eapply elem_of_sublist. Qed.

Lemma step_sourced es s ev s' :
  registry_step s ev s' -> Forall (sourced es) (tokens (rg_inner s)) ->
  Forall (sourced (es ++ [ev])) (tokens (rg_inner s')).
Proof.
  intros Hs Hf. apply (Forall_impl _ (sourced (es ++ [ev]))) in Hf; [|by apply sourced_app].
  assert (Hfind : forall h e, find_entry h (tokens (rg_inner s)) = Some e -> pe_hash e = h /\ sourced (es ++ [ev]) e).
  { intros h e (l1 & l2 & Hl & _ & Hh & _)%find_entry_split. split; [done|].
    rewrite Forall_forall in Hf. apply Hf. rewrite Hl. set_solver. }
  assert (Hev : ev ∈ es ++ [ev]) by set_solver.
  destruct Hs as [i held h n t id a|i held h i' t Hp Hg|i held h Hp|i held h|i held pa ch p lease i' Hr|i held pa ch p u Hr|i l1 h t l2 i' Hu];
    cbn [rg_inner] in *; try done.
  - unfold insert_inner. destruct (find_entry h (tokens i)) as [e|] eqn:He.
    + apply Hfind in He as [Hh [_ Hadm]]. destruct (_ <? _); [done|]. apply set_entry_forall; [done|].
      split; cbn; [rewrite Hh; eauto|]. intros [Ha| ->]%orb_true_iff; [by apply Hadm|]. right. rewrite Hh. eauto.
    + apply Forall_app. split.
      * destruct (_ <=? _)%nat; [|done]. eapply evicts_forall; [apply evict_lowest_evicts|done].
      * apply Forall_singleton. split; cbn; [eauto|]. intros ->. right. eauto.
  - unfold pin in Hp. destruct (find_entry h (tokens i)) as [e|] eqn:He; [|done]. injection Hp as <-.
    apply Hfind in He as [_ He]. by apply set_entry_forall.
  - unfold admit_entry. destruct (find_entry h (tokens i)) as [e|] eqn:He; [|done]. apply Hfind in He as [Hh [Hi _]].
    apply set_entry_forall; [done|]. split; cbn; [done|]. intros _. left. by rewrite Hh.
  - apply resolve_cached_iff in Hr as (e & He & _ & _ & _ & _ & _ & _ & ->). apply Hfind in He as [_ He].
    by apply set_entry_forall.
  - unfold unpin in Hu. inv_ok Hu.
    destruct (evict_to_capacity_ends (length (tokens a)) a) as (i1 & Hi1 & He & _); [done|].
    rewrite Hu in Hi1. injection Hi1 as <-. eapply evicts_forall; [done|].
    destruct (find_entry h (tokens i)) as [e|] eqn:Hfe; inv_ok Hok; subst; [|done].
    apply Hfind in Hfe as [_ He']. by apply set_entry_forall.
Qed.

Lemma run_sourced cap es s : run_from (empty_registry cap) es s -> Forall (sourced es) (tokens (rg_inner s)).
Proof. induction 1 as [|es s1 ev s2 _ IH Hs]; [constructor|]. by eapply step_sourced. Qed.

Lemma is_admitted_iff h i : NoDup (hashes (tokens i)) ->
  is_admitted h i = true <-> exists e, find_entry h (tokens i) = Some e /\ pe_admitted e = true.
Proof.
  intros Hd. unfold is_admitted. rewrite existsb_exists. split.
  - intros (e & Hin & [Hh%bool_decide_eq_true Ha]%andb_true_iff). exists e. split; [|done].
    apply find_entry_some; [done|]. by apply list_elem_of_In in Hin.
  - intros (e & Hf & Ha). apply find_entry_some in Hf as [Hin Hh]; [|done]. exists e.
    split; [by apply list_elem_of_In|]. by rewrite bool_decide_true, Ha.
Qed.

(** Which hashes each critical section can make admitted. *)
Definition admitted_by (l : list ParentAccountingEntry) (h : bytes) : Prop :=
  exists e, e ∈ l /\ pe_hash e = h /\ pe_admitted e = true.

Lemma is_admitted_by h i : is_admitted h i = true <-> admitted_by (tokens i) h.
Proof.
  unfold is_admitted, admitted_by. rewrite existsb_exists. split.
  - intros (e & Hin & [Hh%bool_decide_eq_true Ha]%andb_true_iff). exists e. by rewrite list_elem_of_In.
  - intros (e & Hin & Hh & Ha). exists e. by rewrite <- list_elem_of_In, Ha, bool_decide_true.
Qed.

Lemma set_entry_admitted h e' l h' :
  admitted_by (set_entry h e' l) h' -> admitted_by l h' \/ pe_hash e' = h' /\ pe_admitted e' = true.
Proof.
  intros (e & Hin & Hh & Ha). assert (e ∈ l \/ e = e') as [Hl|Hl].
  { clear Hh Ha. induction l as [|x l IH]; cbn in Hin; [set_solver|]. case_bool_decide; set_solver. }
  - left. by exists e.
  - subst e. by right.
Qed.

Lemma with_pins_admitted h e n l h' : find_entry h l = Some e ->
  admitted_by (set_entry h (with_pins e n) l) h' -> admitted_by l h'.
Proof.
  intros (l1 & l2 & -> & _ & He & _)%find_entry_split [?|[Hh Ha]]%set_entry_admitted; [done|].
  exists e. cbn in *. split_and!; [set_solver|done|done].
Qed.

Lemma evicts_admitted i i' h : evicts i i' -> admitted_by (tokens i') h -> admitted_by (tokens i) h.
Proof. intros [_ _ Hs _] (e & Hin & He). exists e. split; [by eapply elem_of_sublist|done]. Qed.

Lemma insert_admitted h n t id a i h' :
  is_admitted h' (insert_inner h n t id a i) = true -> is_admitted h' i = true \/ h' = h /\ a = true.
Proof.
  rewrite !is_admitted_by. unfold insert_inner. destruct (find_entry h (tokens i)) as [e|] eqn:Hf.
  - destruct (_ <? _); [by left|]. intros [?|[Hh [Ha|Ha]%orb_true_iff]]%set_entry_admitted; [by left| |]; cbn in *.
    + left. exists e. apply find_entry_split in Hf as (l1 & l2 & -> & _ & He & _). split_and!; [set_solver|done|done].
    + right. apply find_entry_split in Hf as (_ & _ & _ & _ & He & _). by split; [congruence|].
  - intros (e & [Hin|Hin%list_elem_of_singleton]%elem_of_app & Hh & Ha); [left|subst; by right].
    destruct (_ <=? _)%nat; [|by exists e]. eapply evicts_admitted; [apply evict_lowest_evicts|]. by exists e.
Qed.

Lemma admit_admitted h i h' : is_admitted h' (admit_entry h i).2 = true -> is_admitted h' i = true \/ h' = h.
Proof.
  unfold admit_entry. destruct (find_entry h (tokens i)) as [e|] eqn:Hf; [|by left]. rewrite !is_admitted_by. cbn [snd tokens].
  intros [?|[Hh _]]%set_entry_admitted; [by left|right]. apply find_entry_split in Hf as (_ & _ & _ & _ & He & _).
  cbn in Hh. congruence.
Qed.

Lemma unpin_admitted h i i' h' : unpin h i = Ok i' -> is_admitted h' i' = true -> is_admitted h' i = true.
Proof.
  rewrite !is_admitted_by. intros Hu. unfold unpin in Hu. inv_ok Hu.
  destruct (evict_to_capacity_ends (length (tokens a)) a) as (i1 & Hi1 & He & _); [done|].
  rewrite Hu in Hi1. injection Hi1 as <-. intros Ha%(evicts_admitted _ _ _ He).
  destruct (find_entry h (tokens i)) as [e|] eqn:Hf; inv_ok Hok; subst; [|done]. exact (with_pins_admitted _ _ _ _ _ Hf Ha).
Qed.

(** C18: the registry in every reachable state, under any interleaving of its critical sections.  Hashes
    are unique; an entry's pin count is the number of live leases and admission pins on it; every one
    of them still finds the token it was taken on, and releasing it neither underflows the count nor
    leaves the eviction loop running; the protected head is cached and admitted.  The store exceeds
    its capacity by pinned entries and two more at most. *)
Theorem registry_invariant cap es s :
  (0 < cap)%nat -> run_from (empty_registry cap) es s ->
  let i := rg_inner s in
  NoDup (hashes (tokens i)) /\
  (forall e, e ∈ tokens i -> pe_pins e = holds (pe_hash e) (rg_held s)) /\
  (forall h t, (h, t) ∈ rg_held s -> get h i = Some t /\ exists i', unpin h i = Ok i') /\
  (forall h, protected i = Some h -> is_admitted h i = true) /\
  (len i <= Nat.max cap (pinned (tokens i) + 2))%nat.
Proof.
  intros Hcap Hrun. destruct (run_ok _ _ _ Hcap Hrun) as [[Hc Hb] Hcp]. cbv zeta.
  pose proof Hc as [Hd Hp Hh Hpr]. split_and!; [done|done| | |by rewrite <- Hcp].
  - intros h t Hin. split; [unfold get; destruct (Hh h t Hin) as (e & -> & <-); done|].
    apply list_elem_of_split in Hin as (l1 & l2 & Hl). destruct (unpin_ok (rg_inner s) h t l1 l2) as (i' & Hu & _); [|eauto].
    rewrite <- Hl. by split.
  - intros h Hpe. apply is_admitted_iff; [done|]. by apply Hpr.
Qed.

(** The hash an event makes the protected head. *)
Definition head_of (ev : Event) : option bytes :=
  match ev with Admit h => Some h | Resolve parent _ _ => Some (sh_hash parent) | _ => None end.

Lemma step_protected s ev s' h :
  registry_step s ev s' -> protected (rg_inner s) = Some h -> (head_of ev = None \/ head_of ev = Some h) ->
  protected (rg_inner s') = Some h.
Proof.
  intros Hs Hp Hev. destruct Hs as [i held h' n t id a|i held h' i' t Hpin Hg|i held h' Hpin|i held h'|i held pa ch p lease i' Hr|i held pa ch p u Hr|i l1 h' t l2 i' Hu];
    cbn [rg_inner head_of] in *; try done.
  - unfold insert_inner. destruct (find_entry _ _); [by destruct (_ <? _)|].
    destruct (_ <=? _)%nat; [|done]. rewrite <- Hp. apply (evict_lowest_evicts i).
  - unfold pin in Hpin. destruct (find_entry _ _); [|done]. by injection Hpin as <-.
  - unfold admit_entry. destruct (find_entry _ _); [|done]. by destruct Hev as [|[= ->]].
  - apply resolve_cached_iff in Hr as (e & _ & _ & _ & _ & _ & _ & _ & ->). by destruct Hev as [|[= ->]].
  - unfold unpin in Hu. inv_ok Hu.
    destruct (evict_to_capacity_ends (length (tokens a)) a) as (i1 & Hi1 & He & _); [done|].
    rewrite Hu in Hi1. injection Hi1 as <-. rewrite (ev_protected _ _ He).
    destruct (find_entry _ _); inv_ok Hok; by subst.
Qed.

(** C20: the head stays available.  Once a block's token is the protected head, by admission or by
    being resolved, it stays cached and admitted for as long as no other block takes that place:
    publishing any number of candidates, restoring a window of older blocks, pins and releases never
    evict it or lower its admission. *)
Theorem head_retained cap es s h es' s' :
  (0 < cap)%nat -> run_from (empty_registry cap) es s -> protected (rg_inner s) = Some h ->
  run_from s es' s' -> Forall (fun ev => head_of ev = None \/ head_of ev = Some h) es' ->
  protected (rg_inner s') = Some h /\ is_admitted h (rg_inner s') = true.
Proof.
  intros Hcap Hrun Hp Hrun' Hes. destruct (run_ok _ _ _ Hcap Hrun) as [Hok Hc].
  assert (registry_ok (rg_inner s') (rg_held s') /\ capacity (rg_inner s') = cap /\ protected (rg_inner s') = Some h)
    as ([Hcore _] & _ & Hp').
  { induction Hrun' as [|es1 s1 ev s2 _ IH Hs]; [done|]. apply Forall_app in Hes as [Hes [Hev _]%Forall_cons].
    destruct (IH Hes) as (Hok1 & Hc1 & Hp1). destruct (step_ok s1 ev s2 ltac:(lia) Hok1 Hs) as [? ->].
    split_and!; [done|done|]. by eapply step_protected. }
  split; [done|]. apply is_admitted_iff; [apply Hcore|]. by apply Hcore.
Qed.

(** C19: what a lease is worth.  In every reachable state, the last critical section of [resolve]
    grants a lease exactly on an entry of the parent's hash that is admitted, carries the chain's
    identity and whose token is the parent header's own accounting; the lease's fee is the fee rule's
    value on it.  The entry's token and identity were inserted under that hash, and it was admitted by
    a live publication or by recovery admission, never by a restore. *)
Theorem lease_sound cap es s parent chain p lease i' :
  run_from (empty_registry cap) es s ->
  resolve_cached parent chain p (rg_inner s) = Ok (lease, i') ->
  let h := sh_hash parent in
  le_hash lease = h /\ token_of parent p (le_token lease) /\
  next_base_fee (completed (le_token lease)) = Ok (le_next_fee lease) /\
  get h (rg_inner s) = Some (le_token lease) /\ protected i' = Some h /\
  (exists n a, Insert h n (le_token lease) (Some (ch_id chain, ch_genesis_hash chain)) a ∈ es) /\
  (Admit h ∈ es \/ exists n t id, Insert h n t id true ∈ es).
Proof.
  intros Hrun (e & Hf & Ha & Hi & Ht & Hn & Hh & Htok & ->)%resolve_cached_iff. cbv zeta.
  pose proof (run_sourced _ _ _ Hrun) as Hs. rewrite Forall_forall in Hs.
  pose proof (find_entry_split _ _ _ Hf) as (l1 & l2 & Hl & _ & He & _).
  destruct (Hs e) as [Hins Hadm]; [rewrite Hl; set_solver|]. rewrite He in Hins, Hadm.
  rewrite Htok, <- Hi. unfold get. rewrite Hf. split_and!; try done. by apply Hadm.
Qed.
End runs.

(** ** The composed methods *)

Section methods.
Context `{HeaderHash} `{MdbxLaws}.

Lemma cached_exists h l : existsb (fun e => bool_decide (pe_hash e = h)) l = true <-> is_Some (find_entry h l).
Proof.
  induction l as [|x l IH]; cbn; [split; [done|by intros [? [=]]]|].
  case_bool_decide; cbn; [|done]. split; [eauto|done].
Qed.

(** What a miss leaves behind: the same state, or the record of the sidecar, not admitted. *)
Lemma restore_miss header id g p s o s' :
  find_entry (sh_hash header) (tokens (pa_inner s)) = None -> restore_exact header id g p s = Ok (o, s') ->
  (o = None /\ s' = s) \/
  exists t, o = Some t /\ token_of header p t /\
    s' = with_inner s (insert_inner (sh_hash header) (bh_number (sh_header header)) t (Some (id, g)) false (pa_inner s)).
Proof.
  intros Hf Hr. unfold restore_exact in Hr. rewrite Hf in Hr.
  destruct (negb (pa_attached s)); [destruct (pa_durability_required s); naive_solver|].
  inv_ok Hr. destruct a as [r|]; [|naive_solver]. right. inv_ok Hr. apply map_err_ok_inv in Hok0.
  apply from_local_storage_iff in Hok0 as [_ Ht]. subst. eauto.
Qed.

Lemma insert_new_entry h n t id a i : find_entry h (tokens i) = None ->
  find_entry h (tokens (insert_inner h n t id a i)) =
    Some {| pe_hash := h; pe_number := n; pe_token := t; pe_identity := id; pe_pins := 0; pe_admitted := a |}.
Proof.
  intros Hf. unfold insert_inner. rewrite Hf. cbn [with_tokens tokens].
  apply find_entry_app; [|done]. apply find_entry_none in Hf. destruct (_ <=? _)%nat; [|done].
  intros Hin. apply Hf. eapply elem_of_sublist; [done|]. apply (fmap_sublist pe_hash), evict_lowest_evicts.
Qed.

(** The entry an insertion leaves: its token, unless the hash is held by a lease. *)
Lemma insert_entry h n t id i :
  match find_entry h (tokens i) with Some e => 0 < pe_pins e | None => False end /\ insert_inner h n t id true i = i \/
  match find_entry h (tokens i) with Some e => pe_pins e <= 0 | None => True end /\
  exists e, find_entry h (tokens (insert_inner h n t id true i)) = Some e /\ pe_token e = t /\ pe_identity e = id /\
    pe_admitted e = true.
Proof.
  destruct (find_entry h (tokens i)) as [e|] eqn:Hf.
  - unfold insert_inner. rewrite Hf. destruct (Z.ltb_spec 0 (pe_pins e)); [by left|right]. split; [done|].
    cbn [with_tokens tokens]. eexists. 
    rewrite (set_entry_find h e _ _ Hf); [rewrite decide_True by done|by apply find_entry_split in Hf as (? & ? & _ & _ & ? & _)].
    split; [done|]. cbn. by rewrite orb_true_r.
  - right. split; [done|]. eexists. split; [by apply insert_new_entry|done].
Qed.

Lemma publish_inner h n id g t s s' : publish h n id g t s = (Ok (), s') ->
  pa_inner s' = insert_inner h n t (Some (id, g)) true (pa_inner s).
Proof.
  unfold publish. destruct (negb _); [done|]. destruct (pa_attached s).
  - match goal with |- context [put_accounting ?x ?y] => destruct (put_accounting x y) as [[[]|f] e] end; [|done].
    by intros [= <-].
  - destruct (pa_durability_required s); [done|]. by intros [= <-].
Qed.

(** [resolve] grants a lease only on a token that is cached and admitted already.  A miss may load
    the block's record from the sidecar into the cache, but it is not admitted there, so the call
    still refuses; no other entry changes its admission. *)
Lemma resolve_outcome parent chain p s :
  match resolve parent chain p s with
  | (Ok lease, s') =>
      exists i', resolve_cached parent chain p (pa_inner s) = Ok (lease, i') /\ s' = with_inner s i'
  | (Err u, s') =>
      u = Unavailable_for (sh_hash parent) /\ (forall lease i', resolve_cached parent chain p (pa_inner s) <> Ok (lease, i')) /\
      (s' = s \/ exists t, token_of parent p t /\ get (sh_hash parent) (pa_inner s) = None /\
         s' = with_inner s (insert_inner (sh_hash parent) (bh_number (sh_header parent)) t
                (Some (ch_id chain, ch_genesis_hash chain)) false (pa_inner s)))
  end.
Proof.
  unfold resolve. destruct (existsb _ _) eqn:He.
  - apply cached_exists in He. destruct (resolve_cached parent chain p (pa_inner s)) as [[lease i']|u] eqn:Hr; [eauto|].
    split_and!; [|done|by left]. unfold resolve_cached in Hr. destruct He as [e He]. rewrite He in Hr.
    cbn in Hr. destruct (_ || _); [congruence|]. destruct (checked_next_base_fee _ _ _); cbn in Hr; congruence.
  - assert (Hf : find_entry (sh_hash parent) (tokens (pa_inner s)) = None).
    { destruct (find_entry _ _) eqn:Hx; [|done]. rewrite (proj2 (cached_exists _ _)) in He by eauto. done. }
    assert (Hno : forall lease i', resolve_cached parent chain p (pa_inner s) <> Ok (lease, i')).
    { intros lease i' (e & Hx & _)%resolve_cached_iff. congruence. }
    destruct (restore_exact _ _ _ _ _) as [[o s1]|] eqn:Hr; [|auto].
    destruct (restore_miss _ _ _ _ _ _ _ Hf Hr) as [[-> ->]|(t & -> & Ht & ->)].
    + destruct (resolve_cached _ _ _ (pa_inner s)) as [[lease i']|u] eqn:Hrc; [by edestruct Hno|].
      unfold resolve_cached in Hrc. rewrite Hf in Hrc. cbn in Hrc. split_and!; [congruence|done|by left].
    + cbn [pa_inner with_inner]. pose proof (insert_new_entry (sh_hash parent) (bh_number (sh_header parent)) t
        (Some (ch_id chain, ch_genesis_hash chain)) false _ Hf) as Hfe.
      unfold resolve_cached. rewrite Hfe. cbn [ok_or rbind pe_admitted negb orb].
      split_and!; [done|done|]. right. exists t. unfold get. rewrite Hf. done.
Qed.

(** The registry after [resolve]: a lease is one more hold. *)
Lemma resolve_registry parent chain p s held :
  (0 < capacity (pa_inner s))%nat -> registry_ok (pa_inner s) held ->
  match resolve parent chain p s with
  | (Ok lease, s') => registry_ok (pa_inner s') ((le_hash lease, le_token lease) :: held)
  | (Err _, s') => registry_ok (pa_inner s') held
  end.
Proof.
  intros Hcap Hok. pose proof (resolve_outcome parent chain p s) as Hr. destruct (resolve parent chain p s) as [[lease|u] s'].
  - destruct Hr as (i' & Hr & ->).
    exact (proj1 (step_ok {| rg_inner := pa_inner s; rg_held := held |} _ _ Hcap Hok (step_resolve _ _ _ _ _ _ _ Hr))).
  - destruct Hr as (_ & _ & [->|(t & _ & _ & ->)]); [done|]. by apply insert_inner_ok.
Qed.

Lemma insert_new_unadmitted h n t id i :
  find_entry h (tokens i) = None -> is_admitted h (insert_inner h n t id false i) = false.
Proof.
  intros Hf. unfold insert_inner, is_admitted. rewrite Hf. cbn [with_tokens tokens].
  rewrite existsb_app. apply orb_false_iff. split; [|cbn; by rewrite andb_false_r].
  apply not_true_is_false. rewrite existsb_exists. intros (e & Hin & [Hh%bool_decide_eq_true _]%andb_true_iff).
  apply find_entry_none in Hf. apply Hf. rewrite <- Hh. apply list_elem_of_In in Hin.
  apply list_elem_of_fmap_2. destruct (_ <=? _)%nat; [|done]. eapply elem_of_sublist; [done|]. apply evict_lowest_evicts.
Qed.

(** Publication is durable.  A refused publication leaves the cache as it was.  After an accepted
    one, a process that finds the block in no cache restores exactly the published token from the
    sidecar, for the same header, chain and profile, unless the environment fails; and what it
    restores is not admitted. *)
Theorem publish_restore header id g p t s sp r s1 s2 :
  represents (committed_contents (pa_store s)) sp -> pa_attached s = true -> token_of header p t ->
  accounting_typed {| sa_chain_id := id; sa_genesis_hash := g; sa_block_number := bh_number (sh_header header);
                      sa_accounting := for_local_storage t |} ->
  is_ok (next_base_fee (completed t)) = true ->
  publish (sh_hash header) (bh_number (sh_header header)) id g t s = (r, s1) ->
  match r with
  | Err _ => pa_inner s1 = pa_inner s
  | Ok _ =>
      pa_store s2 = pa_store s1 -> pa_attached s2 = true -> get (sh_hash header) (pa_inner s2) = None ->
      match restore_exact header id g p s2 with
      | Ok (o, s3) => o = Some t /\ is_admitted (sh_hash header) (pa_inner s3) = false /\ pa_store s3 = pa_store s2
      | Err f => exists m, f = Refused (Mdbx m)
      end
  end.
Proof.
  intros Hrep Hat Ht Hty Hfee Hpub. set (rec := {| sa_chain_id := id |}) in *.
  pose proof Ht as (Hh & _ & _ & Hr). pose proof (reconcile_fields _ _ _ _ _ _ Hr) as (_ & Eh & _).
  unfold publish in Hpub. cbn [for_local_storage la_block_hash] in Hpub. rewrite Eh, bool_decide_true, Hat in Hpub by done.
  cbn [negb] in Hpub. fold rec in Hpub. destruct (put_accounting rec (pa_store s)) as [res e'] eqn:Hput.
  destruct res as [[]|f]; injection Hpub as <- <-; [|done].
  intros Hst Hat2 Hmiss. cbn [with_inner with_store pa_store] in Hst.
  assert (Hrec : exists sp', represents (committed_contents e') sp' /\ sp_accounting sp' !! sh_hash header = Some rec).
  { apply put_accounting_stored with (s := sp) in Hput; [|done|done]. destruct Hput as (sp' & Hrep' & Hl). exists sp'.
    split; [done|]. cbn in Hl. by rewrite Eh in Hl. }
  destruct Hrec as (sp' & Hrep' & Hl). unfold get in Hmiss.
  assert (Hf : find_entry (sh_hash header) (tokens (pa_inner s2)) = None) by (by destruct (find_entry _ _)).
  unfold restore_exact. rewrite Hf, Hat2, Hst. cbn [negb].
  destruct (get_accounting_answers (sh_hash header) sp' e' Hrep') as [->|[m ->]]; [|by exists m].
  cbn [rbind]. rewrite Hl. cbn [rec sa_chain_id sa_genesis_hash sa_block_number sa_accounting].
  rewrite !Z.eqb_refl, bool_decide_true by done. cbn [negb orb].
  rewrite (proj2 (from_local_storage_iff _ _ _ _) (conj eq_refl Ht)). cbn [map_err rbind].
  destruct (next_base_fee (completed t)) as [f|] eqn:Hn; [|done].
  rewrite (proj2 (checked_next_base_fee_iff _ _ _ _) (conj Ht Hn)). cbn [map_err rbind].
  split_and!; [done| |done]. cbn [with_inner pa_inner]. apply insert_new_unadmitted. done.
Qed.
End methods.

(** ** A concrete run *)

Definition sample_chain : ChainIdentity := {| ch_id := 7; ch_genesis_hash := word_of 1 |}.
Definition sample_publication : Event :=
  Insert (word_of 21) 21 sample_token (Some (7, word_of 1)) true.
Definition published : Registry :=
  {| rg_inner := insert_inner (word_of 21) 21 sample_token (Some (7, word_of 1)) true (rg_inner (empty_registry 2));
     rg_held := [] |}.
Definition sample_lease : ParentAccountingLease :=
  {| le_hash := word_of 21; le_token := sample_token; le_next_fee := 9916667 |}.
Definition leased : Registry :=
  {| rg_inner := {| tokens := [{| pe_hash := word_of 21; pe_number := 21; pe_token := sample_token;
       pe_identity := Some (7, word_of 1); pe_pins := 1; pe_admitted := true |}]; capacity := 2;
       protected := Some (word_of 21) |};
     rg_held := [(word_of 21, sample_token)] |}.
Definition candidate : Event := Insert (word_of 22) 22 sample_token (Some (7, word_of 1)) true.

Lemma sample_resolves :
  resolve_cached (H := toy_header_hash) sample_parent sample_chain small_profile (rg_inner published) =
  Ok (sample_lease, rg_inner leased).
Proof. vm_compute. reflexivity. Qed.

Lemma published_run : run_from (H := toy_header_hash) (empty_registry 2) [sample_publication] published.
Proof. apply (run_snoc _ []  (empty_registry 2)); constructor. Qed.

Lemma leased_run : run_from (H := toy_header_hash) (empty_registry 2)
  [sample_publication; Resolve sample_parent sample_chain small_profile] leased.
Proof.
  apply (run_snoc _ [sample_publication] published); [apply published_run|].
  exact (step_resolve _ [] _ _ _ sample_lease _ sample_resolves).
Qed.

Lemma candidate_run : run_from (H := toy_header_hash) leased [candidate]
  {| rg_inner := insert_inner (word_of 22) 22 sample_token (Some (7, word_of 1)) true (rg_inner leased);
     rg_held := rg_held leased |}.
Proof. apply (run_snoc _ [] leased); constructor. Qed.

Lemma registry_invariant_witness : exists i', unpin (word_of 21) (rg_inner leased) = Ok i'.
Proof.
  refine (proj2 (proj1 (proj2 (proj2 (registry_invariant (H := toy_header_hash) 2 _ leased _ leased_run)))
    (word_of 21) sample_token _)); [lia|left].
Defined.

Lemma head_retained_witness :
  is_admitted (word_of 21) (insert_inner (word_of 22) 22 sample_token (Some (7, word_of 1)) true (rg_inner leased)) = true.
Proof.
  refine (proj2 (head_retained (H := toy_header_hash) 2 _ leased (word_of 21) _ _ _ leased_run eq_refl candidate_run _));
    [lia|]. constructor; [by left|constructor].
Defined.

Lemma lease_sound_witness : token_of (H := toy_header_hash) sample_parent small_profile sample_token.
Proof.
  exact (proj1 (proj2 (lease_sound (H := toy_header_hash) 2 _ published sample_parent sample_chain small_profile
    sample_lease _ published_run sample_resolves))).
Defined.

Definition fresh_store : UnicityParentAccountings (H0 := memory_env) :=
  {| pa_inner := rg_inner (empty_registry 2); pa_attached := true; pa_store := no_tables;
     pa_durability_required := true; pa_repair_limit := 64 |}.

Definition sample_published :=
  publish (H0 := memory_env) (sh_hash sample_parent) 21 7 (word_of 1) sample_token fresh_store.

Lemma publish_restore_witness :
  match sample_published.1 with
  | Err _ => pa_inner sample_published.2 = pa_inner fresh_store
  | Ok _ =>
      pa_store fresh_store = pa_store sample_published.2 -> pa_attached fresh_store = true ->
      get (sh_hash sample_parent) (pa_inner fresh_store) = None ->
      match restore_exact (H := toy_header_hash) sample_parent 7 (word_of 1) small_profile fresh_store with
      | Ok (o, s3) => o = Some sample_token /\ is_admitted (sh_hash sample_parent) (pa_inner s3) = false /\
          pa_store s3 = pa_store fresh_store
      | Err f => exists m, f = Refused (Mdbx m)
      end
  end.
Proof.
  refine (publish_restore (H := toy_header_hash) (H1 := memory_laws) sample_parent 7 (word_of 1) small_profile
    sample_token fresh_store empty_spec _ _ fresh_store no_tables_represent eq_refl sample_token_of _ eq_refl
    (surjective_pairing _)).
  unfold accounting_typed. cbn. split_and!; try ulia; try reflexivity. unfold accounting_fields. cbn.
  repeat (apply Forall_cons; split; [ulia|]). constructor.
Defined.
End Accountings.
