(* ===== verification/Retention.v ===== *)
(** Companion retention: [crates/unicity/payload/src/prune.rs].

    One pass evicts the companions of blocks that are not canonical, up to the finalized block, then
    prunes below the configured depth, and prunes the accounting window.  It runs over the store of
    [CompanionStore], whose operations are used through their refinement of [Spec]; the canonical
    chain it compares with is the provider's, an argument ([ChainReader]).

    The theorem is about every outcome of a pass, failures included: deleting a companion cannot be
    undone, so what may be lost matters more than that the pass succeeds. *)
From stdpp Require Import gmap sorting.
From S2P Require Import Prelude BlockAccounting RootInput StoreCodec CompanionStore.

Module Retention.
Import StoreCodec CompanionStore.

(** ** Proof sources *)

(** A prune mode, [reth_prune_types::PruneMode]. *)
Inductive PruneMode := Full | Distance (n : Z) | Before (n : Z).

(** [PruneModes], its log filter as the list of its addresses. *)
Record PruneModes := {
  pm_sender_recovery : option PruneMode; pm_transaction_lookup : option PruneMode;
  pm_receipts : option PruneMode; pm_account_history : option PruneMode;
  pm_storage_history : option PruneMode; pm_bodies_history : option PruneMode;
  pm_receipts_log_filter : list (bytes * PruneMode) }.

Definition has_receipts_pruning (m : PruneModes) : bool :=
  match pm_receipts m with Some _ => true | None => false end
  || negb match pm_receipts_log_filter m with [] => true | _ => false end.

Definition PROOF_RETENTION : string :=
  "--unicity.proof-source requires indefinite receipts, bodies and companions; disable receipt pruning, receipt log filters, body pruning and companion retention depth".

Definition validate_proof_retention (segments : PruneModes) (companion_depth : option Z) : result string () :=
  if negb (has_receipts_pruning segments)
     && match pm_bodies_history segments with None => true | Some _ => false end
     && match companion_depth with None => true | Some _ => false end
  then Ok () else Err PROOF_RETENTION.

(** ** One pass *)

Definition ACCOUNTING_WINDOW : Z := 16.
Definition DEFAULT_REPAIR_LIMIT : Z := 64.

(** What the pass asks the provider: [BlockIdReader]. *)
Record ChainReader := {
  finalized_block_number : result string (option Z);
  block_hash : Z -> result string (option bytes);
  last_block_number : result string Z }.

Inductive CompanionPruneError (M : Type) :=
| Store (f : StoreFault M)
| Provider (text : string).
Arguments Store {M} f.
Arguments Provider {M} text.

(** [CompanionPruner], but for the store it shares. *)
Record CompanionPruner := { cp_provider : ChainReader; cp_depth : option Z; cp_repair_limit : Z }.

Section pruner.
Context `{MdbxEnv}.
Abbreviation outcome_of A := (result (CompanionPruneError MdbxError) A * Environment)%type.

Definition stored {A} (o : result (StoreFault MdbxError) A * Environment) : outcome_of A :=
  (map_err Store o.1, o.2).

(** The loop over the entries: an affirmative mismatch is removed, the first unresolved number kept. *)
Fixpoint evict_entries (c : ChainReader) (entries : list (bytes * Z)) (unresolved : option Z)
    (e : Environment) : outcome_of (option Z) :=
  match entries with
  | [] => (Ok unresolved, e)
  | (hash, number) :: entries =>
      match block_hash c number with
      | Err x => (Err (Provider x), e)
      | Ok (Some canonical) =>
          if negb (bool_decide (canonical = hash)) then
            match stored (remove hash e) with
            | (Err f, e) => (Err f, e)
            | (Ok _, e) => evict_entries c entries unresolved e
            end
          else evict_entries c entries unresolved e
      | Ok None =>
          evict_entries c entries (match unresolved with None => Some number | Some u => Some u end) e
      end
  end.

Definition evict_non_canonical (fuel : nat) (p : CompanionPruner) (e : Environment) : outcome_of () :=
  match finalized_block_number (cp_provider p) with
  | Err x => (Err (Provider x), e)
  | Ok None => (Ok (), e)
  | Ok (Some finalized) =>
      let end_ := saturating_add finalized 1 in
      match eviction_cursor e with
      | Err f => (Err (Store f), e)
      | Ok cursor =>
          let start := default 0 cursor in
          if end_ <=? start then (Ok (), e) else
          match entries_in_range fuel start end_ e with
          | Err f => (Err (Store f), e)
          | Ok entries =>
              match evict_entries (cp_provider p) entries None e with
              | (Err f, e) => (Err f, e)
              | (Ok unresolved, e) =>
                  let next := default end_ unresolved in
                  if negb (next =? start) then stored (set_eviction_cursor next e) else (Ok (), e)
              end
          end
      end
  end.

Definition prune_to_depth (fuel : nat) (p : CompanionPruner) (tip : Z) (e : Environment) : outcome_of () :=
  match cp_depth p with
  | None => (Ok (), e)
  | Some depth => stored (prune_below fuel (saturating_sub tip depth) e)
  end.

Definition prune_accounting (fuel : nat) (p : CompanionPruner) (e : Environment) : outcome_of () :=
  match last_block_number (cp_provider p) with
  | Err x => (Err (Provider x), e)
  | Ok persisted =>
      stored (prune_accounting_below fuel
        (saturating_sub persisted (saturating_add ACCOUNTING_WINDOW (cp_repair_limit p))) e)
  end.

Definition prune_once (fuel : nat) (p : CompanionPruner) (tip : Z) (e : Environment) : outcome_of () :=
  let '(companion_result, e) :=
    match evict_non_canonical fuel p e with
    | (Err f, e) => (Err f, e)
    | (Ok _, e) => prune_to_depth fuel p tip e
    end in
  let '(accounting_result, e) := prune_accounting fuel p e in
  (let? _ := companion_result in accounting_result, e).

(** The retention loop: for every canonical-state notification the chain at that time, and the tip
    unless the notification commits an empty segment.  A failed pass is logged and the loop goes on. *)
Fixpoint run_companion_pruner (fuel : nat) (depth : option Z) (repair_limit : Z)
    (notifications : list (ChainReader * option Z)) (e : Environment) : Environment :=
  match notifications with
  | [] => e
  | (_, None) :: rest => run_companion_pruner fuel depth repair_limit rest e
  | (chain, Some tip) :: rest =>
      let p := {| cp_provider := chain; cp_depth := depth; cp_repair_limit := repair_limit |} in
      run_companion_pruner fuel depth repair_limit rest (prune_once fuel p tip e).2
  end.
End pruner.

(** ** What a pass may lose *)

(** The provider names another block at the number. *)
Definition mismatched (c : ChainReader) (h : bytes) (n : Z) : Prop :=
  exists x, block_hash c n = Ok (Some x) /\ x <> h.

(** Companions only go, and only those that [lost] allows. *)
Definition shrinks (lost : bytes -> Z -> Prop) (s s' : Spec) : Prop :=
  (forall h v, sp_companions s' !! h = Some v -> sp_companions s !! h = Some v) /\
  (forall h n c, sp_companions s !! h = Some (n, c) -> sp_companions s' !! h = None -> lost h n).

Lemma shrinks_refl lost s : shrinks lost s s.
Proof. split; [done|]. intros h n c Hs Hn. congruence. Qed.

Lemma shrinks_trans lost s1 s2 s3 : shrinks lost s1 s2 -> shrinks lost s2 s3 -> shrinks lost s1 s3.
Proof.
  intros [A1 B1] [A2 B2]. split; [eauto|]. intros h n c Hs Hn.
  destruct (sp_companions s2 !! h) as [v|] eqn:H2; [|eauto]. apply A1 in H2 as H1. rewrite Hs in H1.
  injection H1 as <-. eauto.
Qed.

Lemma shrinks_weaken (P Q : bytes -> Z -> Prop) s s' : (forall h n, P h n -> Q h n) -> shrinks P s s' -> shrinks Q s s'.
Proof. intros HPQ [A B]. split; [done|]. intros h n c Hs Hn. eauto. Qed.

Section lemmas.
Context `{MdbxLaws}.

(** One store operation, from its refinement. *)
Lemma op_outcome fuel op s e :
  represents (committed_contents e) s -> op_typed op ->
  (size (sp_companions s) <= fuel)%nat -> (size (sp_accounting s) <= fuel)%nat ->
  exists s', represents (committed_contents (step fuel op e).2) s' /\
    (s' = s \/ spec_step (M := MdbxError) op s = Ok s') /\
    match (step fuel op e).1 with
    | Ok _ => spec_step (M := MdbxError) op s = Ok s'
    | Err f => exists err, f = Refused err /\ ((exists m, err = Mdbx m) \/ spec_step op s = Err err)
    end.
Proof.
  intros Hr Ht H1 H2. destruct (step fuel op e) as [res e'] eqn:Hs. cbn [fst snd].
  apply (step_simulates fuel op s e res e' Hr Ht H1 H2) in Hs.
  destruct Hs as [(-> & s' & Hs & Hr')|[(err & -> & Hs & ->)|(m & -> & [->|(s' & Hs & Hr')])]]; eauto 10.
Qed.

Lemma companion_keys C s h n c : represents C s -> sp_companions s !! h = Some (n, c) -> is_word h /\ is_u64 n.
Proof.
  intros Hr Hl. eapply (ix_typed _ _ _ (rp_companions _ _ Hr) h n). rewrite companion_value, Hl. done.
Qed.

(** The first number of the entries that the provider cannot resolve. *)
Fixpoint first_unresolved (c : ChainReader) (l : list (bytes * Z)) : option Z :=
  match l with
  | [] => None
  | (_, n) :: l => match block_hash c n with Ok None => Some n | _ => first_unresolved c l end
  end.

Lemma remove_outcome h s e res e' :
  represents (committed_contents e) s -> is_word h -> stored (remove h e) = (res, e') ->
  exists s', represents (committed_contents e') s' /\
    (s' = s \/ s' = with_companions s (delete h (sp_companions s))) /\
    match res with
    | Ok _ => s' = with_companions s (delete h (sp_companions s))
    | Err f => exists m, f = Store (Refused (Mdbx m))
    end.
Proof.
  intros Hr Hw Hs. set (fuel := Nat.max (size (sp_companions s)) (size (sp_accounting s))).
  destruct (op_outcome fuel (Remove h) s e Hr Hw) as (s' & Hr' & Hcases & Hres); [lia..|].
  cbn [step spec_step] in *. unfold stored in Hs. injection Hs as <- <-. exists s'.
  split_and!; [done|naive_solver|]. destruct (remove h e).1; cbn [map_err] in *; [by injection Hres|].
  destruct Hres as (err & -> & [[m ->]|[=]]). eauto.
Qed.

(** What the loop over [l] does to a represented state. *)
Definition evicted (c : ChainReader) (l : list (bytes * Z)) (u : option Z) (s : Spec)
    (res : result (CompanionPruneError MdbxError) (option Z)) (e' : Environment) : Prop :=
  exists m, represents (committed_contents e') (with_companions s m) /\
    shrinks (fun h _ => exists n, (h, n) ∈ l /\ mismatched c h n) s (with_companions s m) /\
    match res with
    | Ok u' => u' = match u with Some x => Some x | None => first_unresolved c l end /\
        forall h n, (h, n) ∈ l -> is_ok (block_hash c n) = true /\ (mismatched c h n -> m !! h = None)
    | Err f => (exists m, f = Store (Refused (Mdbx m))) \/ exists x, f = Provider x
    end.

Lemma evicted_cons c h n l u u1 s m1 res e' :
  shrinks (fun h' _ => h' = h /\ mismatched c h n) s (with_companions s m1) ->
  is_ok (block_hash c n) = true -> (mismatched c h n -> m1 !! h = None) ->
  match u1 with Some x => Some x | None => first_unresolved c l end =
  match u with Some x => Some x | None => first_unresolved c ((h, n) :: l) end ->
  evicted c l u1 (with_companions s m1) res e' -> evicted c ((h, n) :: l) u s res e'.
Proof.
  intros H1 Hok Hm Hu (m & Hr & Hs & Hres). exists m. split; [done|]. split.
  - eapply shrinks_trans; eapply shrinks_weaken; [|exact H1| |exact Hs]; cbn.
    + intros h' _ [-> Hmis]. exists n. split; [by left|done].
    + intros h' _ (n' & Hin & Hmis). exists n'. split; [by right|done].
  - destruct res as [u'|]; [|done]. destruct Hres as [-> Hall]. split; [done|].
    intros h' n' [[= -> ->]|Hin]%elem_of_cons; [|by apply Hall]. split; [done|]. intros Hmis.
    destruct (m !! h) as [v|] eqn:Hv; [|done]. destruct Hs as [Hs _]. apply (Hs h v) in Hv. cbn in Hv.
    rewrite Hm in Hv; done.
Qed.

Lemma evicted_stop c l u s f e' :
  represents (committed_contents e') s -> (exists m, f = Store (Refused (Mdbx m))) \/ (exists x, f = Provider x) ->
  evicted c l u s (Err f) e'.
Proof. intros Hr Hf. exists (sp_companions s). split; [by destruct s|]. split; [destruct s; apply shrinks_refl|done]. Qed.

Lemma evict_entries_ok c l : forall u s e res e',
  represents (committed_contents e) s -> Forall (fun x => is_word x.1) l ->
  evict_entries c l u e = (res, e') -> evicted c l u s res e'.
Proof.
  induction l as [|[h n] l IH]; intros u s e res e' Hr Hw He; cbn [evict_entries] in He.
  { injection He as <- <-. exists (sp_companions s). split; [by destruct s|]. split; [destruct s; apply shrinks_refl|].
    split; [by destruct u|]. intros h n []%not_elem_of_nil. }
  apply Forall_cons in Hw as [Hh Hw]. cbn [fst] in Hh.
  assert (Hsame : with_companions s (sp_companions s) = s) by (by destruct s).
  destruct (block_hash c n) as [[x|]|x] eqn:Hb.
  - destruct (bool_decide_reflect (x = h)) as [->|Hne]; cbn [negb] in He.
    + eapply (evicted_cons c h n l u u s (sp_companions s)); [rewrite Hsame; apply shrinks_refl|by rewrite Hb| |by cbn; rewrite Hb|].
      * intros (x & Hx & ?). congruence.
      * rewrite Hsame. by eapply IH.
    + destruct (stored (remove h e)) as [r1 e1] eqn:Hrm.
      destruct (remove_outcome _ _ _ _ _ Hr Hh Hrm) as (s1 & Hr1 & Hcase & Hres1).
      assert (Hdel : shrinks (fun h' _ => h' = h /\ mismatched c h n) s (with_companions s (delete h (sp_companions s)))).
      { split; cbn; [by intros h' v [_ ?]%lookup_delete_Some|]. intros h' n' c' Hs [?|Hn]%lookup_delete_None; [|congruence].
        split; [done|]. by exists x. }
      destruct r1 as [[]|f].
      * subst s1. eapply (evicted_cons c h n l u u s); [exact Hdel|by rewrite Hb|intros _; apply lookup_delete_eq|by cbn; rewrite Hb|].
        by eapply IH.
      * injection He as <- <-. destruct Hcase as [-> | ->]; [apply evicted_stop; eauto|].
        exists (delete h (sp_companions s)). split; [done|]. split; [|eauto].
        eapply shrinks_weaken; [|exact Hdel]. intros h' _ [-> Hmis]. exists n. split; [left|done].
  - eapply (evicted_cons c h n l u _ s (sp_companions s)); [rewrite Hsame; apply shrinks_refl|by rewrite Hb| | |].
    + intros (x & Hx & ?). congruence.
    + cbn. rewrite Hb. instantiate (1 := match u with None => Some n | Some u => Some u end). by destruct u.
    + rewrite Hsame. by eapply IH.
  - injection He as <- <-. apply evicted_stop; eauto.
Qed.

(** The entries are in ascending order, so the first unresolved number is the lowest. *)
Lemma first_unresolved_spec c l :
  StronglySorted key_lt l -> Forall (fun x => is_u64 x.2) l ->
  match first_unresolved c l with
  | None => forall h n, (h, n) ∈ l -> block_hash c n <> Ok None
  | Some u => (exists h, (h, u) ∈ l) /\ block_hash c u = Ok None /\
      forall h n, (h, n) ∈ l -> n < u -> block_hash c n <> Ok None
  end.
Proof.
  induction 1 as [|[h n] l Hl IH Hhd]; intros Hu; cbn [first_unresolved].
  { intros h n []%not_elem_of_nil. }
  apply Forall_cons in Hu as [Hn Hu]. specialize (IH Hu). cbn in Hn.
  assert (Hle : forall h' n', (h', n') ∈ l -> n <= n').
  { intros h' n' Hin. rewrite Forall_forall in Hhd, Hu. specialize (Hhd _ Hin). specialize (Hu _ Hin). cbn in Hu.
    unfold key_lt in Hhd. cbn in Hhd. by apply index_key_order in Hhd. }
  destruct (block_hash c n) as [[x|]|x] eqn:Hb.
  2:{ split_and!; [exists h; left|done|]. intros h' n' [[= -> ->]|Hin]%elem_of_cons Hlt; [lia|]. apply Hle in Hin. lia. }
  all: destruct (first_unresolved c l) as [u|].
  1,3: destruct IH as ([h0 Hin] & Hbu & Hall); split_and!; [exists h0; by right|done|];
    intros h' n' [[= -> ->]|Hin']%elem_of_cons Hlt; [congruence|by eapply Hall].
  all: intros h' n' [[= -> ->]|Hin']%elem_of_cons; [congruence|by eapply IH].
Qed.

(** ** Eviction *)

Definition start_of (s : Spec) : Z := default 0 (sp_cursor s).

Definition evictable (p : CompanionPruner) (s : Spec) (h : bytes) (n : Z) : Prop :=
  exists f, finalized_block_number (cp_provider p) = Ok (Some f) /\ start_of s <= n <= f /\
    mismatched (cp_provider p) h n.

(** The companions numbered in a range are the canonical ones. *)
Definition canonical_between (c : ChainReader) (s : Spec) (from to : Z) : Prop :=
  forall h n x, sp_companions s !! h = Some (n, x) -> from <= n < to -> block_hash c n = Ok (Some h).

Definition environment_error (f : CompanionPruneError MdbxError) : Prop :=
  (exists m, f = Store (Refused (Mdbx m))) \/ exists x, f = Provider x.

Record evict_pass (p : CompanionPruner) (s s' : Spec) : Prop := {
  ep_companions : shrinks (evictable p s) s s';
  ep_horizon : sp_horizon s' = sp_horizon s;
  ep_accounting : sp_accounting s' = sp_accounting s;
  ep_cursor : start_of s <= start_of s';
  ep_canonical : canonical_between (cp_provider p) s' (start_of s) (start_of s') }.

(** What a successful eviction reaches. *)
Definition evict_done (p : CompanionPruner) (s s' : Spec) : Prop :=
  forall f, finalized_block_number (cp_provider p) = Ok (Some f) -> f < u64_max ->
    (forall h n x, sp_companions s' !! h = Some (n, x) -> ~ evictable p s h n) /\
    (start_of s' <= f -> block_hash (cp_provider p) (start_of s') = Ok None).

Lemma evict_pass_refl p s : evict_pass p s s.
Proof. split; [apply shrinks_refl|done|done|lia|]. intros h n x _ Hn. lia. Qed.

(** What the loop establishes, before the cursor moves to the first unresolved number or the end. *)
Lemma evict_loop_done p s f l m :
  let c := cp_provider p in let end_ := saturating_add f 1 in
  let next := default end_ (first_unresolved c l) in
  finalized_block_number c = Ok (Some f) -> start_of s < end_ -> entries_of s (start_of s) end_ l ->
  Forall (fun x => is_u64 x.2) l ->
  shrinks (fun h _ => exists n, (h, n) ∈ l /\ mismatched c h n) s (with_companions s m) ->
  (forall h n, (h, n) ∈ l -> is_ok (block_hash c n) = true /\ (mismatched c h n -> m !! h = None)) ->
  start_of s <= next <= end_ /\ canonical_between c (with_companions s m) (start_of s) next /\
  (f < u64_max ->
   (forall h n x, m !! h = Some (n, x) -> ~ evictable p s h n) /\
   (next <= f -> block_hash c next = Ok None)).
Proof.
  intros c end_ next Hf Hstart [Hin Hsort] Hu [Hsub Hlost] Hall. cbn [with_companions sp_companions] in Hsub, Hlost.
  pose proof (first_unresolved_spec c l Hsort Hu) as Hspec.
  assert (Hend : end_ <= f + 1) by (unfold end_, saturating_add; lia).
  assert (Hnext : start_of s <= next <= end_ /\ forall h n, (h, n) ∈ l -> n < next -> block_hash c n <> Ok None).
  { unfold next. destruct (first_unresolved c l) as [u|]; cbn [default]; [|split; [lia|eauto]].
    destruct Hspec as ([h Hhu] & _ & Hsp). apply Hin in Hhu as [_ Hr]. split; [unfold saturating_add in *; cbn; lia|done]. }
  destruct Hnext as [Hnr Hres]. split_and!; [lia|lia| |intros Hfm; split].
  - intros h n x Hm Hn. cbn in Hm. assert ((h, n) ∈ l) as Hl by (apply Hin; split; [eauto|lia]).
    destruct (Hall h n Hl) as [Hok Hmis]. destruct (block_hash c n) as [[y|]|] eqn:Hb; [|by eapply Hres in Hl; [|lia]|done].
    destruct (decide (y = h)) as [->|Hne]; [done|]. rewrite Hmis in Hm; [done|]. by exists y.
  - intros h n x Hm (f' & Hf' & Hn & Hmis). fold c in Hf', Hmis. rewrite Hf in Hf'. injection Hf' as <-.
    assert ((h, n) ∈ l) as Hl by (apply Hin; split; [eauto|unfold end_, saturating_add; lia]).
    rewrite (proj2 (Hall h n Hl) Hmis) in Hm. done.
  - intros Hnf. unfold next in *. destruct (first_unresolved c l) as [u|]; cbn [default] in *.
    2:{ unfold end_, saturating_add in Hnf. lia. }
    apply Hspec.
Qed.

Lemma evict_pass_of p s m f cur :
  shrinks (evictable p s) s (with_companions s m) -> start_of s <= f ->
  (cur = sp_cursor s \/ cur = Some f /\ canonical_between (cp_provider p) (with_companions s m) (start_of s) f) ->
  evict_pass p s {| sp_companions := m; sp_accounting := sp_accounting s; sp_horizon := sp_horizon s; sp_cursor := cur |}.
Proof.
  intros Hs Hle Hc. split; cbn; [done|done|done| |].
  - unfold start_of in *. cbn. destruct Hc as [->|[-> _]]; cbn; lia.
  - destruct Hc as [->|[-> Hcan]]; [|exact Hcan]. intros h n x _ Hn. unfold start_of in Hn. cbn in Hn. lia.
Qed.

(** Moving the cursor after the loop. *)
Lemma evict_cursor_ok p s m f next e res e' :
  represents (committed_contents e) (with_companions s m) -> finalized_block_number (cp_provider p) = Ok (Some f) ->
  is_u64 next -> shrinks (evictable p s) s (with_companions s m) -> start_of s <= next ->
  canonical_between (cp_provider p) (with_companions s m) (start_of s) next ->
  (f < u64_max ->
   (forall h n x, m !! h = Some (n, x) -> ~ evictable p s h n) /\
   (next <= f -> block_hash (cp_provider p) next = Ok None)) ->
  (if negb (next =? start_of s) then stored (set_eviction_cursor next e) else (Ok (), e)) = (res, e') ->
  exists s', represents (committed_contents e') s' /\ evict_pass p s s' /\
    match res with Ok _ => evict_done p s s' | Err f => environment_error f end.
Proof.
  intros Hr Hf Hu Hs Hle Hcan Hdone He.
  assert (Hfin : forall s', sp_companions s' = m -> start_of s' = next -> evict_done p s s').
  { intros s' Hm Hst f' Hf' Hmax. rewrite Hf in Hf'. injection Hf' as <-. rewrite Hm, Hst. by apply Hdone. }
  destruct (Z.eqb_spec next (start_of s)) as [->|Hne]; cbn [negb] in He.
  { injection He as <- <-. exists (with_companions s m). split; [done|]. split; [|by apply Hfin].
    apply (evict_pass_of p s m (start_of s)); [done|lia|by left]. }
  set (fuel := Nat.max (size m) (size (sp_accounting s))).
  destruct (op_outcome fuel (SetEvictionCursor next) (with_companions s m) e Hr Hu) as (s' & Hr' & Hcase & Hres);
    [cbn; lia..|]. cbn [step spec_step] in *. unfold stored in He. injection He as <- <-.
  assert (Hraise : raised (sp_cursor s) next = next).
  { unfold raised. unfold start_of in *. destruct (sp_cursor s); cbn in *; lia. }
  assert (Hstep : with_cursor (with_companions s m) (raised (sp_cursor (with_companions s m)) next) =
    {| sp_companions := m; sp_accounting := sp_accounting s; sp_horizon := sp_horizon s; sp_cursor := Some next |}).
  { unfold with_cursor. cbn. by rewrite Hraise. }
  rewrite Hstep in Hcase, Hres. exists s'. split; [done|]. split.
  - destruct Hcase as [->|[= <-]]; [apply (evict_pass_of p s m next); auto|]. apply evict_pass_of with (f := next); auto.
  - destruct (set_eviction_cursor next e).1; cbn [map_err] in *; [injection Hres as <-; by apply Hfin|].
    destruct Hres as (err & -> & [[mx ->]|[=]]). left. eauto.
Qed.

Lemma evict_stay p s e (res : result (CompanionPruneError MdbxError) ()) :
  represents (committed_contents e) s ->
  match res with Ok _ => evict_done p s s | Err f => environment_error f end ->
  exists s', represents (committed_contents e) s' /\ evict_pass p s s' /\
    match res with Ok _ => evict_done p s s' | Err f => environment_error f end.
Proof. intros Hr Hres. exists s. split; [done|]. split; [apply evict_pass_refl|done]. Qed.

Lemma shrinks_evictable p s f l m :
  finalized_block_number (cp_provider p) = Ok (Some f) -> entries_of s (start_of s) (saturating_add f 1) l ->
  shrinks (fun h _ => exists n, (h, n) ∈ l /\ mismatched (cp_provider p) h n) s (with_companions s m) ->
  shrinks (evictable p s) s (with_companions s m).
Proof.
  intros Hfin Hof [Ha Hb]. split; [done|]. intros h n c Hc Hn. destruct (Hb h n c Hc Hn) as (n' & Hin & Hmis).
  apply Hof in Hin as [[c' Hc'] Hrange]. rewrite Hc in Hc'. injection Hc' as <- _. exists f. unfold saturating_add in Hrange.
  split_and!; [done|lia|lia|done].
Qed.

Lemma evict_non_canonical_ok fuel p s e res e' :
  represents (committed_contents e) s -> (size (sp_companions s) <= fuel)%nat ->
  (forall f, finalized_block_number (cp_provider p) = Ok (Some f) -> is_u64 f) ->
  evict_non_canonical fuel p e = (res, e') ->
  exists s', represents (committed_contents e') s' /\ evict_pass p s s' /\
    match res with Ok _ => evict_done p s s' | Err f => environment_error f end.
Proof.
  intros Hr Hfuel Hfu He. unfold evict_non_canonical in He.
  destruct (finalized_block_number (cp_provider p)) as [[f|]|x] eqn:Hfin.
  2:{ injection He as <- <-. apply (evict_stay p s e (Ok ())); [done|]. intros f Hf. congruence. }
  2:{ injection He as <- <-. apply (evict_stay p s e (Err _)); [done|]. right. eauto. }
  specialize (Hfu f eq_refl).
  assert (Hcur : answers (eviction_cursor e) (sp_cursor s)).
  { eapply meta_answers; [exact Hr|intros t Ht; apply Ht|intros n Hn; apply (rp_numbers _ _ Hr); auto]. }
  destruct Hcur as [Hcur|[mx Hcur]]; rewrite Hcur in He; [|injection He as <- <-; apply (evict_stay p s e (Err _)); [done|left; eauto]].
  fold (start_of s) in He. destruct (Z.leb_spec (saturating_add f 1) (start_of s)) as [Hle|Hlt].
  { injection He as <- <-. apply (evict_stay p s e (Ok ())); [done|]. intros f' Hf' Hm.
    rewrite Hfin in Hf'. injection Hf' as <-. unfold saturating_add in Hle. split; [|lia].
    intros h n x _ (f' & Hf' & Hn & _). rewrite Hfin in Hf'. injection Hf' as <-. lia. }
  assert (Hstart : is_u64 (start_of s)).
  { unfold start_of. destruct (sp_cursor s) as [n|] eqn:Hc; cbn; [|ulia]. apply (rp_numbers _ _ Hr). auto. }
  destruct (entries_answers fuel (start_of s) (saturating_add f 1) s e Hr Hstart Hfuel) as [[mx Hen]|(l & Hen & Hof)];
    rewrite Hen in He; [injection He as <- <-; apply (evict_stay p s e (Err _)); [done|left; eauto]|].
  assert (Hkeys : Forall (fun x => is_word x.1) l /\ Forall (fun x => is_u64 x.2) l).
  { rewrite <- Forall_and. apply Forall_forall. intros [h n] Hin. apply Hof in Hin as [[c Hc] _]. by eapply companion_keys. }
  destruct (evict_entries (cp_provider p) l None e) as [r1 e1] eqn:Hl.
  apply (evict_entries_ok _ _ _ s) in Hl as (m & Hr1 & Hs & Hres); [|done|apply Hkeys].
  pose proof (shrinks_evictable _ _ _ _ _ Hfin Hof Hs) as Hs'.
  destruct r1 as [u|err].
  2:{ injection He as <- <-. exists (with_companions s m). split; [done|]. split; [|done].
      apply (evict_pass_of p s m (start_of s)); [done|lia|by left]. }
  destruct Hres as [-> Hall].
  destruct (evict_loop_done p s f l m Hfin Hlt Hof (proj2 Hkeys) Hs Hall) as (Hn & Hcan & Hdone).
  refine (evict_cursor_ok p s m f _ e1 res e' Hr1 Hfin _ Hs' (proj1 Hn) Hcan Hdone He).
  unfold saturating_add in *. ulia.
Qed.

(** ** Pruning and the whole pass *)

Definition depth_bound (p : CompanionPruner) (tip : Z) : option Z := saturating_sub tip <$> cp_depth p.
Definition accounting_bound (p : CompanionPruner) (persisted : Z) : Z :=
  saturating_sub persisted (saturating_add ACCOUNTING_WINDOW (cp_repair_limit p)).

(** Companions below the depth go, and then a horizon above them is published. *)
Record depth_pass (p : CompanionPruner) (tip : Z) (s s' : Spec) : Prop := {
  dp_companions : shrinks (fun h n => exists d x, depth_bound p tip = Some d /\ n < d /\
    sp_horizon s' = Some x /\ n < x) s s';
  dp_horizon : sp_horizon s' = sp_horizon s \/
    exists d, depth_bound p tip = Some d /\ sp_horizon s' = Some (raised (sp_horizon s) d);
  dp_cursor : sp_cursor s' = sp_cursor s;
  dp_accounting : sp_accounting s' = sp_accounting s }.

Definition depth_done (p : CompanionPruner) (tip : Z) (s s' : Spec) : Prop :=
  forall d, depth_bound p tip = Some d ->
    (forall h n x, sp_companions s' !! h = Some (n, x) -> d <= n) /\ sp_horizon s' = Some (raised (sp_horizon s) d).

Lemma prune_to_depth_ok fuel p tip s e res e' :
  represents (committed_contents e) s ->
  (size (sp_companions s) <= fuel)%nat -> (size (sp_accounting s) <= fuel)%nat ->
  (forall d, depth_bound p tip = Some d -> is_u64 d) -> prune_to_depth fuel p tip e = (res, e') ->
  exists s', represents (committed_contents e') s' /\ depth_pass p tip s s' /\
    match res with Ok _ => depth_done p tip s s' | Err f => environment_error f end.
Proof.
  intros Hr H1 H2 Hu He. unfold prune_to_depth in He. destruct (cp_depth p) as [depth|] eqn:Hd.
  2:{ injection He as <- <-. exists s. split; [done|]. split; [split; [apply shrinks_refl|by left|done|done]|].
      intros d. unfold depth_bound. by rewrite Hd. }
  assert (Hb : depth_bound p tip = Some (saturating_sub tip depth)) by (unfold depth_bound; by rewrite Hd).
  set (d := saturating_sub tip depth) in *.
  destruct (op_outcome fuel (PruneBelow d) s e Hr (Hu d Hb) H1 H2) as (s' & Hr' & Hcase & Hres).
  cbn [step spec_step] in *. unfold stored in He. injection He as <- <-. exists s'. split; [done|].
  assert (Hpass : forall s', with_horizon (with_companions s (filter (fun e => d <= e.2.1) (sp_companions s))) (raised (sp_horizon s) d) = s' ->
    depth_pass p tip s s').
  { intros s1 <-. split; cbn; [|right; eauto|done|done]. split; cbn.
    - by intros h v [? _]%map_lookup_filter_Some.
    - intros h n c Hs Hn. apply map_lookup_filter_None in Hn as [?|Hn]; [congruence|]. specialize (Hn _ Hs). cbn in Hn.
      exists d, (raised (sp_horizon s) d). split_and!; [done|lia|done|]. unfold raised. destruct (sp_horizon s); lia. }
  split.
  - destruct Hcase as [->|[= Hs']]; [split; [apply shrinks_refl|by left|done|done]|by apply Hpass].
  - destruct (prune_below fuel d e).1; cbn [map_err] in *.
    + injection Hres as <-. intros d' Hd'. rewrite Hb in Hd'. injection Hd' as <-. cbn. split; [|done].
      by intros h n x [_ ?]%map_lookup_filter_Some.
    + destruct Hres as (err & -> & [[mx ->]|[=]]). left. eauto.
Qed.

Record accounting_pass (p : CompanionPruner) (s s' : Spec) : Prop := {
  ap_companions : sp_companions s' = sp_companions s;
  ap_horizon : sp_horizon s' = sp_horizon s;
  ap_cursor : sp_cursor s' = sp_cursor s;
  ap_accounting : sp_accounting s' = sp_accounting s \/ exists n, last_block_number (cp_provider p) = Ok n /\
    sp_accounting s' = filter (fun r => accounting_bound p n <= sa_block_number r.2) (sp_accounting s) }.

Lemma prune_accounting_ok fuel p s e res e' :
  represents (committed_contents e) s ->
  (size (sp_companions s) <= fuel)%nat -> (size (sp_accounting s) <= fuel)%nat ->
  (forall n, last_block_number (cp_provider p) = Ok n -> is_u64 n) -> 0 <= cp_repair_limit p ->
  prune_accounting fuel p e = (res, e') ->
  exists s', represents (committed_contents e') s' /\ accounting_pass p s s' /\
    match res with
    | Ok _ => exists n, last_block_number (cp_provider p) = Ok n /\
        sp_accounting s' = filter (fun r => accounting_bound p n <= sa_block_number r.2) (sp_accounting s)
    | Err f => environment_error f
    end.
Proof.
  intros Hr H1 H2 Hu Hl He. unfold prune_accounting in He.
  destruct (last_block_number (cp_provider p)) as [n|x] eqn:Hn.
  2:{ injection He as <- <-. exists s. split; [done|]. split; [split; [done|done|done|by left]|right; eauto]. }
  fold (accounting_bound p n) in He.
  assert (Hb : is_u64 (accounting_bound p n)).
  { specialize (Hu n eq_refl). unfold accounting_bound, saturating_sub, saturating_add, ACCOUNTING_WINDOW. ulia. }
  destruct (op_outcome fuel (PruneAccountingBelow (accounting_bound p n)) s e Hr Hb H1 H2) as (s' & Hr' & Hcase & Hres).
  cbn [step spec_step] in *. unfold stored in He. injection He as <- <-. exists s'. split; [done|]. split.
  - destruct Hcase as [->|[= <-]]; [split; [done|done|done|by left]|]. split; [done|done|done|]. right. eauto.
  - destruct (prune_accounting_below _ _ e).1; cbn [map_err] in *; [injection Hres as <-; eauto|].
    destruct Hres as (err & -> & [[mx ->]|[=]]). left. eauto.
Qed.

(** The two reasons a companion may go in a pass from [s] to [s']. *)
Definition may_lose (p : CompanionPruner) (tip : Z) (s s' : Spec) (h : bytes) (n : Z) : Prop :=
  evictable p s h n \/
  exists d x, depth_bound p tip = Some d /\ n < d /\ sp_horizon s' = Some x /\ n < x.

Record retained (p : CompanionPruner) (tip : Z) (s s' : Spec) : Prop := {
  rt_companions : shrinks (may_lose p tip s s') s s';
  rt_horizon : sp_horizon s' = sp_horizon s \/
    exists d, depth_bound p tip = Some d /\ sp_horizon s' = Some (raised (sp_horizon s) d);
  rt_cursor : start_of s <= start_of s';
  rt_canonical : canonical_between (cp_provider p) s' (start_of s) (start_of s');
  rt_accounting : sp_accounting s' = sp_accounting s \/ exists n, last_block_number (cp_provider p) = Ok n /\
    sp_accounting s' = filter (fun r => accounting_bound p n <= sa_block_number r.2) (sp_accounting s) }.

Definition pruner_typed (p : CompanionPruner) (tip : Z) : Prop :=
  (forall f, finalized_block_number (cp_provider p) = Ok (Some f) -> is_u64 f) /\
  (forall n, last_block_number (cp_provider p) = Ok n -> is_u64 n) /\
  is_u64 tip /\ (forall d, cp_depth p = Some d -> 0 <= d) /\ 0 <= cp_repair_limit p.

Lemma shrinks_size (lost : bytes -> Z -> Prop) s s' fuel : shrinks lost s s' -> (size (sp_companions s) <= fuel)%nat ->
  (size (sp_companions s') <= fuel)%nat.
Proof. intros [Hs _] Hl. etrans; [|exact Hl]. apply map_subseteq_size, map_subseteq_spec. exact Hs. Qed.

(** Both halves of the pass on the companions. *)
Lemma companions_ok fuel p tip s e :
  represents (committed_contents e) s -> pruner_typed p tip ->
  (size (sp_companions s) <= fuel)%nat -> (size (sp_accounting s) <= fuel)%nat ->
  let out := match evict_non_canonical fuel p e with
    | (Err f, e) => (Err f, e)
    | (Ok _, e) => prune_to_depth fuel p tip e
    end in
  exists s', represents (committed_contents out.2) s' /\ retained p tip s s' /\ sp_accounting s' = sp_accounting s /\
    match out.1 with Ok _ => evict_done p s s' /\ depth_done p tip s s' | Err f => environment_error f end.
Proof.
  intros Hr (Tf & _ & Tt & Td & _) H1 H2.
  destruct (evict_non_canonical fuel p e) as [r1 e1] eqn:He1. cbv zeta.
  destruct (evict_non_canonical_ok _ _ _ _ _ _ Hr H1 Tf He1) as (s1 & Hr1 & [A1 A2 A3 A4 A5] & Hres1).
  assert (Hlift : forall s', sp_horizon s1 = sp_horizon s -> shrinks (may_lose p tip s s') s s1).
  { intros s' _. eapply shrinks_weaken; [|exact A1]. by left. }
  destruct r1 as [[]|f]; cbn [fst snd].
  2:{ exists s1. split_and!; [done| |done|done]. split; [by apply Hlift|by left|done|done|by left]. }
  destruct (prune_to_depth fuel p tip e1) as [r2 e2] eqn:He2. cbn [fst snd].
  assert (Hdb : forall d, depth_bound p tip = Some d -> is_u64 d).
  { intros d. unfold depth_bound. destruct (cp_depth p) as [x|] eqn:Hx; cbn; [|done]. intros [= <-].
    specialize (Td x eq_refl). unfold saturating_sub. ulia. }
  destruct (prune_to_depth_ok fuel p tip s1 e1 r2 e2 Hr1 (shrinks_size _ _ _ _ A1 H1) ltac:(by rewrite A3) Hdb He2)
    as (s2 & Hr2 & [B1 B2 B3 B4] & Hres2).
  exists s2. assert (Hcur : start_of s2 = start_of s1) by (unfold start_of; by rewrite B3).
  split_and!; [done| |congruence|].
  - split.
    + eapply shrinks_trans; [by apply Hlift|]. eapply shrinks_weaken; [|exact B1]. by right.
    + rewrite A2 in B2. done.
    + by rewrite Hcur.
    + rewrite Hcur. intros h n x Hx. apply (A5 h n x). by apply B1.
    + left. congruence.
  - destruct r2 as [[]|f]; [|done]. split.
    + intros f Hf Hm. destruct (Hres1 f Hf Hm) as [C1 C2]. rewrite Hcur. split; [|done]. intros h n x Hx.
      eapply C1. by apply B1.
    + unfold depth_done in *. by rewrite A2 in Hres2.
Qed.

(** The pass as a whole. *)
Lemma prune_once_ok fuel p tip s e :
  represents (committed_contents e) s -> pruner_typed p tip ->
  (size (sp_companions s) <= fuel)%nat -> (size (sp_accounting s) <= fuel)%nat ->
  exists s', represents (committed_contents (prune_once fuel p tip e).2) s' /\ retained p tip s s' /\
    match (prune_once fuel p tip e).1 with
    | Ok _ => evict_done p s s' /\ depth_done p tip s s' /\
        exists n, last_block_number (cp_provider p) = Ok n /\
          sp_accounting s' = filter (fun r => accounting_bound p n <= sa_block_number r.2) (sp_accounting s)
    | Err f => environment_error f
    end.
Proof.
  intros Hr Ht H1 H2. pose proof (companions_ok fuel p tip s e Hr Ht H1 H2) as Hc. cbv zeta in Hc.
  unfold prune_once. destruct (match evict_non_canonical fuel p e with (Err f, e) => _ | (Ok _, e) => _ end) as [r1 e1].
  cbn [fst snd] in Hc. destruct Hc as (s1 & Hr1 & [A1 A2 A3 A4 _] & Hacc & Hres1).
  destruct (prune_accounting fuel p e1) as [r2 e2] eqn:He2. cbn [fst snd]. destruct Ht as (_ & Tn & _ & _ & Tl).
  destruct (prune_accounting_ok fuel p s1 e1 r2 e2 Hr1 (shrinks_size _ _ _ _ A1 H1) ltac:(by rewrite Hacc) Tn Tl He2)
    as (s2 & Hr2 & [B1 B2 B3 B4] & Hres2).
  exists s2. assert (Hcur : start_of s2 = start_of s1) by (unfold start_of; by rewrite B3). rewrite Hacc in B4, Hres2.
  split_and!; [done| |].
  - split.
    + destruct A1 as [A1 A1']. split; rewrite B1; [done|]. intros h n c Hs Hn. destruct (A1' h n c Hs Hn) as [|(d & x & ? & ? & ? & ?)]; [by left|].
      right. exists d, x. by rewrite B2.
    + by rewrite B2.
    + by rewrite Hcur.
    + intros h n x. rewrite B1, Hcur. apply A4.
    + done.
  - destruct r1 as [[]|f]; cbn [rbind]; [|done]. destruct r2 as [[]|f]; [|done]. destruct Hres1 as [C1 C2]. split_and!; [| |done].
    + intros f Hf Hm. rewrite B1, Hcur. by apply C1.
    + unfold depth_done in *. by rewrite B1, B2.
Qed.

Lemma retention_pass_retained fuel p tip s e :
  represents (committed_contents e) s -> pruner_typed p tip ->
  (size (sp_companions s) <= fuel)%nat -> (size (sp_accounting s) <= fuel)%nat ->
  exists s', represents (committed_contents (prune_once fuel p tip e).2) s' /\ retained p tip s s' /\
    (size (sp_accounting s') <= size (sp_accounting s))%nat.
Proof.
  intros Hr Ht H1 H2. destruct (prune_once_ok fuel p tip s e Hr Ht H1 H2) as (s' & Hr' & Hret & _).
  exists s'. split_and!; [done|done|]. destruct (rt_accounting _ _ _ _ Hret) as [->|(n & _ & ->)]; [done|].
  apply map_subseteq_size, map_filter_subseteq.
Qed.

(** C21: what a retention pass may lose, on every outcome.  It adds and changes no companion.  A companion
    goes only if the provider names another block at its number and the number is at or below the
    finalized block, or if it is below the configured depth, and then the published horizon is above
    it: without a depth the horizon never moves.  The eviction cursor never goes back, and every
    companion kept between its old and its new position is the canonical block of its number.
    Accounting goes only below the window behind the persisted block.  A pass that succeeds leaves
    none of what it was to remove, and its cursor stops before the end of the finalized range only at
    a number the provider does not know; a pass that fails reports an error of the environment or of
    the provider, and no cursor loop diverges. *)
Theorem retention_pass fuel p tip s e :
  represents (committed_contents e) s -> pruner_typed p tip ->
  (size (sp_companions s) <= fuel)%nat -> (size (sp_accounting s) <= fuel)%nat ->
  exists s', represents (committed_contents (prune_once fuel p tip e).2) s' /\ retained p tip s s' /\
    match (prune_once fuel p tip e).1 with
    | Ok _ => evict_done p s s' /\ depth_done p tip s s' /\
        exists n, last_block_number (cp_provider p) = Ok n /\
          sp_accounting s' = filter (fun r => accounting_bound p n <= sa_block_number r.2) (sp_accounting s)
    | Err f => environment_error f
    end.
Proof. apply prune_once_ok. Qed.

(** A proof source keeps everything a pass could prune: only affirmative mismatches go. *)
Lemma proof_source_retains segments p tip s s' :
  validate_proof_retention segments (cp_depth p) = Ok () -> retained p tip s s' ->
  shrinks (evictable p s) s s' /\ sp_horizon s' = sp_horizon s.
Proof.
  intros Hv [A1 A2 _ _ _]. assert (Hd : depth_bound p tip = None).
  { unfold validate_proof_retention in Hv. destruct (_ && _) eqn:Hb; [|done].
    apply andb_true_iff in Hb as [_ Hb]. unfold depth_bound. by destruct (cp_depth p). }
  split; [eapply shrinks_weaken; [|exact A1]; intros h n [|(d & x & Hx & _)]; [done|congruence]|].
  destruct A2 as [|(d & Hx & _)]; [done|congruence].
Qed.

(** ** The retention loop *)

Definition notifications_typed (depth : option Z) (limit : Z) (ns : list (ChainReader * option Z)) : Prop :=
  forall c tip, (c, Some tip) ∈ ns ->
    pruner_typed {| cp_provider := c; cp_depth := depth; cp_repair_limit := limit |} tip.

(** The chains of the notifications, and the reasons any of them gives. *)
Definition may_lose_in (depth : option Z) (ns : list (ChainReader * option Z)) (h : bytes) (n : Z) : Prop :=
  exists c tip, (c, Some tip) ∈ ns /\
    ((exists f, finalized_block_number c = Ok (Some f) /\ n <= f /\ mismatched c h n) \/
     exists d, depth = Some d /\ n < saturating_sub tip d).

Lemma retained_loses depth limit ns c tip s s' :
  (c, Some tip) ∈ ns -> retained {| cp_provider := c; cp_depth := depth; cp_repair_limit := limit |} tip s s' ->
  shrinks (may_lose_in depth ns) s s'.
Proof.
  intros Hin [A1 _ _ _ _]. eapply shrinks_weaken; [|exact A1].
  intros h n [(f & Hf & Hn & Hm)|(d & x & Hd & Hn & _)]; exists c, tip; (split; [done|]).
  - left. exists f. split_and!; [done|lia|done].
  - right. unfold depth_bound in Hd. cbn in Hd. destruct depth as [d'|]; [|done]. cbn in Hd. injection Hd as <-. eauto.
Qed.

(** A run of the retention loop over any sequence of chain states.  Whatever passes fail, the store
    still represents a state in which no companion was added or changed, every lost one was named
    non-canonical at or below the finalized block of one of the notifications or was below its depth,
    the cursor has not gone back, and without a depth the horizon has not moved. *)
Theorem pruner_run fuel depth limit ns s e :
  represents (committed_contents e) s -> notifications_typed depth limit ns ->
  (size (sp_companions s) <= fuel)%nat -> (size (sp_accounting s) <= fuel)%nat ->
  exists s', represents (committed_contents (run_companion_pruner fuel depth limit ns e)) s' /\
    shrinks (may_lose_in depth ns) s s' /\ start_of s <= start_of s' /\
    (depth = None -> sp_horizon s' = sp_horizon s).
Proof.
  revert s e. induction ns as [|[c [tip|]] ns IH]; intros s e Hr Ht H1 H2; cbn [run_companion_pruner].
  - exists s. split_and!; [done|apply shrinks_refl|lia|done].
  - set (p := {| cp_provider := c; cp_depth := depth; cp_repair_limit := limit |}).
    destruct (retention_pass_retained fuel p tip s e Hr (Ht c tip ltac:(left)) H1 H2) as (s1 & Hr1 & Hret & Hacc).
    pose proof (retained_loses depth limit ((c, Some tip) :: ns) c tip s s1 ltac:(left) Hret) as Hs1.
    destruct (IH s1 (prune_once fuel p tip e).2 Hr1) as (s2 & Hr2 & Hs2 & Hc2 & Hh2).
    { intros c' tip' Hin. apply Ht. by right. } { by eapply shrinks_size. } { lia. }
    exists s2. split_and!; [done| | |].
    + eapply shrinks_trans; [exact Hs1|]. eapply shrinks_weaken; [|exact Hs2].
      intros h n (c' & tip' & Hin & Hw). exists c', tip'. split; [by right|done].
    + destruct Hret. lia.
    + intros ->. rewrite Hh2 by done. destruct (rt_horizon _ _ _ _ Hret) as [|(d & Hd & _)]; [done|]. done.
  - destruct (IH s e Hr) as (s2 & Hr2 & Hs2 & Hc2 & Hh2); [intros c' tip' Hin; apply Ht; by right|done|done|].
    exists s2. split_and!; [done| |done|done]. eapply shrinks_weaken; [|exact Hs2].
    intros h n (c' & tip' & Hin & Hw). exists c', tip'. split; [by right|done].
Qed.
End lemmas.

(** ** A concrete pass

    The store of one companion numbered 5, and a chain whose blocks have another hash. *)

Definition sample_store : Environment := (step 0 sample_put no_tables).2.
Definition other_chain : ChainReader := {|
  finalized_block_number := Ok (Some 9); block_hash := fun _ => Ok (Some (word_of 8));
  last_block_number := Ok 12 |}.
Definition sample_pruner : CompanionPruner :=
  {| cp_provider := other_chain; cp_depth := None; cp_repair_limit := DEFAULT_REPAIR_LIMIT |}.

Lemma sample_pruner_typed : pruner_typed sample_pruner 12.
Proof. unfold pruner_typed. cbn. split_and!; try done; [by intros f [= <-]|by intros n [= <-]]. Qed.

(** The companion goes. *)
Lemma retention_pass_witness :
  exists s', represents (committed_contents (MdbxLaws := memory_laws) (prune_once 1 sample_pruner 12 sample_store).2) s' /\
    shrinks (may_lose sample_pruner 12 one_companion s') one_companion s' /\
    ((prune_once 1 sample_pruner 12 sample_store).1 = Ok () -> sp_companions s' !! word_of 9 = None).
Proof.
  destruct (retention_pass (H0 := memory_laws) 1 sample_pruner 12 one_companion sample_store
    one_companion_represented sample_pruner_typed ltac:(vm_compute; lia) ltac:(vm_compute; lia)) as (s' & Hr & Hret & Hres).
  exists s'. split; [exact Hr|]. split; [apply Hret|]. intros Hok. rewrite Hok in Hres. destruct Hres as (Hdone & _).
  destruct (Hdone 9 eq_refl ltac:(ulia)) as [Hgone _].
  destruct (sp_companions s' !! word_of 9) as [[n x]|] eqn:Hx; [|reflexivity].
  destruct (Hgone (word_of 9) n x Hx). exists 9. split; [reflexivity|].
  apply (proj1 (rt_companions _ _ _ _ Hret)) in Hx. unfold one_companion in Hx. cbn [with_companions sp_companions] in Hx.
  rewrite lookup_insert_eq in Hx. injection Hx as <- _. split; [cbn; lia|].
  exists (word_of 8). split; [reflexivity|]. vm_compute. discriminate.
Defined.

Lemma pruner_run_witness :
  exists s', represents (committed_contents (MdbxLaws := memory_laws)
      (run_companion_pruner 1 None DEFAULT_REPAIR_LIMIT [(other_chain, Some 12); (other_chain, None)] sample_store)) s' /\
    sp_horizon s' = None.
Proof.
  destruct (pruner_run (H0 := memory_laws) 1 None DEFAULT_REPAIR_LIMIT [(other_chain, Some 12); (other_chain, None)]
    one_companion sample_store one_companion_represented) as (s' & Hr & _ & _ & Hh).
  - intros c tip Hin. apply elem_of_cons in Hin as [Hin|Hin]; [injection Hin as -> ->; apply sample_pruner_typed|].
    apply list_elem_of_singleton in Hin. discriminate Hin.
  - vm_compute. lia.
  - vm_compute. lia.
  - exists s'. split; [exact Hr|exact (Hh eq_refl)].
Defined.
End Retention.
