(* ===== verification/UnicityConsensus.v ===== *)
(** The node's consensus: [crates/unicity/payload/src/consensus.rs].

    It is the stock consensus of [EthConsensus] with one rule replaced: the base fee of a child is the
    Unicity fee rule on its parent's accounting, which the registry of [ParentAccountings] resolves.
    The check takes a lease on the parent's entry and drops it at once, so it moves the protected head
    and may evict; the theorems are about the verdict and about the registry it leaves. *)
From stdpp Require Import gmap sets.
From S2P Require Import Prelude Crypto BlockAccounting RootInput Hook B1Update RegistryTransition StoreCodec.
From S2P Require Import CompanionStore EthConsensus BlockJob BlockExecutor ParentAccountings.
Import Accountings.

Section consensus.
Context `{HeaderHash} `{CompanionStore.MdbxEnv} `{ConsensusConstants}.

Record UnicityConsensus := { uc_chain_spec : ChainSpec; uc_profile : BlockProfile }.

(** [chain_spec.chain().id()] and [chain_spec.genesis_hash()]. *)
Definition identity_of (spec : ChainSpec) : ChainIdentity :=
  {| ch_id := cs_chain_id spec; ch_genesis_hash := cs_genesis_hash spec |}.

(** Dropping a lease. *)
Definition drop_lease (lease : ParentAccountingLease) (s : UnicityParentAccountings)
    : result UnpinFault UnicityParentAccountings :=
  let? i := unpin (le_hash lease) (pa_inner s) in Ok (with_inner s i).

(** [resolver.resolve(..)?.next_fee()]: the lease is a temporary of the statement. *)
Definition resolve_next_fee (c : UnicityConsensus) (parent : SealedHeader) (s : UnicityParentAccountings)
    : result UnpinFault (result ConsensusError Z * UnicityParentAccountings) :=
  match resolve parent (identity_of (uc_chain_spec c)) (uc_profile c) s with
  | (Err u, s) => Ok (Err (UnavailableParent (unavailable u)), s)
  | (Ok lease, s) => let? s := drop_lease lease s in Ok (Ok (le_next_fee lease), s)
  end.

Definition expected_fee (c : UnicityConsensus) (parent : SealedHeader) (s : UnicityParentAccountings)
    : result UnpinFault (result ConsensusError Z * UnicityParentAccountings) :=
  let genesis := cs_genesis_hash (uc_chain_spec c) in
  if (bh_number (sh_header parent) =? 0) && bool_decide (sh_hash parent = genesis)
  then Ok (map_err (fun _ => UnavailableParent (sh_hash parent))
             (genesis_next_base_fee parent genesis (uc_profile c)), s)
  else resolve_next_fee c parent s.

Definition validate_header_against_parent (c : UnicityConsensus) (h parent : SealedHeader)
    (s : UnicityParentAccountings) : result UnpinFault (result ConsensusError () * UnicityParentAccountings) :=
  let spec := uc_chain_spec c in
  match (let? _ := validate_against_parent_hash_number (sh_header h) parent in
         let? _ := validate_against_parent_timestamp (sh_header h) (sh_header parent) in
         validate_against_parent_gas_limit (sh_header h) (sh_header parent) spec) with
  | Err e => Ok (Err e, s)
  | Ok _ =>
      let? (fee, s) := expected_fee c parent s in
      Ok (let? expected_ := fee in
          let? got_ := ok_or (bh_base_fee_per_gas (sh_header h)) BaseFeeMissing in
          if negb (got_ =? expected_) then Err (BaseFeeDiff {| got := got_; expected := expected_ |}) else
          match blob_params_at_timestamp spec (bh_timestamp (sh_header h)) with
          | Some p => validate_against_parent_4844 (sh_header h) (sh_header parent) p
          | None => Ok ()
          end, s)
  end.

(** [is_transient_error] and [is_validation_unavailable]. *)
Definition is_transient_error (e : ConsensusError) : bool :=
  match e with UnavailableParent _ => true | _ => false end.
Definition is_validation_unavailable := is_transient_error.
End consensus.

(** ** The verdict *)

Section verdict.
Context `{HeaderHash} `{CompanionStore.MdbxEnv} `{ConsensusConstants}.

(** The base fee the registry supports for a child of [parent]. *)
Definition parent_fee (c : UnicityConsensus) (parent : SealedHeader) (i : ParentAccountingInner) (fee : Z) : Prop :=
  let genesis := cs_genesis_hash (uc_chain_spec c) in
  if (bh_number (sh_header parent) =? 0) && bool_decide (sh_hash parent = genesis)
  then genesis_next_base_fee parent genesis (uc_profile c) = Ok fee
  else exists e, find_entry (sh_hash parent) (tokens i) = Some e /\ pe_admitted e = true /\
    pe_identity e = Some (cs_chain_id (uc_chain_spec c), genesis) /\
    token_of parent (uc_profile c) (pe_token e) /\ next_base_fee (completed (pe_token e)) = Ok fee.

Lemma cached_fee_iff c parent i fee :
  (bh_number (sh_header parent) =? 0) && bool_decide (sh_hash parent = cs_genesis_hash (uc_chain_spec c)) = false ->
  parent_fee c parent i fee <-> exists lease i', le_next_fee lease = fee /\
    resolve_cached parent (identity_of (uc_chain_spec c)) (uc_profile c) i = Ok (lease, i').
Proof.
  intros Hg. unfold parent_fee. rewrite Hg. split.
  - intros (e & Hf & Ha & Hi & Ht & Hn).
    exists {| le_hash := sh_hash parent; le_token := pe_token e; le_next_fee := fee |}. eexists. split; [done|].
    apply resolve_cached_iff. exists e. by split_and!.
  - intros (lease & i' & <- & (e & Hf & Ha & Hi & Ht & Hn & _)%resolve_cached_iff). exists e. by split_and!.
Qed.

(** The fee lookup always returns, keeps the registry's invariant, and finds exactly that fee. *)
Lemma expected_fee_ok c parent s held :
  (0 < capacity (pa_inner s))%nat -> registry_ok (pa_inner s) held ->
  exists res s', expected_fee c parent s = Ok (res, s') /\ registry_ok (pa_inner s') held /\
    match res with
    | Ok fee => parent_fee c parent (pa_inner s) fee
    | Err e => is_transient_error e = true /\ forall fee, ~ parent_fee c parent (pa_inner s) fee
    end.
Proof.
  intros Hcap Hok. unfold expected_fee. cbv zeta. destruct (_ && _) eqn:Hg.
  { eexists _, s. split; [done|]. split; [done|]. unfold parent_fee. rewrite Hg.
    destruct (genesis_next_base_fee _ _ _); cbn [map_err]; [done|]. by split. }
  unfold resolve_next_fee. set (id := identity_of _) in *.
  pose proof (resolve_outcome parent id (uc_profile c) s) as Ho.
  pose proof (resolve_registry parent id (uc_profile c) s held Hcap Hok) as Hreg.
  destruct (resolve parent id (uc_profile c) s) as [[lease|u] s1].
  - destruct Ho as (i' & Hr & ->). destruct (unpin_ok i' (le_hash lease) (le_token lease) [] held Hreg) as (i1 & Hu & Hok1 & _).
    unfold drop_lease. cbn [pa_inner with_inner]. rewrite Hu. cbn [rbind]. eexists _, _. split; [done|]. split; [done|].
    apply cached_fee_iff; [done|]. eauto.
  - destruct Ho as (-> & Hno & _). eexists _, _. split; [done|]. split; [done|]. split; [done|].
    intros fee (lease & i' & _ & Hr)%cached_fee_iff; [|done]. by eapply Hno.
Qed.

Lemma parent_fee_unique c parent i f1 f2 : parent_fee c parent i f1 -> parent_fee c parent i f2 -> f1 = f2.
Proof. unfold parent_fee. cbv zeta. destruct (_ && _); [congruence|]. intros (e1 & ? & _ & _ & _ & ?) (e2 & ? & _ & _ & _ & ?). congruence. Qed.

(** The checks before the fee, and what they mean. *)
Definition links (spec : ChainSpec) (h parent : SealedHeader) : result ConsensusError () :=
  let? _ := validate_against_parent_hash_number (sh_header h) parent in
  let? _ := validate_against_parent_timestamp (sh_header h) (sh_header parent) in
  validate_against_parent_gas_limit (sh_header h) (sh_header parent) spec.

Definition linked (spec : ChainSpec) (h parent : SealedHeader) : Prop :=
  bh_parent_hash (sh_header h) = sh_hash parent /\
  checked_add (bh_number (sh_header parent)) 1 = Some (bh_number (sh_header h)) /\
  bh_timestamp (sh_header parent) < bh_timestamp (sh_header h) /\
  gas_limit_follows spec (sh_header h) (sh_header parent).

Lemma links_iff spec h parent : links spec h parent = Ok () <-> linked spec h parent.
Proof. unfold links, linked. rewrite !seq_ok, hash_number_iff, timestamp_iff, gas_limit_iff. tauto. Qed.

Lemma links_permanent spec h parent e : links spec h parent = Err e -> is_transient_error e = false.
Proof.
  unfold links, validate_against_parent_hash_number, validate_against_parent_timestamp, validate_against_parent_gas_limit.
  intros He. repeat (case_match; cbn [rbind] in He); try discriminate He; by injection He as <-.
Qed.

Lemma blob_permanent h parent p e : validate_against_parent_4844 h parent p = Err e -> is_transient_error e = false.
Proof.
  unfold validate_against_parent_4844. intros He. repeat (case_match; cbn [ok_or rbind] in He); simplify_eq; try done.
  unfold ok_or, rbind in He. repeat case_match; by simplify_eq.
Qed.

Lemma verdict_exact c h parent s held :
  (0 < capacity (pa_inner s))%nat -> registry_ok (pa_inner s) held ->
  let spec := uc_chain_spec c in
  let accepted := follows spec h parent /\
    exists fee, bh_base_fee_per_gas (sh_header h) = Some fee /\ parent_fee c parent (pa_inner s) fee in
  (exists res s', validate_header_against_parent c h parent s = Ok (res, s') /\ registry_ok (pa_inner s') held /\
    match res with
    | Ok _ => accepted
    | Err e => ~ accepted /\
        (is_transient_error e = true <->
         linked spec h parent /\ forall fee, ~ parent_fee c parent (pa_inner s) fee)
    end) /\
  (EthConsensus.validate_header_against_parent (new_consensus spec) h parent = Ok () <->
   follows spec h parent /\ stock_fee spec (sh_header h) (sh_header parent)).
Proof.
  intros Hcap Hok spec accepted. split; [|apply against_parent_iff].
  assert (Hacc : accepted -> linked spec h parent) by (intros [(? & ? & ? & ? & _) _]; by split_and!).
  unfold validate_header_against_parent. cbv zeta. fold spec. fold (links spec h parent).
  destruct (links spec h parent) as [[]|e] eqn:Hl.
  2:{ eexists _, s. split; [done|]. split; [done|]. assert (Hn : ~ linked spec h parent) by (rewrite <- links_iff; congruence).
      split; [tauto|]. rewrite (links_permanent _ _ _ _ Hl). split; [done|tauto]. }
  apply links_iff in Hl.
  destruct (expected_fee_ok c parent s held Hcap Hok) as ([fee|e] & s' & -> & Hok' & Hfee); cbn [rbind].
  2:{ eexists _, s'. split; [done|]. split; [done|]. destruct Hfee as [Ht Hno]. split; [|tauto].
      intros [_ (f & _ & Hf)]. by eapply Hno. }
  eexists _, s'. split; [done|]. split; [done|].
  destruct (bh_base_fee_per_gas (sh_header h)) as [g|] eqn:Hg; cbn [ok_or rbind].
  2:{ split; [by intros [_ (f & ? & _)]|]. split; [done|]. intros [_ Hno]. by destruct (Hno fee). }
  destruct (Z.eqb_spec g fee) as [->|Hne]; cbn [negb].
  2:{ split; [|split; [done|intros [_ Hno]; by destruct (Hno fee)]]. intros [_ (f & [= <-] & Hf)].
      by apply Hne, (parent_fee_unique c parent (pa_inner s)). }
  destruct Hl as (L1 & L2 & L3 & L4).
  destruct (blob_params_at_timestamp spec _) as [p|] eqn:Hb.
  2:{ split; [|eauto]. split_and!; try done. intros p Hp. congruence. }
  destruct (validate_against_parent_4844 _ _ p) as [[]|e] eqn:Hv.
  - apply blob_follows_iff in Hv. split; [|eauto]. split_and!; try done. intros p' Hp'. rewrite Hb in Hp'. by injection Hp' as <-.
  - split; [|rewrite (blob_permanent _ _ _ _ Hv); split; [done|intros [_ Hno]; by destruct (Hno fee)]].
    intros [(_ & _ & _ & _ & Hf) _]. specialize (Hf p Hb). apply blob_follows_iff in Hf. congruence.
Qed.

(** C22: the node's verdict on a child header.  In every state of the registry that satisfies its
    invariant the check returns, releases the lease it took, and leaves the invariant true.  It accepts
    a child exactly when the stock rules other than the base fee hold and the child's base fee is the
    Unicity fee of its parent: the genesis rule for the configured genesis, otherwise the fee rule on
    the admitted token of the parent.  The stock consensus accepts exactly the same headers up to the
    fee rule.  A refusal is transient, so that the block is retried, exactly when the child is linked to
    its parent but no fee can be derived yet; every other refusal is a verdict on the block. *)
Theorem consensus_verdict c h parent s held :
  (0 < capacity (pa_inner s))%nat -> registry_ok (pa_inner s) held ->
  let spec := uc_chain_spec c in
  let accepted := follows spec h parent /\
    exists fee, bh_base_fee_per_gas (sh_header h) = Some fee /\ parent_fee c parent (pa_inner s) fee in
  (exists res s', validate_header_against_parent c h parent s = Ok (res, s') /\ registry_ok (pa_inner s') held /\
    match res with
    | Ok _ => accepted
    | Err e => ~ accepted /\
        (is_transient_error e = true <->
         linked spec h parent /\ forall fee, ~ parent_fee c parent (pa_inner s) fee)
    end) /\
  (EthConsensus.validate_header_against_parent (new_consensus spec) h parent = Ok () <->
   follows spec h parent /\ stock_fee spec (sh_header h) (sh_header parent)).
Proof. apply verdict_exact. Qed.

Lemma timestamp_later reference parent t : derive_timestamp reference parent = Some t -> parent < t.
Proof.
  unfold derive_timestamp. destruct (checked_add parent 1) as [n|] eqn:Hc; cbn; [|done]. intros [= <-].
  unfold checked_add in Hc. case_match; [|done]. injection Hc as <-. lia.
Qed.

Lemma gas_limit_steady spec h parent :
  is_london_active_at_block spec (bh_number parent) = true -> bh_gas_limit h = bh_gas_limit parent ->
  0 < bh_gas_limit parent / GAS_LIMIT_BOUND_DIVISOR -> MINIMUM_GAS_LIMIT <= bh_gas_limit parent ->
  gas_limit_follows spec h parent.
Proof. intros Hl Hg Hd Hm. unfold gas_limit_follows. rewrite Hl. cbn. rewrite Hg, Z.sub_diag. by split. Qed.

(** The job, the fee rule and the consensus agree.  Take a parent whose admitted token is cached for
    the chain, and the job bound to that parent and token.  A header that the import path accepts for
    the job passes the node's consensus check against the parent, provided only that its excess blob gas
    follows and that the profile's gas limit is one the stock ramp admits; so no block of a job is
    refused for its fee, its limit, its time or its place in the chain. *)
Theorem job_passes_consensus `{Crypto} c h parent s held input b1 t collector b e :
  (0 < capacity (pa_inner s))%nat -> registry_ok (pa_inner s) held ->
  find_entry (sh_hash parent) (tokens (pa_inner s)) = Some e -> pe_admitted e = true -> pe_token e = t ->
  pe_identity e = Some (cs_chain_id (uc_chain_spec c), cs_genesis_hash (uc_chain_spec c)) ->
  bh_number (sh_header parent) <> 0 ->
  bind_completed_parent input b1 (uc_profile c) parent t collector = Ok b ->
  context_for_block b (sh_header h) = Ok () ->
  is_london_active_at_block (uc_chain_spec c) (bh_number (sh_header parent)) = true ->
  0 < max_gas (uc_profile c) / GAS_LIMIT_BOUND_DIVISOR -> MINIMUM_GAS_LIMIT <= max_gas (uc_profile c) ->
  (forall p, blob_params_at_timestamp (uc_chain_spec c) (bh_timestamp (sh_header h)) = Some p ->
     blob_follows (sh_header h) (sh_header parent) p) ->
  exists s', validate_header_against_parent c h parent s = Ok (Ok (), s') /\ registry_ok (pa_inner s') held.
Proof.
  intros Hcap Hok Hf Ha He Hi Hn Hb Hc Hl Hd Hm Hblob.
  apply from_completed_parent_iff in Hb as (_ & Hp & Ht & (fee & Hfee) & ->).
  apply context_for_block_iff in Hc as (_ & C1 & C2 & _ & C3 & _ & _ & (fee' & Cf & C4) & C5 & _). cbn in C1, C2, C3, C4, C5, Cf.
  pose proof Ht as (_ & Hlim & _).
  destruct (proj1 (verdict_exact c h parent s held Hcap Hok)) as ([[]|err] & s' & -> & Hok' & Hres); [eauto|].
  destruct Hres as [[] _]. split.
  - split_and!; try done.
    + by apply timestamp_later in C3.
    + apply gas_limit_steady; congruence.
  - exists fee. split; [congruence|]. unfold parent_fee. destruct (Z.eqb_spec (bh_number (sh_header parent)) 0); [done|].
    cbn [andb]. exists e. rewrite He. by split_and!.
Qed.
End verdict.

(** ** A concrete verdict *)

Definition sample_accountings : UnicityParentAccountings (H0 := CompanionStore.memory_env) :=
  {| pa_inner := rg_inner published; pa_attached := true; pa_store := CompanionStore.no_tables;
     pa_durability_required := true; pa_repair_limit := 64 |}.
Definition sample_consensus : UnicityConsensus := {| uc_chain_spec := toy_spec; uc_profile := small_profile |}.
Definition sample_sealed : SealedHeader := {| sh_header := sample_child; sh_hash := word_of 22 |}.

Lemma sample_registry_ok : registry_ok (pa_inner sample_accountings) [].
Proof. exact (proj1 (run_ok (H := toy_header_hash) 2 _ _ ltac:(lia) published_run)). Qed.

Lemma consensus_verdict_witness :
  exists res s', validate_header_against_parent (H := toy_header_hash) (H1 := toy_constants) sample_consensus
      sample_sealed sample_parent sample_accountings = Ok (res, s') /\ registry_ok (pa_inner s') [].
Proof.
  destruct (proj1 (consensus_verdict (H := toy_header_hash) (H0 := CompanionStore.memory_env) (H1 := toy_constants)
    sample_consensus sample_sealed sample_parent sample_accountings [] ltac:(cbn; lia) sample_registry_ok))
    as (res & s' & Hv & Hok & _).
  exists res, s'. split; [exact Hv|exact Hok].
Defined.

Lemma job_passes_consensus_witness :
  exists s', validate_header_against_parent (H := toy_header_hash) (H1 := toy_constants) sample_consensus
      sample_sealed sample_parent sample_accountings = Ok (Ok (), s') /\ registry_ok (pa_inner s') [].
Proof.
  eapply (job_passes_consensus (H := toy_header_hash) (H0 := CompanionStore.memory_env) (H1 := toy_constants) (H2 := toy_crypto)
    sample_consensus sample_sealed sample_parent sample_accountings [] (sample_root [z2b 1]) sample_b1 sample_token
    ZERO20 sample_job).
  - cbn. lia.
  - apply sample_registry_ok.
  - reflexivity.
  - reflexivity.
  - reflexivity.
  - reflexivity.
  - discriminate.
  - vm_compute. reflexivity.
  - vm_compute. reflexivity.
  - reflexivity.
  - reflexivity.
  - vm_compute. discriminate.
  - discriminate.
Defined.
