(* ===== verification/Recovery.v ===== *)
(** Recovery of parent accounting at startup: [crates/unicity/payload/src/recovery.rs].

    A token read back from the sidecar is not usable until the canonical head has been admitted: its
    retained pair binding is checked against the canonical chain, the binding presented by the local
    peer must agree with it, and only then is the head's token taken from the cache or replayed.

    The provider is an argument.  Other threads move the chain between two of its reads, so it is a
    function of a clock that every read advances ([Provider]); the theorems hold for every such
    function.  The store of tokens is that of [ParentAccountings]; between the steps of one call
    nothing else moves it here, the interleavings being the subject of that file.  A pin or lease is
    dropped where Rust drops it, on every exit.  Reports carry their text without the interpolated
    values. *)
From stdpp Require Import gmap sets.
From S2P Require Import Prelude CborCodec Crypto BlockAccounting Errors RootInput Evm Hook B1Update PairBinding RegistryTransition.
From S2P Require Import StoreCodec CompanionStore EthConsensus BlockJob BlockExecutor ParentAccountings Retention UnicityConsensus.
Import CompanionStore Accountings.

(** [UnicitySealConfig]. *)
Record UnicitySealConfig := {
  us_profile : BlockProfile; us_fee_collector : bytes; us_pins : PairPins; us_b1 : B1Context }.

Inductive RecoveryError :=
| CompanionMissing (number : Z)
| RetainedUnusable (number : Z) (source : PairBindingError)
| RetainedRefused (number : Z) (source : PairBindingError)
| PresentedRefused (number : Z) (source : PairBindingError)
| PresentedDiffers (number : Z)
| NoBeaconRoot (number : Z).

(** What the [eyre::Report] holds, and the panics. *)
Inductive RecoveryFault (M : Type) :=
| Typed (e : RecoveryError)
| ProviderError (text : string)
| StoreError_ (f : StoreFault M)
| Cbor (e : CanonicalCborError)
| Pairing (e : PairBindingError)
| Report (text : string)
| Overflow
| ReplayPanic
| Panicked (u : UnpinFault).
Arguments Typed {M} e.
Arguments ProviderError {M} text.
Arguments StoreError_ {M} f.
Arguments Cbor {M} e.
Arguments Pairing {M} e.
Arguments Report {M} text.
Arguments Overflow {M}.
Arguments ReplayPanic {M}.
Arguments Panicked {M} u.

(** The fields of a header the binding is about. *)
Definition pair_header (h : SealedHeader) : PairBinding.Header := {|
  h_hash := sh_hash h; h_number := bh_number (sh_header h); h_timestamp := bh_timestamp (sh_header h);
  h_mix_hash := bh_mix_hash (sh_header h); h_beneficiary := bh_beneficiary (sh_header h);
  h_parent_beacon_block_root := bh_parent_beacon_block_root (sh_header h) |}.

Definition with_subject (b : PairBinding) (s : PairSubject) : PairBinding := {|
  pb_network_id := pb_network_id b; pb_root_genesis_id := pb_root_genesis_id b;
  pb_execution_genesis_hash := pb_execution_genesis_hash b; pb_parent_hash := pb_parent_hash b;
  pb_parent_number := pb_parent_number b; pb_origin_root_epoch := pb_origin_root_epoch b;
  pb_origin_root_round := pb_origin_root_round b; pb_configuration_id := pb_configuration_id b;
  pb_activation_id := pb_activation_id b; pb_root_input_hash := pb_root_input_hash b;
  pb_transitions_hash := pb_transitions_hash b; pb_subject := s |}.

Definition subject_for `{Crypto} (number : Z) (subject : PairSubject) (hash : bytes) (header : SealedHeader)
    : result RecoveryError ExpectedSubject :=
  match subject with
  | Build _ =>
      let? digest := ok_or (header_attributes_digest (pair_header header)) (NoBeaconRoot number) in
      Ok (ExpectBuild digest)
  | Import _ => Ok (ExpectImport hash)
  end.

Record RetainedBlock := {
  rb_hash : bytes; rb_companion : SealCompanion; rb_root : RootInputV2;
  rb_header : SealedHeader; rb_parent : SealedHeader }.

(** The context a binding of the block is compared with. *)
Definition binding_context (seal : UnicitySealConfig) (genesis : bytes) (parent : SealedHeader)
    (root : RootInputV2) (subject : ExpectedSubject) : PairContext := {|
  pc_pins := us_pins seal; pc_execution_genesis_hash := genesis; pc_parent := pair_header parent;
  pc_root := root; pc_subject := subject |}.

(** Whether the senders of a body's transactions can be recovered from their signatures. *)
Class SenderRecovery `{Primitives} := { recoverable : BlockBody -> bool }.

Section recovery.
Context `{Crypto} `{HeaderHash} `{Abi} `{ConsensusConstants} `{EthExecutor} `{!Chain} `{!SenderRecovery} `{MdbxEnv}.
Abbreviation fault := (RecoveryFault MdbxError).

(** One read of the provider, and the provider over time. *)
Record ProviderView := {
  best_block_number : result string Z;
  last_block_number : result string Z;
  block_hash : Z -> result string (option bytes);
  sealed_header_by_hash : bytes -> result string (option SealedHeader);
  block_by_hash : bytes -> result string (option (BlockHeader * BlockBody));
  state_by_block_hash : bytes -> result string StateView }.
Abbreviation Provider := (nat -> ProviderView).

Record Recovering := { rv_tokens : UnicityParentAccountings; rv_clock : nat }.

(** ** Statements *)

Definition rec (A : Type) : Type := Recovering -> result fault A * Recovering.

Definition done {A} (r : result fault A) : rec A := fun s => (r, s).
Definition bind {A B} (m : rec A) (k : A -> rec B) : rec B := fun s =>
  match m s with (Ok a, s) => k a s | (Err f, s) => (Err f, s) end.
End recovery.

Notation "'let!' x ':=' c 'in' k" := (bind c (fun x => k))
  (at level 10, x pattern, c at level 200, k at level 200,
   format "'[v' 'let!'  x  ':='  c  'in' '/' k ']'") : unicity_scope.

Section operations.
Context `{Crypto} `{HeaderHash} `{Abi} `{ConsensusConstants} `{EthExecutor} `{!Chain} `{!SenderRecovery} `{MdbxEnv}.
Abbreviation fault := (RecoveryFault MdbxError).
Abbreviation Provider := (nat -> ProviderView).

Definition set_tokens (s : Recovering) (t : UnicityParentAccountings) : Recovering :=
  {| rv_tokens := t; rv_clock := rv_clock s |}.

(** A read of the provider. *)
Definition ask {A} (P : Provider) (f : ProviderView -> result string A) : rec A := fun s =>
  (map_err ProviderError (f (P (rv_clock s))), {| rv_tokens := rv_tokens s; rv_clock := S (rv_clock s) |}).

(** [store.get(hash)?]. *)
Definition companion_of (hash : bytes) : rec Lookup := fun s =>
  (map_err StoreError_ (CompanionStore.get hash (pa_store (rv_tokens s))), s).

(** [tokens.restore_exact(..)?] under the chain's identity. *)
Definition restore (header : SealedHeader) (p : BlockProfile) : rec (option CompletedParent) := fun s =>
  match restore_exact header (cs_chain_id chain_spec) (cs_genesis_hash chain_spec) p (rv_tokens s) with
  | Ok (o, t) => (Ok o, set_tokens s t)
  | Err f => (Err (StoreError_ f), s)
  end.

Definition admit_token (hash : bytes) : rec bool := fun s =>
  let '(found, i) := admit_entry hash (pa_inner (rv_tokens s)) in
  (Ok found, set_tokens s (with_inner (rv_tokens s) i)).

(** The end of a pin or lease on [hash], after a body that ended in [r]. *)
Definition release {A} (hash : bytes) (r : result fault A) : rec A := fun s =>
  match unpin hash (pa_inner (rv_tokens s)) with
  | Ok i => (r, set_tokens s (with_inner (rv_tokens s) i))
  | Err u => (Err (Panicked u), s)
  end.

Definition publish_token (hash : bytes) (number : Z) (token : CompletedParent) : rec () := fun s =>
  let '(r, t) := publish hash number (cs_chain_id chain_spec) (cs_genesis_hash chain_spec) token (rv_tokens s) in
  (map_err StoreError_ r, set_tokens s t).

(** [for number in numbers { body(number)? }]. *)
Fixpoint for_each (body : Z -> rec ()) (numbers : list Z) : rec () :=
  match numbers with
  | [] => done (Ok ())
  | n :: numbers => let! _ := body n in for_each body numbers
  end.

(** [from..=to]. *)
Definition range_inclusive (from to : Z) : list Z := seqZ from (to - from + 1).

(** ** The chain *)

Definition canonical_hash (P : Provider) (number : Z) : rec bytes :=
  let! hash := ask P (fun v => block_hash v number) in
  done (ok_or hash (Report "parent accounting unavailable: canonical hash missing")).

Definition canonical_header (P : Provider) (hash : bytes) : rec SealedHeader :=
  let! header := ask P (fun v => sealed_header_by_hash v hash) in
  done (ok_or header (Report "parent accounting unavailable: canonical header missing")).

Definition check_retained (P : Provider) (seal : UnicitySealConfig) (genesis : bytes) (number : Z)
    : rec RetainedBlock :=
  let! hash := canonical_hash P number in
  let! header := canonical_header P hash in
  let! below := done (ok_or (checked_sub number 1) Overflow) in
  let! parent_hash := canonical_hash P below in
  let! parent := canonical_header P parent_hash in
  let! found := companion_of hash in
  match found with
  | Found companion =>
      let! root := done (map_err Cbor (companion_decode_root_input companion)) in
      let! retained := done (map_err (fun e => Typed (RetainedUnusable number e))
                               (pair_from_canonical_cbor (sc_pair_binding companion))) in
      let! subject := done (map_err Typed (subject_for number (pb_subject retained) hash header)) in
      let! _ := done (map_err (fun e => Typed (RetainedRefused number e))
                        (verify_pair_binding (sc_pair_binding companion)
                           (binding_context seal genesis parent root subject))) in
      done (Ok {| rb_hash := hash; rb_companion := companion; rb_root := root;
                  rb_header := header; rb_parent := parent |})
  | _ => done (Err (Typed (CompanionMissing number)))
  end.

(** One number of the hydration loop. *)
Definition hydrate_number (P : Provider) (p : BlockProfile) (number : Z) : rec () :=
  if number =? 0 then done (Ok ()) else
  let! hash := ask P (fun v => block_hash v number) in
  match hash with
  | None => done (Ok ())
  | Some hash =>
      let! header := ask P (fun v => sealed_header_by_hash v hash) in
      match header with
      | None => done (Ok ())
      | Some header => let! _ := restore header p in done (Ok ())
      end
  end.

Definition hydrate_accounting (P : Provider) (p : BlockProfile) : rec () :=
  let! head := ask P best_block_number in
  let! persisted := ask P last_block_number in
  for_each (fun tip =>
    for_each (hydrate_number P p)
      (range_inclusive (saturating_sub tip (saturating_sub Retention.ACCOUNTING_WINDOW 1)) tip))
    [persisted; head].

(** ** Repair *)

(** The descending search of [select_repair_anchor]. *)
Fixpoint find_anchor (P : Provider) (p : BlockProfile) (numbers : list Z) : rec (option Z) :=
  match numbers with
  | [] => done (Ok None)
  | number :: numbers =>
      let! hash := canonical_hash P number in
      let! header := canonical_header P hash in
      let! token := restore header p in
      match token with
      | Some _ => done (Ok (Some number))
      | None => find_anchor P p numbers
      end
  end.

Definition select_repair_anchor (P : Provider) (p : BlockProfile) (genesis : bytes) (target limit : Z) : rec Z :=
  let earliest := saturating_sub target limit in
  let! anchor := find_anchor P p (reverse (range_inclusive (Z.max earliest 1) target)) in
  match anchor with
  | Some anchor => done (Ok anchor)
  | None =>
      if earliest =? 0 then
        let! hash := canonical_hash P 0 in
        let! genesis_header := canonical_header P hash in
        let! _ := done (map_err (fun _ => Report "invalid configured genesis anchor")
                          (genesis_next_base_fee genesis_header genesis p)) in
        done (Ok 0)
      else done (Err (Report "parent accounting unavailable: no verified token within the limit"))
  end.

(** The job of a replayed block; past the first it takes its parent's token, leased while it binds. *)
Definition bind_replay (seal : UnicitySealConfig) (genesis : bytes) (number : Z) (root : RootInputV2)
    (b1 : B1Job) (parent : SealedHeader) : rec BoundExecutionInput :=
  let failed {E} (r : result E BoundExecutionInput) : result fault BoundExecutionInput :=
    map_err (fun _ => Report "parent accounting binding failed") r in
  if number =? 1
  then done (failed (bind_validated_genesis root b1 (us_profile seal) parent genesis (us_fee_collector seal)))
  else fun s =>
    match resolve parent (identity_of chain_spec) (us_profile seal) (rv_tokens s) with
    | (Err _, t) => (Err (Report "missing predecessor token"), set_tokens s t)
    | (Ok lease, t) =>
        release (le_hash lease)
          (failed (bind_completed_parent root b1 (us_profile seal) parent (le_token lease) (us_fee_collector seal)))
          (set_tokens s t)
    end.

Definition replay_number (P : Provider) (seal : UnicitySealConfig) (genesis : bytes) (number : Z) : rec () :=
  let! r := check_retained P seal genesis number in
  let b1 := {| bj_context := us_b1 seal; bj_update := sc_b1_update (rb_companion r);
               bj_records := sc_records (rb_companion r) |} in
  let parent_hash := sh_hash (rb_parent r) in
  let! body := ask P (fun v => block_by_hash v (rb_hash r)) in
  let! (header, body) := done (ok_or body (Report "parent accounting unavailable: body missing")) in
  if negb (recoverable body) then done (Err (Report "sender recovery failed")) else
  let block := {| bk_header := {| sh_header := header; sh_hash := hash_slow header |}; bk_body := body |} in
  if negb (bool_decide (hash_slow header = rb_hash r)) || negb (bool_decide (bh_parent_hash header = parent_hash))
  then done (Err (Report "parent accounting unavailable: historical block identity mismatch")) else
  let! bound := bind_replay seal genesis number (rb_root r) b1 (rb_parent r) in
  let! state := ask P (fun v => state_by_block_hash v parent_hash) in
  let! (_, token) := done (map_err (fun e => match e with BlockExecutor.Panic => ReplayPanic
                                             | _ => Report "accounting replay failed" end)
                             (replay_complete bound state block).1) in
  publish_token (rb_hash r) number token.

Definition repair_accounting (P : Provider) (seal : UnicitySealConfig) (target limit : Z) : rec () :=
  if target =? 0 then done (Ok ()) else
  let genesis := cs_genesis_hash chain_spec in
  let! target_hash := canonical_hash P target in
  let! anchor := select_repair_anchor P (us_profile seal) genesis target limit in
  let! _ := if 1 <=? anchor then
      let! held := check_retained P seal genesis anchor in
      let! _ := admit_token (rb_hash held) in
      done (Ok ())
    else done (Ok ()) in
  let! first := done (ok_or (checked_add anchor 1) Overflow) in
  let! _ := for_each (replay_number P seal genesis) (range_inclusive first target) in
  let! hash := canonical_hash P target in
  if negb (bool_decide (hash = target_hash))
  then done (Err (Report "parent accounting unavailable: canonical head changed during repair"))
  else done (Ok ()).

(** ** Admission of the head *)

(** One number of the window behind the head. *)
Definition admit_number (P : Provider) (seal : UnicitySealConfig) (genesis : bytes) (number : Z) : rec () :=
  let! hash := canonical_hash P number in
  let! header := canonical_header P hash in
  let! token := restore header (us_profile seal) in
  match token with
  | None => done (Ok ())
  | Some _ => fun s =>
      match check_retained P seal genesis number s with
      | (Ok _, s) => bind (admit_token hash) (fun _ => done (Ok ())) s
      | (Err _, s) => (Ok (), s)
      end
  end.

(** What the head's pin protects: the window, then the head itself. *)
Definition admit_window (P : Provider) (seal : UnicitySealConfig) (genesis : bytes) (head : Z) (hash : bytes)
    : rec () :=
  let first := Z.max (saturating_sub head (saturating_sub Retention.ACCOUNTING_WINDOW 1)) 1 in
  let! _ := for_each (admit_number P seal genesis) (range_inclusive first (head - 1)) in
  let! found := admit_token hash in
  if negb found then done (Err (Report "parent accounting unavailable: no token for the admitted head"))
  else done (Ok ()).

Definition pinned_window (P : Provider) (seal : UnicitySealConfig) (genesis : bytes) (head : Z) (hash : bytes)
    : rec () := fun s =>
  match pin hash (pa_inner (rv_tokens s)) with
  | None => (Err (Report "parent accounting unavailable: no token for the admitted head"), s)
  | Some i =>
      let '(r, s) := admit_window P seal genesis head hash (set_tokens s (with_inner (rv_tokens s) i)) in
      release hash r s
  end.

(** The two bindings of the head: the retained one, and the presented one that must agree with it. *)
Definition check_presented (seal : UnicitySealConfig) (genesis : bytes) (head : Z) (presented : bytes)
    (retained : RetainedBlock) : rec () :=
  let! presented_binding := done (map_err (fun e => Typed (PresentedRefused head e))
                                    (pair_from_canonical_cbor presented)) in
  let! subject := done (map_err Typed
    (subject_for head (pb_subject presented_binding) (rb_hash retained) (rb_header retained))) in
  let! _ := done (map_err (fun e => Typed (PresentedRefused head e))
    (verify_pair_binding presented
       (binding_context seal genesis (rb_parent retained) (rb_root retained) subject))) in
  let! held := done (map_err Pairing (pair_from_canonical_cbor (sc_pair_binding (rb_companion retained)))) in
  let same_context := with_subject presented_binding (pb_subject held) in
  if negb (bool_decide (same_context = held)) then done (Err (Typed (PresentedDiffers head))) else done (Ok ()).

Definition admit_recovered_head (P : Provider) (seal : UnicitySealConfig) (presented : bytes) (limit : Z) : rec () :=
  let! head := ask P best_block_number in
  if head =? 0 then done (Ok ()) else
  let genesis := cs_genesis_hash chain_spec in
  let! retained := check_retained P seal genesis head in
  let! _ := check_presented seal genesis head presented retained in
  let! cached := restore (rb_header retained) (us_profile seal) in
  let! _ := match cached with
    | None => repair_accounting P seal head limit
    | Some _ => done (Ok ())
    end in
  pinned_window P seal genesis head (rb_hash retained).
End operations.

(** ** What a statement may do *)

Definition is_panic {M} (f : RecoveryFault M) : bool :=
  match f with Overflow | ReplayPanic | Panicked _ => true | _ => false end.

Section specs.
Context `{Crypto} `{HeaderHash} `{Abi} `{ConsensusConstants} `{EthExecutor} `{!Chain} `{!SenderRecovery} `{MdbxLaws}.
Abbreviation Store := UnicityParentAccountings.
Abbreviation Provider := (nat -> ProviderView).
Variable C : gmap bytes bytes.

(** From a store of [pre], [m] moves it by [R], returns a value of [Q] or a fault that is no panic. *)
Definition spec {A} (pre : Store -> Prop) (R : Store -> Store -> Prop) (m : rec A) (Q : A -> Prop) : Prop :=
  forall s, pre (rv_tokens s) -> R (rv_tokens s) (rv_tokens (m s).2) /\
    match (m s).1 with Ok a => Q a | Err f => is_panic f = false end.

Record frame (pre : Store -> Prop) (R : Store -> Store -> Prop) : Prop := {
  fr_refl : forall t, pre t -> R t t;
  fr_trans : forall t1 t2 t3, R t1 t2 -> R t2 t3 -> R t1 t3;
  fr_pre : forall t t', pre t -> R t t' -> pre t' }.

Lemma spec_bind {A B} pre R (m : rec A) (k : A -> rec B) Q Q' :
  frame pre R -> spec pre R m Q -> (forall a, Q a -> spec pre R (k a) Q') -> spec pre R (bind m k) Q'.
Proof.
  intros HF Hm Hk s Hs. specialize (Hm s Hs). unfold bind. destruct (m s) as [[a|f] s1]; cbn in *; [|done].
  destruct Hm as [HR Ha]. destruct (Hk a Ha s1) as [HR' Hq]; [by eapply fr_pre|]. split; [by eapply fr_trans|done].
Qed.

Lemma spec_done {A} pre R (r : result _ A) (Q : A -> Prop) :
  frame pre R -> match r with Ok a => Q a | Err f => is_panic f = false end -> spec pre R (done r) Q.
Proof. intros HF Hr s Hs. cbn. split; [by apply HF|by destruct r]. Qed.

(** A statement that maps an error, then goes on. *)
Lemma spec_map_err {A B E} pre R (g : E -> RecoveryFault MdbxError) (r : result E A) (k : A -> rec B) Q :
  frame pre R -> (forall e, r = Err e -> is_panic (g e) = false) -> (forall a, r = Ok a -> spec pre R (k a) Q) ->
  spec pre R (bind (done (map_err g r)) k) Q.
Proof.
  intros HF Hg Hk. apply (spec_bind pre R _ _ (fun a => r = Ok a)); [done| |done].
  apply spec_done; [done|]. destruct r; cbn; [done|by apply Hg].
Qed.

Lemma spec_ok_or {A B} pre R (f : RecoveryFault MdbxError) (o : option A) (k : A -> rec B) Q :
  frame pre R -> (is_panic f = true -> is_Some o) -> (forall a, o = Some a -> spec pre R (k a) Q) ->
  spec pre R (bind (done (ok_or o f)) k) Q.
Proof.
  intros HF Hg Hk. apply (spec_bind pre R _ _ (fun a => o = Some a)); [done| |done].
  apply spec_done; [done|]. destruct o; cbn; [done|]. destruct (is_panic f); [by destruct Hg|done].
Qed.

Lemma spec_ask {A} pre R (P : Provider) (f : ProviderView -> result string A) :
  frame pre R -> spec pre R (ask P f) (fun a => exists t, f (P t) = Ok a).
Proof.
  intros HF s Hs. cbn. split; [by apply HF|]. destruct (f (P (rv_clock s))) eqn:Hf; cbn; [eauto|done].
Qed.

Lemma spec_for_each pre R (body : Z -> rec ()) numbers :
  frame pre R -> (forall n, n ∈ numbers -> spec pre R (body n) (fun _ => True)) ->
  spec pre R (for_each body numbers) (fun _ => True).
Proof.
  intros HF. induction numbers as [|n numbers IH]; intros Hb; cbn [for_each]; [by apply spec_done|].
  eapply spec_bind; [done|apply Hb; left|]. intros _ _. apply IH. intros n' Hn. apply Hb. by right.
Qed.

Lemma spec_mono {A} pre R (pre' : Store -> Prop) (m : rec A) Q :
  spec pre' eq m Q -> (forall t, pre t -> pre' t) -> frame pre R -> spec pre R m Q.
Proof.
  intros Hm Hp HF s Hs. destruct (Hm s (Hp _ Hs)) as [He Hq]. split; [|done]. rewrite <- He. by apply HF.
Qed.

(** The store's companions. *)
Definition companions (t : Store) : Prop := committed_contents (pa_store t) COMPANIONS = C.

Definition quiet {A} (m : rec A) (Q : A -> Prop) : Prop := spec companions eq m Q.

Lemma quiet_frame : frame companions eq.
Proof. split; [done|congruence|by intros t t' Ht <-]. Qed.

(** The registry is sound for the live holds [held], beside those companions. *)
Definition sound (held : list Hold) (t : Store) : Prop :=
  (0 < capacity (pa_inner t))%nat /\ registry_ok (pa_inner t) held /\ companions t.

(** It stays sound, and the hashes it admits anew are among [U]. *)
Definition moved (U : bytes -> Prop) (held : list Hold) (t t' : Store) : Prop :=
  sound held t' /\ forall h, is_admitted h (pa_inner t') = true -> is_admitted h (pa_inner t) = true \/ U h.

Definition runs {A} (U : bytes -> Prop) (m : rec A) (Q : A -> Prop) : Prop :=
  forall held, spec (sound held) (moved U held) m Q.

Lemma moved_frame U held : frame (sound held) (moved U held).
Proof.
  split; [by split; [|left]| |by intros t t' _ [Ht' _]].
  intros t1 t2 t3 [_ H12] [Hs3 H23]. split; [done|]. intros h [Hh|]%H23; [by apply H12|by right].
Qed.

Lemma quiet_runs {A} U (m : rec A) Q : quiet m Q -> runs U m Q.
Proof. intros Hm held. eapply spec_mono; [done|by intros t (_ & _ & ?)|apply moved_frame]. Qed.
End specs.

(** ** The statements on tokens *)

Section statements.
Context `{Crypto} `{HeaderHash} `{Abi} `{ConsensusConstants} `{EthExecutor} `{!Chain} `{!SenderRecovery} `{MdbxLaws}.
Abbreviation Store := UnicityParentAccountings.
Abbreviation Provider := (nat -> ProviderView).
Variables (P : Provider) (seal : UnicitySealConfig) (C : gmap bytes bytes).

Lemma insert_moved U held t h n token id a :
  (a = true -> U h) -> sound C held t ->
  moved C U held t (with_inner t (insert_inner h n token id a (pa_inner t))).
Proof.
  intros Ha (Hc & Hr & HC). split.
  - split_and!; cbn; [by rewrite insert_capacity|by apply insert_inner_ok|done].
  - cbn. intros h' [?|[-> ?]]%insert_admitted; [by left|right; auto].
Qed.

(** A restore admits nothing. *)
Lemma restore_runs U header p : runs C U (restore header p) (fun _ => True).
Proof.
  intros held s Hs. unfold restore.
  destruct (restore_exact _ _ _ _ _) as [[o t]|f] eqn:Hr; cbn; (split; [|done]); [|by apply moved_frame].
  destruct (find_entry (sh_hash header) (tokens (pa_inner (rv_tokens s)))) as [e|] eqn:Hf.
  - unfold restore_exact in Hr. rewrite Hf in Hr. destruct (_ || _); [done|]. injection Hr as _ <-. by apply moved_frame.
  - destruct (restore_miss _ _ _ _ _ _ _ Hf Hr) as [[_ ->]|(token & _ & _ & ->)]; [by apply moved_frame|].
    by apply insert_moved.
Qed.

Lemma admit_runs (U : bytes -> Prop) h : U h -> runs C U (admit_token h) (fun _ => True).
Proof.
  intros Hu held s (Hc & Hr & HC). unfold admit_token. destruct (admit_entry h (pa_inner (rv_tokens s))) as [found i] eqn:Ha.
  pose proof (admit_ok _ _ h Hr) as Hr'. pose proof (admit_admitted h (pa_inner (rv_tokens s))) as Hadm.
  rewrite Ha in Hr', Hadm. cbn in *. split; [|done]. split.
  - split_and!; cbn; [|done|done]. unfold admit_entry in Ha. destruct (find_entry _ _); by injection Ha as _ <-.
  - cbn. intros h' [?| ->]%Hadm; [by left|by right].
Qed.

(** A publication touches the accounting tables and this one entry. *)
Lemma publish_outcome h n id g token t r t' :
  publish h n id g token t = (r, t') ->
  exists e, committed_contents e COMPANIONS = committed_contents (pa_store t) COMPANIONS /\
    (t' = with_store t e \/
     t' = with_inner (with_store t e) (insert_inner h n token (Some (id, g)) true (pa_inner t))).
Proof.
  assert (Heta : t = with_store t (pa_store t)) by (by destruct t). unfold publish.
  destruct (negb _); [intros [= _ <-]; eauto|]. destruct (pa_attached t).
  - match goal with |- context [put_accounting ?x ?y] => destruct (put_accounting x y) as [r' e'] eqn:Hp end.
    apply put_accounting_frame in Hp. exists e'. split; [done|]. destruct r'; naive_solver.
  - exists (pa_store t). split; [done|]. rewrite <- Heta. destruct (pa_durability_required t); naive_solver.
Qed.

Lemma publish_runs (U : bytes -> Prop) h n token : U h -> runs C U (publish_token h n token) (fun _ => True).
Proof.
  intros Hu held s (Hc & Hr & HC). unfold publish_token.
  destruct (publish _ _ _ _ _ _) as [r t] eqn:Hp. apply publish_outcome in Hp as (e & He & Ht).
  split; [|by destruct r]. assert (Hs : sound C held (with_store (rv_tokens s) e)).
  { split_and!; [done|done|]. unfold companions in *. cbn. congruence. }
  cbn. destruct Ht as [-> | ->]; [split; [done|by left]|]. by apply (insert_moved U held (with_store (rv_tokens s) e)).
Qed.

(** Ending a hold gives the registry back without it. *)
Lemma release_runs {A} U held h token (r : result _ A) s :
  sound C ((h, token) :: held) (rv_tokens s) ->
  moved C U held (rv_tokens s) (rv_tokens (release h r s).2) /\ (release h r s).1 = r /\
  protected (pa_inner (rv_tokens (release h r s).2)) = protected (pa_inner (rv_tokens s)).
Proof.
  intros (Hc & Hr & HC). destruct (unpin_ok _ h token [] held Hr) as (i & Hu & Hi & Hcap & Hp & _).
  unfold release. rewrite Hu. cbn. split_and!; [|done|done]. split.
  - split_and!; cbn; [congruence|done|done].
  - cbn. intros h' Hh. left. by eapply unpin_admitted.
Qed.
End statements.

(** ** What recovery admits *)

Section safety.
Context `{Crypto} `{HeaderHash} `{Abi} `{ConsensusConstants} `{EthExecutor} `{!Chain} `{!SenderRecovery} `{MdbxLaws}.
Abbreviation Store := UnicityParentAccountings.
Abbreviation Provider := (nat -> ProviderView).
Variables (P : Provider) (seal : UnicitySealConfig) (C : gmap bytes bytes).
Abbreviation genesis := (cs_genesis_hash chain_spec).

(** A binding of a canonical block, accepted against its parent, root input and this node's pins. *)
Definition binding_accepted (n : Z) (r : RetainedBlock) (raw : bytes) (b : PairBinding) : Prop :=
  exists subject, subject_for n (pb_subject b) (rb_hash r) (rb_header r) = Ok subject /\
    verify_pair_binding raw (binding_context seal genesis (rb_parent r) (rb_root r) subject) = Ok b.

(** The provider named the block at height [n] and its parent below it; the companion retained for it
    decodes, and its binding is accepted. *)
Record vouched (n : Z) (r : RetainedBlock) (b : PairBinding) : Prop := {
  vo_hash : exists t, block_hash (P t) n = Ok (Some (rb_hash r));
  vo_header : exists t, sealed_header_by_hash (P t) (rb_hash r) = Ok (Some (rb_header r));
  vo_parent : exists t t' h, block_hash (P t) (n - 1) = Ok (Some h) /\
    sealed_header_by_hash (P t') h = Ok (Some (rb_parent r));
  vo_companion : retains C (rb_hash r) (rb_companion r);
  vo_root : companion_decode_root_input (rb_companion r) = Ok (rb_root r);
  vo_binding : binding_accepted n r (sc_pair_binding (rb_companion r)) b }.

(** The provider names one block at height [n]. *)
Definition settled (n : Z) : Prop :=
  forall t t' h h', block_hash (P t) n = Ok (Some h) -> block_hash (P t') n = Ok (Some h') -> h = h'.

(** A canonical hash of a height some block of which was vouched for; that very block, when the
    height is settled. *)
Definition usable (h : bytes) : Prop :=
  exists n r b t, block_hash (P t) n = Ok (Some h) /\ vouched n r b /\ (settled n -> rb_hash r = h).

Lemma vouched_usable n r b : vouched n r b -> usable (rb_hash r).
Proof. intros Hv. destruct (vo_hash _ _ _ Hv) as [t Ht]. by exists n, r, b, t. Qed.

Lemma verify_decodes raw ctx b : verify_pair_binding raw ctx = Ok b -> pair_from_canonical_cbor raw = Ok b.
Proof. intros Hv. unfold verify_pair_binding in Hv. inv_ok Hv. congruence. Qed.

Lemma verify_decoded raw ctx b b' :
  verify_pair_binding raw ctx = Ok b -> pair_from_canonical_cbor raw = Ok b' -> b = b'.
Proof. intros Hv%verify_decodes Hd. congruence. Qed.

Lemma hash_spec pre R n : frame pre R ->
  spec pre R (canonical_hash P n) (fun h => exists t, block_hash (P t) n = Ok (Some h)).
Proof.
  intros HF. eapply spec_bind; [done|by apply spec_ask|]. intros o Ho. apply spec_done; [done|].
  by destruct o.
Qed.

Lemma header_spec pre R h : frame pre R ->
  spec pre R (canonical_header P h) (fun x => exists t, sealed_header_by_hash (P t) h = Ok (Some x)).
Proof.
  intros HF. eapply spec_bind; [done|by apply spec_ask|]. intros o Ho. apply spec_done; [done|].
  by destruct o.
Qed.

Lemma companion_quiet h : quiet C (companion_of h) (fun l => forall c, l = Found c -> retains C h c).
Proof.
  intros s Hs. cbn. split; [done|]. destruct (CompanionStore.get h _) as [l|] eqn:Hg; cbn; [|done].
  intros c ->. apply get_found in Hg. unfold companions in Hs. by rewrite Hs in Hg.
Qed.

(** A retained block that checks is vouched for, and the check reads only. *)
Lemma check_retained_quiet n : 1 <= n ->
  quiet C (check_retained P seal genesis n) (fun r => exists b, vouched n r b).
Proof.
  intros Hn. pose proof (quiet_frame C) as HF. unfold check_retained.
  eapply spec_bind; [done|by apply hash_spec|]. intros hash Hhash.
  eapply spec_bind; [done|by apply header_spec|]. intros header Hheader.
  apply spec_ok_or; [done|intros _; unfold checked_sub; destruct (Z.leb_spec 1 n); [eauto|lia]|].
  intros below [-> _]%checked_sub_some.
  eapply spec_bind; [done|by apply hash_spec|]. intros parent_hash [t Ht].
  eapply spec_bind; [done|by apply header_spec|]. intros parent [t' Ht'].
  eapply spec_bind; [done|apply companion_quiet|]. intros l Hl.
  destruct l as [c|x|]; [|by apply spec_done..]. specialize (Hl c eq_refl).
  apply spec_map_err; [done|done|]. intros root Hroot.
  apply spec_map_err; [done|done|]. intros b Hb.
  apply spec_map_err; [done|done|]. intros subject Hs.
  apply spec_map_err; [done|done|]. intros b' Hv. apply spec_done; [done|].
  pose proof (verify_decoded _ _ _ _ Hv Hb) as ->.
  exists b. split; cbn; eauto 6. by exists subject.
Qed.

Lemma resolve_moved U parent p t held :
  sound C held t ->
  match resolve parent (identity_of chain_spec) p t with
  | (Ok lease, t') => sound C ((le_hash lease, le_token lease) :: held) t' /\
      forall h, is_admitted h (pa_inner t') = true -> is_admitted h (pa_inner t) = true
  | (Err _, t') => moved C U held t t'
  end.
Proof.
  intros Hs. pose proof Hs as (Hc & Hr & HC). pose proof (resolve_outcome parent (identity_of chain_spec) p t) as Ho.
  pose proof (resolve_registry parent (identity_of chain_spec) p t held Hc Hr) as Hreg.
  destruct (resolve _ _ _ _) as [[lease|u] t'].
  - destruct Ho as (i' & Hi & ->). apply resolve_cached_iff in Hi as (e & Hf & _ & _ & _ & _ & _ & _ & ->).
    split; [by split_and!|]. intros h. rewrite !is_admitted_by. cbn. by apply with_pins_admitted.
  - destruct Ho as (_ & _ & [-> |(token & _ & _ & ->)]); [by apply moved_frame|by apply insert_moved].
Qed.

Lemma bind_replay_runs U n root b1 parent : runs C U (bind_replay seal genesis n root b1 parent) (fun _ => True).
Proof.
  intros held s Hs. unfold bind_replay. destruct (n =? 1).
  { destruct (bind_validated_genesis _ _ _ _ _ _); (split; [by apply moved_frame|done]). }
  pose proof (resolve_moved U parent (us_profile seal) (rv_tokens s) held Hs) as Hm.
  destruct (resolve _ _ _ _) as [[lease|u] t]; [|by cbn].
  destruct Hm as [Hs' Hadm]. set (r := map_err _ _).
  destruct (release_runs C U held (le_hash lease) (le_token lease) r (set_tokens s t) Hs') as ([Hs1 Ha1] & -> & _).
  split; [|unfold r; by destruct (bind_completed_parent _ _ _ _ _ _)].
  split; [done|]. intros h [Hh|]%Ha1; [left; by apply Hadm|by right].
Qed.

Lemma find_anchor_runs U p numbers :
  runs C U (find_anchor P p numbers) (fun o => forall a, o = Some a -> a ∈ numbers).
Proof.
  intros held. pose proof (moved_frame C U held) as HF.
  induction numbers as [|n numbers IH]; cbn [find_anchor]; [by apply spec_done|].
  eapply spec_bind; [done|by apply hash_spec|]. intros hash _.
  eapply spec_bind; [done|by apply header_spec|]. intros header _.
  eapply spec_bind; [done|apply restore_runs|]. intros [token|] _.
  - apply spec_done; [done|]. intros a [= <-]. left.
  - intros s Hs. destruct (IH s Hs) as [Hm Hq]. split; [done|].
    destruct (find_anchor P p numbers s).1 as [o|]; [|done]. intros a Ha. right. by apply Hq.
Qed.

(** The anchor is within the limit, so the replay is. *)
Definition anchor_for (target limit a : Z) : Prop := 0 <= a <= target /\ target - a <= limit.

Lemma select_anchor_runs U p target limit : 0 < target -> 0 <= limit ->
  runs C U (select_repair_anchor P p genesis target limit) (anchor_for target limit).
Proof.
  intros Ht Hl held. pose proof (moved_frame C U held) as HF. unfold select_repair_anchor.
  eapply spec_bind; [done|apply find_anchor_runs|]. intros [a|] Ha.
  - apply spec_done; [done|]. specialize (Ha a eq_refl). apply elem_of_reverse, elem_of_seqZ in Ha.
    unfold anchor_for, saturating_sub in *. lia.
  - destruct (Z.eqb_spec (saturating_sub target limit) 0) as [He|]; [|by apply spec_done].
    eapply spec_bind; [done|by apply hash_spec|]. intros hash _.
    eapply spec_bind; [done|by apply header_spec|]. intros header _.
    apply spec_map_err; [done|done|]. intros fee _. apply spec_done; [done|].
    unfold anchor_for, saturating_sub in *. lia.
Qed.

Lemma replay_runs n : 1 <= n -> runs C usable (replay_number P seal genesis n) (fun _ => True).
Proof.
  intros Hn held. pose proof (moved_frame C usable held) as HF. unfold replay_number.
  eapply spec_bind; [done|by apply quiet_runs, check_retained_quiet|]. intros r [b Hb].
  eapply spec_bind; [done|by apply spec_ask|]. intros o _.
  apply spec_ok_or; [done|done|]. intros [header body] _.
  destruct (negb (recoverable body)); [by apply spec_done|]. destruct (_ || _); [by apply spec_done|].
  eapply spec_bind; [done|apply bind_replay_runs|]. intros bound _.
  eapply spec_bind; [done|by apply spec_ask|]. intros state _.
  apply spec_map_err; [done| |].
  { intros e He. pose proof (replay_calm bound state {| bk_header := {| sh_header := header; sh_hash := hash_slow header |};
      bk_body := body |}) as Hc. unfold calm in Hc. by destruct e. }
  intros [result token] _. apply publish_runs. by eapply vouched_usable.
Qed.

Lemma repair_runs target limit : 0 <= target < u64_max -> 0 <= limit ->
  runs C usable (repair_accounting P seal target limit) (fun _ => True).
Proof.
  intros Ht Hl held. pose proof (moved_frame C usable held) as HF. unfold repair_accounting.
  destruct (Z.eqb_spec target 0); [by apply spec_done|].
  eapply spec_bind; [done|by apply hash_spec|]. intros target_hash _.
  eapply spec_bind; [done|apply select_anchor_runs; lia|]. intros a [Ha _].
  apply (spec_bind _ _ _ _ (fun _ => True)); [done| |intros _ _].
  { destruct (Z.leb_spec 1 a); [|by apply spec_done].
    eapply spec_bind; [done|by apply quiet_runs, check_retained_quiet|]. intros r [b Hb].
    eapply spec_bind; [done|apply admit_runs; by eapply vouched_usable|]. intros _ _. by apply spec_done. }
  apply spec_ok_or; [done|intros _; unfold checked_add; destruct (Z.leb_spec (a + 1) u64_max); [eauto|lia]|].
  intros first Hfirst. assert (first = a + 1) as -> by (unfold checked_add in Hfirst; destruct (_ <=? _); congruence).
  eapply spec_bind; [done|apply spec_for_each; [done|]|].
  { intros x Hn%elem_of_seqZ. apply replay_runs. lia. }
  intros _ _. eapply spec_bind; [done|by apply hash_spec|]. intros hash _.
  destruct (negb _); by apply spec_done.
Qed.

Lemma admit_number_runs n : 1 <= n -> runs C usable (admit_number P seal genesis n) (fun _ => True).
Proof.
  intros Hn held. pose proof (moved_frame C usable held) as HF. unfold admit_number.
  eapply spec_bind; [done|by apply hash_spec|]. intros hash [t Hhash].
  eapply spec_bind; [done|by apply header_spec|]. intros header _.
  eapply spec_bind; [done|apply restore_runs|]. intros [token|] _; [|by apply spec_done].
  intros s Hs. destruct (check_retained_quiet n Hn s) as [He Hq]; [apply Hs|].
  destruct (check_retained P seal genesis n s) as [[r|f] s1]; cbn [fst snd] in He, Hq; rewrite He in Hs |- *.
  2:{ cbn. split; [by apply HF|done]. }
  destruct Hq as [b Hb]. destruct (vo_hash _ _ _ Hb) as [t' Ht']. assert (Hu : usable hash).
  { exists n, r, b, t. split_and!; [done|done|]. intros Hst. by eapply Hst. }
  refine (spec_bind _ _ (admit_token hash) _ _ _ HF (admit_runs C usable hash Hu held) _ s1 Hs).
  intros _ _. by apply spec_done.
Qed.

Lemma admit_window_runs head hash : usable hash ->
  runs C usable (admit_window P seal genesis head hash) (fun _ => True).
Proof.
  intros Hu held. pose proof (moved_frame C usable held) as HF. unfold admit_window.
  eapply spec_bind; [done|apply spec_for_each; [done|]|].
  { intros n Hn%elem_of_seqZ. apply admit_number_runs. lia. }
  intros _ _. eapply spec_bind; [done|by apply admit_runs|]. intros found _. destruct found; by apply spec_done.
Qed.

(** Success means the head was found and is now the protected one. *)
Lemma admit_window_protects head hash s s' :
  admit_window P seal genesis head hash s = (Ok (), s') -> protected (pa_inner (rv_tokens s')) = Some hash.
Proof.
  unfold admit_window, bind. destruct (for_each _ _ s) as [[[]|] s1]; [|done].
  unfold admit_token, admit_entry. destruct (find_entry _ _); cbn; [|done]. by intros [= <-].
Qed.

Lemma pinned_window_runs head hash s held :
  usable hash -> sound C held (rv_tokens s) ->
  let '(r, s') := pinned_window P seal genesis head hash s in
  moved C usable held (rv_tokens s) (rv_tokens s') /\
  match r with
  | Ok _ => protected (pa_inner (rv_tokens s')) = Some hash
  | Err f => is_panic f = false
  end.
Proof.
  intros Hu Hs. pose proof Hs as (Hc & Hr & HC). unfold pinned_window, pin.
  destruct (find_entry hash (tokens (pa_inner (rv_tokens s)))) as [e|] eqn:Hf; [|by split; [apply moved_frame|]].
  set (s1 := set_tokens _ _).
  assert (Hs1 : sound C ((hash, pe_token e) :: held) (rv_tokens s1)).
  { split_and!; cbn; [done| |done]. apply (pin_ok _ held); [done|done|by left]. }
  destruct (admit_window_runs head hash Hu _ s1 Hs1) as [[Hs2 Hadm] Hq].
  pose proof (admit_window_protects head hash s1) as Hp.
  destruct (admit_window P seal genesis head hash s1) as [r s2]; cbn [fst snd] in *.
  destruct (release_runs C usable held hash (pe_token e) r s2 Hs2) as ([Hs3 Ha3] & Hr3 & Hp3).
  destruct (release hash r s2) as [r3 s3]; cbn [fst snd] in *. subst r3. split.
  - split; [done|]. intros h [Hh%Hadm|]%Ha3; [|by right]. destruct Hh as [Hh|]; [left|by right].
    revert Hh. rewrite !is_admitted_by. by apply with_pins_admitted.
  - destruct r as [[]|]; [|done]. rewrite Hp3. by apply Hp.
Qed.

(** The head's two bindings: both accepted, and equal but for their subject. *)
Definition head_bound (presented : bytes) (head : Z) (r : RetainedBlock) : Prop :=
  0 < head /\ (exists t, best_block_number (P t) = Ok head) /\
  exists b pb, vouched head r b /\ binding_accepted head r presented pb /\ with_subject pb (pb_subject b) = b.

Lemma check_presented_quiet presented head r b : vouched head r b ->
  quiet C (check_presented seal genesis head presented r)
    (fun _ => exists pb, binding_accepted head r presented pb /\ with_subject pb (pb_subject b) = b).
Proof.
  intros Hv. pose proof (quiet_frame C) as HF. unfold check_presented.
  apply spec_map_err; [done|done|]. intros pb Hpb.
  apply spec_map_err; [done|done|]. intros subject Hs.
  apply spec_map_err; [done|done|]. intros pb' Hvp.
  apply spec_map_err; [done|done|]. intros b' Hb'.
  pose proof (verify_decoded _ _ _ _ Hvp Hpb) as ->.
  destruct (vo_binding _ _ _ Hv) as (subject' & _ & Hvb). pose proof (verify_decoded _ _ _ _ Hvb Hb') as <-.
  case_bool_decide as Hsame; cbn [negb]; apply spec_done; try done. exists pb. split; [by exists subject|done].
Qed.

(** After the bindings, the tokens. *)
Definition admit_checked (head limit : Z) (r : RetainedBlock) : rec () :=
  let! cached := restore (rb_header r) (us_profile seal) in
  let! _ := match cached with None => repair_accounting P seal head limit | Some _ => done (Ok ()) end in
  pinned_window P seal genesis head (rb_hash r).

Lemma admit_checked_runs head limit r s held :
  usable (rb_hash r) -> 0 <= head < u64_max -> 0 <= limit -> sound C held (rv_tokens s) ->
  let '(res, s') := admit_checked head limit r s in
  moved C usable held (rv_tokens s) (rv_tokens s') /\
  match res with
  | Ok _ => protected (pa_inner (rv_tokens s')) = Some (rb_hash r)
  | Err f => is_panic f = false
  end.
Proof.
  intros Hu Hh Hl Hs. pose proof (moved_frame C usable held) as HF. unfold admit_checked, bind.
  pose proof (restore_runs C usable (rb_header r) (us_profile seal) held s Hs) as [Hm1 Hq1].
  destruct (restore _ _ s) as [[cached|f] s1]; cbn [fst snd] in *; [|done].
  pose proof (fr_pre _ _ HF _ _ Hs Hm1) as Hs1.
  set (m := match cached with None => _ | Some _ => _ end).
  assert (Hm : spec (sound C held) (moved C usable held) m (fun _ => True)).
  { destruct cached; [by apply spec_done|by apply repair_runs]. }
  destruct (Hm s1 Hs1) as [Hm2 Hq2]. destruct (m s1) as [[[]|f] s2]; cbn [fst snd] in *.
  2:{ split; [by eapply fr_trans|done]. }
  pose proof (pinned_window_runs head (rb_hash r) s2 held Hu (fr_pre _ _ HF _ _ Hs1 Hm2)) as Hw.
  destruct (pinned_window _ _ _ _ _ s2) as [res s3]. destruct Hw as [Hm3 Hq3].
  split; [|done]. do 2 (eapply fr_trans; [done|done|]). done.
Qed.

Lemma recovered_outcome presented limit s held :
  (forall t n, best_block_number (P t) = Ok n -> 0 <= n < u64_max) -> 0 <= limit ->
  sound C held (rv_tokens s) ->
  let '(res, s') := admit_recovered_head P seal presented limit s in
  moved C usable held (rv_tokens s) (rv_tokens s') /\
  ((exists head r, head_bound presented head r /\
      match res with
      | Ok _ => protected (pa_inner (rv_tokens s')) = Some (rb_hash r)
      | Err f => is_panic f = false
      end) \/
   (rv_tokens s' = rv_tokens s /\
      match res with
      | Ok _ => best_block_number (P (rv_clock s)) = Ok 0
      | Err f => is_panic f = false
      end)).
Proof.
  intros Hbest Hl Hs. pose proof (moved_frame C usable held) as HF.
  assert (Hstop : forall (f : RecoveryFault MdbxError) s' (Q : Prop), is_panic f = false -> rv_tokens s' = rv_tokens s ->
    moved C usable held (rv_tokens s) (rv_tokens s') /\ (Q \/ rv_tokens s' = rv_tokens s /\ is_panic f = false)).
  { intros f s' Q Hf He. rewrite He. split; [by apply HF|by right]. }
  unfold admit_recovered_head. cbv zeta. unfold bind at 1. unfold ask.
  destruct (best_block_number (P (rv_clock s))) as [head|text] eqn:Hhead; cbn [map_err]; [|by apply Hstop].
  set (s0 := {| rv_tokens := rv_tokens s; rv_clock := S (rv_clock s) |}).
  destruct (Z.eqb_spec head 0) as [-> |Hne]; [split; [by apply HF|by right]|].
  pose proof (Hbest _ _ Hhead) as Hrange. unfold bind at 1.
  destruct (check_retained_quiet head ltac:(lia) s0) as [He1 Hq1]; [apply Hs|].
  destruct (check_retained P seal genesis head s0) as [[r|f] s1]; cbn [fst snd] in He1, Hq1; [|by apply Hstop].
  destruct Hq1 as [b Hb]. unfold bind at 1. change (rv_tokens s0) with (rv_tokens s) in He1.
  destruct (check_presented_quiet presented head r b Hb s1) as [He2 Hq2]; [rewrite <- He1; apply Hs|].
  destruct (check_presented _ _ _ _ r s1) as [[[]|f] s2]; cbn [fst snd] in He2, Hq2; [|apply Hstop; congruence].
  rewrite He1, He2 in Hs |- *. change (let! cached := _ in _) with (admit_checked head limit r).
  pose proof (admit_checked_runs head limit r s2 held (vouched_usable _ _ _ Hb) Hrange Hl Hs) as Hw.
  destruct (admit_checked head limit r s2) as [res s3]. destruct Hw as [Hm Hq]. split; [done|]. left.
  exists head, r. split; [|done]. destruct Hq2 as (pb & Hpb & Hsame).
  split_and!; [lia|by exists (rv_clock s)|by exists b, pb].
Qed.

(** C16: admission of a recovered head.  When it succeeds on a chain past genesis, the head the
    provider named has a retained companion whose binding is accepted for that block, its canonical
    parent, this node's pins and genesis; the presented binding is accepted for it too and is the
    retained one but for its subject; the head's token is admitted and protected; and every pin taken
    on the way has been given back. *)
Theorem recovered_head presented limit s held s' :
  (forall t n, best_block_number (P t) = Ok n -> 0 <= n < u64_max) -> 0 <= limit ->
  sound C held (rv_tokens s) -> admit_recovered_head P seal presented limit s = (Ok (), s') ->
  best_block_number (P (rv_clock s)) = Ok 0 \/
  exists head r, head_bound presented head r /\ sound C held (rv_tokens s') /\
    protected (pa_inner (rv_tokens s')) = Some (rb_hash r) /\
    is_admitted (rb_hash r) (pa_inner (rv_tokens s')) = true.
Proof.
  intros Hbest Hl Hs Hrun. pose proof (recovered_outcome presented limit s held Hbest Hl Hs) as Ho.
  rewrite Hrun in Ho. destruct Ho as [[Hs' _] [(head & r & Hhead & Hp)|[_ Hz]]]; [right|by left].
  exists head, r. split_and!; [done|done|done|]. destruct Hs' as (_ & [Hcore _] & _).
  apply is_admitted_iff; [apply Hcore|]. by apply Hcore.
Qed.

(** C17: recovery is safe on every exit, whatever the provider and the environment answer and however
    the chain moves meanwhile.  It never panics; the registry's invariant holds again for the same
    holders and the companions are untouched; the tokens are as they were unless both bindings of the
    head were accepted; and a hash it admits is canonical at a height for which a retained binding was
    accepted, that of the very block when the provider names one block at that height. *)
Theorem recovery_safe presented limit s held :
  (forall t n, best_block_number (P t) = Ok n -> 0 <= n < u64_max) -> 0 <= limit ->
  sound C held (rv_tokens s) ->
  let '(res, s') := admit_recovered_head P seal presented limit s in
  sound C held (rv_tokens s') /\
  (forall f, res = Err f -> is_panic f = false) /\
  (rv_tokens s' = rv_tokens s \/ exists head r, head_bound presented head r) /\
  (forall h, is_admitted h (pa_inner (rv_tokens s')) = true ->
     is_admitted h (pa_inner (rv_tokens s)) = true \/ usable h).
Proof.
  intros Hbest Hl Hs. pose proof (recovered_outcome presented limit s held Hbest Hl Hs) as Ho.
  destruct (admit_recovered_head P seal presented limit s) as [res s']. destruct Ho as [[Hs' Ha] Ho].
  split_and!; [done| | |done].
  - intros f ->. by destruct Ho as [(head & r & _ & ?)|[_ ?]].
  - destruct Ho as [(head & r & ? & _)|[? _]]; [right; eauto|by left].
Qed.

(** Hydration at startup admits nothing.  It may cache the tokens of the canonical blocks near the
    two tips, and it never panics, but no hash becomes usable by it. *)
Theorem hydration_admits_nothing p s held :
  sound C held (rv_tokens s) ->
  let '(res, s') := hydrate_accounting P p s in
  sound C held (rv_tokens s') /\ (forall f, res = Err f -> is_panic f = false) /\
  forall h, is_admitted h (pa_inner (rv_tokens s')) = true -> is_admitted h (pa_inner (rv_tokens s)) = true.
Proof.
  intros Hs. pose proof (moved_frame C (fun _ => False) held) as HF.
  assert (Hsp : spec (sound C held) (moved C (fun _ => False) held) (hydrate_accounting P p) (fun _ => True)).
  { eapply spec_bind; [done|by apply spec_ask|]. intros head _.
    eapply spec_bind; [done|by apply spec_ask|]. intros persisted _.
    apply spec_for_each; [done|]. intros tip _. apply spec_for_each; [done|]. intros n _. unfold hydrate_number.
    destruct (n =? 0); [by apply spec_done|].
    eapply spec_bind; [done|by apply spec_ask|]. intros [hash|] _; [|by apply spec_done].
    eapply spec_bind; [done|by apply spec_ask|]. intros [header|] _; [|by apply spec_done].
    eapply spec_bind; [done|apply restore_runs|]. intros _ _. by apply spec_done. }
  specialize (Hsp s Hs). destruct (hydrate_accounting P p s) as [res s']. destruct Hsp as [[Hs' Ha] Hq].
  split_and!; [done|by intros f ->|]. intros h [?|[]]%Ha. done.
Qed.

(** A repair is bounded.  The anchor it starts from is a block at most [limit] below the head, so
    it replays at most [limit] blocks; there is no other outcome than such an anchor or a refusal. *)
Theorem repair_bounded p target limit s held :
  0 < target -> 0 <= limit -> sound C held (rv_tokens s) ->
  match (select_repair_anchor P p genesis target limit s).1 with
  | Ok a => 0 <= a <= target /\ zlen (range_inclusive (a + 1) target) <= limit
  | Err f => is_panic f = false
  end.
Proof.
  intros Ht Hl Hs. destruct (select_anchor_runs (fun _ => False) p target limit Ht Hl held s Hs) as [_ Hq].
  destruct (select_repair_anchor _ _ _ _ _ s).1 as [a|]; [|done]. destruct Hq as [Ha Hd]. split; [done|].
  unfold range_inclusive, zlen. rewrite length_seqZ. lia.
Qed.
End safety.

(** ** A concrete recovery

    The chain ends in the block of [toy_build] on [toy_parent].  The sidecar holds the accounting of
    the parent and the companions of both, so the head's token is missing and has to be replayed. *)

Definition block_of {B E R T S} (fallback : B) (o : result E (B * R * T) * S) : B :=
  match o with (Ok (blk, _, _), _) => blk | _ => fallback end.
Definition ok_else {E A} (fallback : A) (r : result E A) : A := match r with Ok a => a | Err _ => fallback end.
Definition toy_block : Block (H0 := toy_primitives) :=
  block_of (@Build_Block toy_primitives toy_parent (@Build_BlockBody toy_primitives [] [] None)) toy_build.

Definition toy_seal : UnicitySealConfig := {|
  us_profile := small_profile; us_fee_collector := ZERO20;
  us_pins := {| pp_network_id := 3; pp_root_genesis_id := word_of 41 |}; us_b1 := sample_context no_hook |}.

Definition numbered (n : Z) : SealedHeader := {|
  sh_hash := word_of (n + 12);
  sh_header := {|
    bh_parent_hash := word_of (n + 11); bh_beneficiary := ZERO20; bh_state_root := word_of 65; bh_number := n;
    bh_gas_limit := 60000000; bh_gas_used := 0; bh_timestamp := 1600000000 + n; bh_extra_data := [];
    bh_mix_hash := word_of 61; bh_base_fee_per_gas := Some 10000000; bh_blob_gas_used := Some 0;
    bh_excess_blob_gas := Some 0; bh_parent_beacon_block_root := Some (word_of 62); bh_requests_hash := None;
    bh_block_access_list_hash := None; bh_slot_number := None; bh_ommers_hash := word_of 3;
    bh_transactions_root := word_of 4; bh_receipts_root := word_of 5; bh_logs_bloom := []; bh_difficulty := 0;
    bh_nonce := 0; bh_withdrawals_root := Some (word_of 6) |} |}.

Definition toy_at (n : Z) : SealedHeader :=
  if n =? 10 then bk_header toy_block else if n =? 9 then toy_parent else numbered n.

#[global] Instance toy_recovery : SenderRecovery (H := toy_primitives) := { recoverable := fun _ => true }.

Definition toy_view : ProviderView (H6 := toy_chain) := {|
  best_block_number := Ok 10; last_block_number := Ok 9;
  block_hash := fun n => Ok (if (0 <=? n) && (n <=? 10) then Some (word_of (n + 12)) else None);
  sealed_header_by_hash := fun h => Ok (Some (toy_at (be_val h - 12)));
  block_by_hash := fun _ => Ok (Some (sh_header (bk_header toy_block), bk_body toy_block));
  state_by_block_hash := fun _ => Ok (transition_parent : StateView (Chain := toy_chain)) |}.

(** The binding of a block of the chain, and its companion. *)
Definition toy_binding (n : Z) (subject : ExpectedSubject) : bytes :=
  ok_else [] (let? b := reference_binding (H := toy_crypto)
      (binding_context toy_seal (word_of 1) (toy_at (n - 1)) transition_input subject) (word_of 72) in
    Ok (pair_canonical_cbor b)).
Definition toy_companion (n : Z) : SealCompanion := {|
  sc_root_input := ok_else [] (canonical_cbor (H := toy_crypto) transition_input);
  sc_b1_update := ui_bytes transition_companions; sc_records := ui_records transition_companions;
  sc_pair_binding := toy_binding n (ExpectImport (word_of (n + 12))); sc_witnesses := []; sc_provenance := [] |}.

Definition toy_sidecar : Environment (MdbxEnv := memory_env) :=
  let e := (put (H := memory_env) (word_of 22) 10 (toy_companion 10) no_tables).2 in
  let e := (put (H := memory_env) (word_of 21) 9 (toy_companion 9) e).2 in
  (put_accounting (H := memory_env) {| StoreCodec.sa_chain_id := 7; StoreCodec.sa_genesis_hash := word_of 1; StoreCodec.sa_block_number := 9;
     StoreCodec.sa_accounting := for_local_storage sample_token |} e).2.

Definition toy_restart : Recovering (H8 := memory_env) := {|
  rv_tokens := {| pa_inner := rg_inner (empty_registry 2); pa_attached := true; pa_store := toy_sidecar;
                  pa_durability_required := true; pa_repair_limit := 64 |};
  rv_clock := 0 |}.

Definition toy_recover :=
  admit_recovered_head (H := toy_crypto) (H0 := shifted_hash) (H1 := toy_abi) (H2 := toy_constants)
    (H5 := toy_executor) (H6 := toy_chain) (H7 := toy_recovery) (H8 := memory_env) (fun _ => toy_view) toy_seal
    (toy_binding 10 (ExpectImport (word_of 22))) 64 toy_restart.

Definition toy_companions : gmap bytes bytes := committed_contents (MdbxLaws := memory_laws) toy_sidecar COMPANIONS.

#[local] Strategy expand [toy_recover].
#[local] Strategy opaque [toy_sidecar].

Lemma toy_recovers : is_ok toy_recover.1 = true.
Proof. vm_cast_no_check (eq_refl true). Qed.

Lemma toy_sound : sound (H9 := memory_laws) toy_companions [] (rv_tokens toy_restart).
Proof. split_and!; [exact (Nat.lt_0_succ 1)|exact (empty_ok 2)|]. unfold companions, toy_companions, toy_restart. cbn [rv_tokens pa_store]. reflexivity. Qed.

Lemma toy_best (t : nat) n : best_block_number toy_view = Ok n -> 0 <= n < u64_max.
Proof. intros [= <-]. ulia. Qed.

Lemma recovered_head_witness :
  exists s' head r, toy_recover = (Ok (), s') /\
    head_bound (H := toy_crypto) (fun _ => toy_view) toy_seal toy_companions
      (toy_binding 10 (ExpectImport (word_of 22))) head r /\
    protected (pa_inner (rv_tokens s')) = Some (rb_hash r).
Proof.
  pose proof toy_recovers as Hr. destruct toy_recover as [[[]|] s'] eqn:Hs; [|discriminate Hr].
  unfold toy_recover in Hs.
  destruct (recovered_head (H9 := memory_laws) (fun _ => toy_view) toy_seal toy_companions
    (toy_binding 10 (ExpectImport (word_of 22))) 64 toy_restart [] s'
    toy_best ltac:(lia) toy_sound Hs) as [[=]|(head & r & Hh & _ & Hp & _)].
  exists s', head, r. split; [reflexivity|]. split; [exact Hh|exact Hp].
Defined.

Lemma recovery_safe_witness :
  sound (H9 := memory_laws) toy_companions [] (rv_tokens toy_recover.2).
Proof.
  pose proof (recovery_safe (H := toy_crypto) (H0 := shifted_hash) (H1 := toy_abi) (H2 := toy_constants)
    (H5 := toy_executor) (H6 := toy_chain) (H9 := memory_laws) (fun _ => toy_view) toy_seal toy_companions
    (toy_binding 10 (ExpectImport (word_of 22))) 64 toy_restart [] toy_best ltac:(lia) toy_sound) as Hs.
  change (admit_recovered_head _ _ _ _ _) with toy_recover in Hs.
  destruct toy_recover as [res s']. exact (proj1 Hs).
Defined.

Definition toy_hydrate := hydrate_accounting (H0 := shifted_hash) (H6 := toy_chain) (H8 := memory_env)
  (fun _ => toy_view) small_profile toy_restart.

Lemma toy_hydrated : bool_decide (is_Some (find_entry (word_of 21) (tokens (pa_inner (rv_tokens toy_hydrate.2))))) = true.
Proof. vm_compute. reflexivity. Qed.

(** The parent's token is in the cache, and not admitted. *)
Lemma hydration_admits_nothing_witness :
  is_Some (find_entry (word_of 21) (tokens (pa_inner (rv_tokens toy_hydrate.2)))) /\
  is_admitted (word_of 21) (pa_inner (rv_tokens toy_hydrate.2)) = false.
Proof.
  split; [exact (bool_decide_eq_true_1 _ toy_hydrated)|].
  pose proof (hydration_admits_nothing (H0 := shifted_hash) (H6 := toy_chain) (H9 := memory_laws) (fun _ => toy_view)
    toy_companions small_profile toy_restart [] toy_sound) as Hs.
  change (hydrate_accounting _ _ _) with toy_hydrate in Hs. destruct toy_hydrate as [res s'].
  destruct (is_admitted (word_of 21) (pa_inner (rv_tokens s'))) eqn:Ha; [|exact Ha].
  discriminate (proj2 (proj2 Hs) _ Ha).
Defined.

Lemma repair_bounded_witness :
  match (select_repair_anchor (H0 := shifted_hash) (H6 := toy_chain) (H8 := memory_env) (fun _ => toy_view)
           small_profile (cs_genesis_hash toy_spec) 10 64 toy_restart).1 with
  | Ok a => 0 <= a <= 10 /\ zlen (range_inclusive (a + 1) 10) <= 64
  | Err f => is_panic f = false
  end.
Proof.
  exact (repair_bounded (H0 := shifted_hash) (H6 := toy_chain) (H9 := memory_laws) (fun _ => toy_view)
    toy_companions small_profile 10 64 toy_restart [] ltac:(lia) ltac:(lia) toy_sound).
Defined.
