(* ===== verification/SealJobs.v ===== *)
(** Payload jobs: [crates/unicity/payload/src/lib.rs] and the first half of
    [crates/unicity/payload/src/registry.rs].

    A seal method prepares a job, which fixes the parent, the attributes and the bound input of one
    build, and installs it in a bounded registry; the payload service resolves it again by an
    eight-byte id.  The id is a truncated hash over an encoding that is not injective, so it is only a
    handle: the theorems say that what is resolved is nevertheless the exact job, and how long a job
    stays resolvable.

    The execution configuration of a job is its bound input; every clone of a registry shares one
    mutex, so a run is a sequence of the critical sections below.  The stock payload builder that
    consumes a resolved job is not modelled here. *)
From stdpp Require Import sets.
From S2P Require Import Prelude Crypto BlockAccounting RootInput Hook B1Update PairBinding RegistryTransition.
From S2P Require Import StoreCodec CompanionStore EthConsensus BlockJob BlockExecutor ParentAccountings.

(** ** Attributes and payload ids *)

(** The Engine API attributes. *)
Record EthPayloadAttributes := {
  ep_timestamp : Z; ep_prev_randao : bytes; ep_suggested_fee_recipient : bytes;
  ep_withdrawals : option (list bytes); ep_parent_beacon_block_root : option bytes;
  ep_slot_number : option Z; ep_target_gas_limit : option Z }.
#[global] Instance payload_attributes_eq_decision : EqDecision EthPayloadAttributes.
Proof. solve_decision. Defined.

Record UnicityPayloadAttributes := { ua_inner : EthPayloadAttributes; ua_commitment : bytes }.
#[global] Instance unicity_attributes_eq_decision : EqDecision UnicityPayloadAttributes.
Proof. solve_decision. Defined.

(** The RLP of a list of withdrawals, and the gas limit nearest to a desired one. *)
Class PayloadPrimitives := {
  encode_withdrawals : list bytes -> bytes;
  calculate_block_gas_limit : Z -> Z -> Z }.

(** [EthereumBuilderConfig]. *)
Record EthereumBuilderConfig := {
  ebc_desired_gas_limit : Z; ebc_await_payload_on_missing : bool; ebc_max_blobs_per_block : option Z;
  ebc_extra_data : bytes; ebc_skip_state_root : bool }.

Definition PAYLOAD_ID_DOMAIN : bytes := ascii "UNICITY_PAYLOAD_ID_EXTRADATA_COMMITMENT_V1".
Definition DEFAULT_SEAL_JOB_CAPACITY : nat := 16.

(** The description of a refused resolution. *)
Record PayloadJobResolutionError := Resolution { message : string }.

Section jobs.
Context `{Crypto} `{HeaderHash} `{PayloadPrimitives}.

Definition id_input (parent : bytes) (a : EthPayloadAttributes) : bytes :=
  parent ++ be_bytes 8 (ep_timestamp a) ++ ep_prev_randao a ++ ep_suggested_fee_recipient a
  ++ from_option encode_withdrawals [] (ep_withdrawals a)
  ++ default [] (ep_parent_beacon_block_root a)
  ++ from_option (be_bytes 8) [] (ep_slot_number a)
  ++ from_option (be_bytes 8) [] (ep_target_gas_limit a).

Definition payload_id (parent : bytes) (a : EthPayloadAttributes) : bytes := take 8 (sha256 (id_input parent a)).

Definition unicity_payload_id (a : UnicityPayloadAttributes) (parent : bytes) : bytes :=
  take 8 (sha256 (PAYLOAD_ID_DOMAIN ++ payload_id parent (ua_inner a) ++ ua_commitment a)).

Definition gas_limit_with_target (c : EthereumBuilderConfig) (parent_gas_limit : Z) (target : option Z) : Z :=
  calculate_block_gas_limit parent_gas_limit (default (ebc_desired_gas_limit c) target).

Definition next_block_attributes (parent : SealedHeader) (a : UnicityPayloadAttributes)
    (c : EthereumBuilderConfig) : NextBlockEnvAttributes := {|
  na_timestamp := ep_timestamp (ua_inner a);
  na_suggested_fee_recipient := ep_suggested_fee_recipient (ua_inner a);
  na_prev_randao := ep_prev_randao (ua_inner a);
  na_gas_limit := gas_limit_with_target c (bh_gas_limit (sh_header parent)) (ep_target_gas_limit (ua_inner a));
  na_parent_beacon_block_root := ep_parent_beacon_block_root (ua_inner a);
  na_withdrawals := ep_withdrawals (ua_inner a);
  na_extra_data := ua_commitment a;
  na_slot_number := ep_slot_number (ua_inner a) |}.

(** ** Jobs *)

Record ResolvedPayloadJob := {
  rj_parent : SealedHeader; rj_attributes : UnicityPayloadAttributes; rj_payload_id : bytes;
  rj_evm_config : BoundExecutionInput; rj_pair_binding : option PairBinding }.

(** [PayloadConfig]; its information about the parent block is not read here. *)
Record PayloadConfig := {
  cf_parent_header : SealedHeader; cf_attributes : UnicityPayloadAttributes; cf_payload_id : bytes }.

Definition STATE_ROOT_REQUIRED : string := "Unicity payload jobs require state-root computation".

Definition new_job (parent : SealedHeader) (a : UnicityPayloadAttributes) (b : BoundExecutionInput)
    (c : EthereumBuilderConfig) : result PayloadJobResolutionError ResolvedPayloadJob :=
  if ebc_skip_state_root c then Err (Resolution STATE_ROOT_REQUIRED) else
  let id := unicity_payload_id a (sh_hash parent) in
  let? _ := map_err Resolution (validate_payload_job b parent (next_block_attributes parent a c)) in
  Ok {| rj_parent := parent; rj_attributes := a; rj_payload_id := id; rj_evm_config := b; rj_pair_binding := None |}.

Definition with_pair_binding (j : ResolvedPayloadJob) (b : PairBinding) : ResolvedPayloadJob :=
  {| rj_parent := rj_parent j; rj_attributes := rj_attributes j; rj_payload_id := rj_payload_id j;
     rj_evm_config := rj_evm_config j; rj_pair_binding := Some b |}.

Definition check_binding (j : ResolvedPayloadJob) (config : PayloadConfig) : result PayloadJobResolutionError () :=
  let parent_mismatch := negb (bool_decide (rj_parent j = cf_parent_header config)) in
  let attributes_mismatch := negb (bool_decide (rj_attributes j = cf_attributes config)) in
  let id_mismatch :=
    negb (bool_decide (unicity_payload_id (cf_attributes config) (sh_hash (cf_parent_header config)) = cf_payload_id config)) in
  if parent_mismatch || attributes_mismatch || id_mismatch
  then Err (Resolution "payload job binding mismatch") else Ok ().

Definition same_build_input (j other : ResolvedPayloadJob) : bool :=
  bool_decide (rj_parent j = rj_parent other) && bool_decide (rj_attributes j = rj_attributes other)
  && bool_decide (rj_pair_binding j = rj_pair_binding other)
  && bool_decide (be_input (rj_evm_config j) = be_input (rj_evm_config other)).

(** ** The registry *)

Record SealJobRegistry := { sj_jobs : list ResolvedPayloadJob; sj_capacity : nat }.

(** [None] when the constructor panics. *)
Definition registry_with_capacity (capacity : nat) : option SealJobRegistry :=
  if (capacity =? 0)%nat then None else Some {| sj_jobs := []; sj_capacity := capacity |}.

Definition grow_capacity (capacity : nat) (r : SealJobRegistry) : SealJobRegistry :=
  {| sj_jobs := sj_jobs r; sj_capacity := Nat.max (sj_capacity r) capacity |}.

(** [jobs.iter().find(|job| job.payload_id == id)]. *)
Definition find_job (id : bytes) (jobs : list ResolvedPayloadJob) : option ResolvedPayloadJob :=
  snd <$> list_find (fun j => rj_payload_id j = id) jobs.

Definition root_input (id : bytes) (r : SealJobRegistry) : option RootInputV2 :=
  (fun j => be_input (rj_evm_config j)) <$> find_job id (sj_jobs r).
Definition b1_update (id : bytes) (r : SealJobRegistry) : option bytes :=
  (fun j => bj_update (be_b1 (rj_evm_config j))) <$> find_job id (sj_jobs r).
Definition records (id : bytes) (r : SealJobRegistry) : option bytes :=
  (fun j => bj_records (be_b1 (rj_evm_config j))) <$> find_job id (sj_jobs r).
Definition pair_binding (id : bytes) (r : SealJobRegistry) : option PairBinding :=
  find_job id (sj_jobs r) ≫= rj_pair_binding.

Definition insert_job (j : ResolvedPayloadJob) (r : SealJobRegistry)
    : result PayloadJobResolutionError () * SealJobRegistry :=
  match find_job (rj_payload_id j) (sj_jobs r) with
  | Some existing =>
      if same_build_input existing j then (Ok (), r)
      else (Err (Resolution "duplicate payload job with different input"), r)
  | None =>
      let jobs := if (sj_capacity r <=? length (sj_jobs r))%nat then tail (sj_jobs r) else sj_jobs r in
      (Ok (), {| sj_jobs := jobs ++ [j]; sj_capacity := sj_capacity r |})
  end.

Definition clear (r : SealJobRegistry) : SealJobRegistry := {| sj_jobs := []; sj_capacity := sj_capacity r |}.

Definition resolve_in (jobs : list ResolvedPayloadJob) (config : PayloadConfig)
    : result PayloadJobResolutionError BoundExecutionInput :=
  let? j := ok_or (find_job (cf_payload_id config) jobs) (Resolution "payload job is absent") in
  let? _ := check_binding j config in
  Ok (rj_evm_config j).

Definition resolve_payload_job (config : PayloadConfig) (r : SealJobRegistry)
    : result PayloadJobResolutionError BoundExecutionInput := resolve_in (sj_jobs r) config.

(** [FixedPayloadJobResolver::new]: no job has the id of a later one. *)
Fixpoint fixed_resolver (jobs : list ResolvedPayloadJob) : result PayloadJobResolutionError () :=
  match jobs with
  | [] => Ok ()
  | j :: rest =>
      if existsb (fun other => bool_decide (rj_payload_id other = rj_payload_id j)) rest
      then Err (Resolution "duplicate payload job") else fixed_resolver rest
  end.

(** ** The execution-aware builder *)

Definition resolve_job (c : EthereumBuilderConfig) (config : PayloadConfig) (r : SealJobRegistry)
    : result PayloadJobResolutionError BoundExecutionInput :=
  let? b := resolve_payload_job config r in
  let? _ := map_err Resolution (validate_payload_job b (cf_parent_header config)
              (next_block_attributes (cf_parent_header config) (cf_attributes config) c)) in
  if ebc_skip_state_root c then Err (Resolution STATE_ROOT_REQUIRED) else Ok b.
End jobs.

(** Why a finished build is refused. *)
Inductive RememberError (M : Type) :=
| AccountingUnavailable (e : BlockAccountingError)
| Unpublished (f : CompanionStore.StoreFault M).
Arguments AccountingUnavailable {M} e.
Arguments Unpublished {M} f.

(** Publishing the token of a built block; [slot] is the system gas its executor recorded. *)
Definition remember_parent `{CompanionStore.MdbxEnv} (chain : Accountings.ChainIdentity) (b : BoundExecutionInput)
    (slot : option Z) (sealed : SealedHeader) (s : Accountings.UnicityParentAccountings)
    : result (RememberError CompanionStore.MdbxError) () * Accountings.UnicityParentAccountings :=
  match completed_parent_for b slot sealed with
  | Err e => (Err (AccountingUnavailable e), s)
  | Ok token =>
      let '(r, s) := Accountings.publish (sh_hash sealed) (bh_number (sh_header sealed))
        (Accountings.ch_id chain) (Accountings.ch_genesis_hash chain) token s in
      (map_err Unpublished r, s)
  end.

(** ** Finding jobs *)

Section registry_lemmas.
Context `{Crypto} `{HeaderHash} `{PayloadPrimitives}.
Abbreviation ids jobs := (map rj_payload_id jobs).

(** The two optional numbers of the attributes are told apart by nothing in the id's input. *)
Lemma payload_id_alias parent timestamp randao recipient withdrawals root n commitment :
  let attributes slot target := {| ua_inner := {| ep_timestamp := timestamp; ep_prev_randao := randao;
      ep_suggested_fee_recipient := recipient; ep_withdrawals := withdrawals;
      ep_parent_beacon_block_root := root; ep_slot_number := slot; ep_target_gas_limit := target |};
    ua_commitment := commitment |} in
  unicity_payload_id (attributes (Some n) None) parent = unicity_payload_id (attributes None (Some n)) parent.
Proof. unfold unicity_payload_id, payload_id, id_input. cbn. by rewrite app_nil_r. Qed.

Lemma find_job_none id jobs : find_job id jobs = None <-> (id ∉ ids jobs).
Proof.
  unfold find_job. rewrite fmap_None, list_find_None, Forall_forall. split.
  - intros Hf (j & -> & Hin)%list_elem_of_fmap. by apply (Hf j).
  - intros Hn j Hin <-. by apply Hn, list_elem_of_fmap_2.
Qed.

Lemma find_job_some id jobs j : NoDup (ids jobs) -> find_job id jobs = Some j <-> j ∈ jobs /\ rj_payload_id j = id.
Proof.
  intros Hd. unfold find_job. split.
  - intros ([n x] & (Hl & Hid & _)%list_find_Some & ->)%fmap_Some. split; [by eapply list_elem_of_lookup_2|done].
  - intros [Hin Hid]. destruct (list_find _ jobs) as [[n x]|] eqn:Hx.
    2:{ apply list_find_None in Hx. rewrite Forall_forall in Hx. by destruct (Hx j Hin). }
    apply list_find_Some in Hx as (Hl & Hxid & _). cbn. f_equal. apply list_elem_of_lookup_1 in Hin as [m Hm].
    assert (n = m) as ->; [|congruence].
    eapply NoDup_lookup; [done|..]; rewrite list_lookup_fmap; [by rewrite Hl|rewrite Hm; cbn; congruence].
Qed.

(** What [new_job] establishes: the id, and the agreement of the attributes with the bound input. *)
Definition prepared (c : EthereumBuilderConfig) (j : ResolvedPayloadJob) : Prop :=
  ebc_skip_state_root c = false /\
  rj_payload_id j = unicity_payload_id (rj_attributes j) (sh_hash (rj_parent j)) /\
  validate_payload_job (rj_evm_config j) (rj_parent j) (next_block_attributes (rj_parent j) (rj_attributes j) c) = Ok ().

Lemma new_job_prepared parent a b c j : new_job parent a b c = Ok j ->
  prepared c j /\ rj_parent j = parent /\ rj_attributes j = a /\ rj_evm_config j = b.
Proof.
  intros Hj. unfold new_job in Hj. inv_ok Hj. subst j. apply map_err_ok_inv in Hok. destruct a0.
  unfold prepared. by split_and!.
Qed.

(** ** Runs *)

Inductive JobEvent := InsertJob (j : ResolvedPayloadJob) | Grow (capacity : nat) | Clear.

Definition job_step (ev : JobEvent) (r : SealJobRegistry) : SealJobRegistry :=
  match ev with InsertJob j => (insert_job j r).2 | Grow n => grow_capacity n r | Clear => clear r end.
Definition run_jobs (es : list JobEvent) (r : SealJobRegistry) : SealJobRegistry :=
  foldl (fun r ev => job_step ev r) r es.

Record jobs_ok (c : EthereumBuilderConfig) (r : SealJobRegistry) : Prop := {
  jo_unique : NoDup (ids (sj_jobs r));
  jo_bound : (length (sj_jobs r) <= sj_capacity r)%nat;
  jo_capacity : (0 < sj_capacity r)%nat;
  jo_prepared : Forall (prepared c) (sj_jobs r) }.

Definition event_ok (c : EthereumBuilderConfig) (ev : JobEvent) : Prop :=
  match ev with InsertJob j => prepared c j | _ => True end.

Lemma tail_elem {A} (x : A) l : x ∈ tail l -> x ∈ l.
Proof. destruct l; [done|]. by right. Qed.

Lemma step_jobs_ok c ev r : jobs_ok c r -> event_ok c ev -> jobs_ok c (job_step ev r).
Proof.
  intros [Hd Hb Hc Hp] He. destruct ev as [j|n|]; cbn [job_step]; [|split; cbn; (done || lia)|split; cbn; (constructor || lia)].
  unfold insert_job. destruct (find_job _ _) as [x|] eqn:Hf; [destruct (same_build_input x j); by split|].
  apply find_job_none in Hf. set (jobs := if (sj_capacity r <=? length (sj_jobs r))%nat then tail (sj_jobs r) else sj_jobs r).
  assert (Hs : forall x, x ∈ jobs -> x ∈ sj_jobs r) by (unfold jobs; destruct (_ <=? _)%nat; [intros x; apply tail_elem|done]).
  assert (Hd' : NoDup (ids jobs)).
  { unfold jobs. destruct (_ <=? _)%nat; [|done]. destruct (sj_jobs r); [done|]. by apply NoDup_cons in Hd as [_ Hd]. }
  split; cbn [snd sj_jobs sj_capacity].
  - rewrite map_app. apply NoDup_app. split_and!; [done| |cbn; apply NoDup_singleton].
    intros x (y & -> & Hy)%list_elem_of_fmap Hx%list_elem_of_singleton. apply Hf. rewrite <- Hx. apply list_elem_of_fmap_2. by apply Hs.
  - rewrite length_app. cbn [length]. unfold jobs. destruct (Nat.leb_spec (sj_capacity r) (length (sj_jobs r))); [|lia].
    destruct (sj_jobs r); cbn [tail length] in *; lia.
  - done.
  - apply Forall_app. split; [|by constructor]. rewrite Forall_forall in Hp |- *. intros x Hx. apply Hp. by apply Hs.
Qed.

Lemma run_jobs_ok c es r : jobs_ok c r -> Forall (event_ok c) es -> jobs_ok c (run_jobs es r).
Proof.
  revert r. induction es as [|ev es IH]; intros r Hr Hes; [done|]. apply Forall_cons in Hes as [He Hes].
  apply IH; [by apply step_jobs_ok|done].
Qed.

Lemma run_jobs_source es : forall r j, j ∈ sj_jobs (run_jobs es r) -> j ∈ sj_jobs r \/ InsertJob j ∈ es.
Proof.
  induction es as [|ev es IH]; intros r j Hj; [by left|]. apply IH in Hj as [Hj|Hj]; [|right; by right].
  destruct ev as [x|n|]; cbn in Hj; [|by left|by apply not_elem_of_nil in Hj]. unfold insert_job in Hj.
  destruct (find_job _ _) as [y|]; [by destruct (same_build_input y x); left|]. cbn in Hj.
  apply elem_of_app in Hj as [Hj|Hj%list_elem_of_singleton]; [left|right; subst; left].
  destruct (_ <=? _)%nat; [by apply tail_elem|done].
Qed.

Lemma check_binding_iff j config : check_binding j config = Ok () <->
  rj_parent j = cf_parent_header config /\ rj_attributes j = cf_attributes config /\
  unicity_payload_id (cf_attributes config) (sh_hash (cf_parent_header config)) = cf_payload_id config.
Proof.
  unfold check_binding. repeat case_bool_decide; cbn; split; try done; intros (?&?&?); done.
Qed.

Lemma resolve_job_iff c config r b : jobs_ok c r -> resolve_job c config r = Ok b <->
  cf_payload_id config = unicity_payload_id (cf_attributes config) (sh_hash (cf_parent_header config)) /\
  exists j, j ∈ sj_jobs r /\ rj_parent j = cf_parent_header config /\ rj_attributes j = cf_attributes config /\
    rj_evm_config j = b.
Proof.
  intros [Hd _ _ Hp]. rewrite Forall_forall in Hp. unfold resolve_job, resolve_payload_job, resolve_in. split.
  - intros Hr. inv_ok Hr. clear Hok0. rename Hok into Hf. inv_ok Hf.
    apply ok_or_inv in Hok. apply (find_job_some _ _ _ Hd) in Hok as [Hin _]. destruct a2.
    apply check_binding_iff in Hok0 as (Hpa & Ha & Hi). subst. eauto 6.
  - intros [Hid (j & Hin & Hpa & Ha & <-)]. destruct (Hp j Hin) as (Hskip & Hji & Hv).
    rewrite Hpa, Ha in Hji. rewrite (proj2 (find_job_some _ _ j Hd)); [|by split; [|congruence]]. cbn [ok_or rbind].
    rewrite (proj2 (check_binding_iff j config)) by done. cbn [rbind]. rewrite Hpa, Ha in Hv. rewrite Hv. cbn.
    by rewrite Hskip.
Qed.

(** C33: a payload id is a handle, the job behind it is exact.  In every reachable registry the ids are
    unique and the jobs within the capacity; the builder resolves a configuration exactly when its id
    is the one its attributes and parent give and a job for precisely that parent and those attributes
    is held, and it then returns that job's own input.  The job was installed by an insertion, and the
    checks of its construction still pass. *)
Theorem seal_job_exact c cap es config b :
  (0 < cap)%nat -> Forall (event_ok c) es ->
  let r := run_jobs es {| sj_jobs := []; sj_capacity := cap |} in
  NoDup (map rj_payload_id (sj_jobs r)) /\ (length (sj_jobs r) <= sj_capacity r)%nat /\
  (resolve_job c config r = Ok b <->
   cf_payload_id config = unicity_payload_id (cf_attributes config) (sh_hash (cf_parent_header config)) /\
   exists j, j ∈ sj_jobs r /\ rj_parent j = cf_parent_header config /\ rj_attributes j = cf_attributes config /\
     rj_evm_config j = b) /\
  (forall j, j ∈ sj_jobs r -> InsertJob j ∈ es).
Proof.
  intros Hcap Hes r. assert (Hr : jobs_ok c r).
  { apply run_jobs_ok; [|done]. split; cbn; [constructor|lia|done|constructor]. }
  split_and!; [apply Hr|apply Hr|by apply resolve_job_iff|].
  intros j [Hj|Hj]%run_jobs_source; [by apply not_elem_of_nil in Hj|done].
Qed.

Definition inserts (es : list JobEvent) : nat :=
  length (List.filter (fun ev => match ev with InsertJob _ => true | _ => false end) es).

(** The job is held, with at most [k] later ones. *)
Definition behind (j : ResolvedPayloadJob) (k : nat) (r : SealJobRegistry) : Prop :=
  exists l1 l2, sj_jobs r = l1 ++ j :: l2 /\ (length l2 <= k)%nat.

Lemma behind_mono j k k' r : (k <= k')%nat -> behind j k r -> behind j k' r.
Proof. intros Hk (l1 & l2 & Hl & Hlen). exists l1, l2. split; [done|lia]. Qed.

Lemma step_capacity ev r : (sj_capacity r <= sj_capacity (job_step ev r))%nat.
Proof.
  destruct ev as [x|n|]; cbn; [|lia|lia]. unfold insert_job. destruct (find_job _ _) as [y|]; [by destruct (same_build_input y x)|done].
Qed.

(** Eviction takes the oldest, so it does not reach a job while those behind it fit. *)
Lemma insert_behind j k x r : behind j k r -> (k + 1 < sj_capacity r)%nat -> behind j (k + 1) (insert_job x r).2.
Proof.
  intros Hb Hk. unfold insert_job. destruct (find_job _ _) as [y|].
  { apply (behind_mono j k); [lia|]. by destruct (same_build_input y x). }
  destruct Hb as (l1 & l2 & Hl & Hlen). unfold behind. cbn. rewrite Hl.
  destruct (Nat.leb_spec (sj_capacity r) (length (l1 ++ j :: l2))) as [Hfull|_].
  - destruct l1 as [|y l1]; cbn [app tail length] in *; [rewrite ?length_app in *; cbn in *; lia|].
    exists l1, (l2 ++ [x]). rewrite <- app_assoc, length_app. cbn. split; [done|lia].
  - exists l1, (l2 ++ [x]). rewrite <- app_assoc, length_app. cbn. split; [done|lia].
Qed.

Lemma run_behind es : forall j k r, behind j k r -> Clear ∉ es -> (k + inserts es < sj_capacity r)%nat ->
  behind j (k + inserts es) (run_jobs es r).
Proof.
  induction es as [|ev es IH]; intros j k r Hb Hn Hk; [apply (behind_mono j k); [lia|done]|].
  apply not_elem_of_cons in Hn as [Hne Hn]. pose proof (step_capacity ev r) as Hc. unfold inserts in *.
  destruct ev as [x|n|]; cbn [List.filter length run_jobs foldl] in *; [|by apply (IH j k); [|done|lia]|done].
  apply (behind_mono j (k + 1 + length (List.filter (fun ev => match ev with InsertJob _ => true | _ => false end) es))); [lia|].
  apply IH; [apply insert_behind; [done|lia]|done|cbn in Hc |- *; lia].
Qed.

(** C34: a job lives long enough.  A job that was not held before its insertion is still resolved, by
    the configuration it was made for, after any further events with fewer insertions than the
    capacity and no clearing; growing the capacity never costs it its place. *)
Theorem seal_job_retained c r j es :
  jobs_ok c r -> prepared c j -> (rj_payload_id j ∉ map rj_payload_id (sj_jobs r)) ->
  Forall (event_ok c) es -> Clear ∉ es -> (inserts es < sj_capacity r)%nat ->
  resolve_job c {| cf_parent_header := rj_parent j; cf_attributes := rj_attributes j; cf_payload_id := rj_payload_id j |}
    (run_jobs (InsertJob j :: es) r) = Ok (rj_evm_config j).
Proof.
  intros Hr Hj Hnew Hes Hclear Hroom. apply resolve_job_iff.
  { apply run_jobs_ok; [done|by constructor]. }
  split; [apply Hj|]. exists j. split_and!; try done. cbn [run_jobs foldl job_step].
  apply find_job_none in Hnew. unfold insert_job. rewrite Hnew. cbn [snd].
  set (r1 := {| sj_jobs := _ |}). assert (Hb : behind j 0 r1) by (eexists _, []; split; [done|cbn; lia]).
  destruct (run_behind es j 0 r1 Hb Hclear) as (l1 & l2 & Hl & _); [cbn; lia|]. unfold run_jobs in Hl. rewrite Hl. set_solver.
Qed.

End registry_lemmas.

(** ** A build that can be built upon *)

Section remembered.
Context `{Crypto} `{HeaderHash} `{CompanionStore.MdbxLaws}.
Import Accountings.

(** The token of a finished block is the accounting of its header with the recorded system gas. *)
Lemma completed_token_of b system sealed t :
  hash_slow (sh_header sealed) = sh_hash sealed -> bh_gas_limit (sh_header sealed) = max_gas (be_profile b) ->
  completed_parent_for b (Some system) sealed = Ok t ->
  token_of sealed (be_profile b) t /\ BlockAccounting.system (gas (completed t)) = system.
Proof.
  intros Hh Hl Hc. unfold completed_parent_for in Hc. inv_ok Hc. apply ok_or_inv in Hok, Hok0. injection Hok as <-. subst t.
  pose proof (reconcile_fields _ _ _ _ _ _ Hok1) as (_ & _ & Ef & Es & _). cbn [completed].
  split; [|done]. unfold token_of. cbn [completed]. rewrite Ef, Es. by split_and!.
Qed.

(** A lease on the given token and fee. *)
Definition grants (chain : ChainIdentity) (p : BlockProfile) (sealed : SealedHeader) (token : CompletedParent) (fee : Z)
    (s : UnicityParentAccountings) : Prop :=
  exists s', resolve sealed chain p s = (Ok {| le_hash := sh_hash sealed; le_token := token; le_next_fee := fee |}, s').

(** Whether a lease on the hash is out. *)
Definition leased (hash : bytes) (i : ParentAccountingInner) : Prop :=
  match find_entry hash (tokens i) with Some e => 0 < pe_pins e | None => False end.

Lemma cached_grants chain p sealed s e fee :
  find_entry (sh_hash sealed) (tokens (pa_inner s)) = Some e -> pe_admitted e = true ->
  pe_identity e = Some (ch_id chain, ch_genesis_hash chain) -> token_of sealed p (pe_token e) ->
  next_base_fee (completed (pe_token e)) = Ok fee -> grants chain p sealed (pe_token e) fee s.
Proof.
  intros Hf Ha Hi Ht Hn. set (lease := {| le_hash := sh_hash sealed; le_token := pe_token e; le_next_fee := fee |}).
  assert (Hres : exists i', resolve_cached sealed chain p (pa_inner s) = Ok (lease, i')).
  { eexists. apply resolve_cached_iff. exists e. by split_and!. }
  destruct Hres as [i' Hres]. pose proof (resolve_outcome sealed chain p s) as Ho. unfold grants.
  destruct (resolve sealed chain p s) as [[lease'|u] s2]; [|by destruct Ho as (_ & Hno & _); destruct (Hno _ _ Hres)].
  destruct Ho as (i'' & Hi' & _). assert (lease' = lease) as -> by congruence. by exists s2.
Qed.

(** A lease is granted only on an admitted entry, and is on its token. *)
Lemma resolve_entry chain p sealed s lease s' :
  resolve sealed chain p s = (Ok lease, s') ->
  exists e, find_entry (sh_hash sealed) (tokens (pa_inner s)) = Some e /\ pe_admitted e = true /\ le_token lease = pe_token e.
Proof.
  intros Hr. pose proof (resolve_outcome sealed chain p s) as Ho. rewrite Hr in Ho.
  destruct Ho as (i' & (e & Hf & Ha & _ & _ & _ & _ & Ht & _)%resolve_cached_iff & _). by exists e.
Qed.

Lemma resolve_refuses chain p sealed s :
  is_admitted (sh_hash sealed) (pa_inner s) = false -> (resolve sealed chain p s).1 = Err (Unavailable_for (sh_hash sealed)).
Proof.
  intros Hn. pose proof (resolve_outcome sealed chain p s) as Ho. pose proof (resolve_entry chain p sealed s) as He.
  destruct (resolve sealed chain p s) as [[lease|u] s']; [|by destruct Ho as (-> & _)]. exfalso.
  destruct (He _ _ eq_refl) as (e & Hf & Ha & _). unfold is_admitted in Hn.
  apply not_true_iff_false in Hn. apply Hn, existsb_exists. exists e. apply find_entry_split in Hf as (l1 & l2 & -> & _ & Hh & _).
  split; [apply in_elt|]. by rewrite Ha, bool_decide_true.
Qed.

(** C35: when a remembered build can be built upon.  A finished block whose token is published has a
    token that accounts for the system gas the executor recorded, not one read off the header, with a
    next fee in the profile's range.  If no lease on the block is out, whatever the cache held of it,
    resolving the block as a parent on the same chain and profile then grants a lease on that very
    token and fee.  If one is out, the cached entry is kept as it is: the publication succeeds without
    changing the cache, a resolution answers from the old entry, and an entry that was not admitted
    stays refused. *)
Theorem remembered_resolves chain b system sealed s s' :
  profile_typed (be_profile b) -> is_u64 (bh_gas_used (sh_header sealed)) -> is_u64 system ->
  hash_slow (sh_header sealed) = sh_hash sealed -> bh_gas_limit (sh_header sealed) = max_gas (be_profile b) ->
  remember_parent chain b (Some system) sealed s = (Ok (), s') ->
  exists token fee, completed_parent_for b (Some system) sealed = Ok token /\
    BlockAccounting.system (gas (completed token)) = system /\ next_base_fee (completed token) = Ok fee /\
    base_fee_floor (be_profile b) <= fee <= MAX_BASE_FEE /\
    (~ leased (sh_hash sealed) (pa_inner s) -> grants chain (be_profile b) sealed token fee s') /\
    (leased (sh_hash sealed) (pa_inner s) ->
       pa_inner s' = pa_inner s /\
       (forall lease s'', resolve sealed chain (be_profile b) s' = (Ok lease, s'') ->
          exists e, find_entry (sh_hash sealed) (tokens (pa_inner s)) = Some e /\ pe_admitted e = true /\
            le_token lease = pe_token e) /\
       (is_admitted (sh_hash sealed) (pa_inner s) = false ->
          (resolve sealed chain (be_profile b) s').1 = Err (Unavailable_for (sh_hash sealed)))).
Proof.
  intros Hp Hu Hs Hh Hl Hr. unfold remember_parent in Hr.
  destruct (completed_parent_for b (Some system) sealed) as [token|] eqn:Hc; [|done].
  destruct (completed_token_of _ _ _ _ Hh Hl Hc) as [Ht Hsys].
  destruct (token_next_fee sealed (be_profile b) token Hp Hu ltac:(by rewrite Hsys) Ht) as (fee & Hfee & Hrange).
  destruct (publish _ _ _ _ _ s) as [[[]|f] s1] eqn:Hpub; [|done]. injection Hr as <-. apply publish_inner in Hpub.
  exists token, fee. do 3 (split; [done|]). split; [apply Hrange|]. unfold leased.
  destruct (insert_entry (sh_hash sealed) (bh_number (sh_header sealed)) token (Some (ch_id chain, ch_genesis_hash chain)) (pa_inner s))
    as [[Hpin Hsame] | [Hfree (e & Hf & <- & Hi & Ha)]]; rewrite <- Hpub in *.
  - split; [done|]. intros _. split; [done|]. rewrite <- Hsame. split; [|by apply resolve_refuses].
    intros lease s'' Hres. by eapply resolve_entry.
  - split; [|by destruct (find_entry (sh_hash sealed) (tokens (pa_inner s))); [lia|]]. intros _. by apply cached_grants.
Qed.
End remembered.

(** ** A concrete job *)

Definition toy_payload_primitives : PayloadPrimitives :=
  {| encode_withdrawals := @concat byte; calculate_block_gas_limit := fun _ desired => desired |}.

Definition toy_builder_config : EthereumBuilderConfig := {|
  ebc_desired_gas_limit := 60000000; ebc_await_payload_on_missing := true; ebc_max_blobs_per_block := None;
  ebc_extra_data := []; ebc_skip_state_root := false |}.

Definition toy_payload_attributes : UnicityPayloadAttributes := {|
  ua_inner := {| ep_timestamp := na_timestamp toy_attributes; ep_prev_randao := na_prev_randao toy_attributes;
    ep_suggested_fee_recipient := ZERO20; ep_withdrawals := Some [];
    ep_parent_beacon_block_root := na_parent_beacon_block_root toy_attributes; ep_slot_number := None;
    ep_target_gas_limit := None |};
  ua_commitment := na_extra_data toy_attributes |}.

Definition toy_payload_job : ResolvedPayloadJob := {|
  rj_parent := toy_parent; rj_attributes := toy_payload_attributes;
  rj_payload_id := unicity_payload_id (H := toy_crypto) (H1 := toy_payload_primitives) toy_payload_attributes (word_of 21);
  rj_evm_config := toy_job; rj_pair_binding := None |}.

Definition toy_config : PayloadConfig := {|
  cf_parent_header := toy_parent; cf_attributes := toy_payload_attributes;
  cf_payload_id := rj_payload_id toy_payload_job |}.

Lemma toy_job_checks :
  is_ok (validate_payload_job (H := toy_crypto) (H0 := shifted_hash) toy_job toy_parent
    (next_block_attributes (H1 := toy_payload_primitives) toy_parent toy_payload_attributes toy_builder_config)) = true.
Proof. vm_cast_no_check (eq_refl true). Qed.

#[local] Strategy opaque [toy_payload_attributes toy_job].

Lemma toy_prepared : prepared (H := toy_crypto) (H0 := shifted_hash) (H1 := toy_payload_primitives) toy_builder_config toy_payload_job.
Proof.
  split_and!; [reflexivity|reflexivity|]. pose proof toy_job_checks as Hc.
  cbn [rj_evm_config rj_parent rj_attributes toy_payload_job].
  destruct (validate_payload_job _ _ _) as [[]|]; [reflexivity|discriminate Hc].
Qed.

Lemma toy_events : Forall (event_ok (H := toy_crypto) (H0 := shifted_hash) (H1 := toy_payload_primitives) toy_builder_config)
  [InsertJob toy_payload_job; Grow 20].
Proof. constructor; [apply toy_prepared|constructor; [exact I|constructor]]. Qed.

Lemma seal_job_exact_witness :
  resolve_job (H := toy_crypto) (H0 := shifted_hash) (H1 := toy_payload_primitives) toy_builder_config toy_config
    (run_jobs [InsertJob toy_payload_job; Grow 20] {| sj_jobs := []; sj_capacity := 16 |}) = Ok toy_job.
Proof.
  refine (proj2 (proj1 (proj2 (proj2 (seal_job_exact (H := toy_crypto) (H0 := shifted_hash)
    (H1 := toy_payload_primitives) toy_builder_config 16 _ toy_config toy_job _ toy_events)))) _); [lia|].
  split; [reflexivity|]. exists toy_payload_job. split; [left|]. split; [reflexivity|]. split; reflexivity.
Defined.

Lemma empty_jobs_ok c : jobs_ok (H := toy_crypto) (H0 := shifted_hash) (H1 := toy_payload_primitives) c
  {| sj_jobs := []; sj_capacity := 16 |}.
Proof. split; cbn; [constructor|lia|lia|constructor]. Qed.

Lemma seal_job_retained_witness :
  resolve_job (H := toy_crypto) (H0 := shifted_hash) (H1 := toy_payload_primitives) toy_builder_config
    {| cf_parent_header := rj_parent toy_payload_job; cf_attributes := rj_attributes toy_payload_job;
       cf_payload_id := rj_payload_id toy_payload_job |}
    (run_jobs [InsertJob toy_payload_job; Grow 20] {| sj_jobs := []; sj_capacity := 16 |}) =
  Ok (rj_evm_config toy_payload_job).
Proof.
  apply (seal_job_retained (H := toy_crypto) (H0 := shifted_hash) (H1 := toy_payload_primitives) toy_builder_config
    {| sj_jobs := []; sj_capacity := 16 |} toy_payload_job [Grow 20] (empty_jobs_ok _) toy_prepared).
  - apply not_elem_of_nil.
  - constructor; [exact I|constructor].
  - intros Hin%list_elem_of_singleton. discriminate Hin.
  - cbn. lia.
Defined.

Definition toy_remember :=
  remember_parent (H := CompanionStore.memory_env) Accountings.sample_chain toy_job (Some 1800000) toy_parent
    Accountings.fresh_store.

Lemma toy_remembers : is_ok toy_remember.1 = true.
Proof. vm_cast_no_check (eq_refl true). Qed.

(** The same block, cached unadmitted and under a lease. *)
Definition toy_leased : Accountings.UnicityParentAccountings (H0 := CompanionStore.memory_env) :=
  Accountings.with_inner Accountings.fresh_store {| Accountings.tokens := [{|
    Accountings.pe_hash := word_of 21; Accountings.pe_number := 9; Accountings.pe_token := sample_token;
    Accountings.pe_identity := Some (Accountings.ch_id Accountings.sample_chain, Accountings.ch_genesis_hash Accountings.sample_chain);
    Accountings.pe_pins := 1; Accountings.pe_admitted := false |}];
  Accountings.capacity := 4; Accountings.protected := None |}.
Definition toy_remember_leased :=
  remember_parent (H := CompanionStore.memory_env) Accountings.sample_chain toy_job (Some 1800000) toy_parent toy_leased.

Lemma toy_remembers_leased : is_ok toy_remember_leased.1 = true.
Proof. vm_cast_no_check (eq_refl true). Qed.

Lemma remembered_resolves_witness :
  (exists token fee s', toy_remember = (Ok (), s') /\
     grants (H0 := shifted_hash) (H1 := CompanionStore.memory_env) Accountings.sample_chain small_profile toy_parent token fee s') /\
  (exists s', toy_remember_leased = (Ok (), s') /\
     (Accountings.resolve (H := shifted_hash) toy_parent Accountings.sample_chain small_profile s').1 =
       Err (Accountings.Unavailable_for (word_of 21))).
Proof.
  split.
  - pose proof toy_remembers as Hr. destruct toy_remember as [[[]|] s'] eqn:Hs; [|discriminate Hr].
    destruct (remembered_resolves (H0 := shifted_hash) (H1 := CompanionStore.memory_env) Accountings.sample_chain toy_job
      1800000 toy_parent Accountings.fresh_store s' small_profile_typed ltac:(cbn; ulia) ltac:(ulia) eq_refl eq_refl
      Hs) as (token & fee & _ & _ & _ & _ & Hres & _).
    exists token, fee, s'. split; [reflexivity|]. apply Hres. intros [].
  - pose proof toy_remembers_leased as Hr. destruct toy_remember_leased as [[[]|] s'] eqn:Hs; [|discriminate Hr].
    destruct (remembered_resolves (H0 := shifted_hash) (H1 := CompanionStore.memory_env) Accountings.sample_chain toy_job
      1800000 toy_parent toy_leased s' small_profile_typed ltac:(cbn; ulia) ltac:(ulia) eq_refl eq_refl
      Hs) as (token & fee & _ & _ & _ & _ & _ & Hres).
    exists s'. split; [reflexivity|]. apply (proj2 (proj2 (Hres eq_refl)) eq_refl).
Defined.
