(* ===== verification/B2Cbor.v ===== *)
(** The borrowed CBOR views of the B2 kernel, [b2/src/cbor.rs], and its failure identities
    ([b2/src/lib.rs]).  Every object is scanned whole under its own item budget before anything of
    it is read; items are views of the scanned bytes whose children are located by rescanning.

    The reference is the tree type of [B1Cbor]: a native scan accepts the encodings of trees of
    depth at most sixteen, the scan of the kernel's own objects those without text strings and
    maps, so that the rescans behind [children], which panic on an error, never do. *)
From S2P Require Import Prelude CborCodec B1Cbor.
Import B1Cbor.

Module B2Cbor.

Inductive Error :=
| Deadline | DeadlineMismatch | LockProofShape | LockProofTooLarge | JustificationTooLarge
| OutOfGas | ABIFraming | BadOperation | Truncated | Trailing | NonCanonical | ForbiddenCBOR
| Shape | Tag | Version | Length | IntRange | InputTooLarge | TooManyTx | TooManyItems | TooDeep
| ProofTooLarge | CfgMismatch | Predicate | MintShape | MintJustif | MintSalt | MintType | MintData
| TransferData | CDMismatch | Unlock | UnlockLength | UnlockScalars | UnlockRecovery | UnlockKey
| MinterKey | RepeatedSID | NoTransfers | HasTransfers | BurnNotFinal | NotBurn | BurnReason
| ReturnData | ReturnAmount | ReturnRecip | LockInput | ZeroDigest | DeadlineExpired
| LockProofCfg | SplitJustif | SplitProofCount | SplitProofShape | SplitManifest | SplitBurn
| SplitProof | SplitSum | CertScan | CertSigLength.

#[global] Instance error_eq_decision : EqDecision Error.
Proof. solve_decision. Defined.

(** Relation failures give the shaped false result; every other failure halts the call. *)
Definition is_invalid (e : Error) : bool :=
  match e with
  | CfgMismatch | Predicate | MintShape | MintJustif | MintSalt | MintType | MintData
  | TransferData | CDMismatch | Unlock | UnlockLength | UnlockScalars | UnlockRecovery | UnlockKey
  | MinterKey | RepeatedSID | NoTransfers | HasTransfers | BurnNotFinal | NotBurn | BurnReason
  | ReturnData | ReturnAmount | ReturnRecip | LockInput | ZeroDigest | DeadlineExpired
  | LockProofShape | DeadlineMismatch | LockProofCfg | SplitJustif | SplitProofCount
  | SplitProofShape | SplitManifest | SplitBurn | SplitProof | SplitSum | CertScan
  | CertSigLength => true
  | _ => false
  end.

(** A run of the kernel ends in a value, in one of its errors, or in a panic ([expect], a slice
    index or a copy between slices of different lengths). *)
Inductive B2Fault :=
| Failed (e : Error)
| Panicked.

Abbreviation kernel := (result B2Fault).
Definition raise {A} (e : Error) : kernel A := Err (Failed e).
Definition expect {A} (o : option A) : kernel A := ok_or o Panicked.

(** [.map_err(f)] on the kernel's own errors; a panic passes through. *)
Definition on_error {A} (f : Error -> Error) (r : kernel A) : kernel A :=
  map_err (fun x => match x with Failed e => Failed (f e) | Panicked => Panicked end) r.

(** ** The scan *)

Definition head : reader bytes B2Fault (Z * Z) := fun data =>
  match data with
  | [] => raise Truncated
  | b :: data =>
      let first := b2z b in
      let ai := Z.land first 31 in
      if ai <=? 23 then Ok ((Z.shiftr first 5, ai), data)
      else if ai <=? 27 then
        let len := Z.shiftl 1 (ai - 24) in
        let? x := ok_or (get_range data 0 len) (Failed Truncated) in
        let n := shift_fold x in
        if n <? nth (Z.to_nat (ai - 24)) [24; 256; 65536; 4294967296] 0
        then raise NonCanonical
        else Ok ((Z.shiftr first 5, n), drop (Z.to_nat len) data)
      else if ai <=? 30 then raise NonCanonical
      else raise ForbiddenCBOR
  end.

(** The budget of one object; the running count is part of the scan's state, reset by [one]. *)
Record Items := { items_cap : Z; items_native : bool }.
Definition ITEMS_MAX : Z := 32768.
Definition per_object (cap : Z) : Items := {| items_cap := cap; items_native := false |}.
Definition native (cap : Z) : Items := {| items_cap := cap; items_native := true |}.
Definition default_items : Items := per_object ITEMS_MAX.

Abbreviation b2_scanner := (reader Scan B2Fault).

(** Items refused before their head is read: text strings and maps, unless [native], and simple
    values other than null. *)
Definition refused (native : bool) (data : bytes) : bool :=
  match data with
  | b :: _ =>
      let m := Z.shiftr (b2z b) 5 in
      (negb native && ((m =? 3) || (m =? 5))) || ((m =? 7) && negb (bool_decide (b = Byte.xf6)))
  | [] => false
  end.

(** [for _ in 0..count { scan(..)?; }] *)
Fixpoint scan_loop (child : b2_scanner ()) (count : nat) : b2_scanner () := fun s =>
  match count with
  | O => Ok ((), s)
  | S count => let? (_, s) := child s in scan_loop child count s
  end.

(** The [match m]; [child] scans one item a level deeper, [None] at [depth >= 16]. *)
Definition scan_match (child : option (b2_scanner ())) (m n : Z) : b2_scanner () := fun s =>
  if m =? 0 then Ok ((), s)
  else if (m =? 2) || (m =? 3) then
    if zlen (sc_data s) <? n then raise Truncated
    else Ok ((), {| sc_data := drop (Z.to_nat n) (sc_data s); sc_tokens := sc_tokens s |})
  else if (4 <=? m) && (m <=? 6) then
    match child with
    | None => raise TooDeep
    | Some child =>
        let rest := zlen (sc_data s) in
        if (m =? 5) && (rest <? n) then raise Truncated else
        let count := if m =? 6 then 1 else if m =? 5 then n * 2 else n in
        if rest <? count then raise Truncated else scan_loop child (Z.to_nat count) s
    end
  else if (m =? 7) && (n =? 22) then Ok ((), s)
  else raise ForbiddenCBOR.

(** [room] is [16 - depth]. *)
Fixpoint scan (room : nat) (tokens : Items) : b2_scanner () := fun s =>
  let count := sc_tokens s + 1 in
  if items_cap tokens <? count then raise TooManyItems else
  if refused (items_native tokens) (sc_data s) then raise ForbiddenCBOR else
  let? (h, d) := head (sc_data s) in
  scan_match match room with O => None | S room => Some (scan room tokens) end
    (fst h) (snd h) {| sc_data := d; sc_tokens := count |}.

(** ** Items *)

Definition item (data : bytes) : kernel Item :=
  let? (h, rest) := head data in
  Ok {| it_raw := data; it_major := fst h; it_arg := snd h; it_data := rest |}.

Definition one (data : bytes) (tokens : Items) : kernel Item :=
  let? (_, s) := scan max_depth tokens {| sc_data := data; sc_tokens := 0 |} in
  if bool_decide (sc_data s = []) then item data else raise Trailing.

Definition null (it : Item) : bool := (it_major it =? 7) && (it_arg it =? 22).

Definition uint (it : Item) (max : Z) : kernel Z :=
  if negb (it_major it =? 0) then raise Shape else
  if max <? it_arg it then raise IntRange else Ok (it_arg it).

Definition bytes_of (it : Item) (n : Z) : kernel bytes :=
  if negb (it_major it =? 2) then raise Shape else
  if negb (it_arg it =? n) then raise Length else Ok (it_data it).

Definition blob (it : Item) (max : Z) : kernel bytes :=
  if negb (it_major it =? 2) then raise Shape else
  if max <? zlen (it_data it) then raise ProofTooLarge else Ok (it_data it).

Definition count (it : Item) (max : Z) : kernel Z :=
  if negb (it_major it =? 4) then raise Shape else
  if max <? it_arg it then raise TooManyTx else Ok (it_arg it).

(** [Children::next] on unread bytes; both of its [expect]s are panics. *)
Definition next_child (rest : bytes) : kernel (Item * bytes) :=
  match scan max_depth (native usize_max) {| sc_data := rest; sc_tokens := 0 |} with
  | Ok (_, s) =>
      match item (take (length rest - length (sc_data s))%nat rest) with
      | Ok it => Ok (it, sc_data s)
      | Err _ => Err Panicked
      end
  | Err _ => Err Panicked
  end.

(** The whole iterator; each child takes at least a byte, so the unread length is enough fuel. *)
Fixpoint children_from (fuel : nat) (rest : bytes) : kernel (list Item) :=
  match rest, fuel with
  | [], _ => Ok []
  | _, O => Err Panicked
  | _, S fuel =>
      let? (it, rest) := next_child rest in
      let? l := children_from fuel rest in Ok (it :: l)
  end.
Definition children (it : Item) : kernel (list Item) :=
  children_from (length (it_data it)) (it_data it).

(** The [zip] of [array]: [n] slots filled from the children, a slot without one keeping [self]. *)
Fixpoint array_slots (self : Item) (n : nat) (rest : bytes) : kernel (list Item) :=
  match n with
  | O => Ok []
  | S n' =>
      match rest with
      | [] => Ok (replicate n self)
      | _ =>
          let? (it, rest) := next_child rest in
          let? l := array_slots self n' rest in Ok (it :: l)
      end
  end.

Definition array_of (n : nat) (it : Item) : kernel (list Item) :=
  if negb (it_major it =? 4) || negb (it_arg it =? Z.of_nat n) then raise Shape
  else array_slots it n (it_data it).

(** An element of a fixed-size array at a literal index. *)
Definition at_ (l : list Item) (i : nat) : Item :=
  nth i l {| it_raw := []; it_major := 0; it_arg := 0; it_data := [] |}.

Definition tagged (n : nat) (it : Item) (tag version : Z) : kernel (list Item) :=
  if negb (it_major it =? 6) then raise Shape else
  if negb (it_arg it =? tag) then raise Tag else
  let? inner := item (it_data it) in
  let? a := array_of n inner in
  let? v := uint (at_ a 0) u64_max in
  if negb (v =? version) then raise Version else Ok a.

(** ** The encoders *)

Definition header (major n : Z) : bytes :=
  if n <? 24 then [z2b (Z.lor (Z.shiftl major 5) n)]
  else
    let '(ai, size) :=
      if n <=? 255 then (24, 1%nat)
      else if n <=? 65535 then (25, 2%nat)
      else if n <=? u32_max then (26, 4%nat)
      else (27, 8%nat) in
    z2b (Z.lor (Z.shiftl major 5) ai) :: drop (8 - size) (be_bytes 8 n).

Definition enc_uint (n : Z) : bytes := header 0 n.
Definition enc_bytes (b : bytes) : bytes := header 2 (zlen b) ++ b.
Definition enc_array (parts : list bytes) : bytes := header 4 (zlen parts) ++ concat parts.
Definition enc_tag (n : Z) (body : bytes) : bytes := header 6 n ++ body.

(** ** Heads *)

Lemma shiftl_1_cases ai : 24 <= ai <= 27 -> 0 <= Z.shiftl 1 (ai - 24) <= 8.
Proof.
  intros H. assert (ai = 24 \/ ai = 25 \/ ai = 26 \/ ai = 27) as [-> | [-> | [-> | ->]]] by lia; by vm_compute.
Qed.

(** The head reader accepts what the B1 reader accepts. *)
Lemma head_agrees d r : head d = Ok r <-> cbor_head d = Ok r.
Proof.
  destruct d as [|b d]; [split; intros H; [done|]; by inv_ok H|].
  unfold head, cbor_head. rewrite (sbind_ok _ _ _ _ _ (uint_1_cons b d)). cbv zeta.
  set (ai := Z.land (b2z b) 31). assert (0 <= ai < 32) by apply (head_byte_split b).
  destruct (Z.leb_spec ai 23).
  { unfold sbind, sret. assert ((ai =? 24) = false /\ (ai =? 25) = false /\ (ai =? 26) = false /\ (ai =? 27) = false)
      as (-> & -> & -> & ->) by lia. split; by intros [= <-]. }
  destruct (Z.leb_spec ai 27).
  2:{ destruct (ai <=? 30); split; intros Hf; inv_ok Hf; discriminate. }
  pose proof (shiftl_1_cases ai ltac:(lia)) as Hlen. set (len := Z.shiftl 1 (ai - 24)) in *.
  assert (Hu : uint_n len d = match get_range d 0 len with
    | Some x => Ok (shift_fold x, drop (Z.to_nat len) d) | None => Err B1Cbor.Truncated end).
  { unfold uint_n, sbind, take_n, get_range. rewrite Z.sub_0_r. cbn [Z.to_nat drop].
    destruct (Z.ltb_spec (zlen d) len).
    - by rewrite (proj2 (Z.leb_gt len _)), andb_false_r by done.
    - rewrite (proj2 (Z.leb_le len _)), (proj2 (Z.leb_le 0 len)) by lia. done. }
  unfold sbind at 1. rewrite Hu. destruct (get_range d 0 len) as [x|]; [|done].
  cbn [ok_or rbind]. cbv zeta. set (n := shift_fold x). clearbody n.
  assert (ai = 24 \/ ai = 25 \/ ai = 26 \/ ai = 27) as [-> | [-> | [-> | ->]]] by lia;
    (match goal with |- context [nth ?k _ _] => let k' := eval vm_compute in k in change k with k' end);
    cbn [nth Z.eqb Pos.eqb andb orb]; unfold u32_max;
    repeat match goal with |- context [?a <? ?b] => destruct (Z.ltb_spec a b)
           | |- context [?a <=? ?b] => destruct (Z.leb_spec a b) end; solve [split; by intros [= <-] | split; done | lia].
Qed.

Lemma head_iff d k v d' : head d = Ok ((k, v), d') <-> d = major k v ++ d' /\ head_ok (k, v).
Proof. rewrite head_agrees. apply cbor_head_iff. Qed.

Lemma header_major k n : is_u64 n -> header k n = major k n.
Proof.
  intros Hn. unfold header. pose proof (be_val_bytes 8 n) as Hv.
  assert (Hd : forall m : nat, (m <= 8)%nat -> 0 <= n < 256 ^ Z.of_nat m -> drop (8 - m) (be_bytes 8 n) = be_bytes m n).
  { intros m Hm Hr. replace 8%nat with ((8 - m) + m)%nat at 2 by lia. rewrite be_bytes_split.
    apply drop_length_app. by rewrite be_bytes_length. }
  destruct (Z.ltb_spec n 24); [by rewrite major_small by lia|].
  destruct (Z.leb_spec n 255); [rewrite major_1, (Hd 1%nat) by ulia; done|].
  destruct (Z.leb_spec n 65535); [rewrite major_2, (Hd 2%nat) by ulia; done|].
  destruct (Z.leb_spec n u32_max); [rewrite major_4, (Hd 4%nat) by ulia; done|].
  rewrite major_8, (Hd 8%nat) by ulia. done.
Qed.

(** ** The scan accepts exactly the encodings *)

(** No text string and no map anywhere in the tree. *)
Fixpoint plain (t : tree) : bool :=
  match t with
  | TText _ | TMap _ => false
  | TArray l => forallb plain l
  | TTag _ t => plain t
  | _ => true
  end.

Lemma scan_unfold room tokens s :
  scan room tokens s =
  if items_cap tokens <? sc_tokens s + 1 then raise TooManyItems else
  if refused (items_native tokens) (sc_data s) then raise ForbiddenCBOR else
  let? (h, d) := head (sc_data s) in
  scan_match match room with O => None | S room => Some (scan room tokens) end
    (fst h) (snd h) {| sc_data := d; sc_tokens := sc_tokens s + 1 |}.
Proof. by destruct room. Qed.

Lemma scan_loop_loose (p : b2_scanner ()) (q : scanner ()) n i s r :
  (forall s r, p s = Ok r -> q s = Ok r) ->
  scan_loop p n s = Ok r -> scan_items q false n i [] s = Ok r.
Proof.
  intros Hpq. revert i s. induction n as [|n IH]; intros i s H; [by injection H as <-|].
  cbn [scan_loop] in H. inv_ok H. cbn [scan_items]. rewrite (Hpq _ _ Hok). cbn [rbind andb].
  by apply IH.
Qed.

Lemma scan_match_loose (p : option (b2_scanner ())) (q : option (scanner ())) m n s r :
  match p, q with
  | Some p, Some q => forall s r, p s = Ok r -> q s = Ok r
  | None, None => True
  | _, _ => False
  end -> 0 <= n ->
  scan_match p m n s = Ok r -> scan_value q false false m n s = Ok r.
Proof.
  intros Hpq Hn. unfold scan_match, scan_value, item_count, take_n.
  destruct (m =? 0); [by intros [= <-]|].
  destruct ((m =? 2) || (m =? 3)); [intros H; inv_ok H; subst r; cbn; done|].
  destruct ((4 <=? m) && (m <=? 6)).
  - destruct p as [p|], q as [q|]; try done. cbn [andb orb].
    destruct (Z.eqb_spec m 5) as [-> | Hm5]; cbn [andb].
    + destruct (_ <? n); [done|]. cbn [rbind]. change (5 =? 6) with false. cbv iota.
      destruct (_ <? n * 2); [done|]. by apply scan_loop_loose.
    + destruct (m =? 6); cbn [rbind]; destruct (_ <? _); try done; by apply scan_loop_loose.
  - destruct ((m =? 7) && (n =? 22)); [by intros [= <-] | done].
Qed.

(** Whatever the options, an accepted object is one the B1 scan accepts loosely. *)
Lemma scan_loose room tokens s r :
  scan room tokens s = Ok r -> B1Cbor.scan room (items_cap tokens) false false s = Ok r.
Proof.
  revert s r. induction room as [|room IH]; intros s r; rewrite scan_unfold; intros H;
    apply scan_head_iff;
    (destruct (_ <? _) eqn:Hcap; [done|]); (destruct (refused _ _); [done|]);
    apply rbind_ok_inv in H as ([[k n] d] & [Hd Hh]%head_iff & H); exists k, n, d; split_and!; try done;
    try lia; destruct Hh as [_ Hn]; cbn [fst snd] in *;
    (eapply scan_match_loose; [|ulia|exact H]); done.
Qed.

Lemma refused_major native k v d :
  head_ok (k, v) -> (k = 7 -> v = 22) ->
  refused native (major k v ++ d) = negb native && ((k =? 3) || (k =? 5)).
Proof.
  intros Hh H7.
  pose proof (proj2 (cbor_head_iff _ _ _ _) (conj (eq_refl (major k v ++ d)) Hh)) as Hhead.
  destruct (cbor_head_first _ _ _ _ Hhead) as (b & tl & Hb & Hk). unfold refused. rewrite Hb, Hk.
  destruct (Z.eqb_spec k 7) as [-> | Hne]; [|by rewrite orb_false_r].
  rewrite (H7 eq_refl) in Hb. injection Hb as <- _. by rewrite orb_false_r.
Qed.

Section accepts.
Context (tokens : Items).

Definition verdict_of (accepted : bool) (d : bytes) (k : Z) : kernel (() * Scan) :=
  if items_native tokens || accepted then Ok ((), {| sc_data := d; sc_tokens := k |})
  else raise ForbiddenCBOR.

Lemma scan_loop_views room l d k :
  (forall t d k, good false false room t -> k + Z.of_nat (size t) <= items_cap tokens ->
    scan room tokens {| sc_data := enc t ++ d; sc_tokens := k |}
    = verdict_of (plain t) d (k + Z.of_nat (size t))) ->
  Forall (good false false room) l -> k + Z.of_nat (sum_list_with size l) <= items_cap tokens ->
  scan_loop (scan room tokens) (length l) {| sc_data := encs l ++ d; sc_tokens := k |}
  = verdict_of (forallb plain l) d (k + Z.of_nat (sum_list_with size l)).
Proof.
  intros Hscan HF. revert k. induction HF as [|t l Hg _ IH]; intros k Hk.
  - unfold verdict_of. rewrite orb_true_r. cbn. by rewrite Z.add_0_r.
  - rewrite encs_cons, <- app_assoc. cbn [length scan_loop forallb sum_list_with] in *.
    rewrite Hscan by (done || lia). unfold verdict_of.
    destruct (items_native tokens || plain t) eqn:Hp; cbn [rbind].
    + rewrite IH by lia. unfold verdict_of.
      destruct (items_native tokens); simpl in *; [|rewrite Hp; simpl]; repeat case_match; try done;
        do 3 f_equal; lia.
    + by destruct (items_native tokens), (plain t).
Qed.

(** The loop after the head of a container. *)
Lemma scan_container room m n l d k :
  (forall t d k, good false false room t -> k + Z.of_nat (size t) <= items_cap tokens ->
    scan room tokens {| sc_data := enc t ++ d; sc_tokens := k |}
    = verdict_of (plain t) d (k + Z.of_nat (size t))) ->
  4 <= m <= 6 -> Z.of_nat (length l) = (if m =? 6 then 1 else if m =? 5 then n * 2 else n) ->
  Forall (good false false room) l -> k + Z.of_nat (sum_list_with size l) <= items_cap tokens ->
  scan_match (Some (scan room tokens)) m n {| sc_data := encs l ++ d; sc_tokens := k |}
  = verdict_of (forallb plain l) d (k + Z.of_nat (sum_list_with size l)).
Proof.
  intros Hscan Hm Hn HF Hk. unfold scan_match. cbn [sc_data sc_tokens].
  assert ((m =? 0) = false /\ (m =? 2) || (m =? 3) = false /\ (4 <=? m) && (m <=? 6) = true)
    as (-> & -> & ->) by lia.
  pose proof (encs_length l) as Hl. pose proof (zlen_nonneg d) as Hd. rewrite zlen_app in *.
  assert ((m =? 5) && (zlen (encs l) + zlen d <? n) = false) as ->.
  { destruct (Z.eqb_spec m 5) as [-> |]; [|done]. change (5 =? 6) with false in Hn. cbv iota in Hn.
    apply Z.ltb_ge. unfold zlen in *. simpl in *. lia. }
  rewrite <- Hn. rewrite (proj2 (Z.ltb_ge _ _)) by (unfold zlen in *; lia).
  rewrite Nat2Z.id. by apply scan_loop_views.
Qed.

Lemma scan_view_step room t d k :
  (forall r, room = S r -> forall t d k, good false false r t -> k + Z.of_nat (size t) <= items_cap tokens ->
    scan r tokens {| sc_data := enc t ++ d; sc_tokens := k |}
    = verdict_of (plain t) d (k + Z.of_nat (size t))) ->
  good false false room t -> k + Z.of_nat (size t) <= items_cap tokens ->
  scan room tokens {| sc_data := enc t ++ d; sc_tokens := k |}
  = verdict_of (plain t) d (k + Z.of_nat (size t)).
Proof.
  intros IH Hg Hk. pose proof (good_head_ok _ _ _ _ Hg) as Hh. rewrite scan_unfold. cbn [sc_data sc_tokens].
  rewrite size_view in *. rewrite (proj2 (Z.ltb_ge _ _)) by lia.
  rewrite enc_view, <- app_assoc, refused_major; [|done|by destruct t].
  rewrite (proj2 (head_iff _ (kind t) (arg t) (payload t ++ d))) by done. cbn [rbind fst snd].
  destruct (negb (items_native tokens) && ((kind t =? 3) || (kind t =? 5))) eqn:Href.
  { apply andb_true_iff in Href as [Hn%negb_true_iff Hkk]. unfold verdict_of. rewrite Hn.
    destruct t; try discriminate Hkk; done. }
  assert (Hroom : 4 <= kind t <= 6 -> exists r, room = S r) by (intros; by eapply good_containers).
  assert (Hleaf : forall d', {| sc_data := d'; sc_tokens := k + Z.of_nat 1 |} = {| sc_data := d'; sc_tokens := k + 1 |})
    by done.
  destruct t as [n|x|x|l|kvs|n t|]; cbn [kind arg payload subtrees] in *.
  - unfold verdict_of. rewrite orb_true_r. done.
  - unfold verdict_of, scan_match. rewrite orb_true_r. cbn [Z.eqb Pos.eqb orb sc_data sc_tokens].
    rewrite zlen_app, (proj2 (Z.ltb_ge _ _)) by (pose proof (zlen_nonneg d); lia).
    unfold zlen. rewrite Nat2Z.id, drop_app_length. done.
  - unfold verdict_of, scan_match. cbn [plain Z.eqb Pos.eqb orb sc_data sc_tokens].
    destruct (items_native tokens); [|done]. cbn [orb].
    rewrite zlen_app, (proj2 (Z.ltb_ge _ _)) by (pose proof (zlen_nonneg d); lia).
    unfold zlen. rewrite Nat2Z.id, drop_app_length. done.
  - destruct Hroom as [r ->]; [lia|]. apply good_array in Hg as [_ HF].
    rewrite (scan_container r) by (done || (by apply IH) || lia). cbn [plain]. f_equal. lia.
  - destruct Hroom as [r ->]; [lia|]. apply good_map in Hg as (_ & HF & _).
    rewrite (scan_container r) by (done || (by apply IH) || (rewrite ?flatten_length; unfold zlen; simpl; lia)).
    unfold verdict_of. cbn [plain]. destruct (items_native tokens); [|done]. cbn [orb]. do 3 f_equal. lia.
  - destruct Hroom as [r ->]; [lia|]. apply good_tag in Hg as [_ Hg].
    pose proof (scan_container r 6 n [t] d (k + 1) (IH r eq_refl)) as Hc.
    cbn [encs map concat sum_list_with forallb] in Hc |- *. rewrite app_nil_r, Nat.add_0_r in *.
    cbn [sum_list_with] in Hk. rewrite Hc by (done || lia || by apply Forall_singleton).
    cbn [plain]. rewrite andb_true_r. f_equal. lia.
  - unfold verdict_of. rewrite orb_true_r. done.
Qed.

(** A scan of an encoding, the budget allowing: the verdict is whether the tree is plain. *)
Lemma scan_view room t d k :
  good false false room t -> k + Z.of_nat (size t) <= items_cap tokens ->
  scan room tokens {| sc_data := enc t ++ d; sc_tokens := k |}
  = verdict_of (plain t) d (k + Z.of_nat (size t)).
Proof.
  revert t d k. induction room as [|room IH]; intros t d k; apply scan_view_step; [done|].
  by intros r [= <-].
Qed.

(** The trees of the objects the scan accepts. *)
Definition scannable (t : tree) : Prop :=
  good false false max_depth t /\ (items_native tokens = false -> plain t = true).

Lemma scan_iff s s' :
  scan max_depth tokens s = Ok ((), s') <->
  exists t, scannable t /\ sc_data s = enc t ++ sc_data s' /\
    sc_tokens s' = sc_tokens s + Z.of_nat (size t) /\ sc_tokens s' <= items_cap tokens.
Proof.
  split.
  - intros H. pose proof H as (t & Hg & Hd & Ht & Hc)%scan_loose%scan_exact. exists t.
    split_and!; try done. split; [done|]. intros Hn. destruct s as [sd st]. cbn [sc_data sc_tokens] in *. subst sd.
    rewrite scan_view in H by (done || lia). unfold verdict_of in H. rewrite Hn in H.
    by destruct (plain t).
  - intros (t & [Hg Hp] & Hd & Ht & Hc). destruct s as [sd st]. cbn [sc_data sc_tokens] in *. subst sd.
    rewrite scan_view by (done || lia). unfold verdict_of.
    assert (items_native tokens || plain t = true) as -> by (destruct (items_native tokens); [done | by apply Hp]).
    destruct s'; cbn in *. by rewrite Ht.
Qed.

End accepts.

(** ** Items are views of trees *)

Lemma item_view2 room t : good false false room t -> item (enc t) = Ok (view t).
Proof.
  intros Hh%good_head_ok. unfold item, view.
  rewrite (proj2 (head_iff (enc t) (kind t) (arg t) (payload t))); [done|]. by rewrite <- enc_view.
Qed.

Lemma one_iff data tokens it :
  one data tokens = Ok it <->
  exists t, scannable tokens t /\ data = enc t /\ it = view t /\ Z.of_nat (size t) <= items_cap tokens.
Proof.
  unfold one. split.
  - intros H. apply rbind_ok_inv in H as ([[] s] & (t & Hs & Hd & Ht & Hc)%scan_iff & H).
    cbn [sc_data sc_tokens] in *. case_bool_decide as He; [|done]. rewrite He, app_nil_r in Hd. subst data.
    rewrite (item_view2 max_depth) in H by apply Hs. injection H as <-. exists t. split_and!; try done. lia.
  - intros (t & Hs & -> & -> & Hc).
    rewrite (proj2 (scan_iff tokens _ {| sc_data := []; sc_tokens := Z.of_nat (size t) |})).
    + cbn [rbind sc_data]. rewrite bool_decide_true by done. apply (item_view2 max_depth), Hs.
    + exists t. cbn. rewrite app_nil_r. split_and!; try done.
Qed.

(** An item whose bytes a scan accepted. *)
Abbreviation scanned := (validated false false).

Lemma next_child_ok t rest :
  good false false max_depth t -> Z.of_nat (size t) <= usize_max ->
  next_child (enc t ++ rest) = Ok (view t, rest).
Proof.
  intros Hg Hs. unfold next_child.
  rewrite scan_view by (done || (cbn; lia)). unfold verdict_of. cbn [items_native native orb sc_data].
  rewrite prefix_taken, (item_view2 max_depth) by done. done.
Qed.

Definition child_ok (t : tree) : Prop := good false false max_depth t /\ Z.of_nat (size t) <= usize_max.

Lemma children_from_ok fuel l :
  Forall child_ok l -> (length (encs l) <= fuel)%nat -> children_from fuel (encs l) = Ok (map view l).
Proof.
  intros HF. revert fuel. induction HF as [|t l [Hg Hs] _ IH]; intros fuel Hfuel; [by destruct fuel|].
  rewrite encs_cons in *. rewrite length_app in Hfuel. pose proof (enc_nonempty t) as Hne.
  destruct fuel as [|fuel]; [ulia|].
  cbn [children_from]. destruct (enc t ++ encs l) eqn:He.
  { apply (f_equal length) in He. rewrite length_app in He. cbn in He. ulia. }
  rewrite <- He, next_child_ok by done. cbn [rbind]. rewrite IH by ulia. done.
Qed.

Lemma array_slots_ok self l :
  Forall child_ok l -> array_slots self (length l) (encs l) = Ok (map view l).
Proof.
  induction 1 as [|t l [Hg Hs] _ IH]; [done|]. cbn [length array_slots]. rewrite encs_cons.
  pose proof (enc_nonempty t) as Hne. destruct (enc t ++ encs l) eqn:He.
  { apply (f_equal length) in He. rewrite length_app in He. cbn in He. ulia. }
  rewrite <- He, next_child_ok by done. cbn [rbind]. by rewrite IH.
Qed.

Lemma subtrees_child_ok t : child_ok t -> Forall child_ok (subtrees t).
Proof.
  intros [Hg Hs]. rewrite size_view in Hs. pose proof (subtrees_good _ _ _ _ Hg) as HF.
  apply Forall_and. split.
  - eapply Forall_impl; [exact HF|]. intros u [Hw Hf]. split; [done|].
    apply (fits_mono 15); [unfold max_depth; lia | done].
  - clear -Hs. induction (subtrees t) as [|u l IH]; constructor; cbn [sum_list_with] in Hs; [lia|].
    apply IH. lia.
Qed.

(** An array's items are the views of its elements. *)
Lemma children_array l : child_ok (TArray l) -> children (view (TArray l)) = Ok (map view l).
Proof. intros Hc. apply children_from_ok; [by apply subtrees_child_ok in Hc | done]. Qed.

Lemma array_of_view n t :
  child_ok t ->
  array_of n (view t)
  = match t with
    | TArray l => if bool_decide (length l = n) then Ok (map view l) else raise Shape
    | _ => raise Shape
    end.
Proof.
  intros Hc. unfold array_of. destruct t as [| | |l| | |]; try done. cbn [view it_major it_arg it_data kind arg payload subtrees].
  change (negb (4 =? 4)) with false. cbn [orb].
  case_bool_decide as Hl.
  - subst n. unfold zlen. rewrite Z.eqb_refl. cbn [negb]. apply array_slots_ok. by apply subtrees_child_ok in Hc.
  - rewrite (proj2 (Z.eqb_neq _ _)) by ulia. done.
Qed.

Lemma tagged_item n t : child_ok (TTag n t) -> item (it_data (view (TTag n t))) = Ok (view t).
Proof.
  intros Hc%subtrees_child_ok. apply Forall_singleton in Hc as [Hg _].
  cbn [view it_data payload subtrees encs map concat]. rewrite app_nil_r. by apply (item_view2 max_depth).
Qed.

(** ** Programs that never panic *)

(** The run does not panic, and its value satisfies [P]. *)
Definition safe {A} (P : A -> Prop) (r : kernel A) : Prop :=
  match r with Ok a => P a | Err (Failed _) => True | Err Panicked => False end.

Section safe.
Context {A B : Type}.
Implicit Types (P : A -> Prop) (Q : B -> Prop).

Lemma safe_ok P a : P a -> safe P (Ok a).
Proof. done. Qed.
Lemma safe_raise P e : safe P (raise e).
Proof. done. Qed.
Lemma safe_bind P Q c k : safe P c -> (forall a, P a -> safe Q (k a)) -> safe Q (rbind c k).
Proof. destruct c as [a|[e|]]; simpl; auto. Qed.
Lemma safe_mono P P' r : safe P r -> (forall a, P a -> P' a) -> safe P' r.
Proof. destruct r as [a|[e|]]; simpl; auto. Qed.
Lemma safe_if P (b : bool) r r' : (b = true -> safe P r) -> (b = false -> safe P r') -> safe P (if b then r else r').
Proof. destruct b; auto. Qed.
Lemma safe_on_error P f r : safe P r -> safe P (on_error f r).
Proof. by destruct r as [a|[e|]]. Qed.
Lemma safe_no_panic P r : safe P r -> r <> Err Panicked.
Proof. by destruct r as [a|[e|]]. Qed.
Lemma safe_value P r a : safe P r -> r = Ok a -> P a.
Proof. by intros H ->. Qed.
Lemma safe_ok_or P o e : (forall a, o = Some a -> P a) -> safe P (ok_or o (Failed e)).
Proof. destruct o; simpl; auto. Qed.
Lemma safe_any P r : safe P r -> safe (fun _ => True) r.
Proof. intros. by eapply safe_mono. Qed.
End safe.


Lemma head_safe d : safe (fun _ => True) (head d).
Proof.
  destruct d as [|b d]; [done|]. unfold head. cbv zeta. repeat (apply safe_if; intros _; try done).
  eapply safe_bind; [by apply (safe_ok_or (fun _ => True))|]. intros x _. by apply safe_if.
Qed.

Lemma scan_loop_safe (p : b2_scanner ()) n s :
  (forall s, safe (fun _ => True) (p s)) -> safe (fun _ => True) (scan_loop p n s).
Proof.
  intros Hp. revert s. induction n as [|n IH]; intros s; [done|].
  cbn [scan_loop]. eapply safe_bind; [apply Hp|]. intros [? ?] _. apply IH.
Qed.

Lemma scan_match_safe p m n s :
  (forall q, p = Some q -> forall s, safe (fun _ => True) (q s)) ->
  safe (fun _ => True) (scan_match p m n s).
Proof.
  intros Hp. unfold scan_match. repeat (apply safe_if; intros _; try done).
  destruct p as [p|]; [|done]. cbv zeta. repeat (apply safe_if; intros _; try done).
  all: apply scan_loop_safe; by apply Hp.
Qed.

Lemma scan_safe room tokens s : safe (fun _ => True) (scan room tokens s).
Proof.
  revert s. induction room as [|room IH]; intros s; rewrite scan_unfold;
    repeat (apply safe_if; intros _; try done);
    (eapply safe_bind; [apply head_safe|]); intros [h d] _; apply scan_match_safe; [done|].
  by intros q [= <-].
Qed.

Lemma safe_one data tokens : items_cap tokens <= usize_max -> safe scanned (one data tokens).
Proof.
  intros Hcap. assert (Hs : safe (fun _ => True) (one data tokens)).
  { unfold one. eapply safe_bind; [apply scan_safe|]. intros [? s] _. apply safe_if; [|done]. intros _.
    unfold item. eapply safe_bind; [apply head_safe|]. by intros []. }
  destruct (one data tokens) as [it|[e|]] eqn:H; try done.
  apply one_iff in H as (t & [Hg _] & -> & -> & ?). exists t. split_and!; try done. lia.
Qed.

Lemma scanned_child_ok it : scanned it <-> exists t, it = view t /\ child_ok t.
Proof. done. Qed.

Definition items_ok (n : nat) (l : list Item) : Prop := length l = n /\ Forall scanned l.

Lemma views_scanned l : Forall child_ok l -> Forall scanned (map view l).
Proof. intros HF. apply Forall_map. eapply Forall_impl; [exact HF|]. intros t Ht. by exists t. Qed.

Lemma safe_array_of n it : scanned it -> safe (items_ok n) (array_of n it).
Proof.
  intros (t & -> & Hc)%scanned_child_ok. rewrite array_of_view by done. destruct t as [| | |l| | |]; try done.
  case_bool_decide; [|done]. split; [by rewrite length_map|].
  by apply views_scanned, (subtrees_child_ok (TArray l)).
Qed.

Lemma safe_uint it max : safe (fun n => n = it_arg it /\ n <= max /\ it_major it = 0) (uint it max).
Proof. unfold uint. repeat (apply safe_if; intros; try done). simpl. lia. Qed.

Lemma safe_tagged n it tag version : scanned it -> safe (items_ok n) (tagged n it tag version).
Proof.
  intros (t & -> & Hc)%scanned_child_ok. unfold tagged. apply safe_if; [done|]. intros H6.
  apply safe_if; [done|]. intros _. destruct t as [| | | | |n' t|]; try discriminate H6.
  rewrite tagged_item by done. cbn [rbind].
  assert (Hv : scanned (view t)) by (exists t; split; [done|]; apply subtrees_child_ok in Hc; exact (proj1 (Forall_singleton _ _) Hc)).
  eapply safe_bind; [by apply safe_array_of|]. intros a Ha.
  eapply safe_bind; [apply safe_uint|]. intros v _. by apply safe_if.
Qed.

Lemma safe_children it : scanned it -> it_major it = 4 ->
  safe (fun l => Forall scanned l /\ zlen l = it_arg it) (children it).
Proof.
  intros (t & -> & Hc)%scanned_child_ok H4. destruct t as [| | |l| | |]; try discriminate H4.
  rewrite children_array by done. split; [by apply views_scanned, (subtrees_child_ok (TArray l))|].
  unfold zlen. by rewrite length_map.
Qed.

Lemma scanned_bytes it : scanned it -> it_major it = 2 -> it = view (TBytes (it_data it)) /\ it_arg it = zlen (it_data it).
Proof. intros (t & -> & Hc)%scanned_child_ok H2. destruct t; try discriminate H2. done. Qed.

Lemma safe_bytes_of it n :
  scanned it -> safe (fun b => b = it_data it /\ zlen b = n /\ it_major it = 2) (bytes_of it n).
Proof.
  intros Hs. unfold bytes_of. repeat (apply safe_if; intros; try done). simpl.
  apply negb_false_iff, Z.eqb_eq in H, H0. destruct (scanned_bytes it Hs H) as [_ Ha]. split_and!; lia || done.
Qed.

Lemma safe_blob it max : safe (fun b => b = it_data it /\ zlen b <= max /\ it_major it = 2) (blob it max).
Proof. unfold blob. repeat (apply safe_if; intros; try done). simpl. split; [done|]. lia. Qed.

Lemma safe_count it max : safe (fun n => n = it_arg it /\ n <= max /\ it_major it = 4) (count it max).
Proof. unfold count. repeat (apply safe_if; intros; try done). simpl. lia. Qed.

Lemma at_scanned n l i : items_ok n l -> (i < n)%nat -> scanned (at_ l i).
Proof. intros [Hl HF] Hi. unfold at_. apply Forall_nth; [done | lia]. Qed.

(** ** Reading the fields of a tree *)

(** Names the elements of a list whose length [Hl] is a numeral. *)
Ltac explode l Hl :=
  repeat (destruct l as [|? l]; [discriminate Hl|]; cbn [length] in Hl; injection Hl as Hl);
  destruct l; [clear Hl | discriminate Hl].

Lemma uint_view t max n : uint (view t) max = Ok n <-> t = TUint n /\ n <= max.
Proof.
  unfold uint. destruct t; cbn; try (split; [done | by intros [? _]]).
  destruct (Z.ltb_spec max n0); split; try done; [|intros [= ->]; done|by intros [[= ->] _]]. intros [[= ->] ?]. lia.
Qed.

Lemma bytes_of_view t n b : bytes_of (view t) n = Ok b <-> t = TBytes b /\ zlen b = n.
Proof.
  unfold bytes_of. destruct t; cbn; try (split; [done | by intros [? _]]).
  destruct (Z.eqb_spec (zlen x) n); cbn; split; try done; [intros [= ->]; done|by intros [[= ->] _]|]. by intros [[= ->] ?].
Qed.

Lemma blob_view t max b : blob (view t) max = Ok b <-> t = TBytes b /\ zlen b <= max.
Proof.
  unfold blob. destruct t; cbn; try (split; [done | by intros [? _]]).
  destruct (Z.ltb_spec max (zlen x)); split; try done; [intros [[= ->] ?]; lia|intros [= ->]; done|by intros [[= ->] _]].
Qed.

Lemma null_view t : null (view t) = true <-> t = TNull.
Proof. unfold null. destruct t; split; done. Qed.

Lemma at_view l i : (i < length l)%nat -> at_ (map view l) i = view (nth i l TNull).
Proof.
  intros Hi. unfold at_. rewrite (nth_indep _ _ (view TNull)) by (by rewrite length_map). apply map_nth.
Qed.

Lemma array_view n t a :
  child_ok t -> array_of n (view t) = Ok a <-> exists l, t = TArray l /\ length l = n /\ a = map view l.
Proof.
  intros Hc. rewrite array_of_view by done. split.
  - destruct t as [| | |l| | |]; try done. case_bool_decide; [|done]. intros [= <-]. by exists l.
  - intros (l & -> & Hl & ->). by rewrite bool_decide_true.
Qed.

Lemma tagged_view n t tag version a :
  child_ok t -> (0 < n)%nat -> version <= u64_max ->
  tagged n (view t) tag version = Ok a <->
  exists l, t = TTag tag (TArray l) /\ length l = n /\ a = map view l /\ nth 0 l TNull = TUint version.
Proof.
  intros Hc Hn Hv. unfold tagged. split.
  - intros Ht. inv_ok Ht. apply negb_false_iff, Z.eqb_eq in Heqb, Heqb0. apply negb_false_iff, Z.eqb_eq in Heqb1.
    destruct t as [| | | | |n' t|]; try discriminate Heqb. rewrite tagged_item in Hok by done.
    injection Hok as <-. apply subtrees_child_ok, Forall_cons in Hc as [Hc _].
    apply array_view in Hok0 as (l & -> & Hl & ->); [|done]. subst a.
    rewrite at_view in Hok1 by lia. apply uint_view in Hok1 as [Hok1 _]. exists l. simpl in Heqb0. subst. done.
  - intros (l & -> & Hl & -> & H0). rewrite tagged_item by done.
    apply subtrees_child_ok, Forall_cons in Hc as [Hc _].
    cbn [view it_major it_arg kind arg]. rewrite Z.eqb_refl. cbn [negb Z.eqb Pos.eqb rbind].
    rewrite (proj2 (array_view n (TArray l) (map view l) Hc)) by (by exists l). cbn [rbind].
    rewrite at_view, H0 by lia. rewrite (proj2 (uint_view _ _ version)) by done. cbn [rbind].
    by rewrite !Z.eqb_refl.
Qed.

(** An object that scans is the encoding of a tree. *)
Lemma one_tree data it : one data default_items = Ok it -> exists t, data = enc t /\ it = view t /\ child_ok t.
Proof.
  intros (t & [Hg _] & -> & -> & Hc)%one_iff. exists t. split_and!; [done..|]. split; [done|].
  change (items_cap default_items) with 32768 in Hc. ulia.
Qed.

Lemma child_ok_nth l i : child_ok (TArray l) -> (i < length l)%nat -> child_ok (nth i l TNull).
Proof. intros Hc%subtrees_child_ok Hi. by apply Forall_nth. Qed.

Lemma child_ok_tag n t : child_ok (TTag n t) -> child_ok t.
Proof. intros Hc%subtrees_child_ok. by apply Forall_cons in Hc as [? _]. Qed.

(** ** The encoders write the encodings *)

Lemma enc_uint_tree n : is_u64 n -> enc_uint n = enc (TUint n).
Proof. apply header_major. Qed.
Lemma enc_bytes_tree b : zlen b <= u64_max -> enc_bytes b = enc (TBytes b).
Proof. intros. unfold enc_bytes. rewrite header_major; [done|]. pose proof (zlen_nonneg b). ulia. Qed.
Lemma enc_array_tree l : zlen l <= u64_max -> enc_array (map enc l) = enc (TArray l).
Proof.
  intros. unfold enc_array. rewrite header_major; unfold zlen in *; rewrite length_map; [done|]. ulia.
Qed.
Lemma enc_tag_tree n t : is_u64 n -> enc_tag n (enc t) = enc (TTag n t).
Proof. intros. unfold enc_tag. by rewrite header_major. Qed.

End B2Cbor.
