(* ===== verification/B2Semantics.v ===== *)
(** The token semantics of the stateless precompile [0x0104]: [b2/src/semantics.rs], the ABI of
    [b2/src/abi.rs], the entry points of [b2/src/lib.rs] and the provider of [b2/src/provider.rs].

    One call decodes a bridge configuration and a token history, checks the mint against its lock
    reason, follows the transfers from owner to owner and, for a redemption, checks the terminal
    burn and derives its nullifier.  Nothing is certified here: the outcome lists the leaf
    obligations a composition has to prove. *)
From S2P Require Import Prelude CborCodec Crypto B1Cbor B2Cbor.
Import B1Cbor B2Cbor.

(** The [k256] crate: parsing and printing of points, keys of secret scalars, and ECDSA with
    public-key recovery.  A signature is represented by its 64 bytes. *)
Class K256 := {
  VerifyingKey : Type;
  verifying_key_eq_decision :: EqDecision VerifyingKey;
  (** [VerifyingKey::from_sec1_bytes]. *)
  from_sec1_bytes : bytes -> option VerifyingKey;
  (** [to_encoded_point(true).as_bytes()]. *)
  to_encoded_point : VerifyingKey -> bytes;
  (** [SigningKey::from_slice], then [verifying_key]. *)
  signing_key : bytes -> option VerifyingKey;
  (** [Signature::from_slice(..).is_ok()]. *)
  signature_ok : bytes -> bool;
  (** [normalize_s().is_some()]. *)
  high_s : bytes -> bool;
  (** [RecoveryId::from_byte(..).is_some()]. *)
  recovery_id_ok : byte -> bool;
  recover_from_prehash : bytes -> bytes -> byte -> option VerifyingKey;
  (** [verify_prehash(..).is_ok()]. *)
  verify_prehash : VerifyingKey -> bytes -> bytes -> bool }.

Module B2Semantics.

(** ** The data of [lib.rs] *)

Definition MAX_HISTORY : Z := 131072.
Definition MAX_INPUT : Z := MAX_HISTORY + 4096.
Definition MAX_TRANSFERS : Z := 64.

Record Leaf := { lf_sid : bytes; lf_tx_hash : bytes; lf_reference_time : Z; lf_value : bytes }.

Definition ZERO20 : bytes := replicate 20 Byte.x00.

Record Outcome := {
  oc_cfg : bytes; oc_nonce : Z; oc_amount : bytes; oc_token_id : bytes; oc_salt : bytes;
  oc_first_predicate_hash : bytes; oc_lock_digest : bytes; oc_release_to : bytes;
  oc_nullifier : bytes; oc_leaves : list Leaf; oc_part_token_id : bytes; oc_part_amount : bytes;
  oc_depth : Z }.

Definition default_outcome : Outcome := {|
  oc_cfg := ZERO32; oc_nonce := 0; oc_amount := ZERO32; oc_token_id := ZERO32; oc_salt := ZERO32;
  oc_first_predicate_hash := ZERO32; oc_lock_digest := ZERO32; oc_release_to := ZERO20;
  oc_nullifier := ZERO32; oc_leaves := []; oc_part_token_id := ZERO32; oc_part_amount := ZERO32;
  oc_depth := 0 |}.

Definition set_release_to (v : bytes) (o : Outcome) : Outcome := {|
  oc_cfg := oc_cfg o; oc_nonce := oc_nonce o; oc_amount := oc_amount o; oc_token_id := oc_token_id o;
  oc_salt := oc_salt o; oc_first_predicate_hash := oc_first_predicate_hash o;
  oc_lock_digest := oc_lock_digest o; oc_release_to := v; oc_nullifier := oc_nullifier o;
  oc_leaves := oc_leaves o; oc_part_token_id := oc_part_token_id o;
  oc_part_amount := oc_part_amount o; oc_depth := oc_depth o |}.
Definition set_nullifier (v : bytes) (o : Outcome) : Outcome := {|
  oc_cfg := oc_cfg o; oc_nonce := oc_nonce o; oc_amount := oc_amount o; oc_token_id := oc_token_id o;
  oc_salt := oc_salt o; oc_first_predicate_hash := oc_first_predicate_hash o;
  oc_lock_digest := oc_lock_digest o; oc_release_to := oc_release_to o; oc_nullifier := v;
  oc_leaves := oc_leaves o; oc_part_token_id := oc_part_token_id o;
  oc_part_amount := oc_part_amount o; oc_depth := oc_depth o |}.
Definition push_leaves (v : list Leaf) (o : Outcome) : Outcome := {|
  oc_cfg := oc_cfg o; oc_nonce := oc_nonce o; oc_amount := oc_amount o; oc_token_id := oc_token_id o;
  oc_salt := oc_salt o; oc_first_predicate_hash := oc_first_predicate_hash o;
  oc_lock_digest := oc_lock_digest o; oc_release_to := oc_release_to o; oc_nullifier := oc_nullifier o;
  oc_leaves := oc_leaves o ++ v; oc_part_token_id := oc_part_token_id o;
  oc_part_amount := oc_part_amount o; oc_depth := oc_depth o |}.

(** ** Formatting *)

(** [{n}] of a [u64]: at most twenty digits. *)
Fixpoint decimal_digits (fuel : nat) (n : Z) : bytes :=
  match fuel with
  | O => []
  | S fuel => (if n <? 10 then [] else decimal_digits fuel (n / 10)) ++ [z2b (48 + n mod 10)]
  end.
Definition decimal (n : Z) : bytes := decimal_digits 20 n.

(** [{b:02x}]. *)
Definition hex_digit (v : Z) : byte := z2b (if v <? 10 then 48 + v else 87 + v).
Definition hex (b : bytes) : bytes :=
  concat (map (fun x => [hex_digit (b2z x / 16); hex_digit (b2z x mod 16)]) b).

Section semantics.
Context `{Crypto} `{K256}.

Definition hash (data : bytes) : bytes := sha256 data.
Definition hash_array (parts : list bytes) : bytes := hash (enc_array parts).

Definition bytes_neq (a b : bytes) : bool := negb (bool_decide (a = b)).

(** [out[32 - b.len()..].copy_from_slice(b)] on a zeroed word. *)
Definition right_align (b : bytes) : kernel bytes :=
  if 32 <? zlen b then Err Panicked else Ok (replicate (32 - length b) Byte.x00 ++ b).

(** ** The configuration *)

Definition IN_PAYLOAD : Z := usize_max.

Record Cfg := {
  cf_raw : bytes; cf_network : Z; cf_chain : Z; cf_vault : bytes; cf_ty : bytes; cf_aid : bytes }.

Definition network (it : Item) : kernel Z :=
  let? n := uint it 65535 in
  if n =? 0 then raise IntRange else Ok n.

Definition CFG_DOMAIN : bytes := ascii "UNICITY_BR_CFG".

(** [network:rootGenesisHex:executionGenesisHex:chainId:zeroAddressHex]. *)
Definition identity (network : Z) (root_genesis execution_genesis : bytes) (chain : Z) : bytes :=
  decimal network ++ ascii ":" ++ hex root_genesis ++ ascii ":" ++ hex execution_genesis
  ++ ascii ":" ++ decimal chain ++ ascii ":0000000000000000000000000000000000000000".

Definition type_id (d : bytes) : bytes := hash (ascii "unicity-bridge:unicity-native:" ++ d).
Definition asset_id (d : bytes) : bytes := hash (ascii "unicity-bridge-coin:unicity-native:" ++ d).

Definition parse_cfg (it : Item) : kernel Cfg :=
  let? a := array_of 16 it in
  let? domain := blob (at_ a 0) 32 in
  if bytes_neq domain CFG_DOMAIN then raise CfgMismatch else
  let? net := network (at_ a 1) in
  let? _ := bytes_of (at_ a 2) 32 in
  let? chain := uint (at_ a 3) u64_max in
  let? _ := bytes_of (at_ a 4) 32 in
  let? _ := uint (at_ a 5) u32_max in
  let? _ := blob (at_ a 6) 33 in
  let? vault := bytes_of (at_ a 7) 20 in
  if bool_decide (vault = ZERO20) then raise CfgMismatch else
  let? zero := bytes_of (at_ a 8) 20 in
  if bytes_neq zero ZERO20 then raise CfgMismatch else
  let? ty := bytes_of (at_ a 9) 32 in
  let? aid := bytes_of (at_ a 10) 32 in
  let? _ := each (fun i => let? _ := bytes_of (at_ a i) 32 in Ok ()) [11; 13; 14; 15]%nat in
  let? _ := bytes_of (at_ a 12) 20 in
  let d := identity net (it_data (at_ a 2)) (it_data (at_ a 4)) chain in
  if bytes_neq ty (type_id d) || bytes_neq aid (asset_id d) then raise CfgMismatch else
  Ok {| cf_raw := it_raw it; cf_network := net; cf_chain := chain; cf_vault := vault; cf_ty := ty;
        cf_aid := aid |}.

Definition check_cfg_network (it : Item) : kernel () :=
  match array_of 16 it with
  | Err Panicked => Err Panicked
  | Err (Failed _) => Ok ()
  | Ok a =>
      match blob (at_ a 0) 32 with
      | Ok domain => if bool_decide (domain = CFG_DOMAIN) then let? _ := network (at_ a 1) in Ok () else Ok ()
      | Err _ => Ok ()
      end
  end.

(** ** Fields *)

Definition amount (it : Item) : kernel bytes :=
  let? b := blob it IN_PAYLOAD in
  match b with
  | [] => raise IntRange
  | first :: _ => if (32 <? zlen b) || bool_decide (first = Byte.x00) then raise IntRange else Ok b
  end.

Definition deadline (it : Item) : kernel (option Z) :=
  if null it then Ok None else
  let? e := on_error (fun _ => Deadline) (uint it u64_max) in
  if e =? 0 then raise Deadline else Ok (Some e).

Definition predicate (it : Item) : kernel (Z * bytes) :=
  let? a := on_error (fun e => if bool_decide (e = Version) then Predicate else e) (tagged 3 it 39032 1) in
  let? code := blob (at_ a 1) IN_PAYLOAD in
  let? params := blob (at_ a 2) IN_PAYLOAD in
  if bool_decide (code = [Byte.x01]) && (zlen params =? 33)
     && match params with b :: _ => (b2z b =? 2) || (b2z b =? 3) | [] => false end
  then Ok (1, params)
  else if bool_decide (code = [Byte.x02]) && (zlen params =? 32) then Ok (2, params)
  else raise Predicate.

Definition key (params : bytes) : kernel VerifyingKey := ok_or (from_sec1_bytes params) (Failed Predicate).

Definition signature_pred (k : VerifyingKey) : bytes :=
  enc_tag 39032 (enc_array [enc_uint 1; enc_bytes [Byte.x01]; enc_bytes (to_encoded_point k)]).

Definition mint_salt (ch : bytes) (n : Z) : bytes :=
  hash_array [enc_bytes (ascii "UNICITY_BR_SALT"); enc_bytes ch; enc_uint n].

Definition derive (cfg : Cfg) (n : Z) (amt : bytes) (p : Item) : kernel Outcome :=
  if n =? 0 then raise LockInput else
  let? (typ, params) := predicate p in
  if negb (typ =? 1) then raise Predicate else
  let? _ := key params in
  let ch := hash (cf_raw cfg) in
  let salt := mint_salt ch n in
  let id := hash_array [enc_bytes salt; enc_uint (cf_network cfg)] in
  let first := hash (it_raw p) in
  let k := enc_array [enc_bytes ZERO20; enc_bytes (cf_ty cfg); enc_bytes (cf_aid cfg); enc_bytes amt;
                      enc_bytes id; enc_bytes first] in
  let d := hash_array [enc_bytes (ascii "UNICITY_BR_LOCK"); enc_bytes ch; enc_uint n; k] in
  if bool_decide (d = ZERO32) then raise ZeroDigest else
  let? word := right_align amt in
  Ok {| oc_cfg := ch; oc_nonce := n; oc_amount := word; oc_token_id := id; oc_salt := salt;
        oc_first_predicate_hash := first; oc_lock_digest := d;
        oc_release_to := oc_release_to default_outcome; oc_nullifier := oc_nullifier default_outcome;
        oc_leaves := oc_leaves default_outcome; oc_part_token_id := oc_part_token_id default_outcome;
        oc_part_amount := oc_part_amount default_outcome; oc_depth := oc_depth default_outcome |}.

(** ** The lock reason of a root mint *)

Definition proof_blob (it : Item) (max : Z) : kernel bytes :=
  let? b := on_error (fun e => if bool_decide (e = ProofTooLarge) then LockProofTooLarge else LockProofShape)
              (blob it max) in
  if bool_decide (b = []) then raise LockProofShape else Ok b.

Fixpoint proof_nodes (nodes : list Item) (total : Z) : kernel Z :=
  match nodes with
  | [] => Ok total
  | node :: nodes => let? b := proof_blob node 1024 in proof_nodes nodes (total + zlen b)
  end.

Fixpoint proof_tries (tries : list Item) (total : Z) : kernel Z :=
  match tries with
  | [] => Ok total
  | trie :: tries =>
      let? c := on_error (fun e => if bool_decide (e = TooManyTx) then LockProofTooLarge else LockProofShape)
                  (count trie 65) in
      if c =? 0 then raise LockProofShape else
      let? nodes := children trie in
      let? total := proof_nodes nodes total in
      proof_tries tries total
  end.

Definition lock_nonce (cfg : Cfg) (j : list Item) : kernel Z :=
  let? chain := uint (at_ j 1) u64_max in
  if negb (chain =? cf_chain cfg) then raise MintJustif else
  let? vault := bytes_of (at_ j 2) 20 in
  if bytes_neq vault (cf_vault cfg) then raise MintJustif else
  let? zero := bytes_of (at_ j 3) 20 in
  if bytes_neq zero ZERO20 then raise MintJustif else
  let? n := uint (at_ j 4) u64_max in
  if n =? 0 then raise MintJustif else Ok n.

Definition justification (cfg : Cfg) (b : bytes) (tokens : Items) : kernel Z :=
  if 65536 <? zlen b then raise JustificationTooLarge else
  let? j := on_error (fun _ => MintJustif) (let? it := one b tokens in tagged 6 it 39049 2) in
  let? n := on_error (fun _ => MintJustif) (lock_nonce cfg j) in
  let shape {A} (r : kernel A) : kernel A := on_error (fun _ => LockProofShape) r in
  let? p := shape (array_of 8 (at_ j 5)) in
  let? v := shape (uint (at_ p 0) u64_max) in
  if negb (v =? 1) then raise LockProofShape else
  let? c := shape (bytes_of (at_ p 1) 32) in
  if bytes_neq c (hash (cf_raw cfg)) then raise LockProofCfg else
  let? _ := shape (bytes_of (at_ p 2) 32) in
  let? _ := proof_blob (at_ p 3) 16384 in
  let? _ := proof_blob (at_ p 4) 16384 in
  let? _ := proof_blob (at_ p 5) 2048 in
  let? total := proof_tries [at_ p 6; at_ p 7] 0 in
  if 24576 <? total then raise LockProofTooLarge else Ok n.

Definition mint_data (cfg : Cfg) (b : bytes) (tokens : Items) : kernel bytes :=
  on_error (fun _ => MintData)
    (let? it := one b tokens in
     let? d := tagged 3 it 39050 1 in
     let? outer := array_of 1 (at_ d 1) in
     let? a := array_of 2 (at_ outer 0) in
     let? aid := bytes_of (at_ a 0) 32 in
     if bytes_neq aid (cf_aid cfg) || negb (null (at_ d 2)) then raise MintData else
     amount (at_ a 1)).

(** ** Transactions and their certification data *)

Record Tx := {
  tx_raw : bytes; tx_pred : Item; tx_mask : bytes; tx_data : option bytes; tx_e : option Z }.
Record Cd := {
  cd_pred : Item; cd_source : bytes; cd_tx : bytes; cd_e : option Z; cd_unlock : bytes }.

Definition cd (it : Item) : kernel Cd :=
  let? a := tagged 6 it 39031 2 in
  let? _ := predicate (at_ a 1) in
  let? source := bytes_of (at_ a 2) 32 in
  let? tx := bytes_of (at_ a 3) 32 in
  let? e := deadline (at_ a 4) in
  let? unlock := blob (at_ a 5) 65 in
  Ok {| cd_pred := at_ a 1; cd_source := source; cd_tx := tx; cd_e := e; cd_unlock := unlock |}.

Definition nullable (it : Item) : kernel (option bytes) :=
  if null it then Ok None else let? b := blob it IN_PAYLOAD in Ok (Some b).

Definition transfer (it : Item) : kernel Tx :=
  let? a := tagged 5 it 39045 2 in
  let? _ := predicate (at_ a 1) in
  let? mask := bytes_of (at_ a 2) 32 in
  let? data := nullable (at_ a 3) in
  let? e := deadline (at_ a 4) in
  Ok {| tx_raw := it_raw it; tx_pred := at_ a 1; tx_mask := mask; tx_data := data; tx_e := e |}.

Definition unlock_message (source tx : bytes) : bytes := hash_array [enc_bytes source; enc_bytes tx].

Definition unlock (k : VerifyingKey) (source tx u : bytes) : kernel () :=
  if negb (zlen u =? 65) then raise UnlockLength else
  let sig := take 64 u in
  if negb (signature_ok sig) then raise UnlockScalars else
  if high_s sig then raise UnlockScalars else
  let? rid := expect (nth_error u 64) in
  if negb (recovery_id_ok rid) then raise UnlockRecovery else
  let msg := unlock_message source tx in
  match recover_from_prehash msg sig rid with
  | None => raise UnlockKey
  | Some recovered =>
      if negb (bool_decide (recovered = k)) then raise UnlockKey else
      if verify_prehash k msg sig then Ok () else raise Unlock
  end.

(** The [HashSet] of state identifiers, as the list of its members. *)
Definition insert_sid (seen : list bytes) (sid : bytes) : kernel (list bytes) :=
  if bool_decide (sid ∈ seen) then raise RepeatedSID else Ok (sid :: seen).

Definition state_id (pred source : bytes) : bytes := hash_array [pred; enc_bytes source].
Definition leaf_value (th : bytes) (t : Z) : bytes := hash_array [enc_bytes th; enc_uint t].

Definition step (pred source raw : bytes) (e : option Z) (c : Cd) (t : Z) (k : VerifyingKey)
    (seen : list bytes) : kernel (Leaf * list bytes) :=
  let th := hash raw in
  if bytes_neq (it_raw (cd_pred c)) pred || bytes_neq (cd_source c) source || bytes_neq (cd_tx c) th
  then raise CDMismatch else
  if negb (bool_decide (cd_e c = e)) then raise DeadlineMismatch else
  let? _ := unlock k source th (cd_unlock c) in
  if match e with Some e => e <=? t | None => false end then raise DeadlineExpired else
  let sid := state_id pred source in
  let? seen := insert_sid seen sid in
  Ok ({| lf_sid := sid; lf_tx_hash := th; lf_reference_time := t; lf_value := leaf_value th t |}, seen).

Definition output_state (source mask : bytes) : bytes :=
  hash_array [enc_bytes ([Byte.x00; Byte.x00] ++ source); enc_bytes mask].

(** ** The terminal burn *)

Definition burn_inner (cfg : Cfg) (out : Outcome) (tx : Tx) (tokens : Items) : kernel Outcome :=
  let? (typ, params) := predicate (tx_pred tx) in
  if negb (typ =? 2) then raise NotBurn else
  let? data := ok_or (tx_data tx) (Failed ReturnData) in
  let? it := one data tokens in
  let? r := tagged 11 it 39048 1 in
  let? chain := uint (at_ r 1) u64_max in
  if negb (chain =? cf_chain cfg) then raise ReturnData else
  let? vault := bytes_of (at_ r 2) 20 in
  if bytes_neq vault (cf_vault cfg) then raise ReturnData else
  let? zero := bytes_of (at_ r 3) 20 in
  if bytes_neq zero ZERO20 then raise ReturnData else
  let? ty := bytes_of (at_ r 4) 32 in
  if bytes_neq ty (cf_ty cfg) then raise ReturnData else
  let? aid := bytes_of (at_ r 5) 32 in
  if bytes_neq aid (cf_aid cfg) then raise ReturnData else
  let? to := bytes_of (at_ r 6) 20 in
  let? a := on_error (fun _ => ReturnAmount) (amount (at_ r 7)) in
  let? aw := right_align a in
  if bytes_neq aw (oc_amount out) then raise ReturnAmount else
  let? fee_to := bytes_of (at_ r 8) 20 in
  if bytes_neq fee_to ZERO20 then raise ReturnData else
  let? empty := bytes_of (at_ r 9) 0 in
  if negb (bool_decide (empty = [])) then raise ReturnData else
  let? fee := uint (at_ r 10) u64_max in
  if negb (fee =? 0) then raise ReturnData else
  if bool_decide (to = ZERO20) || bool_decide (to = cf_vault cfg) then raise ReturnRecip else
  if bytes_neq params (hash data) then raise BurnReason else
  if negb (zlen to =? 20) then Err Panicked else
  Ok (set_release_to to out).

Definition burn (cfg : Cfg) (out : Outcome) (tx : Tx) (tokens : Items) : kernel Outcome :=
  on_error (fun e => if is_invalid e then e else ReturnData) (burn_inner cfg out tx tokens).

Definition burn_transition_id (leaf : Leaf) : bytes :=
  hash_array [enc_bytes (ascii "unicity-burn-transition:v1"); enc_bytes (lf_sid leaf);
              enc_bytes (lf_tx_hash leaf)].
Definition burn_nullifier (ch : bytes) (leaf : Leaf) : bytes :=
  hash_array [enc_bytes (ascii "UNICITY_BR_NUL"); enc_bytes ch; enc_bytes (burn_transition_id leaf)].

(** ** Strict decoding *)

Definition pred_strict (it : Item) : kernel () :=
  let? (typ, params) := predicate it in
  if typ =? 1 then let? _ := key params in Ok () else Ok ().

Definition cd_strict (it : Item) : kernel Cd :=
  let? c := cd it in let? _ := pred_strict (cd_pred c) in Ok c.

Definition transfer_strict (it : Item) : kernel Tx :=
  let? t := transfer it in let? _ := pred_strict (tx_pred t) in Ok t.

Record Mint := {
  mt_fields : list Item; mt_justification : option bytes; mt_data : option bytes;
  mt_deadline : option Z }.

Definition decode_mint (it : Item) : kernel Mint :=
  let? m := tagged 8 it 39041 2 in
  let? _ := network (at_ m 1) in
  let? _ := pred_strict (at_ m 2) in
  let? _ := bytes_of (at_ m 3) 32 in
  let? _ := bytes_of (at_ m 4) 32 in
  let? justification := nullable (at_ m 5) in
  let? data := nullable (at_ m 6) in
  let? deadline := deadline (at_ m 7) in
  Ok {| mt_fields := m; mt_justification := justification; mt_data := data; mt_deadline := deadline |}.

Definition verify_mint (cfg : Cfg) (m : Mint) (root : bool) (tokens : Items) : kernel (option Z * bytes) :=
  let f := mt_fields m in
  if negb (it_arg (at_ f 1) =? cf_network cfg) then raise MintShape else
  let? (typ, _) := predicate (at_ f 2) in
  if negb (typ =? 1) then raise MintShape else
  if bytes_neq (it_data (at_ f 4)) (cf_ty cfg) then raise MintType else
  let? nonce :=
    (if root then
       let? j := ok_or (mt_justification m) (Failed MintJustif) in
       let? n := justification cfg j tokens in
       if bytes_neq (it_data (at_ f 3)) (mint_salt (hash (cf_raw cfg)) n) then raise MintSalt
       else Ok (Some n)
     else Ok None) in
  let? data := ok_or (mt_data m) (Failed MintData) in
  let? amt := mint_data cfg data tokens in
  Ok (nonce, amt).

(** ** The evaluation of a history *)

Abbreviation transfers := (list (Tx * Cd * Z)).

Fixpoint decode_transfers (tuples : list Item) : kernel transfers :=
  match tuples with
  | [] => Ok []
  | tuple :: tuples =>
      let? a := array_of 3 tuple in
      let? tx := transfer_strict (at_ a 0) in
      let? cert := cd_strict (at_ a 1) in
      let? t := uint (at_ a 2) u64_max in
      let? l := decode_transfers tuples in
      Ok ((tx, cert, t) :: l)
  end.

(** The universal minter's key for a token, its predicate and the mint's source state. *)
Definition minter_key (id : bytes) : kernel VerifyingKey :=
  ok_or (signing_key (hash_array [enc_bytes (ascii "I_AM_UNIVERSAL_MINTER_FOR_"); enc_bytes id]))
    (Failed MinterKey).
Definition mint_source (id : bytes) : bytes :=
  hash_array [enc_bytes id; enc_bytes (hash (ascii "TOKENID"))].

(** A transfer that is not the last one goes to a signature predicate and carries no data. *)
Definition check_passing (tx : Tx) : kernel () :=
  let? (typ, p) := predicate (tx_pred tx) in
  if negb (typ =? 1) then raise BurnNotFinal else
  let? _ := key p in
  match tx_data tx with Some _ => raise TransferData | None => Ok () end.

(** The step of one transfer, by the owner it spends. *)
Definition spend (state : bytes) (owner : Item) (x : Tx * Cd * Z) (seen : list bytes)
    : kernel (Leaf * list bytes) :=
  let '(tx, cert, t) := x in
  let? (_, params) := predicate owner in
  let? k := key params in
  step (it_raw owner) state (tx_raw tx) (tx_e tx) cert t k seen.

Fixpoint redeem (cfg : Cfg) (tokens : Items) (out : Outcome) (state : bytes) (owner : Item)
    (seen : list bytes) (l : transfers) : kernel Outcome :=
  match l with
  | [] => Ok out
  | (tx, cert, t) :: l =>
      let? (leaf, seen) := spend state owner (tx, cert, t) seen in
      let? out :=
        (match l with
         | [] =>
             let? out := burn cfg out tx tokens in
             let nullifier := burn_nullifier (oc_cfg out) leaf in
             if bool_decide (nullifier = ZERO32) then raise ZeroDigest
             else Ok (set_nullifier nullifier out)
         | _ => let? _ := check_passing tx in Ok out
         end) in
      redeem cfg tokens (push_leaves [leaf] out) (output_state state (tx_mask tx)) (tx_pred tx) seen l
  end.

(** The mint and the transfers of a payload [[[mint, cd, t], [[tx, cd, t], ..]]], decoded in
    document order before any of it is verified. *)
Record History := {
  hi_count : Z; hi_mint_item : Item; hi_mint : Mint; hi_cd0 : Cd; hi_t0 : Z; hi_transfers : transfers }.

Definition decode_items (payload : Item) (max : Z) : kernel History :=
  let? h := array_of 2 payload in
  let? g := array_of 3 (at_ h 0) in
  let? c := count (at_ h 1) max in
  let? m := decode_mint (at_ g 0) in
  let? cd0 := cd_strict (at_ g 1) in
  let? t0 := uint (at_ g 2) u64_max in
  let? tuples := children (at_ h 1) in
  let? l := decode_transfers tuples in
  Ok {| hi_count := c; hi_mint_item := at_ g 0; hi_mint := m; hi_cd0 := cd0; hi_t0 := t0; hi_transfers := l |}.

(** The mint's own step, by the minter's key. *)
Definition mint_step (id : bytes) (h : History) (seen : list bytes) : kernel (Leaf * list bytes) :=
  let? mk := minter_key id in
  step (signature_pred mk) (mint_source id) (it_raw (hi_mint_item h)) (mt_deadline (hi_mint h))
    (hi_cd0 h) (hi_t0 h) mk seen.

Definition evaluate (op : Z) (cfg payload : Item) (max : Z) (tokens : Items) : kernel Outcome :=
  let? cfg := parse_cfg cfg in
  if op =? 0 then
    let? a := array_of 3 payload in
    let? n := uint (at_ a 0) u64_max in
    let? amt := amount (at_ a 1) in
    derive cfg n amt (at_ a 2)
  else
    let? h := decode_items payload max in
    if (op =? 1) && negb (hi_count h =? 0) then raise HasTransfers else
    if (op =? 2) && (hi_count h =? 0) then raise NoTransfers else
    let? (n, amt) := verify_mint cfg (hi_mint h) true tokens in
    let? n := expect n in
    let owner := at_ (mt_fields (hi_mint h)) 2 in
    let? out := derive cfg n amt owner in
    let id := oc_token_id out in
    let? (leaf, seen) := mint_step id h [] in
    redeem cfg tokens (push_leaves [leaf] out) (output_state (mint_source id) id) owner seen (hi_transfers h).

(** ** The ABI *)

Record Call := { call_op : Z; call_cfg : bytes; call_payload : bytes }.

Definition framed {A} (o : option A) : kernel A := ok_or o (Failed ABIFraming).

Definition nonzero (l : bytes) : bool := existsb (fun x => negb (bool_decide (x = Byte.x00))) l.

Definition number (b : bytes) (pos : Z) : kernel Z :=
  let? stop := framed (checked_add pos 32) in
  let? w := framed (get_range b pos stop) in
  if nonzero (take 24 w) then raise ABIFraming else Ok (be_val (drop 24 w)).

Definition abi_blob (b : bytes) (off : Z) : kernel (bytes * Z) :=
  let? n := number b off in
  let? start := framed (checked_add off 32) in
  let? stop := framed (checked_add start n) in
  let? up := framed (checked_add stop 31) in
  let padded := up / 32 * 32 in
  let? data := framed (get_range b start stop) in
  let? padding := framed (get_range b stop padded) in
  if nonzero padding then raise ABIFraming else Ok (data, padded).

Definition abi_decode (b : bytes) : kernel Call :=
  let? op := number b 0 in
  if 255 <? op then raise ABIFraming else
  if 2 <? op then raise BadOperation else
  let? at_cfg := number b 32 in
  if negb (at_cfg =? 96) then raise ABIFraming else
  let? (cfg, stop) := abi_blob b 96 in
  let? at_payload := number b 64 in
  if negb (at_payload =? stop) then raise ABIFraming else
  let? (payload, stop) := abi_blob b stop in
  if negb (stop =? zlen b) then raise ABIFraming else
  if (MAX_HISTORY <? zlen payload) || (1024 <? zlen cfg) then raise InputTooLarge else
  Ok {| call_op := op; call_cfg := cfg; call_payload := payload |}.

Definition abi_word (n : Z) : bytes := replicate 24 Byte.x00 ++ be_bytes 8 n.

Definition encode_leaf (leaf : Leaf) : bytes :=
  lf_sid leaf ++ lf_tx_hash leaf ++ abi_word (lf_reference_time leaf) ++ lf_value leaf.

(** The words in the order of their offsets: the marker, the flag, the offset of the tuple, its nine
    words, the offset and length of the leaves, and the leaves. *)
Definition abi_encode (valid : bool) (out : Outcome) : bytes :=
  (ascii "UNICITY_TOKEN_SEMANTICS" ++ replicate 9 Byte.x00)
  ++ (replicate 31 Byte.x00 ++ [if valid then Byte.x01 else Byte.x00])
  ++ abi_word 96
  ++ oc_cfg out ++ abi_word (oc_nonce out) ++ oc_amount out ++ oc_token_id out ++ oc_salt out
  ++ oc_first_predicate_hash out ++ oc_lock_digest out
  ++ (replicate 12 Byte.x00 ++ oc_release_to out)
  ++ oc_nullifier out
  ++ abi_word 320 ++ abi_word (zlen (oc_leaves out))
  ++ concat (map encode_leaf (oc_leaves out)).

(** ** The entry points *)

Record Output := { out_gas : Z; out_bytes : bytes; out_invalid : option Error }.

(** How many leaves the payload announces. *)
Definition leaf_count (op : Z) (payload : Item) (max : Z) : kernel Z :=
  if op =? 0 then Ok 0 else
  let? h := array_of 2 payload in
  let? c := count (at_ h 1) max in Ok (1 + c).

Definition run (input : bytes) (gas : Z) : kernel Output :=
  if MAX_INPUT <? zlen input then raise InputTooLarge else
  let base := 26000 + 20 * zlen input in
  if gas <? base then raise OutOfGas else
  let? call := abi_decode input in
  let tokens := default_items in
  let? cfg := one (call_cfg call) tokens in
  let? _ := check_cfg_network cfg in
  let? payload := one (call_payload call) tokens in
  let? m := leaf_count (call_op call) payload MAX_TRANSFERS in
  let charge := base + 14000 * m in
  if gas <? charge then raise OutOfGas else
  match evaluate (call_op call) cfg payload MAX_TRANSFERS tokens with
  | Ok out => Ok {| out_gas := charge; out_bytes := abi_encode true out; out_invalid := None |}
  | Err (Failed e) =>
      if is_invalid e then
        Ok {| out_gas := charge; out_bytes := abi_encode false default_outcome; out_invalid := Some e |}
      else raise e
  | Err Panicked => Err Panicked
  end.

(** The relation of one composed redemption; [charge] is asked for the leaves once counted. *)
Definition relation (op : Z) (cfg payload : bytes) (charge : Z -> kernel ()) : kernel Outcome :=
  let objects := per_object ITEMS_MAX in
  let? cfg := one cfg objects in
  let? _ := check_cfg_network cfg in
  let? payload := one payload (per_object usize_max) in
  let? m := leaf_count op payload u64_max in
  let? _ := charge m in
  evaluate op cfg payload u64_max objects.

(** The provider installed at [0x0104]. *)
Inductive Halted := HaltOutOfGas | HaltMalformed.
Inductive Called := Returned (gas : Z) (data : bytes) | Halt (why : Halted) | CallPanicked.

Definition call (data : bytes) (gas : Z) : Called :=
  match run data gas with
  | Ok out => Returned (out_gas out) (out_bytes out)
  | Err (Failed OutOfGas) => Halt HaltOutOfGas
  | Err (Failed _) => Halt HaltMalformed
  | Err Panicked => CallPanicked
  end.

End semantics.

(** ** Nothing panics *)

Create HintDb b2.
#[export] Hint Resolve safe_array_of safe_tagged safe_uint safe_bytes_of safe_blob safe_count : b2.
#[export] Hint Extern 1 (validated false false (at_ _ _)) => eapply at_scanned; [eassumption | lia] : b2.
#[export] Hint Extern 1 (safe _ (ok_or _ _)) => apply (safe_ok_or (fun _ => True)); done : b2.
#[export] Hint Extern 2 (items_cap _ <= usize_max) => assumption || done : b2.
#[export] Hint Extern 3 (safe _ (on_error _ _)) => apply safe_on_error; solve [eauto with b2] : b2.

(** Follows a program, discharging each call by the lemma of its callee. *)
Ltac safe_step :=
  lazymatch goal with
  | |- safe _ (rbind _ _) => eapply safe_bind; [solve [eauto with b2]|]; cbv beta; intros
  | |- safe _ (if _ then _ else _) => apply safe_if; intros
  | |- safe _ (raise _) => exact I
  | |- safe _ (on_error _ _) => apply safe_on_error
  | |- safe _ (let (_, _) := ?p in _) => destruct p
  | |- safe _ (ok_or _ _) => apply (safe_ok_or (fun _ => True)); done
  end.
Ltac safe_go := cbv zeta; repeat safe_step.

Section safety.
Context `{Crypto} `{K256}.

Definition amount_ok (b : bytes) : Prop := exists x l, b = x :: l /\ x <> Byte.x00 /\ zlen b <= 32.

Lemma network_safe it : safe (fun _ => True) (network it).
Proof. unfold network. by safe_go. Qed.
#[local] Hint Resolve network_safe : b2.

Lemma parse_cfg_safe it : scanned it -> safe (fun c => cf_raw c = it_raw it) (parse_cfg it).
Proof.
  intros Hs. unfold parse_cfg. eapply safe_bind; [by apply safe_array_of|]. intros a Ha. safe_go.
  eapply (safe_bind (fun _ => True)).
  { assert (Hi : Forall (fun i => i < 16)%nat [11; 13; 14; 15]%nat) by (repeat constructor; lia).
    revert Hi. generalize [11; 13; 14; 15]%nat as l. clear -Ha.
    induction 1 as [|i l Hi _ IH]; [done|]. cbn [each]. eapply (safe_bind (fun _ => True)); [|by intros].
    eapply safe_bind; [apply safe_bytes_of; by eapply at_scanned|]. by intros. }
  intros _ _. by safe_go.
Qed.

Lemma check_cfg_network_safe it : scanned it -> safe (fun _ => True) (check_cfg_network it).
Proof.
  intros Hs. unfold check_cfg_network. pose proof (safe_array_of 16 it Hs) as Ha.
  destruct (array_of 16 it) as [a|[e|]]; try done.
  destruct (blob (at_ a 0) 32); [|done]. by safe_go.
Qed.

Lemma amount_safe it : safe amount_ok (amount it).
Proof.
  unfold amount. eapply safe_bind; [apply safe_blob|]. intros [|x b] _; [done|].
  apply safe_if; [done|]. intros Hb. simpl. apply orb_false_iff in Hb as [Hl Hx]. apply bool_decide_eq_false in Hx. exists x, b. split_and!; try done. lia.
Qed.

Lemma deadline_safe it : safe (fun _ => True) (deadline it).
Proof. unfold deadline. by safe_go. Qed.

Lemma predicate_safe it : scanned it -> safe (fun _ => True) (predicate it).
Proof. intros. unfold predicate. by safe_go. Qed.

Lemma key_safe params : safe (fun _ => True) (key params).
Proof. unfold key. safe_go. Qed.

Lemma right_align_safe b :
  zlen b <= 32 -> safe (fun w => is_word w /\ be_val w = be_val b) (right_align b).
Proof.
  intros Hb. unfold right_align. rewrite (proj2 (Z.ltb_ge _ _)) by done. split.
  - unfold is_word. rewrite length_app, length_replicate. ulia.
  - generalize (32 - length b)%nat. induction n as [|n IH]; [done|]. cbn [replicate app].
    unfold be_val in *. cbn [fold_left]. done.
Qed.
Lemma align_amount_safe b :
  amount_ok b -> safe (fun w => is_word w /\ be_val w = be_val b) (right_align b).
Proof. intros (x & l & _ & _ & Hl). by apply right_align_safe. Qed.
#[local] Hint Resolve amount_safe deadline_safe predicate_safe key_safe right_align_safe align_amount_safe : b2.

Lemma hash_word data : is_word (hash data).
Proof. apply sha256_word. Qed.

Definition leaf_ok (l : Leaf) : Prop := is_word (lf_sid l) /\ is_word (lf_tx_hash l) /\ is_word (lf_value l).

(** Every field of an outcome has the width of its array type. *)
Record outcome_ok (o : Outcome) : Prop := {
  ok_cfg : is_word (oc_cfg o);
  ok_amount : is_word (oc_amount o);
  ok_token_id : is_word (oc_token_id o);
  ok_salt : is_word (oc_salt o);
  ok_first : is_word (oc_first_predicate_hash o);
  ok_lock : is_word (oc_lock_digest o);
  ok_release_to : length (oc_release_to o) = 20%nat;
  ok_nullifier : is_word (oc_nullifier o);
  ok_leaves : Forall leaf_ok (oc_leaves o) }.

Lemma default_outcome_ok : outcome_ok default_outcome.
Proof. by constructor. Qed.

Lemma derive_safe cfg n amt p :
  amount_ok amt -> scanned p ->
  safe (fun o => outcome_ok o /\ oc_leaves o = [] /\ be_val (oc_amount o) = be_val amt) (derive cfg n amt p).
Proof.
  intros (x & l & Hx & _ & Hl) Hs. unfold derive. safe_go. simpl.
  match goal with Hw : is_word _ /\ _ |- _ => destruct Hw as [Hw Hv] end.
  split_and!; [|done|done]. constructor; simpl; try apply hash_word; done.
Qed.

Lemma proof_blob_safe it max : safe (fun _ => True) (proof_blob it max).
Proof. unfold proof_blob. by safe_go. Qed.
#[local] Hint Resolve proof_blob_safe : b2.

Lemma proof_nodes_safe nodes total : safe (fun _ => True) (proof_nodes nodes total).
Proof.
  revert total. induction nodes as [|node nodes IH]; intros total; [done|]. cbn [proof_nodes]. safe_go. apply IH.
Qed.
#[local] Hint Resolve proof_nodes_safe : b2.

Lemma proof_tries_safe tries total : Forall scanned tries -> safe (fun _ => True) (proof_tries tries total).
Proof.
  intros HF. revert total. induction HF as [|trie tries Hs _ IH]; intros total; [done|]. cbn [proof_tries].
  safe_go.
  match goal with Hc : _ /\ _ /\ it_major _ = 4 |- _ => destruct Hc as (_ & _ & Hc) end.
  eapply safe_bind; [by apply safe_children|]. intros nodes _. safe_go. apply IH.
Qed.

Lemma lock_nonce_safe cfg j : items_ok 6 j -> safe (fun _ => True) (lock_nonce cfg j).
Proof. intros. unfold lock_nonce. by safe_go. Qed.
#[local] Hint Resolve lock_nonce_safe safe_one : b2.

Lemma one_tagged_safe b tokens n tag version :
  items_cap tokens <= usize_max ->
  safe (items_ok n) (let? it := one b tokens in tagged n it tag version).
Proof. intros. eapply safe_bind; [by apply safe_one|]. intros. by apply safe_tagged. Qed.
#[local] Hint Resolve one_tagged_safe : b2.

Lemma justification_safe cfg b tokens :
  items_cap tokens <= usize_max -> safe (fun _ => True) (justification cfg b tokens).
Proof.
  intros Hcap. unfold justification. safe_go; try done.
  eapply (safe_bind (fun _ => True)); [|intros; by safe_go].
  apply proof_tries_safe. repeat constructor; eapply at_scanned; try eassumption; lia.
Qed.

Lemma mint_data_safe cfg b tokens :
  items_cap tokens <= usize_max -> safe amount_ok (mint_data cfg b tokens).
Proof. intros Hcap. unfold mint_data. safe_go. apply amount_safe. Qed.
#[local] Hint Resolve justification_safe mint_data_safe : b2.

Definition tx_ok (tx : Tx) : Prop := scanned (tx_pred tx).

Lemma cd_safe it : scanned it -> safe (fun c => scanned (cd_pred c)) (cd it).
Proof. intros Hs. unfold cd. safe_go. simpl. eauto with b2. Qed.

Lemma nullable_safe it : safe (fun _ => True) (nullable it).
Proof. unfold nullable. by safe_go. Qed.
#[local] Hint Resolve cd_safe nullable_safe : b2.

Lemma transfer_safe it : scanned it -> safe tx_ok (transfer it).
Proof. intros Hs. unfold transfer. safe_go. unfold tx_ok. simpl. eauto with b2. Qed.

Lemma unlock_safe k source tx u : safe (fun _ => True) (unlock k source tx u).
Proof.
  unfold unlock. apply safe_if; [done|]. intros Hl%negb_false_iff%Z.eqb_eq. cbv zeta.
  repeat (apply safe_if; [done|]; intros _).
  destruct (nth_error u 64) as [rid|] eqn:Hr; [|apply nth_error_None in Hr; ulia].
  cbn [expect ok_or rbind]. apply safe_if; [done|]. intros _. destruct (recover_from_prehash _ _ _); [|done]. by safe_go.
Qed.

Lemma insert_sid_safe seen sid : safe (fun _ => True) (insert_sid seen sid).
Proof. unfold insert_sid. by safe_go. Qed.
#[local] Hint Resolve transfer_safe unlock_safe insert_sid_safe : b2.

Lemma step_safe pred source raw e c t k seen :
  safe (fun r => leaf_ok r.1) (step pred source raw e c t k seen).
Proof. unfold step. safe_go; try done. repeat split; apply hash_word. Qed.

Lemma burn_safe cfg out tx tokens :
  items_cap tokens <= usize_max -> tx_ok tx ->
  safe (fun o => exists to, o = set_release_to to out /\ length to = 20%nat) (burn cfg out tx tokens).
Proof.
  intros Hcap Htx. unfold burn, burn_inner. unfold tx_ok in Htx. safe_go.
  - simpl. lia.
  - eexists. split; [done|]. ulia.
Qed.
#[local] Hint Resolve burn_safe step_safe derive_safe : b2.

Lemma pred_strict_safe it : scanned it -> safe (fun _ => True) (pred_strict it).
Proof. intros. unfold pred_strict. by safe_go. Qed.
#[local] Hint Resolve pred_strict_safe : b2.

Lemma cd_strict_safe it : scanned it -> safe (fun _ => True) (cd_strict it).
Proof. intros. unfold cd_strict. by safe_go. Qed.

Lemma transfer_strict_safe it : scanned it -> safe tx_ok (transfer_strict it).
Proof. intros. unfold transfer_strict. by safe_go. Qed.
#[local] Hint Resolve cd_strict_safe transfer_strict_safe : b2.

Lemma decode_mint_safe it : scanned it -> safe (fun m => items_ok 8 (mt_fields m)) (decode_mint it).
Proof. intros. unfold decode_mint. by safe_go. Qed.

Lemma verify_mint_safe cfg m root tokens :
  items_cap tokens <= usize_max -> items_ok 8 (mt_fields m) ->
  safe (fun r => amount_ok r.2 /\ (root = true -> r.1 <> None)) (verify_mint cfg m root tokens).
Proof.
  intros Hcap Hm. unfold verify_mint. safe_go.
  eapply (safe_bind (fun o => root = true -> o <> None)).
  { destruct root; [|done]. by safe_go. }
  intros nonce Hn. by safe_go.
Qed.
#[local] Hint Resolve decode_mint_safe verify_mint_safe : b2.

Definition transfer_ok (x : Tx * Cd * Z) : Prop := tx_ok x.1.1.

Lemma decode_transfers_safe tuples :
  Forall scanned tuples ->
  safe (fun l => Forall transfer_ok l /\ length l = length tuples) (decode_transfers tuples).
Proof.
  induction 1 as [|tuple tuples Hs _ IH]; [done|]. cbn [decode_transfers]. safe_go.
  match goal with Hl : Forall _ _ /\ _ |- _ => destruct Hl as [HF Hlen] end.
  simpl. split; [by constructor | by rewrite Hlen].
Qed.

Record history_ok (max : Z) (h : History) : Prop := {
  ho_mint : items_ok 8 (mt_fields (hi_mint h));
  ho_transfers : Forall transfer_ok (hi_transfers h);
  ho_count : zlen (hi_transfers h) = hi_count h;
  ho_max : hi_count h <= max }.

Lemma decode_items_safe payload max :
  scanned payload -> safe (history_ok max) (decode_items payload max).
Proof.
  intros Hs. unfold decode_items. safe_go.
  match goal with Hc : _ = it_arg (at_ ?a 1) /\ _ /\ it_major _ = 4 |- _ =>
    destruct Hc as (Hcount & Hmax & Hmaj) end.
  eapply safe_bind; [apply safe_children; [eauto with b2 | exact Hmaj]|]. intros tuples [HF Hl].
  eapply safe_bind; [by apply decode_transfers_safe|]. intros l [Ht Hlen]. constructor; simpl; try done.
  unfold zlen in *. congruence.
Qed.
#[local] Hint Resolve decode_items_safe : b2.

Lemma check_passing_safe tx : tx_ok tx -> safe (fun _ => True) (check_passing tx).
Proof. unfold tx_ok. intros. unfold check_passing. safe_go. by destruct (tx_data tx). Qed.

Lemma spend_safe state owner x seen : scanned owner -> safe (fun r => leaf_ok r.1) (spend state owner x seen).
Proof. intros Ho. destruct x as [[tx cert] t]. unfold spend. safe_go. apply step_safe. Qed.
#[local] Hint Resolve check_passing_safe spend_safe : b2.

Lemma push_leaves_ok v o : outcome_ok o -> Forall leaf_ok v -> outcome_ok (push_leaves v o).
Proof. intros [] Hv. constructor; simpl; try done. by apply Forall_app. Qed.
Lemma set_release_ok v o : outcome_ok o -> length v = 20%nat -> outcome_ok (set_release_to v o).
Proof. intros [] Hv. by constructor. Qed.
Lemma set_nullifier_ok v o : outcome_ok o -> is_word v -> outcome_ok (set_nullifier v o).
Proof. intros [] Hv. by constructor. Qed.

Lemma redeem_safe cfg tokens out state owner seen l :
  items_cap tokens <= usize_max -> outcome_ok out -> scanned owner -> Forall transfer_ok l ->
  safe (fun o => outcome_ok o /\ length (oc_leaves o) = (length (oc_leaves out) + length l)%nat)
    (redeem cfg tokens out state owner seen l).
Proof.
  intros Hcap Ho Hown HF. revert out state owner seen Ho Hown.
  induction HF as [|[[tx cert] t] l Hx _ IH]; intros out state owner seen Ho Hown; [simpl; split; [done|lia]|].
  cbn [redeem]. eapply safe_bind; [by apply spend_safe|]. intros [leaf seen'] Hleaf. simpl in Hleaf.
  eapply (safe_bind (fun o => outcome_ok o /\ oc_leaves o = oc_leaves out)).
  - destruct l.
    + eapply safe_bind; [by apply burn_safe|]. intros o (to & -> & Hto). cbv zeta. apply safe_if; [done|]. intros _.
      split; [|done]. apply set_nullifier_ok; [by apply set_release_ok | apply hash_word].
    + eapply safe_bind; [by apply check_passing_safe|]. done.
  - intros o [Hok Hl]. eapply safe_mono; [apply IH; [by apply push_leaves_ok; [|constructor] | exact Hx]|].
    cbv beta. intros o' [? Ho']. split; [done|]. rewrite Ho'. simpl. rewrite length_app, Hl. simpl. lia.
Qed.

Lemma minter_key_safe id : safe (fun _ => True) (minter_key id).
Proof. unfold minter_key. safe_go. Qed.
#[local] Hint Resolve minter_key_safe : b2.

Lemma mint_step_safe id h seen : safe (fun r => leaf_ok r.1) (mint_step id h seen).
Proof. unfold mint_step. safe_go. apply step_safe. Qed.

Lemma decode_items_count payload max h op :
  decode_items payload max = Ok h -> op <> 0 -> leaf_count op payload max = Ok (1 + hi_count h).
Proof.
  intros Hd Hop. unfold decode_items in Hd. inv_ok Hd. subst h. unfold leaf_count.
  rewrite (proj2 (Z.eqb_neq _ _)), Hok by done. cbn [rbind]. rewrite Hok1. done.
Qed.

Lemma evaluate_safe op cfg payload max tokens :
  items_cap tokens <= usize_max -> scanned cfg -> scanned payload ->
  safe (fun o => outcome_ok o /\ leaf_count op payload max = Ok (zlen (oc_leaves o)))
    (evaluate op cfg payload max tokens).
Proof.
  intros Hcap Hc Hp. unfold evaluate. eapply safe_bind; [by apply parse_cfg_safe|]. intros c _.
  apply safe_if; intros Hop.
  { safe_go. eapply safe_mono; [apply derive_safe; eauto with b2|]. cbv beta. intros o (Ho & Hl & _).
    split; [done|]. unfold leaf_count. by rewrite Hop, Hl. }
  destruct (decode_items payload max) as [h|f] eqn:Hd; cycle 1.
  { pose proof (decode_items_safe payload max Hp) as Hs. rewrite Hd in Hs. by destruct f. }
  pose proof (decode_items_safe payload max Hp) as Hs. rewrite Hd in Hs. destruct Hs as [Hm Ht Hn _].
  cbn [rbind]. repeat (apply safe_if; [done|]; intros _).
  eapply safe_bind; [by apply verify_mint_safe|]. intros [n amt] [Hamt Hsome]. simpl in Hamt, Hsome.
  destruct n as [n|]; [|by specialize (Hsome eq_refl)]. cbn [expect ok_or rbind]. cbv zeta.
  eapply safe_bind; [apply derive_safe; eauto with b2|]. intros out (Ho & Hl & _).
  eapply safe_bind; [apply mint_step_safe|]. intros [leaf seen] Hleaf. simpl in Hleaf.
  eapply safe_mono; [apply redeem_safe; eauto with b2; by apply push_leaves_ok; [|constructor]|].
  cbv beta. intros o [Hok Hlen]. split; [done|].
  rewrite (decode_items_count _ _ h) by (done || lia). do 2 f_equal. rewrite <- Hn. unfold zlen.
  rewrite Hlen. simpl. rewrite length_app, Hl. simpl. lia.
Qed.

(** ** The ABI of a call *)

Lemma number_safe b pos : safe (fun _ => True) (number b pos).
Proof. unfold number, framed. by safe_go. Qed.
#[local] Hint Resolve number_safe : b2.
Lemma abi_blob_safe b off : safe (fun _ => True) (abi_blob b off).
Proof. unfold abi_blob, framed. by safe_go. Qed.
#[local] Hint Resolve abi_blob_safe : b2.
Lemma abi_decode_safe b : safe (fun _ => True) (abi_decode b).
Proof. unfold abi_decode. by safe_go. Qed.

Lemma leaf_count_safe op payload max : scanned payload -> safe (fun m => m <= 1 + Z.max 0 max) (leaf_count op payload max).
Proof. intros. unfold leaf_count. safe_go; simpl; lia. Qed.

Lemma scanned_arg it : scanned it -> 0 <= it_arg it.
Proof. intros (t & -> & [Hg _])%scanned_child_ok. apply good_head_ok in Hg as [_ Hg]. apply Hg. Qed.

Lemma leaf_count_nonneg op payload max m : scanned payload -> leaf_count op payload max = Ok m -> 0 <= m.
Proof.
  intros Hs. unfold leaf_count. destruct (op =? 0); [intros [= <-]; lia|]. intros Hc. inv_ok Hc. subst m.
  pose proof (safe_value _ _ _ (safe_array_of 2 payload Hs) Hok) as Ha.
  pose proof (safe_value _ _ _ (safe_count _ _) Hok0) as (-> & _).
  pose proof (scanned_arg (at_ a 1)). enough (0 <= it_arg (at_ a 1)) by lia. apply H1. eauto with b2.
Qed.

Lemma encode_leaf_length l : leaf_ok l -> zlen (encode_leaf l) = 128.
Proof.
  intros (H1 & H2 & H3). unfold encode_leaf, abi_word. rewrite !zlen_app. unfold zlen, is_word in *.
  rewrite length_replicate, be_bytes_length. lia.
Qed.

Lemma abi_encode_length valid o : outcome_ok o -> zlen (abi_encode valid o) = 448 + 128 * zlen (oc_leaves o).
Proof.
  intros [].
  assert (Hl : zlen (concat (map encode_leaf (oc_leaves o))) = 128 * zlen (oc_leaves o)).
  { induction ok_leaves0 as [|l ls Hl _ IH]; [done|]. cbn [map concat]. rewrite zlen_app, IH, zlen_cons.
    rewrite encode_leaf_length by done. lia. }
  unfold abi_encode. rewrite !zlen_app, Hl. unfold zlen, is_word, abi_word in *.
  rewrite ?length_app, ?length_replicate, ?be_bytes_length. simpl. lia.
Qed.

(** The leaves a call announces: none for a derivation, and for a history its mint and its transfers. *)
Definition announced (c : Call) (m : Z) : Prop :=
  exists t, call_payload c = enc t /\
    (call_op c = 0 /\ m = 0 \/
     call_op c <> 0 /\ exists mint transfers, t = TArray [mint; TArray transfers] /\ m = 1 + zlen transfers).

Lemma leaf_count_announced c payload max m :
  one (call_payload c) default_items = Ok payload -> leaf_count (call_op c) payload max = Ok m -> announced c m.
Proof.
  intros (t & Hd & -> & Hc)%one_tree.
  unfold leaf_count. intros Hm. exists t. split; [done|].
  destruct (Z.eqb_spec (call_op c) 0); [left; split; congruence|right; split; [done|]].
  apply rbind_ok_inv in Hm as (h & Hh & (k & Hk & [= <-])%rbind_ok_inv).
  apply array_view in Hh as (l & -> & Hl & ->); [|done].
  explode l Hl. unfold count in Hk. change (at_ _ 1) with (view t0) in Hk.
  destruct (Z.eqb_spec (it_major (view t0)) 4) as [H4|]; [|done]. cbn [negb] in Hk. destruct (_ <? _); [done|]. injection Hk as <-.
  destruct t0; try discriminate H4. by eexists _, _.
Qed.

(** A value of the kernel is charged by size and by the leaves the call announces, and is what the
    evaluation of the call gave. *)
Definition charged (input : bytes) (gas : Z) (o : Output) : Prop :=
  exists c cfg payload m, abi_decode input = Ok c /\ one (call_cfg c) default_items = Ok cfg /\
    one (call_payload c) default_items = Ok payload /\ announced c m /\
    0 <= m <= 1 + MAX_TRANSFERS /\ out_gas o = 26000 + 20 * zlen input + 14000 * m /\ out_gas o <= gas /\
    match out_invalid o with
    | None => exists out, evaluate (call_op c) cfg payload MAX_TRANSFERS default_items = Ok out /\ outcome_ok out /\
        zlen (oc_leaves out) = m /\ out_bytes o = abi_encode true out /\ zlen (out_bytes o) = 448 + 128 * m
    | Some e => evaluate (call_op c) cfg payload MAX_TRANSFERS default_items = Err (Failed e) /\ is_invalid e = true /\
        out_bytes o = abi_encode false default_outcome
    end.

Lemma run_safe input gas : safe (charged input gas) (run input gas).
Proof.
  unfold run. apply safe_if; [done|]. intros _. cbv zeta. apply safe_if; [done|]. intros Hbase.
  pose proof (abi_decode_safe input) as Hd. destruct (abi_decode input) as [c|f] eqn:Hdec; [|by destruct f]. clear Hd. cbn [rbind].
  pose proof (safe_one (call_cfg c) default_items ltac:(done)) as Hcfg.
  destruct (one (call_cfg c) default_items) as [cfg|f] eqn:Hone; [|by destruct f]. simpl in Hcfg. cbn [rbind].
  eapply safe_bind; [by apply check_cfg_network_safe|]. intros _ _.
  pose proof (safe_one (call_payload c) default_items ltac:(done)) as Hp.
  destruct (one (call_payload c) default_items) as [payload|f] eqn:Hpay; [|by destruct f]. simpl in Hp. cbn [rbind].
  pose proof (leaf_count_safe (call_op c) payload MAX_TRANSFERS Hp) as Hm.
  destruct (leaf_count (call_op c) payload MAX_TRANSFERS) as [m|f] eqn:Hc; [|by destruct f]. simpl in Hm.
  pose proof (leaf_count_nonneg _ _ _ _ Hp Hc). pose proof (leaf_count_announced _ _ _ _ Hpay Hc).
  cbn [rbind]. apply safe_if; [done|]. intros Hgas.
  pose proof (evaluate_safe (call_op c) cfg payload MAX_TRANSFERS default_items ltac:(done) Hcfg Hp) as He.
  assert (Hbound : 0 <= m <= 1 + MAX_TRANSFERS) by (unfold MAX_TRANSFERS in *; lia).
  destruct (evaluate _ _ _ _ _) as [out|[e|]] eqn:Hev; [|destruct (is_invalid e) eqn:Hi|done]; [..|done].
  - destruct He as [Hok Hl]. rewrite Hc in Hl. injection Hl as Hl. exists c, cfg, payload, m. simpl. split_and!; try done; try lia.
    exists out. split_and!; try done. rewrite Hl. by apply abi_encode_length.
  - exists c, cfg, payload, m. simpl. split_and!; try done; lia.
Qed.

End safety.

#[export] Hint Resolve network_safe amount_safe deadline_safe predicate_safe key_safe right_align_safe
  align_amount_safe derive_safe safe_one one_tagged_safe justification_safe mint_data_safe cd_safe
  nullable_safe transfer_safe unlock_safe step_safe burn_safe pred_strict_safe cd_strict_safe
  transfer_strict_safe decode_mint_safe verify_mint_safe decode_items_safe check_passing_safe spend_safe
  mint_step_safe parse_cfg_safe check_cfg_network_safe : b2.

(** ** The chain of custody *)

Section custody.
Context `{Crypto} `{K256}.

(** The unlock script is a low-s signature of the state and transaction by [k]. *)
Definition unlocks (k : VerifyingKey) (source th u : bytes) : Prop :=
  zlen u = 65 /\ signature_ok (take 64 u) = true /\ high_s (take 64 u) = false /\
  exists rid, nth_error u 64 = Some rid /\ recovery_id_ok rid = true /\
    recover_from_prehash (unlock_message source th) (take 64 u) rid = Some k /\
    verify_prehash k (unlock_message source th) (take 64 u) = true.

Lemma unlock_iff k source th u : unlock k source th u = Ok () <-> unlocks k source th u.
Proof.
  unfold unlock, unlocks. cbv zeta. split.
  - intros Hu. inv_ok Hu. unfold expect in Hok. apply ok_or_inv in Hok.
    destruct (recover_from_prehash _ _ _) as [r|] eqn:Hr; [|done].
    destruct (bool_decide (r = k)) eqn:Hk; [|done]. apply bool_decide_eq_true in Hk as ->. cbn [negb] in Hu.
    destruct (verify_prehash _ _ _) eqn:Hv; [|done].
    apply negb_false_iff in Heqb, Heqb0, Heqb2. split_and!; [lia|done|done|]. by exists a.
  - intros (Hl & Hs & Hh & rid & Hn & Hrid & Hr & Hv). rewrite Hl, Hs, Hh, Hn. cbn [Z.eqb Pos.eqb negb expect ok_or rbind].
    rewrite Hrid, Hr, bool_decide_true, Hv by done. done.
Qed.

(** One certified transaction: the certification data names the predicate, state and transaction,
    its deadline is the transaction's and has not passed, and the state's key signed. *)
Record certifies (pred source raw : bytes) (e : option Z) (c : Cd) (t : Z) (k : VerifyingKey) : Prop := {
  ce_pred : it_raw (cd_pred c) = pred;
  ce_source : cd_source c = source;
  ce_tx : cd_tx c = hash raw;
  ce_deadline : cd_e c = e;
  ce_signed : unlocks k source (hash raw) (cd_unlock c);
  ce_in_time : forall d, e = Some d -> t < d }.

Definition leaf_of (pred source raw : bytes) (t : Z) : Leaf := {|
  lf_sid := state_id pred source; lf_tx_hash := hash raw; lf_reference_time := t;
  lf_value := leaf_value (hash raw) t |}.

Lemma bytes_neq_false a b : bytes_neq a b = false <-> a = b.
Proof. unfold bytes_neq. rewrite negb_false_iff. apply bool_decide_eq_true. Qed.

Lemma step_iff pred source raw e c t k seen leaf seen' :
  step pred source raw e c t k seen = Ok (leaf, seen') <->
  certifies pred source raw e c t k /\ leaf = leaf_of pred source raw t /\
  (lf_sid leaf ∉ seen) /\ seen' = lf_sid leaf :: seen.
Proof.
  unfold step, insert_sid. cbv zeta. split.
  - intros Hs. inv_ok Hs. inv_ok Hok0. destruct a. apply unlock_iff in Hok. subst a0.
    apply orb_false_iff in Heqb as [[Hp Hsrc]%orb_false_iff Htx]. apply bytes_neq_false in Hp, Hsrc, Htx.
    apply negb_false_iff, bool_decide_eq_true in Heqb0. apply bool_decide_eq_false in Heqb2.
    subst leaf seen'. split_and!; try done. constructor; try done.
    intros d ->. apply Z.leb_gt in Heqb1. lia.
  - intros ([Hp Hsrc Htx He Hu Ht] & -> & Hn & ->).
    rewrite !(proj2 (bytes_neq_false _ _)) by done. cbn [orb]. rewrite bool_decide_true by done. cbn [negb].
    rewrite (proj2 (unlock_iff _ _ _ _)) by done. cbn [rbind].
    assert (match e with Some d => d <=? t | None => false end = false) as ->.
    { destruct e as [d|]; [|done]. apply Z.leb_gt. by apply Ht. }
    rewrite bool_decide_false by done. done.
Qed.

(** *** The fields as trees *)

Definition pred_tree (typ : Z) (params : bytes) : tree :=
  TTag 39032 (TArray [TUint 1; TBytes [z2b typ]; TBytes params]).

(** A compressed public key, or the hash a burn is for. *)
Definition pred_shape (typ : Z) (params : bytes) : Prop :=
  (typ = 1 /\ zlen params = 33 /\ exists b l, params = b :: l /\ (b2z b = 2 \/ b2z b = 3)) \/
  (typ = 2 /\ zlen params = 32).

Lemma predicate_iff t typ params :
  child_ok t -> predicate (view t) = Ok (typ, params) <-> t = pred_tree typ params /\ pred_shape typ params.
Proof.
  intros Hc. unfold predicate. split.
  - intros Hp. inv_ok Hp;
      unfold on_error in Hok; apply map_err_ok_inv in Hok;
      (apply tagged_view in Hok as (l & -> & Hl & -> & H0'); [|done|lia|done]);
      do 3 (destruct l as [|? l]; [discriminate Hl|]); (destruct l; [|discriminate Hl]);
      simpl in H0'; subst; rewrite at_view in Hok0, Hok1 by (simpl; lia); cbn [nth] in *;
      apply blob_view in Hok0 as [-> _]; apply blob_view in Hok1 as [-> _].
    + apply andb_true_iff in Heqb as [[Hcode Hlen]%andb_true_iff Hfirst]. apply bool_decide_eq_true in Hcode as ->.
      split; [done|]. left. split_and!; [done|lia|].
      destruct params as [|b l]; [done|]. exists b, l. split; [done|]. lia.
    + apply andb_true_iff in Heqb0 as [Hcode Hlen]. apply bool_decide_eq_true in Hcode as ->.
      split; [done|]. right. split; [done|lia].
  - intros [-> Hs].
    rewrite (proj2 (tagged_view 3 _ 39032 1 _ Hc ltac:(lia) ltac:(done))) by (eexists; split_and!; reflexivity).
    cbn [on_error map_err rbind]. rewrite !at_view by (simpl; lia). cbn [nth].
    assert (Hu : zlen params <= IN_PAYLOAD) by (unfold IN_PAYLOAD; destruct Hs as [(_ & ? & _) | [_ ?]]; ulia).
    rewrite (proj2 (blob_view _ _ [z2b typ])) by done. cbn [rbind].
    rewrite (proj2 (blob_view _ _ params)) by done. cbn [rbind].
    destruct Hs as [(-> & Hl & b & l & -> & Hb) | [-> Hl]]; rewrite Hl.
    + rewrite bool_decide_true by done. cbn [Z.eqb Pos.eqb andb].
      assert ((b2z b =? 2) || (b2z b =? 3) = true) as -> by lia. done.
    + rewrite bool_decide_false by done. cbn [andb]. by rewrite bool_decide_true.
Qed.

Record cfg_ok (c : Cfg) : Prop := {
  cfg_network_ok : is_u64 (cf_network c);
  cfg_chain_ok : is_u64 (cf_chain c);
  cfg_vault_ok : zlen (cf_vault c) = 20;
  cfg_ty_ok : zlen (cf_ty c) = 32;
  cfg_aid_ok : zlen (cf_aid c) = 32 }.

Lemma scanned_uint it max n : scanned it -> uint it max = Ok n -> is_u64 n.
Proof.
  intros (t & -> & [Hg _])%scanned_child_ok [-> _]%uint_view. by apply good_head_ok in Hg as [_ Hg].
Qed.

Lemma scanned_bytes_of it n b : scanned it -> bytes_of it n = Ok b -> zlen b = n.
Proof. by intros (t & -> & _)%scanned_child_ok [_ ?]%bytes_of_view. Qed.

Lemma parse_cfg_ok it c : scanned it -> parse_cfg it = Ok c -> cfg_ok c.
Proof.
  intros Hs Hp. unfold parse_cfg in Hp. inv_ok Hp. subst c.
  pose proof (safe_value _ _ _ (safe_array_of 16 it Hs) Hok) as Ha.
  constructor; cbn [cf_network cf_chain cf_vault cf_ty cf_aid].
  - unfold network in Hok1. rename Hok1 into Hn. inv_ok Hn. subst. eapply scanned_uint; [|eassumption]. eauto with b2.
  - eapply scanned_uint; [|exact Hok3]. eauto with b2.
  - eapply scanned_bytes_of; [|exact Hok7]. eauto with b2.
  - eapply scanned_bytes_of; [|exact Hok9]. eauto with b2.
  - eapply scanned_bytes_of; [|exact Hok10]. eauto with b2.
Qed.

(** The data of a return burn: the configuration's identity, the recipient and the whole amount,
    with the fee slots empty. *)
Definition return_tree (cfg : Cfg) (a to : bytes) : tree :=
  TTag 39048 (TArray [TUint 1; TUint (cf_chain cfg); TBytes (cf_vault cfg); TBytes ZERO20;
    TBytes (cf_ty cfg); TBytes (cf_aid cfg); TBytes to; TBytes a; TBytes ZERO20; TBytes []; TUint 0]).

(** [tx] burns [amt] for the recipient [to] under [cfg]. *)
Definition burns (cfg : Cfg) (amt : bytes) (tx : Tx) (to : bytes) : Prop :=
  exists a data, tx_data tx = Some data /\ data = enc (return_tree cfg a to) /\
    tx_pred tx = view (pred_tree 2 (hash data)) /\ amount_ok a /\ right_align a = Ok amt /\
    zlen to = 20 /\ to <> ZERO20 /\ to <> cf_vault cfg.

Lemma amount_iff t a : amount (view t) = Ok a <-> t = TBytes a /\ amount_ok a.
Proof.
  unfold amount. split.
  - intros Ha. inv_ok Ha. apply blob_view in Hok as [-> _]. destruct a0 as [|x l]; [done|]. inv_ok Ha. subst a.
    apply orb_false_iff in Heqb as [Hl Hx%bool_decide_eq_false]. split; [done|]. exists x, l. split_and!; try done. lia.
  - intros [-> (x & l & -> & Hx & Hl)]. rewrite (proj2 (blob_view _ _ (x :: l))) by (unfold IN_PAYLOAD; split; [done|ulia]).
    cbn [rbind]. rewrite bool_decide_false, (proj2 (Z.ltb_ge _ _)) by done. done.
Qed.

Lemma return_tree_ok cfg a to :
  cfg_ok cfg -> amount_ok a -> zlen to = 20 ->
  child_ok (return_tree cfg a to) /\ plain (return_tree cfg a to) = true /\ size (return_tree cfg a to) = 13%nat.
Proof.
  intros [_ Hc Hv Ht Ha] (x & l & _ & _ & Hl) Hto. split; [|done]. split; [|done].
  pose proof (zlen_nonneg a). unfold good, return_tree, ZERO20. cbn [wf fits forallb max_depth].
  rewrite Hv, Ht, Ha, Hto. rewrite !(proj2 (u64b_iff _)) by (assumption || (unfold zlen in *; simpl; ulia)). done.
Qed.

Lemma burn_inner_sound cfg out tx tokens out' :
  tx_ok tx -> items_cap tokens <= usize_max ->
  burn_inner cfg out tx tokens = Ok out' ->
  exists to, burns cfg (oc_amount out) tx to /\ out' = set_release_to to out.
Proof.
  intros (tp & Htp & Hctp)%scanned_child_ok Hcap Hb. unfold burn_inner in Hb.
  apply rbind_ok_inv in Hb as ([typ params] & Hp & Hb). rewrite Htp in Hp. apply predicate_iff in Hp as [-> Hps]; [|done].
  destruct (negb (typ =? 2)) eqn:Htyp; [done|]. apply negb_false_iff, Z.eqb_eq in Htyp as ->.
  apply rbind_ok_inv in Hb as (data & Hdata%ok_or_inv & Hb).
  apply rbind_ok_inv in Hb as (it & (t & [Hg _] & -> & -> & Hsz)%one_iff & Hb).
  apply rbind_ok_inv in Hb as (r & Hr & Hb).
  apply tagged_view in Hr as (l & -> & Hl & -> & H0'); [|split; [done|lia]|lia|done].
  assert (Hat : forall i, (i < 11)%nat -> at_ (map view l) i = view (nth i l TNull)).
  { intros. apply at_view. lia. }
  rewrite !Hat in Hb by lia. clear Hat. explode l Hl. cbn [nth] in H0', Hb. subst.
  inv_ok Hb. unfold on_error in Hok5. apply map_err_ok_inv in Hok5.
  apply uint_view in Hok as [-> _]. apply bytes_of_view in Hok0 as [-> ?], Hok1 as [-> ?], Hok2 as [-> ?],
    Hok3 as [-> ?], Hok4 as [-> Hto], Hok7 as [-> _], Hok8 as [-> _]. apply amount_iff in Hok5 as [-> Hamt].
  apply uint_view in Hok9 as [-> _].
  repeat match goal with Hn : bytes_neq _ _ = false |- _ => apply bytes_neq_false in Hn; subst end.
  repeat match goal with Hn : negb _ = false |- _ => apply negb_false_iff in Hn end.
  repeat match goal with Hn : (_ =? _) = true |- _ => apply Z.eqb_eq in Hn; subst end.
  repeat match goal with Hn : bool_decide _ = true |- _ => apply bool_decide_eq_true in Hn; subst end.
  match goal with Hn : _ || _ = false |- _ =>
    apply orb_false_iff in Hn as [Hz%bool_decide_eq_false Hvault%bool_decide_eq_false] end.
  eexists. split; [|reflexivity]. eexists _, _. split_and!; try done.
Qed.

Lemma pred_tree_ok typ params : pred_shape typ params -> child_ok (pred_tree typ params).
Proof.
  intros Hs. assert (Hl : u64b (zlen params) = true)
    by (apply u64b_iff; destruct Hs as [(_ & -> & _) | [_ ->]]; ulia).
  split; [|done]. unfold good, pred_tree. cbn [wf fits forallb max_depth]. rewrite Hl. done.
Qed.

Lemma burn_inner_complete cfg out tx tokens to :
  cfg_ok cfg -> 32 <= items_cap tokens -> burns cfg (oc_amount out) tx to ->
  burn_inner cfg out tx tokens = Ok (set_release_to to out).
Proof.
  intros Hcfg Hcap (a & data & Hdata & -> & Hp & Ha & Hal & Hto & Hz & Hv). unfold burn_inner.
  destruct (return_tree_ok cfg a to Hcfg Ha Hto) as (Hok & Hpl & Hsz).
  assert (Hs : pred_shape 2 (hash (enc (return_tree cfg a to)))).
  { right. split; [done|]. unfold zlen. by rewrite hash_word. }
  rewrite Hp, (proj2 (predicate_iff _ 2 _ (pred_tree_ok _ _ Hs))) by done. cbn [rbind Z.eqb Pos.eqb negb].
  rewrite Hdata. cbn [ok_or rbind].
  rewrite (proj2 (one_iff _ tokens (view (return_tree cfg a to)))) by
    (exists (return_tree cfg a to); split_and!; try done; [split; [apply Hok | done] | rewrite Hsz; lia]).
  cbn [rbind]. rewrite (proj2 (tagged_view 11 _ 39048 1 _ Hok ltac:(lia) ltac:(done))) by (eexists; split_and!; reflexivity).
  cbn [rbind]. rewrite !at_view by (simpl; lia). cbn [nth].
  destruct Hcfg as [_ Hchain Hvault Hty Haid].
  rewrite (proj2 (uint_view _ _ (cf_chain cfg))) by (split; [done|ulia]). cbn [rbind]. rewrite Z.eqb_refl. cbn [negb].
  rewrite (proj2 (bytes_of_view _ _ (cf_vault cfg))) by done. cbn [rbind].
  rewrite !(proj2 (bytes_of_view (TBytes ZERO20) _ ZERO20)) by done. cbn [rbind].
  rewrite (proj2 (bytes_of_view _ _ (cf_ty cfg))), (proj2 (bytes_of_view _ _ (cf_aid cfg))) by done. cbn [rbind].
  rewrite (proj2 (bytes_of_view _ _ to)), (proj2 (amount_iff _ a)) by done. cbn [rbind on_error map_err].
  rewrite Hal. cbn [rbind]. rewrite (proj2 (bytes_of_view _ _ [])) by done. cbn [rbind].
  rewrite (proj2 (uint_view _ _ 0)) by done. cbn [rbind Z.eqb negb].
  rewrite !(proj2 (bytes_neq_false _ _)) by done. rewrite bool_decide_true by done. cbn [negb].
  rewrite !bool_decide_false by done. rewrite Hto. done.
Qed.

Lemma burn_iff cfg out tx tokens out' :
  cfg_ok cfg -> tx_ok tx -> 32 <= items_cap tokens <= usize_max ->
  burn cfg out tx tokens = Ok out' <->
  exists to, burns cfg (oc_amount out) tx to /\ out' = set_release_to to out.
Proof.
  intros Hcfg Htx [Hlo Hhi]. unfold burn, on_error. split.
  - intros Hb%map_err_ok_inv. by eapply burn_inner_sound.
  - intros (to & Hb & ->). by rewrite (burn_inner_complete _ _ _ _ to).
Qed.

(** *** Custody *)

(** A transfer that hands the token on: to a public key, with no data. *)
Definition passes (tx : Tx) : Prop :=
  exists params k, predicate (tx_pred tx) = Ok (1, params) /\ from_sec1_bytes params = Some k /\ tx_data tx = None.

(** The owner of a state: a predicate item whose parameters parse as the key [k]. *)
Definition owned_by (owner : Item) (k : VerifyingKey) : Prop :=
  exists typ params, predicate owner = Ok (typ, params) /\ from_sec1_bytes params = Some k.

(** [custody cfg amt state owner l leaves to]: from [state] of [owner] each transaction of [l] is
    certified by the key of the owner it spends and hands the token to the next owner; the last one
    burns [amt] for [to].  [leaves] are the transactions' leaves. *)
Inductive custody (cfg : Cfg) (amt : bytes) : bytes -> Item -> list (Tx * Cd * Z) -> list Leaf -> bytes -> Prop :=
| custody_burn state owner tx c t k to :
    owned_by owner k -> certifies (it_raw owner) state (tx_raw tx) (tx_e tx) c t k ->
    burns cfg amt tx to ->
    custody cfg amt state owner [(tx, c, t)] [leaf_of (it_raw owner) state (tx_raw tx) t] to
| custody_pass state owner tx c t k l leaves to :
    owned_by owner k -> certifies (it_raw owner) state (tx_raw tx) (tx_e tx) c t k -> passes tx ->
    custody cfg amt (output_state state (tx_mask tx)) (tx_pred tx) l leaves to ->
    custody cfg amt state owner ((tx, c, t) :: l)
      (leaf_of (it_raw owner) state (tx_raw tx) t :: leaves) to.

Lemma spend_iff state owner tx c t seen leaf seen' :
  spend state owner (tx, c, t) seen = Ok (leaf, seen') <->
  exists k, owned_by owner k /\ certifies (it_raw owner) state (tx_raw tx) (tx_e tx) c t k /\
    leaf = leaf_of (it_raw owner) state (tx_raw tx) t /\ (lf_sid leaf ∉ seen) /\ seen' = lf_sid leaf :: seen.
Proof.
  unfold spend. split.
  - intros Hs. apply rbind_ok_inv in Hs as ([typ params] & Hp & Hs).
    apply rbind_ok_inv in Hs as (k & Hk%ok_or_inv & Hs). apply step_iff in Hs as (Hc & Hl & Hn & Hseen).
    exists k. split; [by exists typ, params | done].
  - intros (k & (typ & params & Hp & Hk) & Hc & Hl & Hn & Hseen). rewrite Hp. cbn [rbind].
    unfold key. rewrite Hk. cbn [ok_or rbind]. by apply step_iff.
Qed.

Lemma check_passing_iff tx : check_passing tx = Ok () <-> passes tx.
Proof.
  unfold check_passing, passes. split.
  - intros Hc. apply rbind_ok_inv in Hc as ([typ params] & Hp & Hc).
    destruct (Z.eqb_spec typ 1) as [-> |]; [|done]. cbn [negb] in Hc.
    apply rbind_ok_inv in Hc as (k & Hk%ok_or_inv & Hc). destruct (tx_data tx) eqn:Hd; [done|]. by exists params, k.
  - intros (params & k & Hp & Hk & Hd). rewrite Hp. cbn [rbind Z.eqb Pos.eqb negb]. unfold key. rewrite Hk, Hd. done.
Qed.

Definition no_leaf : Leaf := {| lf_sid := []; lf_tx_hash := []; lf_reference_time := 0; lf_value := [] |}.
Definition last_leaf (l : list Leaf) : Leaf := List.last l no_leaf.

(** The outcome of a redemption, from what the mint derived. *)
Definition redeemed (out : Outcome) (leaves : list Leaf) (to : bytes) : Outcome :=
  push_leaves leaves
    (set_nullifier (burn_nullifier (oc_cfg out) (last_leaf leaves)) (set_release_to to out)).

Definition sids (l : list Leaf) : list bytes := map lf_sid l.

Lemma custody_nonempty cfg amt state owner l leaves to :
  custody cfg amt state owner l leaves to -> length leaves = length l /\ l <> [] /\ leaves <> [].
Proof. induction 1; simpl; [done|]. split; [lia | done]. Qed.

Lemma last_leaf_cons a l : l <> [] -> last_leaf (a :: l) = last_leaf l.
Proof. by destruct l. Qed.

Lemma redeemed_push a out leaves to :
  leaves <> [] -> redeemed (push_leaves [a] out) leaves to = redeemed out (a :: leaves) to.
Proof.
  intros Hne. unfold redeemed. rewrite last_leaf_cons by done. unfold push_leaves. simpl. by rewrite <- app_assoc.
Qed.

Section redeem.
Context (cfg : Cfg) (tokens : Items).
Hypothesis Hcfg : cfg_ok cfg.
Hypothesis Hcap : 32 <= items_cap tokens <= usize_max.

Lemma redeem_sound out state owner seen l out' :
  l <> [] -> Forall transfer_ok l -> redeem cfg tokens out state owner seen l = Ok out' ->
  exists leaves to, custody cfg (oc_amount out) state owner l leaves to /\
    NoDup (sids leaves) /\ (forall x, x ∈ sids leaves -> x ∉ seen) /\
    burn_nullifier (oc_cfg out) (last_leaf leaves) <> ZERO32 /\ out' = redeemed out leaves to.
Proof.
  intros Hl HF. revert out state owner seen Hl.
  induction HF as [|[[tx c] t] l Hx HF IH]; intros out state owner seen Hl Hr; [done|]. cbn [redeem] in Hr.
  apply rbind_ok_inv in Hr as ([leaf seen'] & (k & Hk & Hc & -> & Hn & ->)%spend_iff & Hr).
  apply rbind_ok_inv in Hr as (o & Ho & Hr). destruct l as [|y l].
  - apply rbind_ok_inv in Ho as (o1 & (to & Hb & ->)%burn_iff & Ho); [|done..]. cbv zeta in Ho.
    case_bool_decide as Hz; [done|]. injection Ho as <-. injection Hr as <-.
    eexists [_], to. split_and!; [by econstructor|apply NoDup_singleton| |done|done].
    intros x ->%list_elem_of_singleton. done.
  - apply rbind_ok_inv in Ho as ([] & Hp%check_passing_iff & [= <-]).
    apply IH in Hr as (leaves & to & Hcu & Hnd & Hdis & Hz & ->); [|done].
    pose proof (custody_nonempty _ _ _ _ _ _ _ Hcu) as (_ & _ & Hne).
    eexists (_ :: leaves), to. split_and!; [by econstructor| | | |].
    + apply NoDup_cons. split; [|done]. intros Hin. apply (Hdis _ Hin). by left.
    + intros x [-> | Hin]%elem_of_cons; [done|]. intros Hs. apply (Hdis _ Hin). by right.
    + by rewrite last_leaf_cons.
    + by apply redeemed_push.
Qed.

Lemma redeem_complete out state owner seen l leaves to :
  Forall transfer_ok l -> custody cfg (oc_amount out) state owner l leaves to ->
  NoDup (sids leaves) -> (forall x, x ∈ sids leaves -> x ∉ seen) ->
  burn_nullifier (oc_cfg out) (last_leaf leaves) <> ZERO32 ->
  redeem cfg tokens out state owner seen l = Ok (redeemed out leaves to).
Proof.
  intros HF Hcu. remember (oc_amount out) as amt eqn:Hamt. revert out seen Hamt HF.
  induction Hcu as [state owner tx c t k to Hk Hc Hb | state owner tx c t k l leaves to Hk Hc Hp Hcu IH];
    intros out seen -> HF Hnd Hdis Hz; cbn [redeem]; apply Forall_cons in HF as [Hx HF];
    (erewrite (proj2 (spend_iff _ _ _ _ _ _ _ _));
      [|exists k; split_and!; [done|done|reflexivity|apply Hdis; left|reflexivity]]); cbn [rbind].
  - rewrite (proj2 (burn_iff cfg out tx tokens (set_release_to to out) Hcfg Hx Hcap)) by (by exists to).
    cbn [rbind]. cbv zeta. rewrite bool_decide_false by done. cbn [rbind redeem]. done.
  - pose proof (custody_nonempty _ _ _ _ _ _ _ Hcu) as (_ & Hl & Hne). destruct l as [|y l]; [done|].
    rewrite (proj2 (check_passing_iff tx)) by done. cbn [rbind]. rewrite last_leaf_cons in Hz by done.
    apply NoDup_cons in Hnd as [Hni Hnd]. rewrite IH; try done.
    + by rewrite redeemed_push.
    + intros x Hin [-> | Hs]%elem_of_cons; [done|]. eapply Hdis; [|done]. by right.
Qed.

End redeem.

(** *** The mint *)

Definition mint_data_tree (aid a : bytes) : tree :=
  TTag 39050 (TArray [TUint 1; TArray [TArray [TBytes aid; TBytes a]]; TNull]).

Lemma mint_data_tree_ok cfg a :
  cfg_ok cfg -> amount_ok a ->
  child_ok (mint_data_tree (cf_aid cfg) a) /\ plain (mint_data_tree (cf_aid cfg) a) = true /\
  size (mint_data_tree (cf_aid cfg) a) = 8%nat.
Proof.
  intros [_ _ _ _ Ha] (x & l & _ & _ & Hl). split; [|done]. split; [|done].
  pose proof (zlen_nonneg a). unfold good, mint_data_tree. cbn [wf fits forallb max_depth].
  rewrite Ha. rewrite !(proj2 (u64b_iff _)) by (assumption || (unfold zlen in *; simpl; ulia)). done.
Qed.

Lemma mint_data_iff cfg b tokens a :
  cfg_ok cfg -> 32 <= items_cap tokens <= usize_max ->
  mint_data cfg b tokens = Ok a <-> b = enc (mint_data_tree (cf_aid cfg) a) /\ amount_ok a.
Proof.
  intros Hcfg [Hlo Hhi]. unfold mint_data, on_error. split.
  - intros Hm%map_err_ok_inv. apply rbind_ok_inv in Hm as (it & (t & [Hg _] & -> & -> & Hsz)%one_iff & Hm).
    assert (Hct : child_ok t) by (split; [done|lia]).
    apply rbind_ok_inv in Hm as (d & (l & -> & Hl & -> & H0')%tagged_view & Hm); [|done|lia|done].
    apply child_ok_tag in Hct. rewrite !at_view in Hm by lia. explode l Hl. cbn [nth] in *. subst.
    pose proof (child_ok_nth _ 1 Hct ltac:(simpl; lia)) as Hc1. cbn [nth] in Hc1.
    apply rbind_ok_inv in Hm as (outer & (l1 & -> & Hl1 & ->)%array_view & Hm); [|done].
    rewrite at_view in Hm by lia. explode l1 Hl1. cbn [nth] in *.
    pose proof (child_ok_nth _ 0 Hc1 ltac:(simpl; lia)) as Hc2. cbn [nth] in Hc2.
    apply rbind_ok_inv in Hm as (ar & (l2 & -> & Hl2 & ->)%array_view & Hm); [|done].
    rewrite !at_view in Hm by lia. explode l2 Hl2. cbn [nth] in *. inv_ok Hm.
    apply bytes_of_view in Hok as [-> _]. apply orb_false_iff in Heqb as [->%bytes_neq_false Hn%negb_false_iff].
    apply null_view in Hn as ->. by apply amount_iff in Hm as [-> Ha].
  - intros [-> Ha]. destruct (mint_data_tree_ok cfg a Hcfg Ha) as (Hok & Hpl & Hsz).
    pose proof (child_ok_tag _ _ Hok) as Hc. pose proof (child_ok_nth _ 1 Hc ltac:(simpl; lia)) as Hc1.
    cbn [nth] in Hc1. pose proof (child_ok_nth _ 0 Hc1 ltac:(simpl; lia)) as Hc2. cbn [nth] in Hc2.
    rewrite (proj2 (one_iff _ tokens (view (mint_data_tree (cf_aid cfg) a)))) by
      (exists (mint_data_tree (cf_aid cfg) a); split_and!; try done; [split; [apply Hok | done] | rewrite Hsz; lia]).
    cbn [rbind]. rewrite (proj2 (tagged_view 3 _ 39050 1 _ Hok ltac:(lia) ltac:(done))) by (eexists; split_and!; reflexivity).
    cbn [rbind]. rewrite !at_view by (simpl; lia). cbn [nth].
    rewrite (proj2 (array_view 1 _ _ Hc1)) by (eexists; split_and!; reflexivity). cbn [rbind].
    rewrite at_view by (simpl; lia). cbn [nth].
    rewrite (proj2 (array_view 2 _ _ Hc2)) by (eexists; split_and!; reflexivity). cbn [rbind].
    rewrite !at_view by (simpl; lia). cbn [nth].
    rewrite (proj2 (bytes_of_view _ _ (cf_aid cfg))) by (split; [done | apply Hcfg]). cbn [rbind].
    rewrite (proj2 (bytes_neq_false _ _)) by done. by rewrite (proj2 (amount_iff _ a)).
Qed.

(** A root mint under [cfg]: for its network and type, to a public key, with the salt the lock nonce
    of its justification determines and the data of the minted amount. *)
Definition root_mint (cfg : Cfg) (tokens : Items) (m : Mint) (n : Z) (amt : bytes) : Prop :=
  it_arg (at_ (mt_fields m) 1) = cf_network cfg /\
  (exists params, predicate (at_ (mt_fields m) 2) = Ok (1, params)) /\
  it_data (at_ (mt_fields m) 4) = cf_ty cfg /\
  it_data (at_ (mt_fields m) 3) = mint_salt (hash (cf_raw cfg)) n /\
  (exists j, mt_justification m = Some j /\ justification cfg j tokens = Ok n) /\
  mt_data m = Some (enc (mint_data_tree (cf_aid cfg) amt)) /\ amount_ok amt.

Lemma verify_root_iff cfg tokens m n amt :
  cfg_ok cfg -> 32 <= items_cap tokens <= usize_max ->
  verify_mint cfg m true tokens = Ok (n, amt) <-> exists n', n = Some n' /\ root_mint cfg tokens m n' amt.
Proof.
  intros Hcfg Hcap. unfold verify_mint, root_mint. cbv zeta. split.
  - intros Hv. destruct (Z.eqb_spec (it_arg (at_ (mt_fields m) 1)) (cf_network cfg)); [|done]. cbn [negb] in Hv.
    apply rbind_ok_inv in Hv as ([typ params] & Hp & Hv). destruct (Z.eqb_spec typ 1) as [-> |]; [|done]. cbn [negb] in Hv.
    destruct (bytes_neq _ (cf_ty cfg)) eqn:Hty; [done|]. apply bytes_neq_false in Hty.
    apply rbind_ok_inv in Hv as (nonce & Hn & Hv).
    apply rbind_ok_inv in Hv as (data & Hd%ok_or_inv & Hv).
    apply rbind_ok_inv in Hv as (a & (-> & Ha)%mint_data_iff & Hv); [|done..]. injection Hv as <- <-.
    apply rbind_ok_inv in Hn as (j & Hj%ok_or_inv & Hn). apply rbind_ok_inv in Hn as (n' & Hn' & Hn).
    destruct (bytes_neq _ (mint_salt _ _)) eqn:Hs; [done|]. apply bytes_neq_false in Hs. injection Hn as <-.
    exists n'. split_and!; eauto.
  - intros (n' & -> & Hnet & (params & Hp) & Hty & Hs & (j & Hj & Hn) & Hd & Ha).
    rewrite Hnet, Z.eqb_refl, Hp, Hj, Hd. cbn [negb rbind Z.eqb Pos.eqb ok_or].
    rewrite (proj2 (bytes_neq_false _ _)) by done. rewrite Hn. cbn [rbind].
    rewrite (proj2 (bytes_neq_false _ _)) by done. cbn [rbind].
    by rewrite (proj2 (mint_data_iff cfg _ tokens amt Hcfg Hcap)).
Qed.

(** The mint of [h]: its root mint derives [base], and the minter's key certified it. *)
Definition minted (cfg : Cfg) (tokens : Items) (h : History) (base : Outcome) (leaf : Leaf) : Prop :=
  exists n amt k, root_mint cfg tokens (hi_mint h) n amt /\
    derive cfg n amt (at_ (mt_fields (hi_mint h)) 2) = Ok base /\
    minter_key (oc_token_id base) = Ok k /\
    certifies (signature_pred k) (mint_source (oc_token_id base)) (it_raw (hi_mint_item h))
      (mt_deadline (hi_mint h)) (hi_cd0 h) (hi_t0 h) k /\
    leaf = leaf_of (signature_pred k) (mint_source (oc_token_id base)) (it_raw (hi_mint_item h)) (hi_t0 h).

(** The token's first state and owner. *)
Definition first_state (base : Outcome) : bytes := output_state (mint_source (oc_token_id base)) (oc_token_id base).
Definition first_owner (h : History) : Item := at_ (mt_fields (hi_mint h)) 2.

Lemma mint_step_iff id h seen leaf seen' :
  mint_step id h seen = Ok (leaf, seen') <->
  exists k, minter_key id = Ok k /\
    certifies (signature_pred k) (mint_source id) (it_raw (hi_mint_item h)) (mt_deadline (hi_mint h))
      (hi_cd0 h) (hi_t0 h) k /\
    leaf = leaf_of (signature_pred k) (mint_source id) (it_raw (hi_mint_item h)) (hi_t0 h) /\
    (lf_sid leaf ∉ seen) /\ seen' = lf_sid leaf :: seen.
Proof.
  unfold mint_step. split.
  - intros Hm. apply rbind_ok_inv in Hm as (k & Hk & Hs%step_iff). by exists k.
  - intros (k & -> & Hs). cbn [rbind]. by apply step_iff.
Qed.

Lemma parse_cfg_network it c : parse_cfg it = Ok c -> check_cfg_network it = Ok ().
Proof.
  intros Hp. unfold parse_cfg in Hp. apply rbind_ok_inv in Hp as (a & Ha & Hp).
  apply rbind_ok_inv in Hp as (d & Hd & Hp). unfold check_cfg_network. rewrite Ha, Hd.
  destruct (bytes_neq d CFG_DOMAIN) eqn:Hn; [done|]. apply bytes_neq_false in Hn. rewrite bool_decide_true by done.
  apply rbind_ok_inv in Hp as (n & -> & _). done.
Qed.

(** The evaluation of a redemption on scanned objects. *)
Lemma evaluate_redeem_iff ci pi max tokens out :
  scanned ci -> scanned pi -> 32 <= items_cap tokens <= usize_max ->
  evaluate 2 ci pi max tokens = Ok out <->
  exists cfg h base leaf leaves to,
    parse_cfg ci = Ok cfg /\ decode_items pi max = Ok h /\ minted cfg tokens h base leaf /\
    custody cfg (oc_amount base) (first_state base) (first_owner h) (hi_transfers h) leaves to /\
    NoDup (sids (leaf :: leaves)) /\ burn_nullifier (oc_cfg base) (last_leaf leaves) <> ZERO32 /\
    out = redeemed (push_leaves [leaf] base) leaves to.
Proof.
  intros Hci Hpi Hcap. unfold evaluate. change (2 =? 0) with false. change (2 =? 1) with false.
  change (2 =? 2) with true. cbn [andb]. split.
  - intros He. apply rbind_ok_inv in He as (cfg & Hcfg & He). pose proof (parse_cfg_ok _ _ Hci Hcfg) as Hok.
    apply rbind_ok_inv in He as (h & Hh & He).
    pose proof (safe_value _ _ _ (decode_items_safe pi max Hpi) Hh) as [_ Ht Hcount _].
    destruct (Z.eqb_spec (hi_count h) 0) as [|Hne]; [done|].
    apply rbind_ok_inv in He as ([n amt] & (n' & -> & Hroot)%verify_root_iff & He); [|done..].
    cbn [expect ok_or rbind] in He. cbv zeta in He. apply rbind_ok_inv in He as (base & Hb & He).
    apply rbind_ok_inv in He as ([leaf seen] & (k & Hk & Hc & Hl & _ & ->)%mint_step_iff & He).
    apply redeem_sound in He as (leaves & to & Hcu & Hnd & Hdis & Hz & ->); [| done..| |done].
    + exists cfg, h, base, leaf, leaves, to. split_and!; try done; [by exists n', amt, k|].
      apply NoDup_cons. split; [|done]. intros Hin. apply (Hdis _ Hin). by left.
    + intros Hnil. apply Hne. by rewrite <- Hcount, Hnil.
  - intros (cfg & h & base & leaf & leaves & to & Hcfg & Hh & (n & amt & k & Hroot & Hb & Hk & Hc & Hl) & Hcu & Hnd & Hz & ->).
    pose proof (parse_cfg_ok _ _ Hci Hcfg) as Hok.
    pose proof (safe_value _ _ _ (decode_items_safe pi max Hpi) Hh) as [_ Ht Hcount _].
    pose proof (custody_nonempty _ _ _ _ _ _ _ Hcu) as (_ & Hne & _).
    rewrite Hcfg, Hh. cbn [rbind]. rewrite (proj2 (Z.eqb_neq (hi_count h) 0)).
    2:{ rewrite <- Hcount. destruct (hi_transfers h); [done|]. unfold zlen. simpl. lia. }
    rewrite (proj2 (verify_root_iff cfg tokens _ (Some n) amt Hok Hcap)) by (by exists n).
    cbn [expect ok_or rbind]. cbv zeta. rewrite Hb. cbn [rbind].
    rewrite (proj2 (mint_step_iff (oc_token_id base) h [] leaf [lf_sid leaf])).
    2:{ exists k. split_and!; try done. apply not_elem_of_nil. }
    cbn [rbind]. apply NoDup_cons in Hnd as [Hni Hnd]. apply redeem_complete; try done.
    intros x Hin ->%list_elem_of_singleton. done.
Qed.

Lemma per_object_scan data n it : n <= usize_max -> one data (per_object n) = Ok it -> scanned it.
Proof. intros Hn. apply safe_value, safe_one. done. Qed.

(** A redemption, from the bytes of its configuration and history. *)
Lemma redemption_iff cfg_bytes history out :
  relation 2 cfg_bytes history (fun _ => Ok ()) = Ok out <->
  exists ci pi cfg h base leaf leaves to,
    one cfg_bytes (per_object ITEMS_MAX) = Ok ci /\ one history (per_object usize_max) = Ok pi /\
    parse_cfg ci = Ok cfg /\ decode_items pi u64_max = Ok h /\
    minted cfg (per_object ITEMS_MAX) h base leaf /\
    custody cfg (oc_amount base) (first_state base) (first_owner h) (hi_transfers h) leaves to /\
    NoDup (sids (leaf :: leaves)) /\ burn_nullifier (oc_cfg base) (last_leaf leaves) <> ZERO32 /\
    out = redeemed (push_leaves [leaf] base) leaves to.
Proof.
  unfold relation. cbv zeta. split.
  - intros Hr. apply rbind_ok_inv in Hr as (ci & Hci & Hr). apply rbind_ok_inv in Hr as (? & _ & Hr).
    apply rbind_ok_inv in Hr as (pi & Hpi & Hr). apply rbind_ok_inv in Hr as (m & _ & Hr). cbn [rbind] in Hr.
    apply evaluate_redeem_iff in Hr as (cfg & h & base & leaf & leaves & to & Hrest);
      [|by eapply (per_object_scan _ ITEMS_MAX)|by eapply (per_object_scan _ usize_max)|done].
    by exists ci, pi, cfg, h, base, leaf, leaves, to.
  - intros (ci & pi & cfg & h & base & leaf & leaves & to & Hci & Hpi & Hcfg & Hh & Hrest).
    rewrite Hci. cbn [rbind]. rewrite (parse_cfg_network ci cfg), Hpi by done. cbn [rbind].
    rewrite (decode_items_count _ _ h) by done. cbn [rbind].
    apply evaluate_redeem_iff; [by eapply (per_object_scan _ ITEMS_MAX)|by eapply (per_object_scan _ usize_max)|done|].
    by exists cfg, h, base, leaf, leaves, to.
Qed.

(** ** Properties *)

(** C31: A call of the token-semantics precompile never panics, whatever its input: it halts or it
    returns.  A returned call decoded, was charged 26000 gas, 20 per input byte and 14000 per leaf
    the payload announces, within the gas forwarded: none for a derivation, and for a history one
    for its mint and one for each of the transfers of its list, at most 65.  It returned what the evaluation
    of the call gave: the false result, at the same charge, exactly for an error that invalidates
    the payload, and otherwise the encoding of the outcome, with exactly the leaves paid for. *)
Theorem b2_call_charged data gas :
  match call data gas with
  | Returned g out =>
      exists c cfg payload m, abi_decode data = Ok c /\ one (call_cfg c) default_items = Ok cfg /\
        one (call_payload c) default_items = Ok payload /\ announced c m /\
        0 <= m <= 1 + MAX_TRANSFERS /\ g = 26000 + 20 * zlen data + 14000 * m /\ g <= gas /\
        match evaluate (call_op c) cfg payload MAX_TRANSFERS default_items with
        | Ok o => outcome_ok o /\ zlen (oc_leaves o) = m /\ out = abi_encode true o /\ zlen out = 448 + 128 * m
        | Err (Failed e) => is_invalid e = true /\ out = abi_encode false default_outcome
        | Err Panicked => False
        end
  | Halt _ => True
  | CallPanicked => False
  end.
Proof.
  unfold call. pose proof (run_safe data gas) as Hs.
  destruct (run data gas) as [o|[e|]]; [|by destruct e|done].
  destruct Hs as (c & cfg & payload & m & Hd & Hcfg & Hp & Ha & Hm & Hg & Hle & Ho). exists c, cfg, payload, m.
  split_and!; try assumption; try apply Hm. destruct (out_invalid o) as [e|].
  - destruct Ho as (He & Ho). by rewrite He.
  - destruct Ho as (out & He & Ho). by rewrite He.
Qed.

(** C10: A redemption is accepted exactly when its history is a chain of custody.  The configuration
    and the history scan and decode; the mint is a root mint of the configuration certified by the
    token's universal minter; every transfer is certified, in time, by the key of the owner it
    spends and hands the token to a public key with no data, until the last, which burns the whole
    minted amount for a recipient that is neither zero nor the vault; and no state is spent twice.
    The outcome is the one the mint derived, with that recipient, the leaves in order and the
    burn's nullifier. *)
Theorem redemption_exact cfg_bytes history out :
  relation 2 cfg_bytes history (fun _ => Ok ()) = Ok out <->
  exists ci pi cfg h base leaf leaves to,
    one cfg_bytes (per_object ITEMS_MAX) = Ok ci /\ one history (per_object usize_max) = Ok pi /\
    parse_cfg ci = Ok cfg /\ decode_items pi u64_max = Ok h /\
    minted cfg (per_object ITEMS_MAX) h base leaf /\
    custody cfg (oc_amount base) (first_state base) (first_owner h) (hi_transfers h) leaves to /\
    NoDup (sids (leaf :: leaves)) /\ burn_nullifier (oc_cfg base) (last_leaf leaves) <> ZERO32 /\
    out = redeemed (push_leaves [leaf] base) leaves to.
Proof. apply redemption_iff. Qed.

End custody.

End B2Semantics.
