(* ===== verification/B2Quiet.v ===== *)
(** The token relation of [crates/unicity/b2] never reports that it ran out of gas: only the entry
    point [run] and the caller's own charge do.  The composition's [status_of_b2] relies on it, whose
    arm for that error is [unreachable!]. *)
From S2P Require Import Prelude Crypto B1Cbor B2Cbor B2Semantics.
Import B1Cbor B2Cbor B2Semantics.

Module B2Quiet.

Definition quiet {A} (r : kernel A) : Prop := r <> Err (Failed OutOfGas).

Section quiet.
Context {A B : Type}.

Lemma quiet_ok (a : A) : quiet (Ok a).
Proof. done. Qed.
Lemma quiet_panic : quiet (A := A) (Err Panicked).
Proof. done. Qed.
Lemma quiet_raise e : e <> OutOfGas -> quiet (raise (A := A) e).
Proof. intros He [= ->]. done. Qed.
Lemma quiet_bind (r : kernel A) (k : A -> kernel B) : quiet r -> (forall a, quiet (k a)) -> quiet (rbind r k).
Proof. intros Hr Hk. destruct r as [a|e]; [apply Hk|]. intros [= ->]. by apply Hr. Qed.
Lemma quiet_on_error f (r : kernel A) : quiet r -> (forall e, e <> OutOfGas -> f e <> OutOfGas) -> quiet (on_error f r).
Proof.
  intros Hr Hf. destruct r as [a|[e|]]; [done| |done]. intros [= He]. apply (Hf e); [|done]. intros ->. by apply Hr.
Qed.
Lemma quiet_ok_or (o : option A) e : e <> Failed OutOfGas -> quiet (ok_or o e).
Proof. destruct o; [done|]. intros He [= ->]. done. Qed.
End quiet.

Create HintDb quiet.

(** Follows the structure of a computation down to its calls. *)
Ltac quiet_go :=
  repeat (intros; cbv zeta;
    first
    [ apply quiet_ok | apply quiet_panic | (apply quiet_raise; discriminate)
    | (apply quiet_bind; [|intros])
    | (apply quiet_on_error; [|intros ? ?; try case_bool_decide; try discriminate; try assumption])
    | (unfold expect; apply quiet_ok_or; discriminate)
    | solve [eauto with quiet]
    | match goal with
      | |- quiet (match ?x with _ => _ end) => destruct x
      end ]).

Lemma head_quiet d : quiet (head d).
Proof. unfold head. quiet_go. Qed.
#[export] Hint Resolve head_quiet : quiet.

Lemma scan_loop_quiet child n : (forall s, quiet (child s)) -> forall s, quiet (scan_loop child n s).
Proof. intros Hc. induction n as [|n IH]; intros s; cbn [scan_loop]; quiet_go. Qed.

Lemma scan_quiet room tokens : forall s, quiet (scan room tokens s).
Proof.
  induction room as [|room IH]; intros s; cbn [scan]; quiet_go; unfold scan_match; quiet_go.
  apply scan_loop_quiet. exact IH.
Qed.
#[export] Hint Resolve scan_quiet : quiet.

Lemma item_quiet d : quiet (item d).
Proof. unfold item. quiet_go. Qed.
#[export] Hint Resolve item_quiet : quiet.
Lemma one_quiet d tokens : quiet (one d tokens).
Proof. unfold one. quiet_go. Qed.
Lemma uint_quiet it max : quiet (uint it max).
Proof. unfold uint. quiet_go. Qed.
Lemma bytes_of_quiet it n : quiet (bytes_of it n).
Proof. unfold bytes_of. quiet_go. Qed.
Lemma blob_quiet it max : quiet (blob it max).
Proof. unfold blob. quiet_go. Qed.
Lemma count_quiet it max : quiet (count it max).
Proof. unfold count. quiet_go. Qed.
Lemma next_child_quiet d : quiet (next_child d).
Proof. unfold next_child. quiet_go. Qed.
#[export] Hint Resolve one_quiet uint_quiet bytes_of_quiet blob_quiet count_quiet next_child_quiet : quiet.

Lemma children_from_quiet fuel : forall d, quiet (children_from fuel d).
Proof. induction fuel as [|fuel IH]; intros [|x d]; cbn [children_from]; quiet_go. Qed.
Lemma children_quiet it : quiet (children it).
Proof. apply children_from_quiet. Qed.
Lemma array_slots_quiet self n : forall d, quiet (array_slots self n d).
Proof. induction n as [|n IH]; intros d; cbn [array_slots]; quiet_go. Qed.
Lemma array_of_quiet n it : quiet (array_of n it).
Proof. unfold array_of. quiet_go. apply array_slots_quiet. Qed.
#[export] Hint Resolve children_quiet array_of_quiet : quiet.
Lemma tagged_quiet n it tag version : quiet (tagged n it tag version).
Proof. unfold tagged. quiet_go. Qed.
#[export] Hint Resolve tagged_quiet : quiet.

Lemma each_quiet {A} (f : A -> kernel ()) l : (forall a, quiet (f a)) -> quiet (each f l).
Proof. intros Hf. induction l as [|a l IH]; cbn [each]; quiet_go. Qed.

Section semantics.
Context `{Crypto} `{K256}.

Lemma right_align_quiet b : quiet (right_align b).
Proof. unfold right_align. quiet_go. Qed.
Lemma network_quiet it : quiet (network it).
Proof. unfold network. quiet_go. Qed.
#[local] Hint Resolve right_align_quiet network_quiet : quiet.
Lemma parse_cfg_quiet it : quiet (parse_cfg it).
Proof. unfold parse_cfg. quiet_go. Qed.
Lemma check_cfg_network_quiet it : quiet (check_cfg_network it).
Proof. unfold check_cfg_network. quiet_go. Qed.
Lemma amount_quiet it : quiet (amount it).
Proof. unfold amount. quiet_go. Qed.
Lemma deadline_quiet it : quiet (deadline it).
Proof. unfold deadline. quiet_go. Qed.
Lemma predicate_quiet it : quiet (predicate it).
Proof. unfold predicate. quiet_go. Qed.
Lemma key_quiet p : quiet (key p).
Proof. unfold key. quiet_go. Qed.
#[local] Hint Resolve parse_cfg_quiet check_cfg_network_quiet amount_quiet deadline_quiet predicate_quiet key_quiet : quiet.
Lemma derive_quiet cfg n amt p : quiet (derive cfg n amt p).
Proof. unfold derive. quiet_go. Qed.
Lemma proof_blob_quiet it max : quiet (proof_blob it max).
Proof. unfold proof_blob. quiet_go. Qed.
#[local] Hint Resolve derive_quiet proof_blob_quiet : quiet.
Lemma proof_nodes_quiet l : forall total, quiet (proof_nodes l total).
Proof. induction l as [|x l IH]; intros total; cbn [proof_nodes]; quiet_go. Qed.
#[local] Hint Resolve proof_nodes_quiet : quiet.
Lemma proof_tries_quiet l : forall total, quiet (proof_tries l total).
Proof. induction l as [|x l IH]; intros total; cbn [proof_tries]; quiet_go. Qed.
Lemma lock_nonce_quiet cfg j : quiet (lock_nonce cfg j).
Proof. unfold lock_nonce. quiet_go. Qed.
#[local] Hint Resolve proof_tries_quiet lock_nonce_quiet : quiet.
Lemma justification_quiet cfg b tokens : quiet (justification cfg b tokens).
Proof. unfold justification. quiet_go. Qed.
Lemma mint_data_quiet cfg b tokens : quiet (mint_data cfg b tokens).
Proof. unfold mint_data. quiet_go. Qed.
Lemma cd_quiet it : quiet (cd it).
Proof. unfold cd. quiet_go. Qed.
Lemma nullable_quiet it : quiet (nullable it).
Proof. unfold nullable. quiet_go. Qed.
#[local] Hint Resolve justification_quiet mint_data_quiet cd_quiet nullable_quiet : quiet.
Lemma transfer_quiet it : quiet (transfer it).
Proof. unfold transfer. quiet_go. Qed.
Lemma unlock_quiet k source tx u : quiet (unlock k source tx u).
Proof. unfold unlock. quiet_go. Qed.
Lemma insert_sid_quiet seen sid : quiet (insert_sid seen sid).
Proof. unfold insert_sid. quiet_go. Qed.
#[local] Hint Resolve transfer_quiet unlock_quiet insert_sid_quiet : quiet.
Lemma step_quiet pred source raw e c t k seen : quiet (step pred source raw e c t k seen).
Proof. unfold step. quiet_go. Qed.
Lemma burn_quiet cfg out tx tokens : quiet (burn cfg out tx tokens).
Proof.
  unfold burn, burn_inner. apply quiet_on_error; [quiet_go|].
  intros e He. by destruct (is_invalid e).
Qed.
Lemma pred_strict_quiet it : quiet (pred_strict it).
Proof. unfold pred_strict. quiet_go. Qed.
#[local] Hint Resolve step_quiet burn_quiet pred_strict_quiet : quiet.
Lemma cd_strict_quiet it : quiet (cd_strict it).
Proof. unfold cd_strict. quiet_go. Qed.
Lemma transfer_strict_quiet it : quiet (transfer_strict it).
Proof. unfold transfer_strict. quiet_go. Qed.
Lemma decode_mint_quiet it : quiet (decode_mint it).
Proof. unfold decode_mint. quiet_go. Qed.
Lemma verify_mint_quiet cfg m root tokens : quiet (verify_mint cfg m root tokens).
Proof. unfold verify_mint. quiet_go. Qed.
#[local] Hint Resolve cd_strict_quiet transfer_strict_quiet decode_mint_quiet verify_mint_quiet : quiet.
Lemma decode_transfers_quiet l : quiet (decode_transfers l).
Proof. induction l as [|x l IH]; cbn [decode_transfers]; quiet_go. Qed.
#[local] Hint Resolve decode_transfers_quiet : quiet.
Lemma decode_items_quiet p max : quiet (decode_items p max).
Proof. unfold decode_items. quiet_go. Qed.
Lemma mint_step_quiet id h seen : quiet (mint_step id h seen).
Proof. unfold mint_step, minter_key. quiet_go. Qed.
Lemma check_passing_quiet tx : quiet (check_passing tx).
Proof. unfold check_passing. quiet_go. Qed.
Lemma spend_quiet state owner x seen : quiet (spend state owner x seen).
Proof. unfold spend. quiet_go. Qed.
#[local] Hint Resolve decode_items_quiet mint_step_quiet check_passing_quiet spend_quiet : quiet.
Lemma redeem_quiet cfg tokens l : forall out state owner seen, quiet (redeem cfg tokens out state owner seen l).
Proof. induction l as [|[[tx c] t] l IH]; intros; cbn [redeem]; quiet_go. by destruct (is_invalid _).
Qed.
#[local] Hint Resolve redeem_quiet : quiet.
Lemma evaluate_quiet op cfg p max tokens : quiet (evaluate op cfg p max tokens).
Proof. unfold evaluate. quiet_go. Qed.
Lemma leaf_count_quiet op p max : quiet (leaf_count op p max).
Proof. unfold leaf_count. quiet_go. Qed.
#[local] Hint Resolve evaluate_quiet leaf_count_quiet : quiet.

(** The relation, with a caller that charges nothing. *)
Lemma relation_quiet op cfg payload : quiet (relation op cfg payload (fun _ => Ok ())).
Proof. unfold relation. quiet_go. Qed.

End semantics.

End B2Quiet.
