(* ===== verification/B2Lineage.v ===== *)
(** The lineage relation of protocol 6, [b2/src/lineage.rs]: a redeemed part whose mint reason is a
    split of a burned parent, down to the lock-backed root.  The walk descends from the part to the
    root through the justifications; the verification climbs back with one set of state
    identifiers for the whole lineage, a split burn per parent, an allocation proof per child and
    the return burn of the part.

    An allocation proof is a path of a Merkle sum tree.  Nothing is assumed of SHA-256: the
    theorems that depend on it find a collision among the byte strings hashed instead. *)
From S2P Require Import Prelude CborCodec Crypto B1Cbor B1Membership B1Certificate B2Cbor B2Semantics.
Import B1Cbor B2Cbor B2Semantics.

Module B2Lineage.

Definition SPLIT_PER_BYTE : Z := 16.
Definition PER_ITEM : Z := 20.
Definition PER_LEAF : Z := 16000.
Definition EDGE_BASE : Z := 20000.
Definition EDGE_PER_STEP : Z := 1500.

Definition TAG_LOCK : Z := 39049.
Definition TAG_SPLIT : Z := 39044.
Definition TAG_MANIFEST : Z := 39046.
Definition TAG_TOKEN : Z := 39040.
Definition TAG_INCLUSION : Z := 39033.
Definition MAX_PROOF_UC_BYTES : Z := 24576.
Definition MAX_STEPS : Z := 256.

(** ** 256-bit amounts *)

(** [U256::amount]: a positive minimal big-endian amount, right-aligned in a word. *)
Definition u256_amount (b : bytes) : option bytes :=
  match b with
  | [] => None
  | first :: _ =>
      if (32 <? zlen b) || bool_decide (first = Byte.x00) then None
      else Some (replicate (32 - length b) Byte.x00 ++ b)
  end.

(** The loop of [checked_add] from the last byte: the sum bytes and the carry out. *)
Fixpoint add_carry (a b : bytes) : bytes * Z :=
  match a, b with
  | x :: a, y :: b =>
      let (out, carry) := add_carry a b in
      let v := b2z x + b2z y + carry in
      (z2b v :: out, Z.shiftr v 8)
  | _, _ => ([], 0)
  end.

Definition u256_add (a b : bytes) : option bytes :=
  let (out, carry) := add_carry a b in
  if carry =? 0 then Some out else None.

(** ** Errors of the native reader *)

Definition nerr (e : Malformed) : Error :=
  match e with
  | B1Cbor.Truncated => Truncated
  | B1Cbor.Trailing => Trailing
  | B1Cbor.Canonical => NonCanonical
  | B1Cbor.Cbor | B1Cbor.Utf8 => ForbiddenCBOR
  | B1Cbor.Limit => TooManyItems
  | B1Cbor.Version => Version
  | _ => Shape
  end.

(** [.map_err(f)] on a native read; [None] is a panic of its rescans. *)
Definition read_native {A} (f : Malformed -> Error) (r : result Malformed A) : kernel A :=
  map_err (fun m => Failed (f m)) r.
Definition open_native {A} (f : Malformed -> Error) (o : option (result Malformed A)) : kernel A :=
  match o with Some r => read_native f r | None => Err Panicked end.
Definition native_children (it : Item) : kernel (list Item) := expect (B1Cbor.children it).

(** [let x: [u8; 32] = b.try_into().expect(..)]. *)
Definition word_of (b : bytes) : kernel bytes := if zlen b =? 32 then Ok b else Err Panicked.

Section proofs.
Context `{Crypto}.

Definition leaf_hash (key data v : bytes) : bytes := hash ([Byte.x10] ++ key ++ data ++ v).

Definition node_hash (depth : Z) (l r : bytes * bytes) : option (bytes * bytes) :=
  match u256_add l.2 r.2 with
  | Some sum => Some (hash ([Byte.x11; z2b depth] ++ l.1 ++ l.2 ++ r.1 ++ r.2), sum)
  | None => None
  end.

Definition key_bit (key : bytes) (i : Z) : bool :=
  Z.land (Z.shiftr (b2z (nth (Z.to_nat (i / 8)) key Byte.x00)) (7 - i mod 8)) 1 =? 1.

Record Step := { st_depth : Z; st_hash : bytes; st_sum : bytes }.
Abbreviation Proof := (list Step).

(** The loop of [verify] over the running hash, sum and previous depth. *)
Fixpoint verify_steps (key : bytes) (prev : Z) (h sum : bytes) (steps : list Step) : option (bytes * bytes) :=
  match steps with
  | [] => Some (h, sum)
  | s :: steps =>
      if prev <=? st_depth s then None else
      match (if key_bit key (st_depth s)
             then node_hash (st_depth s) (st_hash s, st_sum s) (h, sum)
             else node_hash (st_depth s) (h, sum) (st_hash s, st_sum s)) with
      | Some (h, sum) => verify_steps key (st_depth s) h sum steps
      | None => None
      end
  end.

Definition verify (proof : list Step) (key data value root : bytes) : option bytes :=
  match verify_steps key 256 (leaf_hash key data value) value proof with
  | Some (h, sum) => if bool_decide (h = root) then Some sum else None
  | None => None
  end.

(** ** Decoding *)

Fixpoint decode_steps (kids : list Item) (prev : Z) : kernel (list Step) :=
  match kids with
  | [] => Ok []
  | k :: kids =>
      let? f := open_native nerr (item_array 3 k) in
      let? depth := read_native (fun _ => SplitProofShape) (item_uint (at_ f 0) 255) in
      if prev <=? depth then raise SplitProofShape else
      let? b := read_native nerr (item_bytes (at_ f 1) 32) in
      let? h := word_of b in
      if negb (it_major (at_ f 2) =? 2) then raise SplitProofShape else
      let? sum := ok_or (u256_amount (it_data (at_ f 2))) (Failed SplitProofShape) in
      let? steps := decode_steps kids depth in
      Ok ({| st_depth := depth; st_hash := h; st_sum := sum |} :: steps)
  end.

Definition decode_proof (it : Item) : kernel (list Step) :=
  if negb (it_major it =? 4) then raise Shape else
  if MAX_STEPS <? it_arg it then raise SplitProofShape else
  let? kids := native_children it in
  decode_steps kids 256.

(** The tag number a justification starts with. *)
Definition justification_tag (j : bytes) : option Z :=
  match j with
  | [] => None
  | b :: _ =>
      let first := b2z b in
      if negb (Z.shiftr first 5 =? 6) then None else
      let ai := Z.land first 31 in
      if ai <=? 23 then Some ai
      else if ai <=? 27 then
        let len := Z.shiftl 1 (ai - 24) in
        match get_range j 1 (1 + len) with
        | Some x => Some (shift_fold x)
        | None => None
        end
      else None
  end.

Context `{K256}.

(** [tag(39033, [1, CD, t, b(path), UC])]: the certification data and the reference time. *)
Definition inclusion (it : Item) : kernel (Item * Z) :=
  if negb (it_major it =? 6) then raise Shape else
  if negb (it_arg it =? TAG_INCLUSION) then raise Tag else
  let? f := open_native nerr (B1Cbor.tagged 5 TAG_INCLUSION it) in
  let? c := one (it_raw (at_ f 1)) (native ITEMS_MAX) in
  let? _ := cd_strict c in
  let? t := read_native nerr (item_uint (at_ f 2) u64_max) in
  if negb (it_major (at_ f 3) =? 2) then raise Shape else
  let path := it_data (at_ f 3) in
  if (zlen path <? 32) || negb (zlen path mod 32 =? 0) then raise Length else
  let pop := sum_z (map B1Membership.ones (take 32 path)) in
  if negb (zlen path =? 32 + 32 * pop) then raise Length else
  let uc := at_ f 4 in
  if MAX_PROOF_UC_BYTES <? zlen (it_raw uc) then raise InputTooLarge else
  if negb (it_major uc =? 6) then raise Shape else
  match B1Certificate.scan_certificate (it_raw uc) with
  | Ok _ => Ok (at_ f 1, t)
  | Err (B1Certificate.Bad _) => raise CertScan
  | Err B1Certificate.Panic => Err Panicked
  end.

Definition decode_history (history : bytes) : kernel () :=
  let? p := one history (per_object usize_max) in
  let? _ := decode_items p u64_max in Ok ().

Definition open_token (token : Item) : kernel (list Item) :=
  if negb (it_major token =? 6) then raise Shape else
  if negb (it_arg token =? TAG_TOKEN) then raise Tag else
  let? (inner, _) := read_native nerr (one_loose (it_data token) 0 usize_max) in
  let? a := open_native nerr (item_array 3 inner) in
  let? v := read_native nerr (item_uint (at_ a 0) u64_max) in
  if negb (v =? 2) then raise Version else Ok a.

(** The triples [[tx, cd, t]] of a token's transactions, in their compact form. *)
Fixpoint project_transfers (pairs : list Item) : kernel (list bytes) :=
  match pairs with
  | [] => Ok []
  | p :: pairs =>
      let? pr := open_native nerr (item_array 2 p) in
      let? tx := one (it_raw (at_ pr 0)) (native ITEMS_MAX) in
      let? _ := transfer_strict tx in
      let? (c, t) := inclusion (at_ pr 1) in
      let? triples := project_transfers pairs in
      Ok (enc_array [it_raw (at_ pr 0); it_raw c; enc_uint t] :: triples)
  end.

(** A complete token as a compact history, from its own bytes, and its number of leaves. *)
Definition project (token : Item) : kernel (bytes * Z) :=
  let? a := open_token token in
  let? g := open_native nerr (item_array 2 (at_ a 1)) in
  let? m := one (it_raw (at_ g 0)) (native ITEMS_MAX) in
  let? _ := decode_mint m in
  let? (cd0, t0) := inclusion (at_ g 1) in
  let txs := at_ a 2 in
  if negb (it_major txs =? 4) then raise Shape else
  let? pairs := native_children txs in
  let? triples := project_transfers pairs in
  let mint := enc_array [it_raw (at_ g 0); it_raw cd0; enc_uint t0] in
  Ok (enc_array [mint; enc_array triples], 1 + zlen triples).

(** ** One verified token *)

Record Verified := {
  ve_last : Leaf; ve_id : bytes; ve_amount : bytes; ve_base : option Outcome; ve_leaves : list Leaf;
  ve_network : Z; ve_recipient : bytes; ve_salt : bytes; ve_ty : bytes; ve_data : bytes }.

(** The transfers of a token whose terminal transfer is classified by the caller; the leaves are
    collected in order. *)
Fixpoint follow (state : bytes) (owner : Item) (seen : list bytes) (l : list (Tx * Cd * Z))
    : kernel (list Leaf * list bytes) :=
  match l with
  | [] => Ok ([], seen)
  | (tx, cert, t) :: l =>
      let? (leaf, seen) := spend state owner (tx, cert, t) seen in
      let? _ := match l with [] => Ok () | _ => check_passing tx end in
      let? (leaves, seen) := follow (output_state state (tx_mask tx)) (tx_pred tx) seen l in
      Ok (leaf :: leaves, seen)
  end.

Definition child_id (salt : bytes) (network : Z) : bytes := hash_array [enc_bytes salt; enc_uint network].

Definition level (cfg : Cfg) (payload : bytes) (root : bool) (seen : list bytes) (tokens : Items)
    : kernel (Verified * list bytes) :=
  let? payload := one payload tokens in
  let? h := decode_items payload u64_max in
  if hi_count h =? 0 then raise NoTransfers else
  let m := mt_fields (hi_mint h) in
  let? (n, amt) := verify_mint cfg (hi_mint h) root tokens in
  let? (id, base) :=
    (match n with
     | Some n => let? out := derive cfg n amt (at_ m 2) in Ok (oc_token_id out, Some out)
     | None => Ok (child_id (it_data (at_ m 3)) (cf_network cfg), None)
     end) in
  let? amount := right_align amt in
  let? (leaf, seen) := mint_step id h seen in
  let? (leaves, seen) :=
    follow (output_state (mint_source id) id) (at_ m 2) seen (hi_transfers h) in
  let? salt := word_of (it_data (at_ m 3)) in
  let? ty := word_of (it_data (at_ m 4)) in
  let? data := expect (mt_data (hi_mint h)) in
  Ok ({| ve_last := last_leaf (leaf :: leaves); ve_id := id; ve_amount := amount; ve_base := base;
         ve_leaves := leaf :: leaves; ve_network := it_arg (at_ m 1); ve_recipient := it_raw (at_ m 2);
         ve_salt := salt; ve_ty := ty; ve_data := data |}, seen).

(** [splitOutputCommitment]. *)
Definition commitment (source : bytes) (child : Verified) : bytes :=
  hash_array [enc_bytes (ascii "UNICITY_SPLIT_OUTPUT"); enc_bytes source; enc_uint (ve_network child);
    enc_bytes (ve_recipient child); enc_bytes (ve_salt child); enc_bytes (ve_id child);
    enc_bytes (ve_ty child); enc_bytes (ve_data child)].

(** The manifest root of a split burn's data: [tag(39046, [b(root32)])], nothing else. *)
Definition manifest_root (data : bytes) : kernel bytes :=
  let bad {A} (r : kernel A) : kernel A := on_error (fun _ => SplitManifest) r in
  let? root := bad (one data default_items) in
  if negb (it_major root =? 6) || negb (it_arg root =? TAG_MANIFEST) then raise SplitManifest else
  let? inner := bad (one (it_data root) default_items) in
  let? a := bad (array_of 1 inner) in
  let? b := bad (bytes_of (at_ a 0) 32) in
  if zlen b =? 32 then Ok b else raise SplitManifest.

(** ** The walk and the verification, paying as they go *)

Section paying.
(** The caller's meter: [charge] takes a payment or refuses it. *)
Context {S : Type} (charge : Z -> S -> kernel () * S).

Definition paying (A : Type) : Type := S -> kernel A * S.
Definition pret {A} (a : A) : paying A := fun s => (Ok a, s).
Definition pure {A} (r : kernel A) : paying A := fun s => (r, s).
Definition pbind {A B} (c : paying A) (k : A -> paying B) : paying B := fun s =>
  match c s with
  | (Ok a, s) => k a s
  | (Err e, s) => (Err e, s)
  end.
#[local] Notation "'let!' x ':=' c 'in' k" := (pbind c (fun x => k))
  (at level 10, x pattern, c at level 200, k at level 200) : unicity_scope.

(** The parent a split justification carries and the allocation proof of its child, with the number
    of items scanned. *)
Definition open_split (j : bytes) : kernel (Item * list Step * Z) :=
  let loose {A} (r : result Malformed A) : kernel A := read_native (fun _ => SplitJustif) r in
  let? (sj, items) := loose (one_loose j 0 usize_max) in
  if negb (it_major sj =? 6) || negb (it_arg sj =? TAG_SPLIT) then raise SplitJustif else
  let? (body, _) := loose (one_loose (it_data sj) 0 usize_max) in
  if negb (it_major body =? 4) || negb (it_arg body =? 2) then raise SplitJustif else
  let? kids := native_children body in
  let? token := expect (nth_error kids 0) in
  let? proofs := expect (nth_error kids 1) in
  if negb (it_major token =? 6) || negb (it_major proofs =? 4) then raise SplitJustif else
  if negb (it_arg proofs =? 1) then raise SplitProofCount else
  let? l := native_children proofs in
  let? p := expect (nth_error l 0) in
  let? proof := decode_proof p in
  Ok (token, proof, items).

(** The justification of a level's mint. *)
Definition level_reason (cur : bytes) : kernel bytes :=
  let? p := one cur (per_object usize_max) in
  let? h := array_of 2 p in
  let? g := array_of 3 (at_ h 0) in
  let? m := tagged 8 (at_ g 0) 39041 2 in
  on_error (fun _ => MintJustif) (blob (at_ m 5) usize_max).

(** One level's compact history and, unless it is the root, the allocation proof of its mint. *)
Abbreviation walked := (list (bytes * option (list Step))).

(** The loop from [cur] down to the root, the levels in the order they are met.  Every projection is
    shorter than the level that carries it, so the length of the history bounds the rounds. *)
Fixpoint walk (fuel : nat) (cur : bytes) : paying walked :=
  match fuel with
  | O => pure (Err Panicked)
  | Datatypes.S fuel =>
      let! j := pure (level_reason cur) in
      if bool_decide (justification_tag j = Some TAG_LOCK) then pret [(cur, None)] else
      if negb (bool_decide (justification_tag j = Some TAG_SPLIT)) then pure (raise MintJustif) else
      let! _ := charge (SPLIT_PER_BYTE * zlen j) in
      let! (token, proof, items) := pure (open_split j) in
      let! _ := charge (PER_ITEM * items) in
      let! (proj, leaves) := pure (project token) in
      let! _ := charge (PER_LEAF * leaves) in
      let! rest := walk fuel proj in
      pret ((cur, Some proof) :: rest)
  end.

(** The parent of the level being verified: its token, its amount and its manifest root. *)
Record Parent := { pa_id : bytes; pa_amount : bytes; pa_root : bytes }.

(** The allocation edge of a level that is not the root. *)
Definition edge (parent : option Parent) (lv : Verified) (proof : option (list Step)) : paying () :=
  match proof with
  | None => pret ()
  | Some proof =>
      let! p := pure (expect parent) in
      let! _ := charge (EDGE_BASE + EDGE_PER_STEP * zlen proof) in
      match verify proof (ve_id lv) (commitment (pa_id p) lv) (ve_amount lv) (pa_root p) with
      | None => pure (raise SplitProof)
      | Some sum => if bytes_neq sum (pa_amount p) then pure (raise SplitSum) else pret ()
      end
  end.

(** The terminal transfer of a level, decoded again from its projection. *)
Definition terminal (proj : bytes) : kernel Tx :=
  let? p := one proj (per_object usize_max) in
  let? h := array_of 2 p in
  let? l := children (at_ h 1) in
  let? tuple := expect (last l) in
  let? a := array_of 3 tuple in
  transfer (at_ a 0).

(** The split burn of a parent: its manifest root. *)
Definition split_burn (tx : Tx) : kernel bytes :=
  let? (typ, params) := on_error (fun _ => SplitBurn) (predicate (tx_pred tx)) in
  match tx_data tx with
  | Some data =>
      if negb (typ =? 2) then raise SplitBurn else
      let? root := manifest_root data in
      if bytes_neq params (hash data) then raise SplitBurn else Ok root
  | None => raise SplitBurn
  end.

Definition set_part (lv : Verified) (nullifier release_to : bytes) (o : Outcome) : Outcome := {|
  oc_cfg := oc_cfg o; oc_nonce := oc_nonce o; oc_amount := oc_amount o; oc_token_id := oc_token_id o;
  oc_salt := oc_salt o; oc_first_predicate_hash := oc_first_predicate_hash o;
  oc_lock_digest := oc_lock_digest o; oc_release_to := release_to; oc_nullifier := nullifier;
  oc_leaves := oc_leaves o; oc_part_token_id := ve_id lv; oc_part_amount := ve_amount lv;
  oc_depth := oc_depth o |}.

(** The return burn of the part. *)
Definition part_burn (cfg : Cfg) (lv : Verified) (tx : Tx) (out : Outcome) : kernel Outcome :=
  let tmp := {| oc_cfg := oc_cfg default_outcome; oc_nonce := oc_nonce default_outcome;
    oc_amount := ve_amount lv; oc_token_id := oc_token_id default_outcome;
    oc_salt := oc_salt default_outcome;
    oc_first_predicate_hash := oc_first_predicate_hash default_outcome;
    oc_lock_digest := oc_lock_digest default_outcome; oc_release_to := oc_release_to default_outcome;
    oc_nullifier := oc_nullifier default_outcome; oc_leaves := oc_leaves default_outcome;
    oc_part_token_id := oc_part_token_id default_outcome;
    oc_part_amount := oc_part_amount default_outcome; oc_depth := oc_depth default_outcome |} in
  let? tmp := burn cfg tmp tx default_items in
  let nullifier := burn_nullifier (hash (cf_raw cfg)) (ve_last lv) in
  if bool_decide (nullifier = ZERO32) then raise ZeroDigest else
  Ok (set_part lv nullifier (oc_release_to tmp) out).

(** The root's derived fields. *)
Definition set_base (base o : Outcome) : Outcome := {|
  oc_cfg := oc_cfg base; oc_nonce := oc_nonce base; oc_amount := oc_amount base;
  oc_token_id := oc_token_id base; oc_salt := oc_salt base;
  oc_first_predicate_hash := oc_first_predicate_hash base; oc_lock_digest := oc_lock_digest base;
  oc_release_to := oc_release_to o; oc_nullifier := oc_nullifier o; oc_leaves := oc_leaves o;
  oc_part_token_id := oc_part_token_id o; oc_part_amount := oc_part_amount o; oc_depth := oc_depth o |}.

(** [for i in (0..=d).rev()], over the levels from the root to the part. *)
Fixpoint climb (cfg : Cfg) (levels : walked) (parent : option Parent) (seen : list bytes) (out : Outcome)
    : paying Outcome :=
  match levels with
  | [] => pret out
  | (proj, proof) :: levels =>
      let root := match proof with None => true | Some _ => false end in
      let! (lv, seen) := pure (level cfg proj root seen (per_object ITEMS_MAX)) in
      let! _ := edge parent lv proof in
      let! tx := pure (terminal proj) in
      let! (out, split_root) :=
        (match levels with
         | [] => pure (let? out := part_burn cfg lv tx out in Ok (out, ZERO32))
         | _ => pure (let? root := split_burn tx in Ok (out, root))
         end) in
      let out := push_leaves (ve_leaves lv) out in
      let! out :=
        (if root then pure (let? base := expect (ve_base lv) in Ok (set_base base out)) else pret out) in
      climb cfg levels (Some {| pa_id := ve_id lv; pa_amount := ve_amount lv; pa_root := split_root |}) seen out
  end.

Definition set_depth (d : Z) (o : Outcome) : Outcome := {|
  oc_cfg := oc_cfg o; oc_nonce := oc_nonce o; oc_amount := oc_amount o; oc_token_id := oc_token_id o;
  oc_salt := oc_salt o; oc_first_predicate_hash := oc_first_predicate_hash o;
  oc_lock_digest := oc_lock_digest o; oc_release_to := oc_release_to o; oc_nullifier := oc_nullifier o;
  oc_leaves := oc_leaves o; oc_part_token_id := oc_part_token_id o;
  oc_part_amount := oc_part_amount o; oc_depth := d |}.

Definition lineage_relation (cfg_bytes history : bytes) : paying Outcome :=
  let! cfg_item := pure (one cfg_bytes (per_object ITEMS_MAX)) in
  let! _ := pure (check_cfg_network cfg_item) in
  let! cfg := pure (parse_cfg cfg_item) in
  let! _ := pure (decode_history history) in
  let! payload := pure (one history (per_object usize_max)) in
  let! top := pure (array_of 2 payload) in
  let! c := pure (count (at_ top 1) u64_max) in
  if c =? 0 then pure (raise NoTransfers) else
  let! g := pure (array_of 3 (at_ top 0)) in
  let! _ := charge (SPLIT_PER_BYTE * zlen (it_raw (at_ g 0))) in
  let! levels := walk (Datatypes.S (length history)) history in
  let d := zlen levels - 1 in
  climb cfg (rev levels) None [] (set_depth d default_outcome).

End paying.

End proofs.

(** ** The native reader on scanned items *)

Lemma native_array n it :
  scanned it ->
  item_array n it = Some (match array_of n it with Ok a => Ok a | Err _ => Err B1Cbor.Shape end).
Proof.
  intros (t & -> & Hc)%scanned_child_ok. rewrite array_of_view by done. unfold item_array.
  destruct t as [| | |l| | |]; try done. cbn [view it_major it_arg kind arg].
  change (negb (4 =? 4)) with false. cbn [orb]. case_bool_decide as Hl.
  - subst n. unfold zlen. rewrite Z.eqb_refl. cbn [negb].
    destruct Hc as [Hg Hs]. destruct (children_view false false (TArray l) Hg Hs) as [-> _]; [done..|].
    cbn [option_map subtrees]. unfold fill. rewrite take_length_app by (by rewrite length_map). done.
  - rewrite (proj2 (Z.eqb_neq _ _)) by ulia. done.
Qed.

Lemma open_array n it a : scanned it -> open_native nerr (item_array n it) = Ok a -> array_of n it = Ok a.
Proof. intros Hs. rewrite native_array by done. destruct (array_of n it); simpl; [by intros [= <-] | done]. Qed.

Lemma open_array_safe n it : scanned it -> safe (items_ok n) (open_native nerr (item_array n it)).
Proof.
  intros Hs. rewrite native_array by done. pose proof (safe_array_of n it Hs) as Ha. by destruct (array_of n it).
Qed.

Lemma native_children_safe it :
  scanned it -> it_major it = 4 ->
  safe (fun l => Forall scanned l /\ zlen l = it_arg it) (native_children it).
Proof.
  intros Hs H4. destruct (children_validated false false it Hs) as (l & Hl & HF & Hz & _); [lia..|].
  unfold native_children. rewrite Hl. simpl. split; [done | by apply Hz].
Qed.

Lemma native_children_view l : child_ok (TArray l) -> native_children (view (TArray l)) = Ok (map view l).
Proof.
  intros [Hg Hs]. unfold native_children. by destruct (children_view false false _ Hg Hs) as [-> _].
Qed.

Lemma open_tagged_inv n tag it a :
  scanned it -> (0 < n)%nat -> open_native nerr (B1Cbor.tagged n tag it) = Ok a ->
  exists l, it = view (TTag tag (TArray l)) /\ child_ok (TTag tag (TArray l)) /\ length l = n /\ a = map view l.
Proof.
  intros (t & -> & Hc)%scanned_child_ok Hn. unfold B1Cbor.tagged.
  destruct (negb (it_major (view t) =? 6) || negb (it_arg (view t) =? tag)) eqn:Hb; [done|].
  apply orb_false_iff in Hb as [H6%negb_false_iff Ht%negb_false_iff]. apply Z.eqb_eq in H6, Ht.
  destruct t as [| | | | |n' t|]; try discriminate H6. simpl in Ht. subst n'.
  pose proof (child_ok_tag _ _ Hc) as Hct.
  assert (Hi : B1Cbor.item (it_data (view (TTag tag t))) = Ok (view t)).
  { cbn [view it_data payload subtrees encs map concat]. rewrite app_nil_r. eapply item_view, Hct. }
  rewrite Hi, native_array by (by exists t). cbn [option_map open_native read_native].
  rewrite array_of_view by done. destruct t as [| | |l| | |]; try done. case_bool_decide as Hl; [|done].
  cbn [rbind]. destruct l as [|v l]; [simpl in Hl; lia|]. cbn [map]. intros Ho.
  unfold read_native in Ho. apply map_err_ok_inv in Ho. inv_ok Ho. subst a. by exists (v :: l).
Qed.

Lemma open_tagged_safe n tag it :
  scanned it -> safe (items_ok n) (open_native nerr (B1Cbor.tagged n tag it)).
Proof.
  intros Hs. destruct (tagged_validated false false n tag it Hs) as (r & -> & Hr). simpl.
  destruct r as [l|m]; [|done]. by apply Hr.
Qed.

Lemma read_native_safe {A} f (r : result Malformed A) (P : A -> Prop) :
  (forall a, r = Ok a -> P a) -> safe P (read_native f r).
Proof. destruct r; simpl; auto. Qed.

Lemma loose_safe f data : safe (fun r => scanned r.1) (read_native f (one_loose data 0 usize_max)).
Proof.
  apply read_native_safe. intros [it n] Hr. unfold one_loose in Hr. by eapply run_scan_validated in Hr.
Qed.

Lemma loose_inv data it n : one_loose data 0 usize_max = Ok (it, n) -> exists t, it = view t /\ data = enc t /\ child_ok t.
Proof.
  intros (t & Hg & -> & -> & -> & Hc)%run_scan_iff. exists t. split_and!; done.
Qed.

(** ** Lengths: what is inside is shorter *)

Definition raw_len (it : Item) : Z := zlen (it_raw it).

Lemma raw_view t : raw_len (view t) = zlen (enc t).
Proof. done. Qed.

Lemma encs_nth l i : (i < length l)%nat -> zlen (enc (nth i l TNull)) <= zlen (encs l).
Proof.
  revert i. induction l as [|t l IH]; intros [|i] Hi; simpl in Hi; try lia; rewrite encs_cons, zlen_app; cbn [nth].
  - pose proof (zlen_nonneg (encs l)). lia.
  - specialize (IH i ltac:(lia)). pose proof (zlen_nonneg (enc t)). lia.
Qed.

Lemma enc_array_len l : zlen (enc (TArray l)) = zlen (major 4 (zlen l)) + zlen (encs l).
Proof. cbn [enc]. by rewrite zlen_app. Qed.
Lemma enc_tag_len n t : zlen (enc (TTag n t)) = zlen (major 6 n) + zlen (enc t).
Proof. cbn [enc]. by rewrite zlen_app. Qed.
Lemma enc_bytes_len x : zlen x < zlen (enc (TBytes x)).
Proof. cbn [enc]. rewrite zlen_app. pose proof (major_nonempty 2 (zlen x)). lia. Qed.

Lemma array_shorter n it a i :
  scanned it -> array_of n it = Ok a -> (i < n)%nat -> raw_len (at_ a i) < raw_len it.
Proof.
  intros (t & -> & Hc)%scanned_child_ok Ha Hi. apply array_view in Ha as (l & -> & <- & ->); [|done].
  rewrite at_view, !raw_view, enc_array_len by done. pose proof (encs_nth l i Hi). pose proof (major_nonempty 4 (zlen l)). lia.
Qed.

Lemma tagged_shorter n it tag version a i :
  scanned it -> tagged n it tag version = Ok a -> version <= u64_max -> (i < n)%nat -> raw_len (at_ a i) < raw_len it.
Proof.
  intros (t & -> & Hc)%scanned_child_ok Ha Hv Hi. apply tagged_view in Ha as (l & -> & <- & -> & _); [|done|lia|done].
  rewrite at_view, !raw_view, enc_tag_len, enc_array_len by done. pose proof (encs_nth l i Hi).
  pose proof (major_nonempty 4 (zlen l)). pose proof (major_nonempty 6 tag). lia.
Qed.

Lemma blob_shorter it max b : scanned it -> blob it max = Ok b -> zlen b < raw_len it.
Proof. intros (t & -> & _)%scanned_child_ok [-> _]%blob_view. apply enc_bytes_len. Qed.

Section lengths.
Context `{Crypto} `{K256}.

Lemma level_reason_shorter cur j : level_reason cur = Ok j -> zlen j < zlen cur.
Proof.
  unfold level_reason. intros Hr. inv_ok Hr. unfold on_error in Hr. apply map_err_ok_inv in Hr.
  pose proof (per_object_scan _ usize_max _ ltac:(done) Hok) as Hp.
  assert (Hraw : raw_len a = zlen cur) by (apply one_iff in Hok as (t & _ & -> & -> & _); done).
  pose proof (safe_value _ _ _ (safe_array_of 2 a Hp) Hok0) as Ha.
  pose proof (array_shorter _ _ _ 0 Hp Hok0 ltac:(lia)).
  pose proof (at_scanned _ _ 0 Ha ltac:(lia)) as H0s.
  pose proof (safe_value _ _ _ (safe_array_of 3 _ H0s) Hok1) as Hb.
  pose proof (array_shorter _ _ _ 0 H0s Hok1 ltac:(lia)).
  pose proof (at_scanned _ _ 0 Hb ltac:(lia)) as H1s.
  pose proof (safe_value _ _ _ (safe_tagged 8 _ 39041 2 H1s) Hok2) as Hm.
  pose proof (tagged_shorter _ _ _ _ _ 5 H1s Hok2 ltac:(done) ltac:(lia)).
  pose proof (blob_shorter _ _ _ (at_scanned _ _ 5 Hm ltac:(lia)) Hr). lia.
Qed.

Lemma nth_view (l : list tree) i it : nth_error (map view l) i = Some it -> (i < length l)%nat /\ it = view (nth i l TNull).
Proof.
  intros Hn. assert (Hi : (i < length (map view l))%nat) by (apply nth_error_Some; congruence).
  rewrite length_map in Hi. split; [done|]. rewrite nth_error_map in Hn.
  rewrite (nth_error_nth' l TNull Hi) in Hn. by injection Hn as <-.
Qed.

Lemma open_split_shorter j token proof items :
  open_split j = Ok (token, proof, items) -> scanned token /\ raw_len token < zlen j.
Proof.
  unfold open_split, read_native. intros Ho. inv_ok Ho.
  apply map_err_ok_inv in Hok. destruct (loose_inv _ _ _ Hok) as (t & -> & -> & Hc).
  apply map_err_ok_inv in Hok0. destruct (loose_inv _ _ _ Hok0) as (t2 & -> & Hd & Hc2).
  apply orb_false_iff in Heqb as [H6%negb_false_iff _]. apply Z.eqb_eq in H6.
  destruct t as [| | | | |n t|]; try discriminate H6.
  apply orb_false_iff in Heqb0 as [H4%negb_false_iff _]. apply Z.eqb_eq in H4.
  destruct t2 as [| | |l| | |]; try discriminate H4. rewrite native_children_view in Hok1 by done. injection Hok1 as <-.
  unfold expect in Hok2. apply ok_or_inv, nth_view in Hok2 as [Hi ->].
  assert (Hi' : (0 < length l)%nat) by done. subst. split.
  - eexists. split; [done|]. by apply child_ok_nth.
  - rewrite raw_view. cbn [view it_data payload subtrees encs map concat] in Hd. rewrite app_nil_r in Hd.
    rewrite enc_tag_len, Hd, enc_array_len. pose proof (encs_nth l 0 Hi').
    pose proof (major_nonempty 4 (zlen l)). pose proof (major_nonempty 6 n). lia.
Qed.

Lemma item_uint_view t max n : child_ok t -> item_uint (view t) max = Ok n -> t = TUint n /\ is_u64 n.
Proof.
  intros [Hg _]. unfold item_uint. destruct t; cbn; try done. destruct (max <? n0); [done|]. intros [= ->].
  split; [done|]. by apply good_head_ok in Hg as [_ Hg].
Qed.

(** The certification data and reference time of an inclusion are inside it. *)
Lemma inclusion_len it c t :
  scanned it -> inclusion it = Ok (c, t) -> raw_len c + zlen (enc_uint t) + 4 <= raw_len it.
Proof.
  intros Hs Hi. unfold inclusion in Hi. inv_ok Hi.
  destruct (B1Certificate.scan_certificate _) as [?|[?|]]; [|done..]. injection Hi as <- <-.
  apply open_tagged_inv in Hok as (l & -> & Hc & Hl & ->); [|done|lia].
  apply child_ok_tag in Hc. unfold read_native in Hok2. apply map_err_ok_inv in Hok2.
  rewrite at_view in Hok2 by lia. apply item_uint_view in Hok2 as [Ht Hu]; [|by apply child_ok_nth; [|lia]].
  rewrite at_view by lia. rewrite !raw_view, enc_tag_len, enc_array_len, enc_uint_tree, <- Ht by done.
  destruct l as [|v [|d [|u [|q [|w [|? ?]]]]]]; try discriminate Hl. cbn [nth]. rewrite !encs_cons, !zlen_app.
  pose proof (major_nonempty 6 TAG_INCLUSION). pose proof (major_nonempty 4 (zlen [v; d; u; q; w])).
  pose proof (enc_nonempty v). pose proof (enc_nonempty q). pose proof (enc_nonempty w).
  change (zlen (encs [])) with 0. lia.
Qed.

Lemma one_raw data tokens it : one data tokens = Ok it -> it_raw it = data.
Proof. by intros (t & _ & -> & -> & _)%one_iff. Qed.

Lemma enc_array_len3 a b c : zlen (enc_array [a; b; c]) = 1 + zlen a + zlen b + zlen c.
Proof. unfold enc_array. cbn [concat]. rewrite !zlen_app. change (zlen (header 4 (zlen [a; b; c]))) with 1. change (zlen (@nil byte)) with 0. lia. Qed.
Lemma enc_array_len2 a b : zlen (enc_array [a; b]) = 1 + zlen a + zlen b.
Proof. unfold enc_array. cbn [concat]. rewrite !zlen_app. change (zlen (header 4 (zlen [a; b]))) with 1. change (zlen (@nil byte)) with 0. lia. Qed.

(** A pair's item is its two elements and a head. *)
Lemma pair_len it a : scanned it -> array_of 2 it = Ok a -> raw_len it = 1 + raw_len (at_ a 0) + raw_len (at_ a 1).
Proof.
  intros (t & -> & Hc)%scanned_child_ok (l & -> & Hl & ->)%array_view; [|done].
  rewrite !at_view, !raw_view, enc_array_len by lia. destruct l as [|u [|v [|? ?]]]; try discriminate Hl.
  cbn [nth]. rewrite !encs_cons, !zlen_app. change (zlen (encs [])) with 0.
  change (zlen (major 4 (zlen [u; v]))) with 1. lia.
Qed.

Lemma project_transfers_len pairs triples :
  Forall scanned pairs -> project_transfers pairs = Ok triples ->
  length triples = length pairs /\ zlen (concat triples) <= zlen (concat (map it_raw pairs)).
Proof.
  intros HF. revert triples. induction HF as [|p pairs Hp _ IH]; intros triples Ht; cbn [project_transfers] in Ht.
  - injection Ht as <-. done.
  - inv_ok Ht. subst triples. destruct (IH _ Hok3) as [Hlen Hle]. split; [simpl; lia|].
    apply open_array in Hok; [|done]. pose proof (pair_len _ _ Hp Hok) as Hpl.
    pose proof (safe_value _ _ _ (safe_array_of 2 p Hp) Hok) as Ha.
    pose proof (inclusion_len _ _ _ (at_scanned _ _ 1 Ha ltac:(lia)) Hok2) as Hi.
    cbn [concat map]. rewrite !zlen_app, enc_array_len3. unfold raw_len in *. lia.
Qed.

Lemma open_token_len token a :
  scanned token -> open_token token = Ok a ->
  items_ok 3 a /\ raw_len (at_ a 1) + raw_len (at_ a 2) + 3 <= raw_len token.
Proof.
  intros (t & -> & Hc)%scanned_child_ok Ho. unfold open_token, read_native in Ho. inv_ok Ho. subst a1.
  apply negb_false_iff, Z.eqb_eq in Heqb. destruct t as [| | | | |n t|]; try discriminate Heqb.
  apply map_err_ok_inv in Hok. destruct (loose_inv _ _ _ Hok) as (t' & -> & Hd & Hc').
  cbn [view it_data payload subtrees encs map concat] in Hd. rewrite app_nil_r in Hd.
  assert (Hs : scanned (view t')) by (by exists t').
  apply open_array in Hok0; [|done]. split; [exact (safe_value _ _ _ (safe_array_of 3 _ Hs) Hok0)|].
  apply array_view in Hok0 as (l & -> & Hl & ->); [|done].
  rewrite !at_view, !raw_view, enc_tag_len, Hd, enc_array_len by lia.
  destruct l as [|u [|v [|w [|? ?]]]]; try discriminate Hl. cbn [nth]. rewrite !encs_cons, !zlen_app.
  change (zlen (encs [])) with 0. change (zlen (major 4 (zlen [u; v; w]))) with 1.
  pose proof (enc_nonempty u). pose proof (major_nonempty 6 n). lia.
Qed.

Lemma concat_raws l : concat (map it_raw (map view l)) = encs l.
Proof. induction l as [|t l IH]; [done|]. cbn [map concat]. by rewrite IH. Qed.

Lemma project_shorter token proj n : scanned token -> project token = Ok (proj, n) -> zlen proj < raw_len token.
Proof.
  intros Hs Hp. unfold project in Hp. apply rbind_ok_inv in Hp as (a & Ha & Hp).
  destruct (open_token_len _ _ Hs Ha) as [Hok Hlen]. inv_ok Hp. subst proj n.
  apply negb_false_iff, Z.eqb_eq in Heqb.
  pose proof (at_scanned _ _ 1 Hok ltac:(lia)) as Hg. apply open_array in Hok0; [|done].
  pose proof (pair_len _ _ Hg Hok0) as Hgl. pose proof (safe_value _ _ _ (safe_array_of 2 _ Hg) Hok0) as Hga.
  match goal with Hi : inclusion _ = Ok _ |- _ =>
    pose proof (inclusion_len _ _ _ (at_scanned _ _ 1 Hga ltac:(lia)) Hi) as Hil end.
  pose proof (at_scanned _ _ 2 Hok ltac:(lia)) as Hx. apply scanned_child_ok in Hx as (tx & Htx & Hcx).
  rewrite Htx in *. destruct tx as [| | |l| | |]; try discriminate Heqb.
  match goal with Hc : native_children _ = Ok _ |- _ =>
    rewrite native_children_view in Hc by done; injection Hc as <- end.
  match goal with Ht : project_transfers _ = Ok _ |- _ =>
    destruct (project_transfers_len _ _ (views_scanned _ (subtrees_child_ok _ Hcx)) Ht) as [Htl Htc] end.
  rewrite concat_raws in Htc. rewrite enc_array_len2, enc_array_len3. unfold enc_array.
  rewrite zlen_app. destruct Hcx as [Hgx _]. apply good_head_ok in Hgx as [_ Hu]. cbn [snd arg] in Hu.
  match goal with |- context [header 4 (zlen ?x)] => assert (zlen x = zlen l) as -> by (unfold zlen; rewrite Htl, length_map; done) end.
  rewrite header_major by done. rewrite raw_view, enc_array_len in Hlen.
  cbn [subtrees] in Htc. unfold raw_len in *. lia.
Qed.

End lengths.

(** ** The sum of two words *)

Lemma add_carry_spec a b :
  length a = length b ->
  let (out, carry) := add_carry a b in
  length out = length a /\ 0 <= carry <= 1 /\
  be_val out + carry * 256 ^ zlen a = be_val a + be_val b.
Proof.
  assert (Hcons : forall x l, be_val (x :: l) = b2z x * 256 ^ zlen l + be_val l).
  { intros x l. induction l as [|y l IH] using rev_ind; [unfold be_val, zlen; simpl; lia|].
    rewrite app_comm_cons, !be_val_snoc, IH, zlen_app. change (zlen [y]) with 1.
    rewrite Z.pow_add_r by (pose proof (zlen_nonneg l); lia). lia. }
  revert b. induction a as [|x a IH]; intros [|y b] Hl; try discriminate Hl; [done|].
  injection Hl as Hl. cbn [add_carry]. specialize (IH b Hl). destruct (add_carry a b) as [out c].
  destruct IH as (Hlen & Hc & Hv). pose proof (b2z_range x). pose proof (b2z_range y).
  rewrite Z.shiftr_div_pow2 by lia. change (2 ^ 8) with 256.
  set (v := b2z x + b2z y + c) in *.
  assert (Hq : 0 <= v / 256 <= 1) by (split; [apply Z.div_pos; lia | apply Z.lt_succ_r, Z.div_lt_upper_bound; lia]).
  split; [simpl; lia|]. split; [done|].
  rewrite !Hcons, b2z_z2b. assert (zlen out = zlen a) as -> by (unfold zlen; congruence).
  assert (zlen b = zlen a) as -> by (unfold zlen; congruence). rewrite zlen_cons, Z.add_comm with (n := 1) (m := zlen a).
  rewrite Z.pow_add_r by (pose proof (zlen_nonneg a); lia). change (256 ^ 1) with 256.
  pose proof (Z.div_mod v 256 ltac:(lia)) as Hdm. set (P := 256 ^ zlen a) in *. nia.
Qed.

Lemma u256_add_some a b s :
  is_word a -> is_word b -> u256_add a b = Some s -> is_word s /\ be_val s = be_val a + be_val b.
Proof.
  unfold is_word. intros Ha Hb. unfold u256_add. pose proof (add_carry_spec a b ltac:(lia)) as Hs.
  destruct (add_carry a b) as [out c]. destruct Hs as (Hl & _ & Hv).
  destruct (Z.eqb_spec c 0) as [-> |]; [|done]. intros [= <-]. split; [lia|]. lia.
Qed.

(** The addition fails exactly on overflow. *)
Lemma u256_add_none a b :
  is_word a -> is_word b -> u256_add a b = None <-> 2 ^ 256 <= be_val a + be_val b.
Proof.
  unfold is_word. intros Ha Hb. unfold u256_add. pose proof (add_carry_spec a b ltac:(lia)) as Hs.
  destruct (add_carry a b) as [out c]. destruct Hs as (Hl & Hc & Hv).
  pose proof (be_val_range out) as Hr.
  assert (Hz : zlen a = 32 /\ zlen out = 32) by (unfold zlen; lia). destruct Hz as [Hza Hzo]. rewrite Hza in Hv. rewrite Hzo in Hr.
  change (256 ^ 32) with (2 ^ 256) in *. set (P := 2 ^ 256) in *.
  destruct (Z.eqb_spec c 0) as [-> |]; split; try done; [nia|]. intros _. assert (c = 1) as -> by lia. lia.
Qed.

(** ** Merkle sum trees conserve their sums *)

Section conservation.
Context `{Crypto}.

(** A proof read from the root down; [arrange] orders a node's children by the key's bit. *)
Definition arrange (key : bytes) (s : Step) (x : bytes * bytes) : (bytes * bytes) * (bytes * bytes) :=
  if key_bit key (st_depth s) then ((st_hash s, st_sum s), x) else (x, (st_hash s, st_sum s)).

Fixpoint build (key : bytes) (base : bytes * bytes) (path : list Step) : option (bytes * bytes) :=
  match path with
  | [] => Some base
  | s :: path =>
      match build key base path with
      | Some x => node_hash (st_depth s) (arrange key s x).1 (arrange key s x).2
      | None => None
      end
  end.

Lemma build_snoc key base path s :
  build key base (path ++ [s])
  = match node_hash (st_depth s) (arrange key s base).1 (arrange key s base).2 with
    | Some x => build key x path
    | None => None
    end.
Proof.
  induction path as [|s' path IH]; cbn [app build].
  - by destruct (node_hash _ _ _).
  - rewrite IH. by destruct (node_hash _ _ _).
Qed.

Lemma verify_steps_build key prev h sum steps r :
  verify_steps key prev h sum steps = Some r -> build key (h, sum) (rev steps) = Some r.
Proof.
  revert prev h sum. induction steps as [|s steps IH]; intros prev h sum Hv; [done|].
  cbn [verify_steps] in Hv. destruct (prev <=? st_depth s); [done|].
  cbn [rev]. rewrite build_snoc. unfold arrange.
  destruct (key_bit key (st_depth s)); cbn [fst snd]; destruct (node_hash _ _ _) as [[h' sum']|]; try done; by eapply IH.
Qed.

Definition step_ok (s : Step) : Prop := 0 <= st_depth s < 256 /\ is_word (st_hash s) /\ is_word (st_sum s).
Definition pair_ok (x : bytes * bytes) : Prop := is_word x.1 /\ is_word x.2.

(** One output claimed under a manifest root: its proof read from the root down. *)
Record Claim := { cl_key : bytes; cl_data : bytes; cl_value : bytes; cl_path : list Step }.
Definition claim_ok (c : Claim) : Prop :=
  is_word (cl_key c) /\ is_word (cl_data c) /\ is_word (cl_value c) /\ Forall step_ok (cl_path c).

Definition base_of (c : Claim) : bytes * bytes := (leaf_hash (cl_key c) (cl_data c) (cl_value c), cl_value c).
Definition built (c : Claim) : option (bytes * bytes) := build (cl_key c) (base_of c) (cl_path c).
Definition down (c : Claim) : Claim :=
  {| cl_key := cl_key c; cl_data := cl_data c; cl_value := cl_value c; cl_path := tail (cl_path c) |}.

Lemma down_ok c : claim_ok c -> claim_ok (down c).
Proof. intros (? & ? & ? & HF). split_and!; try done. simpl. by destruct HF. Qed.

Lemma arrange_ok key s x : step_ok s -> pair_ok x -> pair_ok (arrange key s x).1 /\ pair_ok (arrange key s x).2.
Proof. intros (_ & ? & ?) ?. unfold arrange. by destruct (key_bit _ _). Qed.

Lemma node_hash_some d l r x :
  pair_ok l -> pair_ok r -> node_hash d l r = Some x ->
  x.1 = hash ([Byte.x11; z2b d] ++ l.1 ++ l.2 ++ r.1 ++ r.2) /\ pair_ok x /\ be_val x.2 = be_val l.2 + be_val r.2.
Proof.
  intros [_ Hl] [_ Hr] Hn. unfold node_hash in Hn. destruct (u256_add l.2 r.2) as [s|] eqn:Hs; [|done].
  injection Hn as <-. apply u256_add_some in Hs as [? ?]; [|done..]. split_and!; try done. split; [apply hash_word | done].
Qed.

Lemma build_ok key base path x :
  Forall step_ok path -> pair_ok base -> build key base path = Some x -> pair_ok x /\ be_val base.2 <= be_val x.2.
Proof.
  intros HF Hb. revert x. induction HF as [|s path Hs _ IH]; intros x; cbn [build]; [intros [= <-]; split; [done|lia]|].
  destruct (build _ _ path) as [y|]; [|done]. intros Hn. destruct (IH y eq_refl) as [Hp Hle].
  destruct (arrange_ok key s y Hs Hp) as [Hl Hr]. apply node_hash_some in Hn as (_ & ? & Hsum); [|done..].
  split; [done|]. rewrite Hsum. unfold arrange. pose proof (be_val_range (st_sum s)). destruct (key_bit _ _); simpl; lia.
Qed.

Lemma built_ok c x : claim_ok c -> built c = Some x -> pair_ok x /\ be_val (cl_value c) <= be_val x.2.
Proof. intros (_ & _ & Hv & HF). apply build_ok; [done|]. split; [apply hash_word | done]. Qed.

(** What a claim's digest is the hash of: a leaf, or an ordered pair of children. *)
Lemma built_inv c x :
  claim_ok c -> built c = Some x ->
  (cl_path c = [] /\ x = base_of c) \/
  exists s y, cl_path c = s :: tail (cl_path c) /\ step_ok s /\ built (down c) = Some y /\ pair_ok y /\
    let lr := arrange (cl_key c) s y in
    x.1 = hash ([Byte.x11; z2b (st_depth s)] ++ lr.1.1 ++ lr.1.2 ++ lr.2.1 ++ lr.2.2) /\
    be_val x.2 = be_val lr.1.2 + be_val lr.2.2.
Proof.
  intros Hok Hb. pose proof Hok as (Hk & Hd & Hv & HF). unfold built in Hb.
  destruct (cl_path c) as [|s path] eqn:Hp; [left; by injection Hb as <-|right].
  cbn [build] in Hb. destruct (build (cl_key c) (base_of c) path) as [y|] eqn:Hy; [|done].
  apply Forall_cons in HF as [Hs _]. exists s, y.
  assert (Hdown : built (down c) = Some y) by (unfold built, down; cbn; by rewrite Hp).
  pose proof (built_ok _ _ (down_ok c Hok) Hdown) as [Hpy _].
  destruct (arrange_ok (cl_key c) s y Hs Hpy) as [? ?].
  apply node_hash_some in Hb as (Hh & _ & Hsum); [|done..]. split_and!; done.
Qed.

Lemma words_inj a b c d a' b' c' d' :
  is_word a -> is_word b -> is_word c -> is_word a' -> is_word b' -> is_word c' ->
  a ++ b ++ c ++ d = a' ++ b' ++ c' ++ d' -> a = a' /\ b = b' /\ c = c' /\ d = d'.
Proof.
  unfold is_word. intros ?????? He. apply app_inj_1 in He as [-> He]; [|congruence].
  apply app_inj_1 in He as [-> He]; [|congruence]. by apply app_inj_1 in He as [-> ->]; [|congruence].
Qed.

(** The byte strings the verification of a claim hashes: its leaf, and one node for every step. *)
Definition leaf_bytes (key data v : bytes) : bytes := [Byte.x10] ++ key ++ data ++ v.
Definition node_bytes (depth : Z) (l r : bytes * bytes) : bytes :=
  [Byte.x11; z2b depth] ++ l.1 ++ l.2 ++ r.1 ++ r.2.
Fixpoint build_inputs (key : bytes) (base : bytes * bytes) (path : list Step) : list bytes :=
  match path with
  | [] => []
  | s :: path =>
      match build key base path with
      | Some x => [node_bytes (st_depth s) (arrange key s x).1 (arrange key s x).2]
      | None => []
      end ++ build_inputs key base path
  end.
Definition claim_inputs (c : Claim) : list bytes :=
  leaf_bytes (cl_key c) (cl_data c) (cl_value c) :: build_inputs (cl_key c) (base_of c) (cl_path c).

(** The same nodes in the order [verify_steps] hashes them. *)
Fixpoint step_inputs (key h sum : bytes) (steps : list Step) : list bytes :=
  match steps with
  | [] => []
  | s :: steps =>
      let lr := arrange key s (h, sum) in
      node_bytes (st_depth s) lr.1 lr.2 ::
      match node_hash (st_depth s) lr.1 lr.2 with
      | Some (h, sum) => step_inputs key h sum steps
      | None => []
      end
  end.

Lemma build_inputs_snoc key base path s x :
  node_hash (st_depth s) (arrange key s base).1 (arrange key s base).2 = Some x ->
  build_inputs key base (path ++ [s])
  = build_inputs key x path ++ [node_bytes (st_depth s) (arrange key s base).1 (arrange key s base).2].
Proof.
  intros Hx. induction path as [|s' path IH]; [done|]. cbn [app build_inputs].
  rewrite IH, build_snoc, Hx. by destruct (build key x path).
Qed.

Lemma verify_steps_inputs key prev h sum steps r :
  verify_steps key prev h sum steps = Some r ->
  build_inputs key (h, sum) (rev steps) = rev (step_inputs key h sum steps).
Proof.
  revert prev h sum. induction steps as [|s steps IH]; intros prev h sum Hv; [done|].
  cbn [verify_steps] in Hv. destruct (prev <=? st_depth s); [done|]. cbn [rev step_inputs]. cbv zeta.
  assert (Hn : exists h' sum', node_hash (st_depth s) (arrange key s (h, sum)).1 (arrange key s (h, sum)).2 = Some (h', sum')
    /\ verify_steps key (st_depth s) h' sum' steps = Some r).
  { unfold arrange. destruct (key_bit key (st_depth s)); cbn [fst snd]; destruct (node_hash _ _ _) as [[h' sum']|]; try done; eauto. }
  destruct Hn as (h' & sum' & Hn & Hv'). rewrite (build_inputs_snoc _ _ _ _ _ Hn), Hn, (IH _ _ _ Hv'). done.
Qed.

Lemma down_inputs c : claim_inputs (down c) ⊆ claim_inputs c.
Proof.
  unfold claim_inputs, down. cbn [cl_key cl_data cl_value cl_path]. change (base_of _) with (base_of c).
  intros x [-> | Hx]%elem_of_cons; [left|right]. destruct (cl_path c); [done|]. cbn [build_inputs tail] in *.
  apply elem_of_app. by right.
Qed.

Lemma leaf_input c : leaf_bytes (cl_key c) (cl_data c) (cl_value c) ∈ claim_inputs c.
Proof. left. Qed.

Lemma node_input c s y :
  cl_path c = s :: tail (cl_path c) -> built (down c) = Some y ->
  node_bytes (st_depth s) (arrange (cl_key c) s y).1 (arrange (cl_key c) s y).2 ∈ claim_inputs c.
Proof.
  unfold built, down, claim_inputs. cbn [cl_key cl_path]. change (base_of _) with (base_of c). intros Hp Hb. rewrite Hp.
  right. cbn [build_inputs]. rewrite Hb. left.
Qed.

(** Two claims under one digest: the same leaf, the same node, or a collision. *)
Lemma same_digest c1 c2 h s1 s2 l :
  claim_inputs c1 ⊆ l -> claim_inputs c2 ⊆ l -> claim_ok c1 -> claim_ok c2 -> built c1 = Some (h, s1) -> built c2 = Some (h, s2) ->
  collision_among sha256 l \/
  (cl_path c1 = [] /\ cl_path c2 = [] /\ cl_key c1 = cl_key c2 /\ cl_data c1 = cl_data c2 /\ cl_value c1 = cl_value c2) \/
  (exists a b y1 y2, cl_path c1 = a :: tail (cl_path c1) /\ cl_path c2 = b :: tail (cl_path c2) /\
    built (down c1) = Some y1 /\ built (down c2) = Some y2 /\
    st_depth a = st_depth b /\ arrange (cl_key c1) a y1 = arrange (cl_key c2) b y2).
Proof.
  intros Hi1 Hi2 H1 H2 Hb1 Hb2. pose proof H1 as (Hk1 & Hd1 & Hv1 & _). pose proof H2 as (Hk2 & Hd2 & Hv2 & _).
  assert (Hmix : forall x y, [Byte.x10] ++ x ∈ l -> [Byte.x11] ++ y ∈ l ->
    hash ([Byte.x10] ++ x) = hash ([Byte.x11] ++ y) -> collision_among sha256 l).
  { intros x y Hx Hy He. by destruct (digest_inj sha256 l _ _ Hx Hy He) as [Hne | Hc]; [discriminate Hne|]. }
  destruct (built_inv _ _ H1 Hb1) as [[Hp1 Hx1] | (a & y1 & Hp1 & Ha & Hy1 & Hpy1 & Hh1 & _)];
  destruct (built_inv _ _ H2 Hb2) as [[Hp2 Hx2] | (b & y2 & Hp2 & Hb & Hy2 & Hpy2 & Hh2 & _)].
  - injection Hx1 as Hx1 _. injection Hx2 as Hx2 _. rewrite Hx1 in Hx2. unfold leaf_hash in Hx2.
    apply (digest_inj _ l) in Hx2 as [He | Hc]; [|by left|apply Hi1, leaf_input|apply Hi2, leaf_input]. right; left.
    injection He as He. rewrite <- (app_nil_r (cl_value c1)), <- (app_nil_r (cl_value c2)) in He.
    apply words_inj in He as (? & ? & ? & _); try done.
  - left. injection Hx1 as Hx1 _. cbn [fst] in Hh2. rewrite Hx1 in Hh2. refine (Hmix _ _ (Hi1 _ (leaf_input c1)) (Hi2 _ (node_input c2 b y2 Hp2 Hy2)) Hh2).
  - left. injection Hx2 as Hx2 _. cbn [fst] in Hh1. rewrite Hx2 in Hh1. refine (Hmix _ _ (Hi2 _ (leaf_input c2)) (Hi1 _ (node_input c1 a y1 Hp1 Hy1)) Hh1).
  - cbn [fst] in Hh1, Hh2. rewrite Hh1 in Hh2. apply (digest_inj _ l) in Hh2 as [He | Hc];
      [|by left|exact (Hi1 _ (node_input c1 a y1 Hp1 Hy1))|exact (Hi2 _ (node_input c2 b y2 Hp2 Hy2))].
    right; right. exists a, b, y1, y2. injection He as Hdepth He.
    destruct (arrange_ok (cl_key c1) a y1 Ha Hpy1) as [[? ?] [? ?]].
    destruct (arrange_ok (cl_key c2) b y2 Hb Hpy2) as [[? ?] [? ?]].
    apply words_inj in He as (? & ? & ? & ?); try done.
    split_and!; try done.
    + apply (f_equal b2z) in Hdepth. rewrite !b2z_z2b_small in Hdepth by (apply Ha || apply Hb). done.
    + destruct (arrange _ a y1) as [[] []], (arrange _ b y2) as [[] []]; cbn [fst snd] in *; congruence.
Qed.

Definition total (cs : list Claim) : Z := sum_z (map (fun c => be_val (cl_value c)) cs).

Lemma or_Forall {A} (C : Prop) (P : A -> Prop) l : Forall (fun x => C \/ P x) l -> C \/ Forall P l.
Proof. induction 1 as [|x l [?|?] _ [?|?]]; try (by left); right; by constructor. Qed.

Lemma total_partition (f : Claim -> bool) cs :
  total cs = total (map down (List.filter f cs)) + total (map down (List.filter (fun c => negb (f c)) cs)).
Proof.
  unfold total, sum_z. induction cs as [|c cs IH]; [done|]. cbn [List.filter]. destruct (f c); cbn [negb map fold_right]; simpl in *; lia.
Qed.

Lemma keys_filter (f : Claim -> bool) cs :
  NoDup (map cl_key cs) -> NoDup (map cl_key (map down (List.filter f cs))).
Proof.
  rewrite map_map. cbn [down cl_key]. induction cs as [|c cs IH]; [done|]. cbn [map List.filter].
  intros [Hn Hnd]%NoDup_cons. destruct (f c); [|by apply IH]. cbn [map]. apply NoDup_cons. split; [|by apply IH].
  intros Hin. apply Hn. clear -Hin. induction cs as [|c' cs IH]; [done|]. cbn [List.filter map] in *.
  destruct (f c'); [|right; by apply IH]. cbn [map] in Hin. apply elem_of_cons in Hin as [-> | Hin]; [left|right; by apply IH].
Qed.

Lemma inputs_filter l (f : Claim -> bool) cs :
  Forall (fun c => claim_inputs c ⊆ l) cs -> Forall (fun c => claim_inputs c ⊆ l) (map down (List.filter f cs)).
Proof.
  induction 1 as [|c cs Hc _ IH]; [constructor|]. cbn [List.filter]. destruct (f c); [|done]. cbn [map].
  constructor; [|done]. etrans; [apply down_inputs | done].
Qed.

(** The claims on one side of a node, a level down. *)
Lemma side_built cs (f : Claim -> bool) n x :
  Forall claim_ok cs -> Forall (fun c => (length (cl_path c) <= S n)%nat) cs ->
  Forall (fun c => f c = true -> built (down c) = Some x) cs ->
  Forall claim_ok (map down (List.filter f cs)) /\
  Forall (fun c => (length (cl_path c) <= n)%nat /\ built c = Some x) (map down (List.filter f cs)).
Proof.
  induction 1 as [|c cs Hc _ IH]; intros HL HF; [by split|].
  apply Forall_cons in HL as [Hlen HL]. apply Forall_cons in HF as [Hf HF].
  cbn [List.filter]. destruct (f c) eqn:Hfc; [|by apply IH]. specialize (IH HL HF) as [? ?]. cbn [map].
  split; constructor; try done; [by apply down_ok|].
  split; [|by apply Hf]. simpl. destruct (cl_path c); simpl in *; lia.
Qed.

(** Where the claims of [cs] stand relative to the node of their common digest. *)
Lemma claims_at_node l c0 cs x a y0 :
  Forall (fun c => claim_inputs c ⊆ l) (c0 :: cs) ->
  Forall claim_ok (c0 :: cs) -> Forall (fun c => built c = Some x) (c0 :: cs) ->
  cl_path c0 = a :: tail (cl_path c0) -> built (down c0) = Some y0 ->
  collision_among sha256 l \/
  Forall (fun c => built (down c) = Some (if key_bit (cl_key c) (st_depth a)
    then (arrange (cl_key c0) a y0).2 else (arrange (cl_key c0) a y0).1)) (c0 :: cs).
Proof.
  intros Hi Hok Hb Hp0 Hy0. apply or_Forall, Forall_forall. intros c Hc. destruct x as [h s].
  rewrite Forall_forall in Hi, Hok, Hb.
  destruct (same_digest c0 c h s s l (Hi _ (list_elem_of_here _ _)) (Hi _ Hc) (Hok _ (list_elem_of_here _ _)) (Hok _ Hc) (Hb _ (list_elem_of_here _ _)) (Hb _ Hc))
    as [? | [(Hn & _) | (a' & b & y1 & y2 & Ha & _ & Hy1 & Hy2 & Hd & He)]]; [by left| |right].
  - rewrite Hp0 in Hn. done.
  - assert (a' = a) as -> by congruence. rewrite Hy1 in Hy0. injection Hy0 as ->. rewrite Hy2, He, Hd.
    unfold arrange. by destruct (key_bit _ _).
Qed.

(** A leaf's digest belongs to one key. *)
Lemma conserve_leaf l c0 cs x :
  Forall (fun c => claim_inputs c ⊆ l) (c0 :: cs) ->
  Forall claim_ok (c0 :: cs) -> NoDup (map cl_key (c0 :: cs)) -> Forall (fun c => built c = Some x) (c0 :: cs) ->
  cl_path c0 = [] -> collision_among sha256 l \/ total (c0 :: cs) <= be_val x.2.
Proof.
  intros [Hi0 His]%Forall_cons [Hok0 Hoks]%Forall_cons Hnd [Hb0 Hbs]%Forall_cons Hp0.
  assert (Hx : x = base_of c0) by (unfold built in Hb0; rewrite Hp0 in Hb0; by injection Hb0 as <-).
  destruct cs as [|c1 cs]; [right; subst x; unfold total, sum_z; simpl; lia|].
  apply Forall_cons in Hoks as [Hok1 _]. apply Forall_cons in Hbs as [Hb1 _]. apply Forall_cons in His as [Hi1 _]. destruct x as [h s].
  destruct (same_digest c0 c1 h s s l Hi0 Hi1 Hok0 Hok1 Hb0 Hb1) as [? | [(_ & _ & Hk & _) | (a & b & y1 & y2 & Ha & _)]]; [by left| |].
  - exfalso. apply NoDup_cons in Hnd as [Hni _]. apply Hni. rewrite Hk. left.
  - rewrite Hp0 in Ha. done.
Qed.

Lemma conserve l n cs x :
  Forall (fun c => claim_inputs c ⊆ l) cs -> Forall claim_ok cs -> NoDup (map cl_key cs) ->
  Forall (fun c => (length (cl_path c) <= n)%nat /\ built c = Some x) cs ->
  collision_among sha256 l \/ total cs <= be_val x.2.
Proof.
  revert cs x. induction n as [|n IH]; intros cs x Hi Hok Hnd [Hlen Hb]%Forall_and;
    (destruct cs as [|c0 cs]; [right; pose proof (be_val_range x.2); unfold total, sum_z; simpl; lia|]);
    pose proof (proj1 (Forall_cons _ _ _) Hok) as [Hok0 Hoks];
    pose proof (proj1 (Forall_cons _ _ _) Hb) as [Hs0 Hbs];
    pose proof (proj1 (Forall_cons _ _ _) Hlen) as [Hl0 _];
    destruct (built_inv _ _ Hok0 Hs0) as [[Hp0 Hx0] | (a & y0 & Hp0 & Ha & Hy0 & Hpy0 & _ & Hsum)];
    try (rewrite Hp0 in Hl0; simpl in Hl0; lia).
  - by eapply conserve_leaf.
  - by eapply conserve_leaf.
  - destruct (claims_at_node l c0 cs x a y0 Hi Hok Hb Hp0 Hy0) as [? | Hside]; [by left|].
    set (lr := arrange (cl_key c0) a y0) in *. set (f := fun c => key_bit (cl_key c) (st_depth a)).
    destruct (side_built (c0 :: cs) f n lr.2 Hok Hlen) as [Hokr Hbr].
    { eapply Forall_impl; [exact Hside|]. cbv beta. intros c Hc Hf. unfold f in Hf. by rewrite Hf in Hc. }
    destruct (side_built (c0 :: cs) (fun c => negb (f c)) n lr.1 Hok Hlen) as [Hokl Hbl].
    { eapply Forall_impl; [exact Hside|]. cbv beta. intros c Hc Hf%negb_true_iff. unfold f in Hf. by rewrite Hf in Hc. }
    destruct (IH _ _ (inputs_filter _ _ _ Hi) Hokr (keys_filter _ _ Hnd) Hbr) as [? | Hr]; [by left|].
    destruct (IH _ _ (inputs_filter _ _ _ Hi) Hokl (keys_filter _ _ Hnd) Hbl) as [? | Hl]; [by left|].
    right. rewrite (total_partition f). cbv zeta in Hsum. fold lr in Hsum. lia.
Qed.

End conservation.

(** ** Nothing panics, and the walk ends *)

Section safety.
Context `{Crypto} `{K256}.

Lemma u256_amount_word b w : u256_amount b = Some w -> is_word w /\ be_val w = be_val b /\ amount_ok b.
Proof.
  unfold u256_amount. destruct b as [|x b]; [done|].
  destruct ((32 <? zlen (x :: b)) || bool_decide (x = Byte.x00)) eqn:Hb; [done|]. intros Hw.
  apply orb_false_iff in Hb as [Hl%Z.ltb_ge Hx%bool_decide_eq_false].
  assert (Ha : right_align (x :: b) = Ok w).
  { unfold right_align. rewrite (proj2 (Z.ltb_ge _ _)) by done. by injection Hw as <-. }
  pose proof (safe_value _ _ _ (right_align_safe _ Hl) Ha) as [? ?]. split_and!; try done. by exists x, b.
Qed.

Lemma scanned_item_uint it max n : scanned it -> item_uint it max = Ok n -> 0 <= n <= max.
Proof.
  intros (t & -> & Hc)%scanned_child_ok Hi. pose proof Hi as Hi'. apply item_uint_view in Hi as [-> Hu]; [|done].
  unfold item_uint in Hi'. cbn in Hi'. destruct (Z.ltb_spec max n); [done|]. ulia.
Qed.

Lemma decode_steps_safe kids prev : Forall scanned kids -> safe (Forall step_ok) (decode_steps kids prev).
Proof.
  intros HF. revert prev. induction HF as [|k kids Hk _ IH]; intros prev; [constructor|]. cbn [decode_steps].
  eapply safe_bind; [by apply open_array_safe|]. intros f Hf.
  eapply (safe_bind (fun n => 0 <= n <= 255)).
  { apply read_native_safe. intros n. apply scanned_item_uint. eauto with b2. }
  intros depth Hd. apply safe_if; [done|]. intros _.
  eapply (safe_bind (fun b => zlen b = 32)).
  { apply read_native_safe. intros b Hb. pose proof (at_scanned _ _ 1 Hf ltac:(lia)) as (t & Ht & _)%scanned_child_ok.
    rewrite Ht in Hb. unfold item_bytes in Hb. destruct t; try discriminate Hb. cbn in Hb.
    destruct (Z.eqb_spec (zlen x) 32); [|done]. by injection Hb as <-. }
  intros b Hb. unfold word_of. rewrite Hb, Z.eqb_refl. cbn [rbind]. apply safe_if; [done|]. intros _.
  eapply (safe_bind is_word); [apply safe_ok_or; by intros w (? & _)%u256_amount_word|]. intros sum Hsum.
  eapply safe_bind; [apply IH|]. intros steps Hsteps. constructor; [|done]. split_and!; simpl; try lia; try done.
  unfold is_word. ulia.
Qed.

Lemma decode_proof_safe it : scanned it -> safe (Forall step_ok) (decode_proof it).
Proof.
  intros Hs. unfold decode_proof. apply safe_if; [done|]. intros H4%negb_false_iff%Z.eqb_eq.
  apply safe_if; [done|]. intros _. eapply safe_bind; [by apply native_children_safe|]. intros kids [HF _].
  by apply decode_steps_safe.
Qed.

Lemma inclusion_safe it : scanned it -> safe (fun r => scanned r.1) (inclusion it).
Proof.
  intros Hs. unfold inclusion. repeat (apply safe_if; [done|]; intros _).
  eapply safe_bind; [by apply open_tagged_safe|]. intros f Hf. safe_go.
  eapply (safe_bind (fun _ => True)); [by apply read_native_safe|]. intros t _. safe_go.
  pose proof (B1Certificate.np_scan_certificate (it_raw (at_ f 4))) as Hnp.
  destruct (B1Certificate.scan_certificate _) as [?|[?|]]; [simpl; eauto with b2|done|by destruct Hnp].
Qed.
#[local] Hint Resolve inclusion_safe : b2.

Lemma open_token_safe token : safe (items_ok 3) (open_token token).
Proof.
  unfold open_token. repeat (apply safe_if; [done|]; intros _).
  eapply safe_bind; [apply loose_safe|]. intros [inner k] Hs. simpl in Hs.
  eapply safe_bind; [by apply open_array_safe|]. intros a Ha.
  eapply (safe_bind (fun _ => True)); [by apply read_native_safe|]. intros v _. by safe_go.
Qed.

Lemma project_transfers_safe pairs : Forall scanned pairs -> safe (fun _ => True) (project_transfers pairs).
Proof.
  induction 1 as [|p pairs Hp _ IH]; [done|]. cbn [project_transfers].
  eapply safe_bind; [by apply open_array_safe|]. intros pr Hpr. safe_go. done.
Qed.

Lemma project_safe token : safe (fun _ => True) (project token).
Proof.
  unfold project. eapply safe_bind; [apply open_token_safe|]. intros a Ha.
  eapply safe_bind; [apply open_array_safe; eauto with b2|]. intros g Hg. safe_go.
  match goal with Hm : negb _ = false |- _ => apply negb_false_iff, Z.eqb_eq in Hm end.
  eapply safe_bind; [apply native_children_safe; eauto with b2|]. intros pairs [HF _].
  eapply safe_bind; [by apply project_transfers_safe|]. done.
Qed.

Lemma level_reason_safe cur : safe (fun _ => True) (level_reason cur).
Proof. unfold level_reason. safe_go. by eapply safe_any, safe_blob. Qed.

Lemma open_split_safe j : safe (fun r => scanned r.1.1 /\ Forall step_ok r.1.2) (open_split j).
Proof.
  unfold open_split. eapply safe_bind; [apply loose_safe|]. intros [sj items] Hsj. simpl in Hsj.
  apply safe_if; [done|]. intros _. eapply safe_bind; [apply loose_safe|]. intros [body k] Hb. simpl in Hb.
  apply safe_if; [done|]. intros [H4%negb_false_iff H2%negb_false_iff]%orb_false_iff. apply Z.eqb_eq in H4, H2.
  eapply safe_bind; [by apply native_children_safe|]. intros kids [HF Hl].
  destruct kids as [|token [|proofs [|? ?]]]; unfold zlen in Hl; simpl in Hl; try lia.
  cbn [nth_error expect ok_or rbind]. apply Forall_cons in HF as [Htok HF]. apply Forall_cons in HF as [Hpr _].
  apply safe_if; [done|]. intros [_ Hp4%negb_false_iff]%orb_false_iff. apply Z.eqb_eq in Hp4.
  apply safe_if; [done|]. intros Hp1%negb_false_iff%Z.eqb_eq.
  eapply safe_bind; [by apply native_children_safe|]. intros l [HFl Hll].
  destruct l as [|p l]; [unfold zlen in Hll; simpl in Hll; lia|]. cbn [nth_error expect ok_or rbind].
  apply Forall_cons in HFl as [Hp _]. eapply safe_bind; [by apply decode_proof_safe|]. by intros proof Hproof.
Qed.

Lemma follow_safe state owner seen l :
  scanned owner -> Forall transfer_ok l -> safe (fun r => Forall leaf_ok r.1) (follow state owner seen l).
Proof.
  intros Ho HF. revert state owner seen Ho. induction HF as [|[[tx c] t] l Hx _ IH]; intros state owner seen Ho; [constructor|].
  cbn [follow]. eapply safe_bind; [by apply spend_safe|]. intros [leaf seen'] Hleaf.
  eapply (safe_bind (fun _ => True)); [destruct l; [done | by apply check_passing_safe]|]. intros _ _.
  eapply safe_bind; [by apply IH|]. intros [leaves seen''] Hl. by constructor.
Qed.

Record verified_ok (root : bool) (lv : Verified) : Prop := {
  vo_id : is_word (ve_id lv);
  vo_amount : is_word (ve_amount lv);
  vo_leaves : Forall leaf_ok (ve_leaves lv);
  vo_base : root = true -> exists o, ve_base lv = Some o /\ outcome_ok o /\ oc_leaves o = [] }.

Lemma decode_mint_words it m :
  scanned it -> decode_mint it = Ok m -> zlen (it_data (at_ (mt_fields m) 3)) = 32 /\ zlen (it_data (at_ (mt_fields m) 4)) = 32.
Proof.
  intros Hs Hd. unfold decode_mint in Hd. inv_ok Hd. subst m. cbn [mt_fields].
  pose proof (safe_value _ _ _ (safe_tagged 8 it 39041 2 Hs) Hok) as Ha.
  pose proof (safe_value _ _ _ (safe_bytes_of _ 32 (at_scanned _ _ 3 Ha ltac:(lia))) Hok2) as (-> & ? & _).
  pose proof (safe_value _ _ _ (safe_bytes_of _ 32 (at_scanned _ _ 4 Ha ltac:(lia))) Hok3) as (-> & ? & _). done.
Qed.

Lemma decode_items_words p max h :
  scanned p -> decode_items p max = Ok h ->
  zlen (it_data (at_ (mt_fields (hi_mint h)) 3)) = 32 /\ zlen (it_data (at_ (mt_fields (hi_mint h)) 4)) = 32.
Proof.
  intros Hs Hd. unfold decode_items in Hd. inv_ok Hd. subst h. cbn [hi_mint].
  pose proof (safe_value _ _ _ (safe_array_of 2 p Hs) Hok) as Ha.
  pose proof (safe_value _ _ _ (safe_array_of 3 _ (at_scanned _ _ 0 Ha ltac:(lia))) Hok0) as Hb.
  eapply decode_mint_words; [|eassumption]. eauto with b2.
Qed.

Lemma verify_mint_data cfg m root tokens r : verify_mint cfg m root tokens = Ok r -> exists d, mt_data m = Some d.
Proof.
  intros Hv. unfold verify_mint in Hv. cbv zeta in Hv. destruct (negb _); [done|].
  apply rbind_ok_inv in Hv as ([typ params] & _ & Hv). destruct (negb _); [done|]. destruct (bytes_neq _ _); [done|].
  apply rbind_ok_inv in Hv as (nonce & _ & Hv). apply rbind_ok_inv in Hv as (d & Hd%ok_or_inv & _). by exists d.
Qed.

Lemma level_safe cfg payload root seen tokens :
  items_cap tokens <= usize_max -> safe (fun r => verified_ok root r.1) (level cfg payload root seen tokens).
Proof.
  intros Hcap. unfold level. eapply safe_bind; [by apply safe_one|]. intros p Hp.
  destruct (decode_items p u64_max) as [h|f] eqn:Hd;
    pose proof (decode_items_safe p u64_max Hp) as Hs; rewrite Hd in Hs; [|by destruct f].
  destruct Hs as [Hm Ht _ _]. cbn [rbind]. apply safe_if; [done|]. intros _. cbv zeta.
  destruct (decode_items_words _ _ _ Hp Hd) as [Hsalt Hty].
  destruct (verify_mint cfg (hi_mint h) root tokens) as [[n amt]|f] eqn:Hv;
    pose proof (verify_mint_safe cfg (hi_mint h) root tokens Hcap Hm) as Hvs; rewrite Hv in Hvs; [|by destruct f].
  destruct Hvs as [Hamt Hroot]. simpl in Hamt, Hroot. destruct (verify_mint_data _ _ _ _ _ Hv) as [data Hdata].
  cbn [rbind].
  eapply (safe_bind (fun r => is_word r.1 /\ (root = true -> exists o, r.2 = Some o /\ outcome_ok o /\ oc_leaves o = []))).
  { destruct n as [n|].
    - eapply safe_bind; [apply derive_safe; eauto with b2|]. intros o (Ho & Hl & _). split; [apply Ho|]. by exists o.
    - split; [apply hash_word|]. intros Hr. by specialize (Hroot Hr). }
  intros [id base] [Hid Hbase]. simpl in Hid, Hbase.
  eapply safe_bind; [by apply align_amount_safe|]. intros w [Hw _].
  eapply safe_bind; [apply mint_step_safe|]. intros [leaf seen1] Hleaf.
  eapply safe_bind; [apply follow_safe; eauto with b2|]. intros [leaves seen2] Hleaves. simpl in Hleaf, Hleaves.
  unfold word_of. rewrite Hsalt, Hty, Z.eqb_refl, Hdata. cbn [rbind expect ok_or].
  constructor; simpl; try done. by constructor.
Qed.

Lemma one_item data tokens it : one data tokens = Ok it -> item data = Ok it.
Proof. unfold one. intros Ho. apply rbind_ok_inv in Ho as ([? s] & _ & Ho). by case_bool_decide. Qed.

(** What a verified level decoded, and the terminal transfer it has. *)
Lemma level_history cfg proj root seen tokens r :
  items_cap tokens <= usize_max -> level cfg proj root seen tokens = Ok r ->
  exists p h, one proj tokens = Ok p /\ scanned p /\ decode_items p u64_max = Ok h /\ hi_count h <> 0 /\
    zlen (hi_transfers h) = hi_count h.
Proof.
  intros Hcap Hl. unfold level in Hl. apply rbind_ok_inv in Hl as (p & Hp & Hl).
  apply rbind_ok_inv in Hl as (h & Hd & Hl). destruct (Z.eqb_spec (hi_count h) 0) as [|Hne]; [done|].
  pose proof (safe_value _ _ _ (safe_one proj tokens Hcap) Hp) as Hs.
  pose proof (safe_value _ _ _ (decode_items_safe p u64_max Hs) Hd) as [_ _ Hn _]. by exists p, h.
Qed.

Lemma last_some {A} (l : list A) : l <> [] -> exists x, last l = Some x /\ x ∈ l.
Proof.
  induction l as [|a l IH]; [done|]. intros _. destruct l as [|b l]; [exists a; split; [done|left]|].
  destruct IH as (x & Hx & Hin); [done|]. exists x. split; [done|by right].
Qed.

Lemma terminal_safe cfg proj root seen tokens r :
  items_cap tokens <= usize_max -> level cfg proj root seen tokens = Ok r -> safe tx_ok (terminal proj).
Proof.
  intros Hcap Hl. destruct (level_history _ _ _ _ _ _ Hcap Hl) as (p & h & Hp & Hs & Hd & Hne & Hn).
  unfold terminal. destruct (one proj (per_object usize_max)) as [p'|f] eqn:Hp'.
  2:{ pose proof (safe_one proj (per_object usize_max) ltac:(done)) as Hx. rewrite Hp' in Hx. by destruct f. }
  apply one_item in Hp, Hp'. assert (p' = p) as -> by congruence. cbn [rbind].
  unfold decode_items in Hd. inv_ok Hd. subst h. rewrite Hok. cbn [rbind hi_count hi_transfers] in *.
  pose proof (safe_value _ _ _ (safe_count _ _) Hok1) as (-> & _ & H4).
  pose proof (safe_value _ _ _ (safe_array_of 2 p Hs) Hok) as Ha.
  pose proof (safe_children _ (at_scanned _ _ 1 Ha ltac:(lia)) H4) as Hc. rewrite Hok5 in *. destruct Hc as [HF Hlen].
  cbn [rbind]. destruct (last_some a5) as (x & -> & Hin); [intros ->; apply Hne; by rewrite <- Hlen|].
  cbn [expect ok_or rbind]. rewrite Forall_forall in HF. specialize (HF x Hin). safe_go. apply transfer_safe. eauto with b2.
Qed.

(** *** Metered programs *)

Section metered.
Context {S : Type} (charge : Z -> S -> kernel () * S).
Hypothesis charge_safe : forall n s, (charge n s).1 <> Err Panicked.

(** Whatever the meter does, the program does not panic and its value satisfies [P]. *)
Definition psafe {A} (P : A -> Prop) (c : paying A) : Prop := forall s : S, safe P (c s).1.

Lemma psafe_pure {A} (P : A -> Prop) r : safe P r -> psafe P (pure r).
Proof. intros Hr s. exact Hr. Qed.
Lemma psafe_bind {A B} (P : A -> Prop) (Q : B -> Prop) c k :
  psafe P c -> (forall a, P a -> psafe Q (k a)) -> psafe Q (pbind c k).
Proof.
  intros Hc Hk s. unfold pbind. specialize (Hc s). destruct (c s) as [[a|[e|]] s']; simpl in *; [by apply Hk | done..].
Qed.
Lemma psafe_call {A B} (P : A -> Prop) (Q : B -> Prop) (r : kernel A) (k : A -> paying B) :
  safe P r -> (forall a, r = Ok a -> P a -> psafe Q (k a)) -> psafe Q (pbind (pure r) k).
Proof. intros Hr Hk s. unfold pbind, pure. destruct r as [a|[e|]]; simpl in *; [by apply Hk | done..]. Qed.
Lemma psafe_charge n : psafe (fun _ => True) (charge n).
Proof. intros s. pose proof (charge_safe n s). by destruct (charge n s) as [[[]|[e|]] s']. Qed.
Lemma psafe_ret {A} (P : A -> Prop) a : P a -> psafe P (pret a).
Proof. by intros Ha s. Qed.
Lemma psafe_raise {A} (P : A -> Prop) e : psafe P (pure (raise e)).
Proof. by intros s. Qed.

(** The levels of a finished walk: proofs on all but the last, which is the root. *)
Definition walked_ok (l : list (bytes * option (list Step))) : Prop :=
  exists ups root, l = ups ++ [(root, None)] /\
    Forall (fun x => exists steps, x.2 = Some steps /\ Forall step_ok steps) ups.

Lemma walk_safe fuel cur : (length cur < fuel)%nat -> psafe walked_ok (walk charge fuel cur).
Proof.
  revert cur. induction fuel as [|fuel IH]; intros cur Hf; [lia|]. cbn [walk].
  eapply psafe_call; [apply level_reason_safe|]. intros j Hj _.
  case_bool_decide; [apply psafe_ret; by exists [], cur|].
  destruct (negb _); [apply psafe_raise|].
  eapply psafe_bind; [apply psafe_charge|]. intros _ _.
  eapply psafe_call; [apply open_split_safe|]. intros [[token proof] items] Ho [Htok Hsteps]. simpl in Htok, Hsteps.
  eapply psafe_bind; [apply psafe_charge|]. intros _ _.
  eapply psafe_call; [apply project_safe|]. intros [proj leaves] Hp _.
  eapply psafe_bind; [apply psafe_charge|]. intros _ _.
  pose proof (level_reason_shorter _ _ Hj). pose proof (open_split_shorter _ _ _ _ Ho) as [_ ?].
  pose proof (project_shorter _ _ _ Htok Hp).
  eapply psafe_bind; [apply IH; unfold zlen, raw_len in *; lia|]. intros rest (ups & root & -> & HF).
  apply psafe_ret. exists ((cur, Some proof) :: ups), root. split; [done|]. constructor; [by exists proof | done].
Qed.

Lemma edge_safe parent root lv proof :
  verified_ok root lv -> (proof <> None -> parent <> None) -> psafe (fun _ => True) (edge charge parent lv proof).
Proof.
  intros Hv Hp. unfold edge. destruct proof as [proof|]; [|by apply psafe_ret].
  destruct parent as [p|]; [|by specialize (Hp ltac:(done))].
  eapply (psafe_call (fun _ => True)); [exact I|]. intros p' _ _. eapply psafe_bind; [apply psafe_charge|]. intros _ _.
  destruct (verify _ _ _ _ _) as [sum|]; [|apply psafe_raise].
  destruct (bytes_neq _ _); [apply psafe_raise | by apply psafe_ret].
Qed.

Lemma split_burn_safe tx : tx_ok tx -> safe (fun _ => True) (split_burn tx).
Proof.
  unfold tx_ok. intros Htx. unfold split_burn. safe_go. destruct (tx_data tx) as [data|]; [|done]. safe_go.
  eapply (safe_bind (fun _ => True)); [|intros; by safe_go].
  unfold manifest_root. safe_go; done.
Qed.

(** An outcome whose fields have the sizes the output encodes. *)
Definition part_ok (o : Outcome) : Prop := outcome_ok o /\ is_word (oc_part_token_id o) /\ is_word (oc_part_amount o).

Lemma part_burn_safe cfg root lv tx out :
  tx_ok tx -> verified_ok root lv -> part_ok out -> safe part_ok (part_burn cfg lv tx out).
Proof.
  intros Htx [Hid Hamt _ _] [[] _]. unfold part_burn. cbv zeta. eapply safe_bind; [by apply burn_safe|].
  intros tmp (to & -> & Hto). apply safe_if; intros _; [done|]. split; [|done]. constructor; simpl; try done. apply hash_word.
Qed.

Lemma set_base_ok base out : outcome_ok base -> part_ok out -> part_ok (set_base base out).
Proof. intros [] [[] [? ?]]. split; [by constructor | done]. Qed.

(** The levels still to climb: the root first when there is no parent, none of them afterwards. *)
Definition climb_ok (parent : option Parent) (levels : list (bytes * option (list Step))) : Prop :=
  match parent with
  | None => exists root ups, levels = (root, None) :: ups /\ Forall (fun x => x.2 <> None) ups
  | Some _ => Forall (fun x => x.2 <> None) levels
  end.

Lemma climb_safe cfg levels parent seen out :
  climb_ok parent levels -> part_ok out -> psafe part_ok (climb charge cfg levels parent seen out).
Proof.
  revert parent seen out. induction levels as [|[proj proof] levels IH]; intros parent seen out Hok Hout; [by apply psafe_ret|].
  cbn [climb]. cbv zeta. eapply psafe_call; [by apply level_safe|]. intros [lv seen'] Hl Hv. simpl in Hv.
  assert (Hshape : (proof <> None -> parent <> None) /\ Forall (fun x => x.2 <> None) levels).
  { destruct parent; simpl in Hok.
    - by apply Forall_cons in Hok as [? ?].
    - destruct Hok as (root & ups & [= <- -> ->] & HF). done. }
  destruct Hshape as [Hpar HF].
  eapply psafe_bind; [by eapply edge_safe|]. intros _ _.
  eapply psafe_call; [eapply terminal_safe; [|exact Hl]; done|]. intros tx _ Htx.
  eapply (psafe_bind (fun r => part_ok r.1)).
  { destruct levels; apply psafe_pure; [|by eapply safe_bind; [by apply split_burn_safe|]].
    eapply safe_bind; [by eapply part_burn_safe|]. done. }
  intros [out' root'] Hout'. simpl in Hout'.
  assert (Hpush : part_ok (push_leaves (ve_leaves lv) out')) by (destruct Hout'; split; [apply push_leaves_ok; [done|apply Hv]|done]).
  eapply (psafe_bind part_ok).
  { destruct proof; [by apply psafe_ret|]. apply psafe_pure. destruct (vo_base _ _ Hv eq_refl) as (o & -> & Ho & _).
    by apply set_base_ok. }
  intros o Ho. by apply IH.
Qed.

Lemma lineage_safe cfg_bytes history : psafe part_ok (lineage_relation charge cfg_bytes history).
Proof.
  unfold lineage_relation. eapply psafe_call; [by apply safe_one|]. intros ci _ Hci.
  eapply psafe_call; [by apply check_cfg_network_safe|]. intros _ _ _.
  eapply psafe_call; [by apply parse_cfg_safe|]. intros cfg _ _.
  eapply (psafe_call (fun _ => True)).
  { unfold decode_history. eapply safe_bind; [by apply safe_one|]. intros p Hp. by safe_go. }
  intros _ _ _. eapply psafe_call; [by apply safe_one|]. intros p _ Hp.
  eapply psafe_call; [by apply safe_array_of|]. intros top _ Htop.
  eapply psafe_call; [apply safe_count|]. intros c _ _. destruct (c =? 0); [apply psafe_raise|].
  eapply psafe_call; [apply safe_array_of; eauto with b2|]. intros g _ _.
  eapply psafe_bind; [apply psafe_charge|]. intros _ _.
  eapply psafe_bind; [apply walk_safe; lia|]. intros levels (ups & root & -> & HF).
  apply climb_safe; [|by split; [constructor|]].
  rewrite rev_app_distr. cbn [rev app climb_ok]. exists root, (rev ups). split; [done|]. apply Forall_rev. eapply Forall_impl; [exact HF|]. by intros x (? & -> & _).
Qed.

End metered.

End safety.

(** ** What an accepted lineage establishes *)

Section soundness.
Context `{Crypto} `{K256}.

(** A verified allocation is at most the sum of its root. *)
Lemma verify_bound proof key data value root sum :
  Forall step_ok proof -> is_word key -> is_word data -> is_word value ->
  verify proof key data value root = Some sum -> be_val value <= be_val sum.
Proof.
  intros HF Hk Hd Hv. unfold verify. destruct (verify_steps _ _ _ _ _) as [[h s]|] eqn:Hs; [|done].
  case_bool_decide; [|done]. intros [= <-]. apply verify_steps_build in Hs.
  set (c := {| cl_key := key; cl_data := data; cl_value := value; cl_path := rev proof |}).
  apply (built_ok c (h, s)); [|exact Hs]. split_and!; try done. simpl. by apply Forall_rev.
Qed.

Lemma follow_sound state owner seen l leaves seen' :
  follow state owner seen l = Ok (leaves, seen') ->
  NoDup (sids leaves) /\ (forall x, x ∈ sids leaves -> x ∉ seen) /\
  (forall x, x ∈ seen' <-> x ∈ sids leaves \/ x ∈ seen) /\ length leaves = length l.
Proof.
  revert state owner seen leaves seen'. induction l as [|[[tx c] t] l IH]; intros state owner seen leaves seen' Hf; cbn [follow] in Hf.
  - injection Hf as <- <-. split_and!; [constructor|by intros x ?%not_elem_of_nil| |done]. intros x. rewrite elem_of_nil. tauto.
  - apply rbind_ok_inv in Hf as ([leaf s1] & (k & _ & _ & Hl & Hn & ->)%spend_iff & Hf).
    apply rbind_ok_inv in Hf as ([] & _ & Hf). apply rbind_ok_inv in Hf as ([ls s2] & Hr & Hf).
    injection Hf as <- <-. apply IH in Hr as (Hnd & Hdis & Hmem & Hlen). cbn [sids map length].
    split_and!; [| | |by rewrite Hlen].
    + apply NoDup_cons. split; [|done]. intros Hin. apply (Hdis _ Hin). left.
    + intros x [-> | Hin]%elem_of_cons; [done|]. intros Hs. apply (Hdis _ Hin). by right.
    + intros x. rewrite Hmem, !elem_of_cons. tauto.
Qed.

(** The states a level spends are new, distinct and remembered; a root's amount and token are the
    ones its mint derived. *)
Record level_spec (cfg : Cfg) (root : bool) (seen : list bytes) (lv : Verified) (seen' : list bytes) : Prop := {
  ls_distinct : NoDup (sids (ve_leaves lv));
  ls_new : forall x, x ∈ sids (ve_leaves lv) -> x ∉ seen;
  ls_seen : forall x, x ∈ seen' <-> x ∈ sids (ve_leaves lv) \/ x ∈ seen;
  ls_last : ve_last lv = last_leaf (ve_leaves lv) /\ ve_leaves lv <> [];
  ls_root : root = true -> exists o, ve_base lv = Some o /\ oc_token_id o = ve_id lv /\ oc_amount o = ve_amount lv /\
    oc_cfg o = hash (cf_raw cfg) }.

Lemma derive_fields cfg n amt p o :
  derive cfg n amt p = Ok o -> right_align amt = Ok (oc_amount o) /\ oc_cfg o = hash (cf_raw cfg) /\ oc_nonce o = n.
Proof.
  unfold derive. destruct (n =? 0); [done|]. intros Hd. apply rbind_ok_inv in Hd as ([typ params] & _ & Hd).
  destruct (negb _); [done|]. apply rbind_ok_inv in Hd as (k & _ & Hd). cbv zeta in Hd.
  case_bool_decide; [done|]. apply rbind_ok_inv in Hd as (w & Hw & Hd). injection Hd as <-. done.
Qed.

Lemma level_sound cfg payload root seen tokens lv seen' :
  items_cap tokens <= usize_max ->
  level cfg payload root seen tokens = Ok (lv, seen') -> level_spec cfg root seen lv seen' /\ verified_ok root lv.
Proof.
  intros Hcap Hl. split; [|exact (safe_value _ _ _ (level_safe cfg payload root seen tokens Hcap) Hl)].
  unfold level in Hl. apply rbind_ok_inv in Hl as (p & Hp & Hl). apply rbind_ok_inv in Hl as (h & Hd & Hl).
  destruct (hi_count h =? 0); [done|]. cbv zeta in Hl.
  pose proof (safe_value _ _ _ (safe_one _ _ Hcap) Hp) as Hps.
  pose proof (safe_value _ _ _ (decode_items_safe _ _ Hps) Hd) as [Hm _ _ _].
  apply rbind_ok_inv in Hl as ([n amt] & Hv & Hl).
  pose proof (safe_value _ _ _ (verify_mint_safe _ _ _ _ Hcap Hm) Hv) as [_ Hroot]. simpl in Hroot.
  apply rbind_ok_inv in Hl as ([id base] & Hb & Hl). apply rbind_ok_inv in Hl as (w & Hw & Hl).
  apply rbind_ok_inv in Hl as ([leaf s1] & (k & _ & _ & _ & Hn & ->)%mint_step_iff & Hl).
  apply rbind_ok_inv in Hl as ([leaves s2] & (Hnd & Hdis & Hmem & _)%follow_sound & Hl). inv_ok Hl. subst lv seen'.
  constructor; cbn [ve_leaves ve_last ve_base ve_id ve_amount sids map].
  - apply NoDup_cons. split; [|done]. intros Hin. apply (Hdis _ Hin). left.
  - intros x [-> | Hin]%elem_of_cons; [done|]. intros Hs. apply (Hdis _ Hin). by right.
  - intros x. rewrite Hmem, !elem_of_cons. tauto.
  - done.
  - intros Hr. destruct n as [n|]; [|by specialize (Hroot Hr)].
    apply rbind_ok_inv in Hb as (o & Ho & Hb). injection Hb as <- <-. exists o.
    destruct (derive_fields _ _ _ _ _ Ho) as (Ha & Hc & _). split_and!; try done. congruence.
Qed.

Lemma pbind_ok_inv {S A B} (c : paying A) (k : A -> paying B) (s : S) b :
  (pbind c k s).1 = Ok b -> exists a s', c s = (Ok a, s') /\ (k a s').1 = Ok b.
Proof. unfold pbind. destruct (c s) as [[a|e] s']; [|done]. by exists a, s'. Qed.

Lemma pure_ok_inv {S A B} (r : kernel A) (k : A -> paying B) (s : S) b :
  (pbind (pure r) k s).1 = Ok b -> exists a, r = Ok a /\ (k a s).1 = Ok b.
Proof. unfold pbind, pure. destruct r as [a|e]; [|done]. by exists a. Qed.

Section climbing.
Context {S : Type} (charge : Z -> S -> kernel () * S).
Context (cfg : Cfg) (Hcfg : cfg_ok cfg).

Lemma edge_sound parent lv proof root s u s' :
  verified_ok root lv -> edge charge parent lv (Some proof) s = (Ok u, s') -> Forall step_ok proof ->
  exists p, parent = Some p /\ be_val (ve_amount lv) <= be_val (pa_amount p).
Proof.
  intros Hv He HF. apply (f_equal fst) in He. unfold edge in He.
  apply pure_ok_inv in He as (p & Hp & He). unfold expect in Hp. apply ok_or_inv in Hp. exists p. split; [done|].
  apply pbind_ok_inv in He as (? & s1 & _ & He). destruct (verify _ _ _ _ _) as [sum|] eqn:Hver; [|done].
  destruct (bytes_neq sum _) eqn:Hn; [done|]. apply bytes_neq_false in Hn as <-.
  eapply verify_bound; [done|apply Hv|apply hash_word|apply Hv|exact Hver].
Qed.

(** The tokens verified so far: distinct states, all remembered, and a last token worth at most
    the root. *)
Definition accounted (parent : option Parent) (seen : list bytes) (out : Outcome) : Prop :=
  NoDup (sids (oc_leaves out)) /\ (forall x, x ∈ seen <-> x ∈ sids (oc_leaves out)) /\
  match parent with
  | None => True
  | Some p => be_val (pa_amount p) <= be_val (oc_amount out) /\ oc_cfg out = hash (cf_raw cfg)
  end.

(** The redemption of a part, whose compact history is [part]. *)
Record part_redeemed (part : bytes) (out : Outcome) : Prop := {
  pr_states : NoDup (sids (oc_leaves out));
  pr_amount : be_val (oc_part_amount out) <= be_val (oc_amount out);
  pr_burn : exists tx, terminal part = Ok tx /\ burns cfg (oc_part_amount out) tx (oc_release_to out);
  pr_nullifier : oc_nullifier out = burn_nullifier (hash (cf_raw cfg)) (last_leaf (oc_leaves out)) /\
    oc_nullifier out <> ZERO32;
  pr_cfg : oc_cfg out = hash (cf_raw cfg) }.

Lemma accounted_push parent seen out root lv seen' p out' :
  accounted parent seen out -> level_spec cfg root seen lv seen' ->
  oc_leaves out' = oc_leaves out ++ ve_leaves lv ->
  be_val (pa_amount p) <= be_val (oc_amount out') -> oc_cfg out' = hash (cf_raw cfg) ->
  accounted (Some p) seen' out'.
Proof.
  intros (Hnd & Hseen & _) [Hd Hn Hs _ _] Hl Hamt Hc. split_and!; try done; rewrite Hl; unfold sids; rewrite map_app.
  - apply NoDup_app. split_and!; try done. intros x Hin Hx. apply (Hn x Hx). by apply Hseen.
  - intros x. rewrite Hs, Hseen, elem_of_app. tauto.
Qed.

Lemma part_burn_sound lv tx out out' :
  tx_ok tx -> part_burn cfg lv tx out = Ok out' ->
  exists to, burns cfg (ve_amount lv) tx to /\ burn_nullifier (hash (cf_raw cfg)) (ve_last lv) <> ZERO32 /\
    out' = set_part lv (burn_nullifier (hash (cf_raw cfg)) (ve_last lv)) to out.
Proof.
  intros Htx Hb. unfold part_burn in Hb. cbv zeta in Hb.
  apply rbind_ok_inv in Hb as (o & (to & Hburn & ->)%burn_iff & Hb); [|done..].
  case_bool_decide as Hz; [done|]. injection Hb as <-. by exists to.
Qed.

Lemma last_leaf_app a l : l <> [] -> last_leaf (a ++ l) = last_leaf l.
Proof.
  intros Hl. unfold last_leaf. induction a as [|x a IH]; [done|]. cbn [app].
  destruct (a ++ l) eqn:He; [by apply app_nil in He as [_ ?]|]. done.
Qed.

Definition climb_shape (parent : option Parent) (levels : list (bytes * option (list Step))) : Prop :=
  let up := fun x : bytes * option (list Step) => exists steps, x.2 = Some steps /\ Forall step_ok steps in
  match parent with
  | None => exists root ups, levels = (root, None) :: ups /\ Forall up ups
  | Some _ => Forall up levels
  end.

Lemma climb_shape_cons parent proj proof levels p :
  climb_shape parent ((proj, proof) :: levels) ->
  (parent = None <-> proof = None) /\ (forall steps, proof = Some steps -> Forall step_ok steps) /\
  climb_shape (Some p) levels.
Proof.
  destruct parent as [q|]; simpl.
  - intros [(steps & Hs & HF) Hl]%Forall_cons. simpl in Hs. subst proof. split; [by split|]. split; [by intros ? [= <-] | done].
  - intros (root & ups & [= -> -> ->] & HF). split; [by split|]. by split.
Qed.

(** The outcome with the root's derived fields, at the root. *)
Definition with_base (proof : option (list Step)) (lv : Verified) (o o2 : Outcome) : Prop :=
  match proof with
  | None => exists base, ve_base lv = Some base /\ o2 = set_base base o
  | Some _ => o2 = o
  end.

Lemma with_base_inv (proof : option (list Step)) lv o (s : S) a s2 :
  (if match proof with Some _ => false | None => true end
   then pure (let? base := expect (ve_base lv) in Ok (set_base base o)) else pret o) s = (Ok a, s2) ->
  with_base proof lv o a.
Proof.
  unfold pure, pret, with_base. destruct proof; [by intros [= <- _]|].
  destruct (ve_base lv) as [base|]; simpl; [|done]. intros [= <- _]. by exists base.
Qed.

Lemma with_base_fields proof lv o o2 :
  with_base proof lv o o2 ->
  oc_part_amount o2 = oc_part_amount o /\ oc_release_to o2 = oc_release_to o /\ oc_depth o2 = oc_depth o /\
  oc_nullifier o2 = oc_nullifier o /\ oc_leaves o2 = oc_leaves o.
Proof. destruct proof; simpl; [by intros -> | by intros (base & _ & ->)]. Qed.

(** The outcome after the leaves and, at the root, the derived fields were added. *)
Lemma level_outcome (proof : option (list Step)) parent lv seen seen' out out1 out2 p s u s' :
  accounted parent seen out -> level_spec cfg (match proof with None => true | Some _ => false end) seen lv seen' ->
  verified_ok (match proof with None => true | Some _ => false end) lv ->
  (parent = None <-> proof = None) -> (forall steps, proof = Some steps -> Forall step_ok steps) ->
  edge charge parent lv proof s = (Ok u, s') ->
  oc_leaves out1 = oc_leaves out /\ oc_amount out1 = oc_amount out /\ oc_cfg out1 = oc_cfg out ->
  with_base proof lv (push_leaves (ve_leaves lv) out1) out2 ->
  pa_amount p = ve_amount lv -> accounted (Some p) seen' out2.
Proof.
  intros Hacc Hspec Hver Hpar Hsteps He (Hl1 & Ha1 & Hc1) Hout Hp.
  destruct proof as [steps|].
  - simpl in Hout; subst out2. destruct (edge_sound _ _ _ _ _ _ _ Hver He (Hsteps _ eq_refl)) as (q & -> & Hle).
    pose proof Hacc as (_ & _ & Hq & Hc).
    eapply accounted_push; try done; simpl; rewrite ?Hl1, ?Ha1, ?Hp; [done|lia|congruence].
  - destruct Hout as (base & Hb & ->). destruct (ls_root _ _ _ _ _ Hspec eq_refl) as (o & Ho & _ & Hao & Hco).
    rewrite Hb in Ho. injection Ho as <-.
    eapply accounted_push; try done; simpl; rewrite ?Hl1, ?Hp, ?Hao; [done|lia].
Qed.

Lemma climb_last proj proof parent lv seen seen' out tx o o2 s u s1 :
  accounted parent seen out -> climb_shape parent [(proj, proof)] ->
  level_spec cfg (match proof with None => true | Some _ => false end) seen lv seen' ->
  verified_ok (match proof with None => true | Some _ => false end) lv ->
  edge charge parent lv proof s = (Ok u, s1) -> terminal proj = Ok tx -> tx_ok tx ->
  part_burn cfg lv tx out = Ok o -> with_base proof lv (push_leaves (ve_leaves lv) o) o2 ->
  part_redeemed proj o2 /\ oc_depth o2 = oc_depth out.
Proof.
  intros Hacc Hsh Hspec Hver He Htx Htok (to & Hburn & Hz & ->)%part_burn_sound Ho2; [|done].
  set (q := {| pa_id := []; pa_amount := ve_amount lv; pa_root := [] |}).
  destruct (climb_shape_cons _ _ _ _ q Hsh) as (Hpar & Hst & _).
  pose proof (level_outcome proof parent lv seen seen' out (set_part lv _ to out) o2 q s u s1 Hacc Hspec Hver Hpar Hst He
    (conj eq_refl (conj eq_refl eq_refl)) Ho2 eq_refl) as (Hnd & _ & Hle & Hcf).
  destruct (ls_last _ _ _ _ _ Hspec) as [Hll Hne].
  apply with_base_fields in Ho2 as (Hpa & Hto & Hdp & Hnf & Hlv). split; [|done]. constructor; try done.
  - by rewrite Hpa.
  - exists tx. rewrite Hpa, Hto. done.
  - rewrite Hnf, Hlv. simpl. rewrite last_leaf_app, <- Hll by done. done.
Qed.

Lemma climb_sound levels parent seen out s out' part proof0 :
  accounted parent seen out -> climb_shape parent levels -> last levels = Some (part, proof0) ->
  (climb charge cfg levels parent seen out s).1 = Ok out' ->
  part_redeemed part out' /\ oc_depth out' = oc_depth out.
Proof.
  revert parent seen out s. induction levels as [|[proj proof] levels IH]; intros parent seen out s Hacc Hsh Hlast Hc; [done|].
  cbn [climb] in Hc. cbv zeta in Hc. apply pure_ok_inv in Hc as ([lv seen'] & Hl & Hc).
  destruct (level_sound _ _ _ _ (per_object ITEMS_MAX) _ _ ltac:(done) Hl) as [Hspec Hver].
  apply pbind_ok_inv in Hc as (u & s1 & He & Hc). apply pure_ok_inv in Hc as (tx & Htx & Hc).
  assert (Htok : tx_ok tx) by (eapply safe_value, Htx; eapply terminal_safe; [|exact Hl]; done).
  apply pbind_ok_inv in Hc as ([o r] & s2 & Ho & Hc). apply pbind_ok_inv in Hc as (o2 & s3 & Ho2%with_base_inv & Hc).
  destruct levels as [|y levels]; apply (f_equal fst) in Ho; simpl in Ho.
  - injection Hlast as <- <-. injection Hc as <-.
    apply rbind_ok_inv in Ho as (o' & Hburn & Ho). injection Ho as -> _. by eapply climb_last.
  - apply rbind_ok_inv in Ho as (r' & _ & Ho). injection Ho as <- <-.
    match type of Hc with (climb _ _ _ (Some ?p) _ _ _).1 = _ => set (q := p) in * end.
    destruct (climb_shape_cons _ _ _ _ q Hsh) as (Hpar & Hst & Hsh').
    pose proof (level_outcome proof parent lv seen seen' out out o2 q s u s1 Hacc Hspec Hver Hpar Hst He
      (conj eq_refl (conj eq_refl eq_refl)) Ho2 eq_refl) as Hacc'.
    destruct (IH _ _ _ _ Hacc' Hsh' Hlast Hc) as [Hpr Hd]. split; [done|]. rewrite Hd.
    by apply with_base_fields in Ho2 as (_ & _ & -> & _).
Qed.

End climbing.

(** The levels of a lineage: the part first, the root last. *)
Lemma walk_ok {S} (charge : Z -> S -> kernel () * S) fuel cur s levels s' :
  walk charge fuel cur s = (Ok levels, s') ->
  walked_ok levels /\ (exists proof rest, levels = (cur, proof) :: rest) /\
  (zlen levels = 1 <-> exists j, level_reason cur = Ok j /\ justification_tag j = Some TAG_LOCK).
Proof.
  revert cur s levels s'. induction fuel as [|fuel IH]; intros cur s levels s' Hw; [done|].
  apply (f_equal fst) in Hw. cbn [walk fst] in Hw. apply pure_ok_inv in Hw as (j & Hj & Hw).
  case_bool_decide as Hlock.
  { injection Hw as <-. split_and!; [by exists [], cur | by exists None, [] |]. split; [|done]. by exists j. }
  destruct (negb _); [done|]. apply pbind_ok_inv in Hw as (? & s1 & _ & Hw).
  apply pure_ok_inv in Hw as ([[token proof] items] & Ho & Hw). apply pbind_ok_inv in Hw as (? & s2 & _ & Hw).
  apply pure_ok_inv in Hw as ([proj leaves] & _ & Hw). apply pbind_ok_inv in Hw as (? & s3 & _ & Hw).
  apply pbind_ok_inv in Hw as (rest & s4 & ((ups & root & -> & HF) & _ & _)%IH & Hw). injection Hw as <-.
  pose proof (safe_value _ _ _ (open_split_safe j) Ho) as [_ Hst].
  split_and!.
  - exists ((cur, Some proof) :: ups), root. split; [done|]. constructor; [by exists proof | done].
  - by exists (Some proof), (ups ++ [(root, None)]).
  - split; [rewrite zlen_cons, zlen_app, zlen_cons, zlen_nil; pose proof (zlen_nonneg ups); lia|].
    intros (j' & Hj' & ?). congruence.
Qed.

(** A token verified as an output of a split: its history verifies, its proof comes from a split
    justification, and its allocation edge to [parent] is accepted. *)
Record output_of {S} (charge : Z -> S -> kernel () * S) (cfg : Cfg) (parent : Parent)
    (c : Verified * list Step) : Prop := {
  op_level : exists payload seen seen', level cfg payload false seen (per_object ITEMS_MAX) = Ok (c.1, seen');
  op_proof : exists j token items, open_split j = Ok (token, c.2, items);
  op_edge : exists s, (edge charge (Some parent) c.1 (Some c.2) s).1 = Ok () }.

Definition allocation (c : Verified * list Step) (parent : Parent) : Claim := {|
  cl_key := ve_id c.1; cl_data := commitment (pa_id parent) c.1; cl_value := ve_amount c.1;
  cl_path := rev c.2 |}.

(** The byte strings the allocation proofs of [outputs] hash. *)
Definition split_inputs (parent : Parent) (outputs : list (Verified * list Step)) : list bytes :=
  concat (map (fun c =>
    let data := commitment (pa_id parent) c.1 in
    leaf_bytes (ve_id c.1) data (ve_amount c.1)
    :: step_inputs (ve_id c.1) (leaf_hash (ve_id c.1) data (ve_amount c.1)) (ve_amount c.1) c.2) outputs).

Lemma split_inputs_in parent outputs c : c ∈ outputs -> split_inputs parent [c] ⊆ split_inputs parent outputs.
Proof.
  intros Hc x Hx. unfold split_inputs in *. cbn [map concat] in Hx. rewrite app_nil_r in Hx.
  apply list_elem_of_In, List.in_concat. eexists. split; [|by apply list_elem_of_In, Hx].
  apply List.in_map_iff. exists c. split; [done | by apply list_elem_of_In].
Qed.

Lemma output_claims {S} (charge : Z -> S -> kernel () * S) cfg parent c :
  output_of charge cfg parent c ->
  claim_ok (allocation c parent) /\ built (allocation c parent) = Some (pa_root parent, pa_amount parent) /\
  claim_inputs (allocation c parent) ⊆ split_inputs parent [c].
Proof.
  intros [(payload & seen & seen' & Hl) (j & token & items & Ho) (s & He)].
  destruct (level_sound _ _ _ _ (per_object ITEMS_MAX) _ _ ltac:(done) Hl) as [_ [Hid Hamt _ _]].
  pose proof (safe_value _ _ _ (open_split_safe j) Ho) as [_ Hst]. simpl in Hst.
  unfold edge in He. apply pure_ok_inv in He as (p & [= <-] & He). apply pbind_ok_inv in He as (? & s1 & _ & He).
  destruct (verify _ _ _ _ _) as [sum|] eqn:Hv; [|done]. destruct (bytes_neq sum _) eqn:Hn; [done|].
  apply bytes_neq_false in Hn as ->. unfold verify in Hv.
  destruct (verify_steps _ _ _ _ _) as [[h sum]|] eqn:Hs; [|done]. case_bool_decide; [|done]. injection Hv as ->. subst h.
  split; [split_and!; try done; [apply hash_word|by apply Forall_rev]|]. split; [by apply verify_steps_build in Hs|].
  unfold split_inputs, claim_inputs, base_of. cbn [map concat allocation cl_key cl_data cl_value cl_path].
  rewrite app_nil_r, (verify_steps_inputs _ _ _ _ _ _ Hs). intros b [-> | Hb]%elem_of_cons; [left|right].
  by rewrite list_elem_of_In, <- List.in_rev, <- list_elem_of_In in Hb.
Qed.

(** C27: A split creates no value.  Whatever set of tokens with different identifiers is accepted as
    outputs of one parent under its manifest root, their amounts add up to at most the parent's
    amount; otherwise two different byte strings among those the verification of these very proofs
    hashes have the same digest. *)
Theorem split_conserves {S} (charge : Z -> S -> kernel () * S) cfg parent outputs :
  Forall (output_of charge cfg parent) outputs -> NoDup (map (fun c => ve_id c.1) outputs) ->
  collision_among sha256 (split_inputs parent outputs) \/
  sum_z (map (fun c => be_val (ve_amount c.1)) outputs) <= be_val (pa_amount parent).
Proof.
  intros HF Hnd. set (claims := map (fun c => allocation c parent) outputs).
  destruct (conserve (split_inputs parent outputs) (list_max (map (fun c => length (cl_path c)) claims)) claims
    (pa_root parent, pa_amount parent)) as [Hc | Ht]; [| | | |by left|right].
  - apply Forall_map, Forall_forall. intros c Hc. rewrite Forall_forall in HF.
    apply HF in Hc as Ho. apply output_claims in Ho as (_ & _ & Hi). etrans; [exact Hi|]. by apply split_inputs_in.
  - apply Forall_map. eapply Forall_impl; [exact HF|]. intros c Hc. by eapply output_claims.
  - unfold claims. by rewrite map_map.
  - pose proof (proj1 (list_max_le (map (fun c => length (cl_path c)) claims) _) (Nat.le_refl _)) as Hmax.
    apply Forall_map in Hmax. apply Forall_and. split; [exact Hmax|].
    apply Forall_map. eapply Forall_impl; [exact HF|]. intros c Hc. by eapply output_claims.
  - unfold total, claims in Ht. by rewrite map_map in Ht.
Qed.

(** [climb] over the levels of a lineage, in the order it takes them. *)
Lemma climb_walked {S} (charge : Z -> S -> kernel () * S) cfg cur proof rest d s out :
  cfg_ok cfg -> walked_ok ((cur, proof) :: rest) ->
  (climb charge cfg (rev ((cur, proof) :: rest)) None [] (set_depth d default_outcome) s).1 = Ok out ->
  part_redeemed cfg cur out /\ oc_depth out = d.
Proof.
  intros Hc (ups & root & Hl & HF) Hr. eapply (climb_sound charge cfg Hc _ None) in Hr; [done| | |].
  - split_and!; [constructor|done|done].
  - exists root, (rev ups). rewrite Hl, rev_app_distr. split; [done|]. by apply Forall_rev.
  - cbn [rev]. by rewrite last_snoc.
Qed.

(** C9: An accepted lineage redeems a part of what was locked.  Whatever the caller's meter, if the
    lineage relation accepts a history then the configuration parses and: no state is spent twice
    anywhere in the lineage, the root token and every split parent included; the part is worth at
    most the amount locked; the last transfer of the redeemed history is a return burn of exactly
    the part's amount, for the released recipient; the nullifier is the configuration's burn
    nullifier of the last leaf and is not zero; and the depth counts the splits. *)
Theorem lineage_conserves {S} (charge : Z -> S -> kernel () * S) cfg_bytes history s out :
  (lineage_relation charge cfg_bytes history s).1 = Ok out ->
  0 <= oc_depth out /\
  exists ci cfg, one cfg_bytes (per_object ITEMS_MAX) = Ok ci /\ parse_cfg ci = Ok cfg /\
    part_redeemed cfg history out.
Proof.
  intros Hr. unfold lineage_relation in Hr. apply pure_ok_inv in Hr as (ci & Hci & Hr).
  apply pure_ok_inv in Hr as (? & _ & Hr). apply pure_ok_inv in Hr as (cfg & Hcfg & Hr).
  apply pure_ok_inv in Hr as (? & _ & Hr). apply pure_ok_inv in Hr as (payload & _ & Hr).
  apply pure_ok_inv in Hr as (top & _ & Hr). apply pure_ok_inv in Hr as (c & _ & Hr).
  destruct (c =? 0); [done|]. apply pure_ok_inv in Hr as (g & _ & Hr).
  apply pbind_ok_inv in Hr as (? & s1 & _ & Hr). apply pbind_ok_inv in Hr as (levels & s2 & Hw & Hr).
  apply walk_ok in Hw as (Hsh & (proof & rest & ->) & _).
  assert (Hc : cfg_ok cfg) by (eapply parse_cfg_ok, Hcfg; by eapply (per_object_scan _ ITEMS_MAX)).
  apply climb_walked in Hr as [Hpr ->]; [|done..].
  split; [rewrite zlen_cons; pose proof (zlen_nonneg rest); lia|]. by exists ci, cfg.
Qed.

(** C29: The relation always finishes, without a panic.  The walk down the splits needs no more
    rounds than the history has bytes, so with a meter that only takes or refuses payments no
    history, however deep its splits, makes the relation diverge, panic or index out of range. *)
Theorem lineage_total {S} (charge : Z -> S -> kernel () * S) cfg_bytes history s :
  (forall n s, (charge n s).1 <> Err Panicked) ->
  (lineage_relation charge cfg_bytes history s).1 <> Err Panicked.
Proof. intros Hch He. pose proof (lineage_safe charge Hch cfg_bytes history s) as Hs. by rewrite He in Hs. Qed.

End soundness.

(** ** A lineage of depth zero *)

Section depth0.
Context `{Crypto} `{K256}.

Lemma get_range_shift (b : byte) d len : 0 <= len -> get_range (b :: d) 1 (1 + len) = get_range d 0 len.
Proof.
  intros Hl. unfold get_range. rewrite zlen_cons.
  assert ((0 <=? 1) && (1 <=? 1 + len) && (1 + len <=? 1 + zlen d) = (0 <=? 0) && (0 <=? len) && (len <=? zlen d)) as -> by lia.
  destruct (_ && _); [|done]. do 2 f_equal. lia.
Qed.

Lemma justification_tag_head j n rest : head j = Ok ((6, n), rest) -> justification_tag j = Some n.
Proof.
  destruct j as [|b d]; [done|]. unfold head, justification_tag. cbv zeta.
  destruct (Z.leb_spec (Z.land (b2z b) 31) 23).
  { intros [= -> -> _]. done. }
  destruct (Z.leb_spec (Z.land (b2z b) 31) 27); [|destruct (_ <=? 30); done]. intros Hh.
  apply rbind_ok_inv in Hh as (x & Hx%ok_or_inv & Hh). destruct (_ <? _); [done|]. injection Hh as -> <- _.
  rewrite get_range_shift, Hx by (apply Z.shiftl_nonneg; lia). done.
Qed.

Lemma justification_lock cfg j tokens n : justification cfg j tokens = Ok n -> items_cap tokens <= usize_max ->
  justification_tag j = Some TAG_LOCK.
Proof.
  intros Hj Hcap. unfold justification in Hj. destruct (_ <? _); [done|].
  apply rbind_ok_inv in Hj as (l & Hl & _). unfold on_error in Hl. apply map_err_ok_inv in Hl.
  apply rbind_ok_inv in Hl as (it & (t & [Hg _] & -> & -> & Hsz)%one_iff & Hl).
  apply tagged_view in Hl as (l' & -> & _); [|split; [done|lia]|lia|done].
  eapply justification_tag_head. apply head_iff. split; [reflexivity|].
  exact (good_head_ok _ _ _ _ Hg).
Qed.

(** The last transfer of a decoded history. *)
Definition last_tx (l : list (Tx * Cd * Z)) : option Tx := option_map (fun x => x.1.1) (last l).

Lemma decode_transfers_last tuples l :
  decode_transfers tuples = Ok l ->
  match last tuples with
  | Some tuple => exists a tx, array_of 3 tuple = Ok a /\ transfer (at_ a 0) = Ok tx /\ last_tx l = Some tx
  | None => l = []
  end.
Proof.
  revert l. induction tuples as [|tuple tuples IH]; intros l Hd; cbn [decode_transfers] in Hd; [by injection Hd as <-|].
  apply rbind_ok_inv in Hd as (a & Ha & Hd). apply rbind_ok_inv in Hd as (tx & Htx & Hd).
  apply rbind_ok_inv in Hd as (c & _ & Hd). apply rbind_ok_inv in Hd as (t & _ & Hd).
  apply rbind_ok_inv in Hd as (l' & Hl' & Hd). injection Hd as <-. specialize (IH _ Hl').
  destruct tuples as [|tuple' tuples].
  - injection Hl' as <-. cbn [last]. exists a, tx. split_and!; try done. unfold transfer_strict in Htx.
    apply rbind_ok_inv in Htx as (tx' & Htx & Hs). apply rbind_ok_inv in Hs as (? & _ & [= ->]). done.
  - change (last (tuple :: tuple' :: tuples)) with (last (tuple' :: tuples)).
    destruct (last (tuple' :: tuples)) as [x|] eqn:Hx.
    + destruct IH as (a' & tx' & ? & ? & Hlt). exists a', tx'. split_and!; try done.
      destruct l' as [|y l']; done.
    + by apply last_None in Hx.
Qed.

Lemma terminal_last proj p h :
  one proj (per_object usize_max) = Ok p -> decode_items p u64_max = Ok h -> hi_transfers h <> [] ->
  exists tx, terminal proj = Ok tx /\ last_tx (hi_transfers h) = Some tx.
Proof.
  intros Hp Hd Hne. unfold terminal. rewrite Hp. cbn [rbind]. unfold decode_items in Hd. inv_ok Hd. subst h.
  cbn [hi_transfers] in *. rewrite Hok. cbn [rbind]. rewrite Hok5. cbn [rbind].
  apply decode_transfers_last in Hok6. destruct (last a5) as [tuple|]; [|done].
  destruct Hok6 as (a' & tx & Ha & Htx & Hl). cbn [expect ok_or rbind]. rewrite Ha. cbn [rbind]. by exists tx.
Qed.

(** Following the transfers and burning at the end is custody. *)
Lemma follow_custody cfg amt state owner seen l leaves seen' tx to :
  l <> [] -> last_tx l = Some tx ->
  follow state owner seen l = Ok (leaves, seen') -> burns cfg amt tx to ->
  custody cfg amt state owner l leaves to.
Proof.
  revert state owner seen leaves seen'. induction l as [|[[tx' c] t] l IH]; intros state owner seen leaves seen' Hl Hlast Hf Hb; [done|].
  cbn [follow] in Hf. apply rbind_ok_inv in Hf as ([leaf s1] & (k & Hk & Hc & -> & _ & ->)%spend_iff & Hf).
  apply rbind_ok_inv in Hf as ([] & Hp & Hf). apply rbind_ok_inv in Hf as ([ls s2] & Hr & Hf). injection Hf as <- <-.
  destruct l as [|y l].
  - injection Hlast as <-. injection Hr as <- <-. by eapply custody_burn.
  - apply check_passing_iff in Hp. eapply custody_pass; try done. by eapply IH.
Qed.

Lemma custody_follow cfg amt state owner seen l leaves to :
  custody cfg amt state owner l leaves to -> NoDup (sids leaves) -> (forall x, x ∈ sids leaves -> x ∉ seen) ->
  (exists seen', follow state owner seen l = Ok (leaves, seen')) /\ exists tx, last_tx l = Some tx /\ burns cfg amt tx to.
Proof.
  intros Hcu. revert seen.
  induction Hcu as [state owner tx c t k to Hk Hc Hb | state owner tx c t k l leaves to Hk Hc Hp Hcu IH];
    intros seen Hnd Hdis; cbn [follow];
    (erewrite (proj2 (spend_iff _ _ _ _ _ _ _ _));
      [|exists k; split_and!; [done|done|reflexivity|apply Hdis; left|reflexivity]]); cbn [rbind].
  - split; [by eexists | by exists tx].
  - pose proof (custody_nonempty _ _ _ _ _ _ _ Hcu) as (_ & Hl & _). apply NoDup_cons in Hnd as [Hni Hnd].
    destruct (IH (lf_sid (leaf_of (it_raw owner) state (tx_raw tx) t) :: seen) Hnd) as [[seen' Hf] (tx' & Hlt & Hb)].
    { intros x Hin [-> | Hs]%elem_of_cons; [done|]. eapply Hdis; [|done]. by right. }
    destruct l as [|y l]; [done|]. rewrite (proj2 (check_passing_iff tx)) by done. cbn [rbind]. rewrite Hf. cbn [rbind].
    split; [by eexists|]. by exists tx'.
Qed.

Lemma one_grow data a b it : a <= b -> one data (per_object a) = Ok it -> one data (per_object b) = Ok it.
Proof.
  intros Hab (t & Hs & Hd & Hv & Hc)%one_iff. apply one_iff. exists t. split_and!; try done. simpl in *. lia.
Qed.

(** A root token as [level] returns it. *)
Definition root_level (h : History) (base : Outcome) (leaf : Leaf) (leaves : list Leaf) : Verified :=
  let m := mt_fields (hi_mint h) in
  {| ve_last := last_leaf (leaf :: leaves); ve_id := oc_token_id base; ve_amount := oc_amount base;
     ve_base := Some base; ve_leaves := leaf :: leaves; ve_network := it_arg (at_ m 1);
     ve_recipient := it_raw (at_ m 2); ve_salt := it_data (at_ m 3); ve_ty := it_data (at_ m 4);
     ve_data := default [] (mt_data (hi_mint h)) |}.

Lemma level_root_iff cfg history tokens lv seen' :
  cfg_ok cfg -> 32 <= items_cap tokens <= usize_max ->
  level cfg history true [] tokens = Ok (lv, seen') <->
  exists p h base leaf leaves, one history tokens = Ok p /\ decode_items p u64_max = Ok h /\
    hi_transfers h <> [] /\ minted cfg tokens h base leaf /\
    follow (first_state base) (first_owner h) [lf_sid leaf] (hi_transfers h) = Ok (leaves, seen') /\
    lv = root_level h base leaf leaves.
Proof.
  intros Hok Hcap. unfold level. split.
  - intros Hl. apply rbind_ok_inv in Hl as (p & Hp & Hl). apply rbind_ok_inv in Hl as (h & Hh & Hl).
    assert (Hs : scanned p) by (eapply safe_value, Hp; apply safe_one; lia).
    destruct (safe_value _ _ _ (decode_items_safe p u64_max Hs) Hh) as [_ _ Hcount _].
    destruct (Z.eqb_spec (hi_count h) 0) as [|Hne]; [done|]. cbv zeta in Hl.
    apply rbind_ok_inv in Hl as ([n amt] & (n' & -> & Hroot)%verify_root_iff & Hl); [|done..].
    apply rbind_ok_inv in Hl as ([id base'] & Hb & Hl). apply rbind_ok_inv in Hb as (base & Hb & [= <- <-]).
    apply rbind_ok_inv in Hl as (w & Hw & Hl). pose proof (derive_fields _ _ _ _ _ Hb) as [Ha _].
    rewrite Hw in Ha. injection Ha as ->.
    apply rbind_ok_inv in Hl as ([leaf s1] & (k & Hk & Hc & Hlf & _ & ->)%mint_step_iff & Hl).
    apply rbind_ok_inv in Hl as ([leaves s2] & Hf & Hl). inv_ok Hl. subst lv s2.
    unfold word_of in Hok0, Hok1. destruct (_ =? 32); [|done]. injection Hok0 as <-.
    destruct (_ =? 32); [|done]. injection Hok1 as <-. unfold expect in Hok2. apply ok_or_inv in Hok2.
    exists p, h, base, leaf, leaves. split_and!; try done.
    + intros Hnil. apply Hne. by rewrite <- Hcount, Hnil.
    + by exists n', amt, k.
    + unfold root_level. by rewrite Hok2.
  - intros (p & h & base & leaf & leaves & Hp & Hh & Hne & (n & amt & k & Hroot & Hb & Hk & Hc & Hlf) & Hf & ->).
    assert (Hs : scanned p) by (eapply safe_value, Hp; apply safe_one; lia).
    destruct (safe_value _ _ _ (decode_items_safe p u64_max Hs) Hh) as [_ _ Hcount _].
    rewrite Hp. cbn [rbind]. rewrite Hh. cbn [rbind]. rewrite (proj2 (Z.eqb_neq (hi_count h) 0)).
    2:{ rewrite <- Hcount. by intros ?%zlen_nil_inv. }
    cbv zeta. rewrite (proj2 (verify_root_iff cfg tokens _ (Some n) amt Hok Hcap)) by (by exists n).
    cbn [rbind]. rewrite Hb. cbn [rbind]. rewrite (proj1 (derive_fields _ _ _ _ _ Hb)). cbn [rbind].
    rewrite (proj2 (mint_step_iff (oc_token_id base) h [] leaf [lf_sid leaf])).
    2:{ exists k. split_and!; try done. apply not_elem_of_nil. }
    cbn [rbind]. unfold first_state, first_owner in Hf. rewrite Hf. cbn [rbind].
    destruct (decode_items_words _ _ _ Hs Hh) as [Hw3 Hw4]. unfold word_of. rewrite Hw3, Hw4. cbn [Z.eqb rbind].
    destruct Hroot as (_ & _ & _ & _ & _ & Hd & _). unfold root_level. rewrite Hd. done.
Qed.

(** The verification of a lineage that is the part alone. *)
Lemma climb_single {S} (charge : Z -> S -> kernel () * S) cfg history out0 s out' :
  (climb charge cfg [(history, None)] None [] out0 s).1 = Ok out' <->
  exists lv seen' tx o base, level cfg history true [] (per_object ITEMS_MAX) = Ok (lv, seen') /\
    terminal history = Ok tx /\ part_burn cfg lv tx out0 = Ok o /\ ve_base lv = Some base /\
    out' = set_base base (push_leaves (ve_leaves lv) o).
Proof.
  cbn [climb]. cbv zeta. split.
  - intros Hc. apply pure_ok_inv in Hc as ([lv seen'] & Hl & Hc). apply pbind_ok_inv in Hc as (? & s1 & _ & Hc).
    apply pure_ok_inv in Hc as (tx & Htx & Hc). apply pure_ok_inv in Hc as ([o r] & Ho & Hc).
    apply rbind_ok_inv in Ho as (o' & Hb & [= -> _]). apply pure_ok_inv in Hc as (o2 & Ho2 & [= <-]).
    apply rbind_ok_inv in Ho2 as (base & Hbase & [= <-]). unfold expect in Hbase. apply ok_or_inv in Hbase.
    by exists lv, seen', tx, o, base.
  - intros (lv & seen' & tx & o & base & Hl & Htx & Hb & Hbase & ->). unfold pbind, pure, edge, pret.
    rewrite Hl, Htx, Hb. cbn [rbind]. rewrite Hbase. done.
Qed.

(** The fields a lineage adds to a redemption: the part is the whole token. *)
Definition as_part (o : Outcome) : Outcome := {|
  oc_cfg := oc_cfg o; oc_nonce := oc_nonce o; oc_amount := oc_amount o; oc_token_id := oc_token_id o;
  oc_salt := oc_salt o; oc_first_predicate_hash := oc_first_predicate_hash o;
  oc_lock_digest := oc_lock_digest o; oc_release_to := oc_release_to o; oc_nullifier := oc_nullifier o;
  oc_leaves := oc_leaves o; oc_part_token_id := oc_token_id o; oc_part_amount := oc_amount o;
  oc_depth := oc_depth o |}.

Lemma derive_rest cfg n amt p o : derive cfg n amt p = Ok o -> oc_leaves o = [] /\ oc_depth o = 0.
Proof.
  unfold derive. destruct (n =? 0); [done|]. intros Hd. apply rbind_ok_inv in Hd as ([typ params] & _ & Hd).
  destruct (negb _); [done|]. apply rbind_ok_inv in Hd as (k & _ & Hd). cbv zeta in Hd.
  case_bool_decide; [done|]. apply rbind_ok_inv in Hd as (w & _ & [= <-]). done.
Qed.

Lemma part_outcome cfg h base leaf leaves to n amt p :
  derive cfg n amt p = Ok base -> leaves <> [] ->
  set_base base (push_leaves (leaf :: leaves)
    (set_part (root_level h base leaf leaves) (burn_nullifier (hash (cf_raw cfg)) (last_leaf (leaf :: leaves))) to
      (set_depth 0 default_outcome))) = as_part (redeemed (push_leaves [leaf] base) leaves to).
Proof.
  intros Hd Hne. pose proof (derive_fields _ _ _ _ _ Hd) as (_ & Hc & _). destruct (derive_rest _ _ _ _ _ Hd) as [Hl Hdp].
  rewrite redeemed_push by done. unfold as_part, redeemed, set_base, set_part, push_leaves. simpl.
  by rewrite Hc, Hl, Hdp.
Qed.

Lemma part_burn_iff cfg lv tx out out' :
  cfg_ok cfg -> tx_ok tx ->
  part_burn cfg lv tx out = Ok out' <->
  exists to, burns cfg (ve_amount lv) tx to /\ burn_nullifier (hash (cf_raw cfg)) (ve_last lv) <> ZERO32 /\
    out' = set_part lv (burn_nullifier (hash (cf_raw cfg)) (ve_last lv)) to out.
Proof.
  intros Hcfg Htx. split; [by apply part_burn_sound|]. intros (to & Hb & Hz & ->). unfold part_burn. cbv zeta.
  rewrite (proj2 (burn_iff _ _ _ default_items _ Hcfg Htx ltac:(done))) by (by exists to). cbn [rbind].
  by rewrite bool_decide_false.
Qed.

(** [climb] on the part alone, against the redemption of the undivided token. *)
Lemma climb_redeems {S} (charge : Z -> S -> kernel () * S) cfg history s out :
  cfg_ok cfg ->
  (climb charge cfg [(history, None)] None [] (set_depth 0 default_outcome) s).1 = Ok out <->
  exists pi h base leaf leaves to, one history (per_object ITEMS_MAX) = Ok pi /\ decode_items pi u64_max = Ok h /\
    minted cfg (per_object ITEMS_MAX) h base leaf /\
    custody cfg (oc_amount base) (first_state base) (first_owner h) (hi_transfers h) leaves to /\
    NoDup (sids (leaf :: leaves)) /\ burn_nullifier (oc_cfg base) (last_leaf leaves) <> ZERO32 /\
    out = as_part (redeemed (push_leaves [leaf] base) leaves to).
Proof.
  intros Hcfg. rewrite climb_single. split.
  - intros (lv & seen' & tx & o & base & Hl & Htx & Hb & Hbase & ->).
    assert (Htok : tx_ok tx) by (eapply safe_value, Htx; eapply terminal_safe; [|exact Hl]; done).
    apply level_root_iff in Hl as (pi & h & base' & leaf & leaves & Hpi & Hh & Hne & Hm & Hf & ->); [|done..].
    injection Hbase as ->. apply part_burn_iff in Hb as (to & Hburn & Hz & ->); [|done..].
    destruct (terminal_last history pi h (one_grow _ ITEMS_MAX usize_max _ ltac:(done) Hpi) Hh Hne) as (tx' & Htx' & Hlast).
    rewrite Htx in Htx'. injection Htx' as <-.
    pose proof (follow_custody _ _ _ _ _ _ _ _ _ _ Hne Hlast Hf Hburn) as Hcu.
    apply follow_sound in Hf as (Hnd & Hdis & _). pose proof (custody_nonempty _ _ _ _ _ _ _ Hcu) as (_ & _ & Hlne).
    pose proof Hm as (n & amt & k & _ & Hd & _). pose proof (derive_fields _ _ _ _ _ Hd) as (_ & Hc & _).
    exists pi, h, base, leaf, leaves, to. split_and!; try done.
    + apply NoDup_cons. split; [|done]. intros Hin. apply (Hdis _ Hin). by left.
    + rewrite Hc, <- (last_leaf_cons leaf) by done. exact Hz.
    + by eapply part_outcome.
  - intros (pi & h & base & leaf & leaves & to & Hpi & Hh & Hm & Hcu & Hnd & Hz & ->).
    apply NoDup_cons in Hnd as [Hni Hnd]. pose proof (custody_nonempty _ _ _ _ _ _ _ Hcu) as (_ & Hne & Hlne).
    destruct (custody_follow _ _ _ _ [lf_sid leaf] _ _ _ Hcu Hnd) as [[seen' Hf] (tx & Hlast & Hburn)].
    { by intros x Hin ->%list_elem_of_singleton. }
    destruct (terminal_last history pi h (one_grow _ ITEMS_MAX usize_max _ ltac:(done) Hpi) Hh Hne) as (tx' & Htx & Hlast').
    rewrite Hlast in Hlast'. injection Hlast' as <-.
    assert (Hl : level cfg history true [] (per_object ITEMS_MAX) = Ok (root_level h base leaf leaves, seen'))
      by (apply level_root_iff; [done..|]; by exists pi, h, base, leaf, leaves).
    assert (Htok : tx_ok tx) by (eapply safe_value, Htx; eapply terminal_safe; [|exact Hl]; done).
    pose proof Hm as (n & amt & k & _ & Hd & _). pose proof (derive_fields _ _ _ _ _ Hd) as (_ & Hc & _).
    eexists _, seen', tx, _, base. split_and!; [exact Hl|done| |done|symmetry; by eapply part_outcome].
    apply part_burn_iff; [done..|]. exists to. split_and!; [done| |done]. simpl.
    rewrite last_leaf_cons, <- Hc by done. done.
Qed.

Lemma reason_of history pi h j :
  one history (per_object usize_max) = Ok pi -> decode_items pi u64_max = Ok h ->
  mt_justification (hi_mint h) = Some j -> level_reason history = Ok j.
Proof.
  intros Hpi Hh Hj. unfold decode_items in Hh. inv_ok Hh. subst h. cbn [hi_mint] in Hj.
  unfold level_reason. rewrite Hpi. cbn [rbind]. rewrite Hok. cbn [rbind]. rewrite Hok0. cbn [rbind].
  unfold decode_mint in Hok2. inv_ok Hok2. subst. rewrite Hok7. cbn [rbind mt_justification] in *.
  unfold nullable in Hok12. destruct (null _); [congruence|]. inv_ok Hok12. subst.
  unfold IN_PAYLOAD in *. rewrite Hok2. cbn. congruence.
Qed.

(** A meter that takes every payment. *)
Definition unmetered (_ : Z) (s : ()) : kernel () * () := (Ok (), s).

Lemma walked_alone cur proof rest : walked_ok ((cur, proof) :: rest) -> zlen ((cur, proof) :: rest) = 1 ->
  (cur, proof) :: rest = [(cur, None)].
Proof.
  intros (ups & root & Hl & _) Hz. rewrite zlen_cons in Hz. assert (rest = []) as -> by (apply zlen_nil_inv; lia).
  destruct ups as [|y ups]; [by injection Hl as -> -> | by destruct ups].
Qed.

(** The relation up to the levels. *)
Lemma lineage_opens cfg_bytes history out :
  (lineage_relation unmetered cfg_bytes history tt).1 = Ok out <->
  exists ci cfg pi h levels s, one cfg_bytes (per_object ITEMS_MAX) = Ok ci /\ parse_cfg ci = Ok cfg /\
    one history (per_object usize_max) = Ok pi /\ decode_items pi u64_max = Ok h /\ hi_transfers h <> [] /\
    walk unmetered (Datatypes.S (length history)) history tt = (Ok levels, s) /\
    (climb unmetered cfg (rev levels) None [] (set_depth (zlen levels - 1) default_outcome) s).1 = Ok out.
Proof.
  unfold lineage_relation. split.
  - intros Hr. apply pure_ok_inv in Hr as (ci & Hci & Hr). apply pure_ok_inv in Hr as (? & _ & Hr).
    apply pure_ok_inv in Hr as (cfg & Hcfg & Hr). apply pure_ok_inv in Hr as (? & Hh & Hr).
    apply pure_ok_inv in Hr as (pi & Hpi & Hr). unfold decode_history in Hh. rewrite Hpi in Hh. cbn [rbind] in Hh.
    apply rbind_ok_inv in Hh as (h & Hh & _). pose proof (per_object_scan _ usize_max _ ltac:(done) Hpi) as Hs.
    destruct (safe_value _ _ _ (decode_items_safe pi u64_max Hs) Hh) as [_ _ Hcount _].
    pose proof Hh as Hd. unfold decode_items in Hd. apply rbind_ok_inv in Hd as (top & Htop & Hd).
    apply rbind_ok_inv in Hd as (g & Hg & Hd). apply rbind_ok_inv in Hd as (c & Hc & Hd).
    apply pure_ok_inv in Hr as (top' & Htop' & Hr). rewrite Htop in Htop'. injection Htop' as <-.
    apply pure_ok_inv in Hr as (c' & Hc' & Hr). rewrite Hc in Hc'. injection Hc' as <-.
    destruct (Z.eqb_spec c 0) as [|Hne]; [done|]. apply pure_ok_inv in Hr as (? & _ & Hr).
    apply pbind_ok_inv in Hr as (? & s1 & _ & Hr). apply pbind_ok_inv in Hr as (levels & s2 & Hw & Hr).
    destruct s1. exists ci, cfg, pi, h, levels, s2. split_and!; try done. inv_ok Hd. subst h.
    cbn [hi_transfers hi_count] in *. intros ->. by apply Hne.
  - intros (ci & cfg & pi & h & levels & s & Hci & Hcfg & Hpi & Hh & Hne & Hw & Hc). unfold pbind, pure, decode_history.
    rewrite Hci, (parse_cfg_network ci cfg), Hcfg, Hpi by done. cbn [rbind]. rewrite Hh. cbn [rbind].
    pose proof (per_object_scan _ usize_max _ ltac:(done) Hpi) as Hs.
    destruct (safe_value _ _ _ (decode_items_safe pi u64_max Hs) Hh) as [_ _ Hcount _].
    unfold decode_items in Hh. inv_ok Hh. subst h. cbn [hi_transfers hi_count] in *.
    rewrite Hok, Hok1, (proj2 (Z.eqb_neq _ 0)) by (rewrite <- Hcount; by intros ?%zlen_nil_inv).
    rewrite Hok0. cbn [unmetered]. rewrite Hw. exact Hc.
Qed.

(** C32: A lineage without splits is the redemption of the undivided token.  The lineage relation
    accepts with depth zero exactly the histories the redemption accepts whose items are within the
    ceiling the verification of a level scans them with, and returns the redemption's outcome with
    the whole token as the part. *)
Theorem lineage_depth0 cfg_bytes history out :
  (lineage_relation unmetered cfg_bytes history tt).1 = Ok out /\ oc_depth out = 0 <->
  exists o it, relation 2 cfg_bytes history (fun _ => Ok ()) = Ok o /\
    one history (per_object ITEMS_MAX) = Ok it /\ out = as_part o.
Proof.
  rewrite lineage_opens. split.
  - intros [(ci & cfg & pi & h & levels & s & Hci & Hcfg & Hpi & Hh & Hne & Hw & Hc) Hd].
    assert (Hcok : cfg_ok cfg) by (eapply parse_cfg_ok, Hcfg; by eapply (per_object_scan _ ITEMS_MAX)).
    apply walk_ok in Hw as (Hshape & (proof & rest & ->) & _).
    pose proof (climb_walked _ _ _ _ _ _ _ _ Hcok Hshape Hc) as [_ Hdp].
    rewrite (walked_alone _ _ _ Hshape) in Hc by lia. apply climb_redeems in Hc as (pi' & h' & base & leaf & leaves & to & Hpi' & Hh' & Hrest); [|done].
    pose proof (one_grow _ ITEMS_MAX usize_max _ ltac:(done) Hpi') as Hg. rewrite Hpi in Hg. injection Hg as <-.
    rewrite Hh in Hh'. injection Hh' as <-. destruct Hrest as (Hm & Hcu & Hnd & Hz & ->).
    exists (redeemed (push_leaves [leaf] base) leaves to), pi. split_and!; [|exact Hpi'|reflexivity].
    apply redemption_iff. exists ci, pi, cfg, h, base, leaf, leaves, to. split_and!; assumption || reflexivity.
  - intros (o & it & (ci & pi & cfg & h & base & leaf & leaves & to & Hci & Hpi & Hcfg & Hh & Hm & Hcu & Hnd & Hz & ->)%redemption_iff & Hit & ->).
    pose proof (one_grow _ ITEMS_MAX usize_max _ ltac:(done) Hit) as Hg. rewrite Hpi in Hg. injection Hg as <-.
    assert (Hcok : cfg_ok cfg) by (eapply parse_cfg_ok, Hcfg; by eapply (per_object_scan _ ITEMS_MAX)).
    pose proof Hm as (n & amt & k & (_ & _ & _ & _ & (j & Hj & Hn) & _) & Hd & _).
    split; [|simpl; by eapply derive_rest].
    exists ci, cfg, pi, h, [(history, None)], tt. split_and!; [exact Hci|exact Hcfg|exact Hpi|exact Hh|by eapply custody_nonempty| |].
    + cbn [walk]. unfold pbind, pure. rewrite (reason_of _ _ _ _ Hpi Hh Hj).
      by rewrite bool_decide_true by (by eapply (justification_lock _ _ (per_object ITEMS_MAX))).
    + apply climb_redeems; [done|]. by exists pi, h, base, leaf, leaves, to.
Qed.

End depth0.

End B2Lineage.
