(* ===== verification/B2Samples.v ===== *)
(** A concrete token, split once, for the statements about lineages.

    [toy_k256] is a runnable instance of the curve: a key is its 33 bytes and a signature recovers to
    its own first 33 bytes.  The root token of one hundred units is minted, burned into a manifest of
    two outputs of sixty and forty units, and each output is returned by its owner.  The witnesses of
    the lineage's statements are evaluated on it. *)
From S2P Require Import Prelude Crypto B1Cbor B1Membership B1Certificate B2Cbor B2Semantics B2Lineage.
Import B1Cbor B2Cbor B2Semantics B2Lineage.

Module B2Samples.

Definition toy_k256 : K256 := {|
  VerifyingKey := bytes;
  verifying_key_eq_decision := _;
  from_sec1_bytes := fun raw => if zlen raw =? 33 then Some raw else None;
  to_encoded_point := fun k => k;
  signing_key := fun secret => Some (Byte.x02 :: secret);
  signature_ok := fun sig => zlen sig =? 64;
  high_s := fun _ => false;
  recovery_id_ok := fun _ => true;
  recover_from_prehash := fun msg sig rid => Some (take 33 sig);
  verify_prehash := fun k msg sig => bool_decide (take 33 sig = k) |}.

(** A cheaper checksum than [toy_hash], for the many hashes of a lineage. *)
Definition small_hash (x : bytes) : bytes :=
  be_bytes 32 (fold_left (fun h b => Z.land (h * 31 + b2z b + 1) 65535) x 7).

Lemma small_hash_word x : is_word (small_hash x).
Proof. apply be_bytes_length. Qed.

Definition small_crypto : Crypto := {|
  sha256 := small_hash;
  keccak256 := small_hash;
  PublicKey := bytes;
  public_key_eq_decision := _;
  public_key_from_slice := fun raw => if zlen raw =? 33 then Some raw else None;
  compact_ok := fun raw id => zlen raw =? 64;
  low_s := fun _ => true;
  recover_ecdsa := fun digest raw id => Some (take 33 raw);
  sha256_word := small_hash_word;
  keccak256_word := small_hash_word |}.

#[local] Existing Instances small_crypto toy_k256.

Definition word (n : Z) : bytes := be_bytes 32 n.
Definition network : Z := 3.
Definition chain : Z := 5.
Definition vault : bytes := replicate 20 Byte.x77.
Definition recipient : bytes := replicate 20 Byte.x44.
Definition id_string : bytes := identity network (word 1) (word 2) chain.

Definition cfg_bytes : bytes :=
  enc (TArray [TBytes CFG_DOMAIN; TUint network; TBytes (word 1); TUint chain; TBytes (word 2); TUint 7;
    TBytes [Byte.x80]; TBytes vault; TBytes ZERO20; TBytes (type_id id_string); TBytes (asset_id id_string);
    TBytes (word 3); TBytes vault; TBytes (word 4); TBytes (word 5); TBytes (word 6)]).
Definition cfg : Cfg := {|
  cf_raw := cfg_bytes; cf_network := network; cf_chain := chain; cf_vault := vault;
  cf_ty := type_id id_string; cf_aid := asset_id id_string |}.

(** Keys, their predicates and what they sign. *)
Definition key_of (n : Z) : bytes := Byte.x02 :: word n.
Definition pred_of (k : bytes) : tree := pred_tree 1 k.
Definition signed (k : bytes) : bytes := k ++ replicate 32 Byte.x00.

Definition cd_tree (k source raw : bytes) : tree :=
  TTag 39031 (TArray [TUint 2; pred_of k; TBytes source; TBytes (hash raw); TNull; TBytes (signed k)]).
Definition mint_tree (owner salt just : bytes) (amt : Z) : tree :=
  TTag 39041 (TArray [TUint 2; TUint network; pred_of owner; TBytes salt; TBytes (cf_ty cfg); TBytes just;
    TBytes (enc (mint_data_tree (cf_aid cfg) [z2b amt])); TNull]).
Definition burn_tree (data : bytes) : tree :=
  TTag 39045 (TArray [TUint 2; pred_tree 2 (hash data); TBytes (word 8); TBytes data; TNull]).

Definition minter (id : bytes) : bytes :=
  Byte.x02 :: hash_array [enc_bytes (ascii "I_AM_UNIVERSAL_MINTER_FOR_"); enc_bytes id].

(** A token minted for [owner] and burned with [data] by its owner: the mint, its certification, the
    burn and its certification. *)
Definition token (owner id salt just : bytes) (amt : Z) (data : bytes) : (tree * tree) * (tree * tree) :=
  let mint := mint_tree owner salt just amt in
  let burn := burn_tree data in
  ((mint, cd_tree (minter id) (mint_source id) (enc mint)),
   (burn, cd_tree owner (output_state (mint_source id) id) (enc burn))).

Definition compact (t : (tree * tree) * (tree * tree)) : bytes :=
  enc (TArray [TArray [t.1.1; t.1.2; TUint 10]; TArray [TArray [t.2.1; t.2.2; TUint 20]]]).

Definition uc : tree :=
  TTag 39001 (TArray [TUint 1; B1Certificate.sample_ir; TBytes (word 31); TBytes (word 32);
    B1Certificate.sample_sc; B1Certificate.sample_tc;
    TTag 39005 (TArray [TUint 1; TUint network; TUint 100; TUint 3; TUint 1700000000;
      TBytes (word 41); TBytes (word 42); TMap B1Certificate.sample_sigs])]).

Definition included (c : tree) (t : Z) : tree :=
  TTag 39033 (TArray [TUint 1; c; TUint t; TBytes ZERO32; uc]).
Definition complete (t : (tree * tree) * (tree * tree)) : tree :=
  TTag 39040 (TArray [TUint 2; TArray [t.1.1; included t.1.2 10]; TArray [TArray [t.2.1; included t.2.2 20]]]).

(** The two outputs of the split, before their justifications are known. *)
Record Output := { ou_owner : bytes; ou_salt : bytes; ou_amount : Z }.
Definition ou_id (o : Output) : bytes := child_id (ou_salt o) network.
Definition output1 : Output := {| ou_owner := key_of 21; ou_salt := word 31; ou_amount := 60 |}.
Definition output2 : Output := {| ou_owner := key_of 22; ou_salt := word 32; ou_amount := 40 |}.

Definition root_salt : bytes := mint_salt (hash cfg_bytes) 1.
Definition root_id : bytes := hash_array [enc_bytes root_salt; enc_uint network].

Definition ou_commitment (o : Output) : bytes :=
  commitment root_id {| ve_last := no_leaf; ve_id := ou_id o; ve_amount := []; ve_base := None; ve_leaves := [];
    ve_network := network; ve_recipient := enc (pred_of (ou_owner o)); ve_salt := ou_salt o; ve_ty := cf_ty cfg;
    ve_data := enc (mint_data_tree (cf_aid cfg) [z2b (ou_amount o)]) |}.
Definition ou_leaf (o : Output) : bytes * bytes :=
  (leaf_hash (ou_id o) (ou_commitment o) (word (ou_amount o)), word (ou_amount o)).

(** The deepest bit in which the identifiers differ, and the one node above them. *)
Definition fork : Z :=
  fold_left (fun d i => if Bool.eqb (key_bit (ou_id output1) i) (key_bit (ou_id output2) i) then d else i)
    (map Z.of_nat (seq 0 256)) 0.
Definition manifest : bytes :=
  match (if key_bit (ou_id output1) fork then node_hash fork (ou_leaf output2) (ou_leaf output1)
         else node_hash fork (ou_leaf output1) (ou_leaf output2)) with
  | Some (h, _) => h
  | None => ZERO32
  end.

Definition lock_tree : tree :=
  TTag 39049 (TArray [TUint 2; TUint chain; TBytes vault; TBytes ZERO20; TUint 1;
    TArray [TUint 1; TBytes (hash cfg_bytes); TBytes (word 9); TBytes [Byte.x01]; TBytes [Byte.x01];
      TBytes [Byte.x01]; TArray [TBytes [Byte.x01]]; TArray [TBytes [Byte.x01]]]]).
Definition root_token : (tree * tree) * (tree * tree) :=
  token (key_of 20) root_id root_salt (enc lock_tree) 100 (enc (TTag TAG_MANIFEST (TArray [TBytes manifest]))).

Definition split_tree (other : Output) : tree :=
  TTag TAG_SPLIT (TArray [complete root_token;
    TArray [TArray [TArray [TUint fork; TBytes (ou_leaf other).1; TBytes [z2b (ou_amount other)]]]]]).
Definition child_token (o other : Output) : (tree * tree) * (tree * tree) :=
  token (ou_owner o) (ou_id o) (ou_salt o) (enc (split_tree other)) (ou_amount o)
    (enc (return_tree cfg [z2b (ou_amount o)] recipient)).

Definition part1 : bytes := compact (child_token output1 output2).
Definition part2 : bytes := compact (child_token output2 output1).

(** ** The split part, redeemed *)

Definition unwrap {A} (d : A) (r : kernel A) : A := match r with Ok a => a | Err _ => d end.
Definition is_ok {A} (r : kernel A) : bool := match r with Ok _ => true | Err _ => false end.

Lemma unwrap_ok {A} (d : A) r : is_ok r = true -> r = Ok (unwrap d r).
Proof. by destruct r. Qed.

Definition outcome1 : Outcome := unwrap default_outcome (lineage_relation unmetered cfg_bytes part1 tt).1.

Lemma part1_accepted : (lineage_relation unmetered cfg_bytes part1 tt).1 = Ok outcome1.
Proof. apply unwrap_ok. vm_compute. reflexivity. Qed.

Lemma lineage_conserves_witness :
  0 <= oc_depth outcome1 /\
  exists ci cfg, one cfg_bytes (per_object ITEMS_MAX) = Ok ci /\ parse_cfg ci = Ok cfg /\
    part_redeemed cfg part1 outcome1.
Proof. exact (lineage_conserves unmetered cfg_bytes part1 tt outcome1 part1_accepted). Defined.

Lemma lineage_total_witness : (lineage_relation unmetered cfg_bytes part1 tt).1 <> Err Panicked.
Proof. apply (lineage_total unmetered cfg_bytes part1 tt). discriminate. Defined.

(** ** The two outputs of the split *)

Definition no_verified : Verified := {|
  ve_last := no_leaf; ve_id := []; ve_amount := []; ve_base := None; ve_leaves := []; ve_network := 0;
  ve_recipient := []; ve_salt := []; ve_ty := []; ve_data := [] |}.
Definition no_item : Item := view TNull.

Definition verified (part : bytes) : Verified * list bytes :=
  unwrap (no_verified, []) (level cfg part false [] (per_object ITEMS_MAX)).
Definition opened (other : Output) : Item * list Step * Z :=
  unwrap (no_item, [], 0) (open_split (enc (split_tree other))).
Definition split_parent : Parent :=
  {| pa_id := root_id; pa_amount := word 100; pa_root := manifest |}.

Definition outputs : list (Verified * list Step) :=
  [((verified part1).1, (opened output2).1.2); ((verified part2).1, (opened output1).1.2)].

Lemma verified_accepted part :
  is_ok (level cfg part false [] (per_object ITEMS_MAX)) = true ->
  level cfg part false [] (per_object ITEMS_MAX) = Ok ((verified part).1, (verified part).2).
Proof. unfold verified. by destruct (level _ _ _ _ _) as [[]|]. Qed.

Lemma opened_accepted other :
  is_ok (open_split (enc (split_tree other))) = true ->
  open_split (enc (split_tree other)) = Ok ((opened other).1.1, (opened other).1.2, (opened other).2).
Proof. unfold opened. by destruct (open_split _) as [[[]]|]. Qed.

Lemma output_accepted parent lv steps payload seen' j token items :
  level cfg payload false [] (per_object ITEMS_MAX) = Ok (lv, seen') ->
  open_split j = Ok (token, steps, items) -> (edge unmetered (Some parent) lv (Some steps) tt).1 = Ok () ->
  output_of unmetered cfg parent (lv, steps).
Proof. intros Hl Ho He. constructor; [by eexists _, _, _ | by eexists _, _, _ | by exists tt]. Qed.

Lemma outputs_ok : Forall (output_of unmetered cfg split_parent) outputs.
Proof.
  repeat apply List.Forall_cons; [| |apply List.Forall_nil];
    (eapply output_accepted; [apply verified_accepted | apply opened_accepted |]; vm_compute; reflexivity).
Qed.

Lemma outputs_distinct : NoDup (map (fun c => ve_id c.1) outputs).
Proof. apply (bool_decide_unpack _). vm_compute. done. Qed.

Lemma outputs_distinct_digests : bool_decide (collision_among sha256 (split_inputs split_parent outputs)) = false.
Proof. vm_compute. reflexivity. Qed.

Lemma split_conserves_witness :
  sum_z (map (fun c => be_val (ve_amount c.1)) outputs) <= be_val (pa_amount split_parent).
Proof.
  destruct (split_conserves unmetered cfg split_parent outputs outputs_ok outputs_distinct) as [Hc | Hs]; [|exact Hs].
  exfalso. exact (bool_decide_eq_false_1 _ outputs_distinct_digests Hc).
Defined.

End B2Samples.
