(* ===== verification/BridgeAbi.v ===== *)
(** The strict ABI of the bridge composition, [bridge/src/abi.rs]: the call input and the proof
    envelope, a structure of offsets into one byte string.

    [holds b at x] says that [x] occurs in [b] at the position [at]; the decoder is shown to accept
    exactly the encodings that [encode_call] and [encode_envelope] write, by composing what each
    reader holds.  Every value has one encoding. *)
From S2P Require Import Prelude B2Cbor B2Semantics.
Import B2Semantics.

(** The composition's statuses, in the order of their codes. *)
Module Status.

Inductive t : Type :=
  | Ok | Truncated | Trailing | NonCanonical | ForbiddenCBOR | Shape | Tag | Version | Length
  | IntRange | ABIFraming | BadOperation | Deadline | InputTooLarge | TooManyTx | TooManyItems
  | TooDeep | TooManyPaths | JustificationTooLarge | LockProofTooLarge | CfgMismatch
  | PolicyHash | PolicyTuple | PolicyAnchors | PolicyLeafIndex | PolicyLeafCount
  | PolicyPartition | Predicate | MintShape | LockProofShape | LockProofCfg | MintJustif
  | MintSalt | MintType | MintData | TransferData | CDMismatch | Unlock | UnlockLength
  | UnlockScalars | UnlockRecovery | UnlockKey | MinterKey | RepeatedSID | NoTransfers
  | HasTransfers | BurnNotFinal | NotBurn | BurnReason | ReturnData | ReturnAmount
  | ReturnRecip | LockInput | ZeroDigest | DeadlineMismatch | DeadlineExpired | IROpening
  | IRShape | IRState | IRTime | PathBitmap | AnchorAuth | LeafProof | SplitJustif
  | SplitProofCount | SplitProofShape | SplitManifest | SplitBurn | SplitProof | SplitSum
  | CertScan | CertSigLength.

#[global] Instance t_eq_decision : EqDecision t.
Proof. solve_decision. Defined.

(** The discriminants, in declaration order. *)
Definition all : list t :=
  [Ok; Truncated; Trailing; NonCanonical; ForbiddenCBOR; Shape; Tag; Version; Length; IntRange;
   ABIFraming; BadOperation; Deadline; InputTooLarge; TooManyTx; TooManyItems; TooDeep;
   TooManyPaths; JustificationTooLarge; LockProofTooLarge; CfgMismatch; PolicyHash; PolicyTuple;
   PolicyAnchors; PolicyLeafIndex; PolicyLeafCount; PolicyPartition; Predicate; MintShape;
   LockProofShape; LockProofCfg; MintJustif; MintSalt; MintType; MintData; TransferData;
   CDMismatch; Unlock; UnlockLength; UnlockScalars; UnlockRecovery; UnlockKey; MinterKey;
   RepeatedSID; NoTransfers; HasTransfers; BurnNotFinal; NotBurn; BurnReason; ReturnData;
   ReturnAmount; ReturnRecip; LockInput; ZeroDigest; DeadlineMismatch; DeadlineExpired; IROpening;
   IRShape; IRState; IRTime; PathBitmap; AnchorAuth; LeafProof; SplitJustif; SplitProofCount;
   SplitProofShape; SplitManifest; SplitBurn; SplitProof; SplitSum; CertScan; CertSigLength].

Fixpoint position (s : t) (l : list t) (n : Z) : Z :=
  match l with
  | [] => n
  | x :: l => if bool_decide (x = s) then n else position s l (n + 1)
  end.
Definition code (s : t) : Z := position s all 0.

End Status.

Module BridgeAbi.

Definition MAX_ANCHORS : Z := u16_max.
Definition MAX_ENVELOPE_BYTES : Z := 2097152.

Record Call := { call_op : Z; call_cfg : bytes; call_envelope : bytes }.

Record Anchor := {
  an_partition : Z; an_shard : bytes; an_shard_conf_hash : bytes; an_expected_state_root : bytes;
  an_expected_ir_hash : bytes; an_uc : bytes; an_input_record : bytes }.

Record LeafProof := { lp_anchor_index : Z; lp_bitmap : bytes; lp_siblings : bytes }.
Definition sibling_count (p : LeafProof) : Z := zlen (lp_siblings p) / 32.

Record Envelope := {
  ev_policy_body : bytes; ev_history : bytes; ev_anchors : list Anchor; ev_leaf_proofs : list LeafProof }.

Definition pad32 (n : Z) : Z := (n + 31) / 32 * 32.

Definition word (b : bytes) (off : Z) : option Z :=
  stop ← checked_add off 32;
  w ← get_range b off stop;
  if nonzero (take 24 w) then None else Some (be_val (drop 24 w)).

Definition size (b : bytes) (off : Z) : option Z :=
  v ← word b off;
  if v <=? zlen b then Some v else None.

Definition bytes_at (b : bytes) (at_ : Z) : option (bytes * Z) :=
  len ← size b at_;
  start ← checked_add at_ 32;
  stop ← checked_add start len;
  padded ← checked_add start (pad32 len);
  data ← get_range b start stop;
  padding ← get_range b stop padded;
  if nonzero padding then None else Some (data, padded).

Definition decode_call (b : bytes) : option Call :=
  op ← word b 0;
  off ← word b 32;
  if (u8_max <? op) || negb (off =? 96) then None else
  '(cfg, after_cfg) ← bytes_at b 96;
  off ← size b 64;
  if negb (off =? after_cfg) then None else
  '(envelope, stop) ← bytes_at b after_cfg;
  if stop =? zlen b then Some {| call_op := op; call_cfg := cfg; call_envelope := envelope |} else None.

(** The loop of [bound_counts]: the declared siblings of the leaves [i .. nl], after [steps]. *)
Definition w_ (b : bytes) (off : Z) : result Status.t Z := ok_or (word b off) Status.ABIFraming.
Definition add_ (a c : Z) : result Status.t Z := ok_or (checked_add a c) Status.ABIFraming.

Fixpoint bound_leaves (b : bytes) (off_leaves room : Z) (nl : nat) (i steps : Z) : result Status.t () :=
  match nl with
  | O => Ok ()
  | S nl =>
      let? p := add_ off_leaves (32 + 32 * i) in
      let? rel := w_ b p in
      let? t := add_ (off_leaves + 32) rel in
      let? p := add_ t 64 in
      let? s := w_ b p in
      let? s_off := add_ t s in
      let? ns := w_ b s_off in
      if room - steps <? ns then Err Status.TooManyPaths else
      bound_leaves b off_leaves room nl (i + 1) (steps + ns)
  end.

Definition bound_counts (b : bytes) : result Status.t () :=
  let n := zlen b in
  let? off_anchors := w_ b 64 in
  let? off_leaves := w_ b 96 in
  if (n <? off_anchors) || (n <? off_leaves) then Err Status.ABIFraming else
  let? na := w_ b off_anchors in
  if n <? na then Err Status.ABIFraming else
  if MAX_ANCHORS <? na then Err Status.TooManyPaths else
  let? nl := w_ b off_leaves in
  if n <? nl then Err Status.ABIFraming else
  bound_leaves b off_leaves (n / 32) (Z.to_nat nl) 0 0.

(** [tuple_array] at [at_]: [n] elements, the [i]th starting where the one before ended. *)
Section tuples.
Context {T : Type} (elem : bytes -> Z -> option (T * Z)).

Fixpoint tuple_elems (b : bytes) (base : Z) (n : nat) (i next : Z) : option (list T * Z) :=
  match n with
  | O => Some ([], next)
  | S n =>
      off ← size b (base + 32 * i);
      if negb (off =? next - base) then None else
      '(v, stop) ← elem b next;
      '(out, stop) ← tuple_elems b base n (i + 1) stop;
      Some (v :: out, stop)
  end.

Definition tuple_array (b : bytes) (at_ : Z) : option (list T * Z) :=
  n ← size b at_;
  base ← checked_add at_ 32;
  words ← checked_mul n 32;
  next ← checked_add base words;
  tuple_elems b base (Z.to_nat n) 0 next.
End tuples.

Definition word32 (b : bytes) (off : Z) : option bytes :=
  stop ← checked_add off 32; get_range b off stop.

Definition anchor_at (b : bytes) (t : Z) : option (Anchor * Z) :=
  partition ← word b t;
  if u32_max <? partition then None else
  off ← size b (t + 32);
  if negb (off =? 224) then None else
  '(shard, after_shard) ← bytes_at b (t + 224);
  off ← size b (t + 160);
  if negb (off =? after_shard - t) then None else
  '(uc, after_uc) ← bytes_at b after_shard;
  off ← size b (t + 192);
  if negb (off =? after_uc - t) then None else
  '(input_record, stop) ← bytes_at b after_uc;
  conf ← word32 b (t + 64);
  state ← word32 b (t + 96);
  ir ← word32 b (t + 128);
  Some ({| an_partition := partition; an_shard := shard; an_shard_conf_hash := conf;
           an_expected_state_root := state; an_expected_ir_hash := ir; an_uc := uc;
           an_input_record := input_record |}, stop).

Definition leaf_at (b : bytes) (t : Z) : option (LeafProof * Z) :=
  anchor_index ← word b t;
  if u16_max <? anchor_index then None else
  off ← size b (t + 64);
  if negb (off =? 96) then None else
  n ← size b (t + 96);
  let start := t + 128 in
  len ← checked_mul n 32;
  stop ← checked_add start len;
  bitmap ← word32 b (t + 32);
  siblings ← get_range b start stop;
  Some ({| lp_anchor_index := anchor_index; lp_bitmap := bitmap; lp_siblings := siblings |}, stop).

Definition anchor_array := tuple_array anchor_at.
Definition leaf_array := tuple_array leaf_at.

Definition layout (b : bytes) : option Envelope :=
  off ← size b 0;
  if negb (off =? 128) then None else
  '(policy_body, at_) ← bytes_at b 128;
  off ← size b 32;
  if negb (off =? at_) then None else
  '(history, at_) ← bytes_at b at_;
  off ← size b 64;
  if negb (off =? at_) then None else
  '(anchors, at_) ← anchor_array b at_;
  off ← size b 96;
  if negb (off =? at_) then None else
  '(leaf_proofs, stop) ← leaf_array b at_;
  if stop =? zlen b
  then Some {| ev_policy_body := policy_body; ev_history := history; ev_anchors := anchors;
               ev_leaf_proofs := leaf_proofs |}
  else None.

Definition decode_envelope (b : bytes) : result Status.t Envelope :=
  if MAX_ENVELOPE_BYTES <? zlen b then Err Status.InputTooLarge else
  if negb (zlen b mod 32 =? 0) || (zlen b <? 4 * 32) then Err Status.ABIFraming else
  let? _ := bound_counts b in
  ok_or (layout b) Status.ABIFraming.

(** ** The encodings *)

Definition num (n : Z) : bytes := be_bytes 32 n.
Definition dyn (x : bytes) : bytes := num (zlen x) ++ x ++ replicate (Z.to_nat (pad32 (zlen x) - zlen x)) Byte.x00.

Definition encode_call (c : Call) : bytes :=
  num (call_op c) ++ num 96 ++ num (96 + zlen (dyn (call_cfg c))) ++ dyn (call_cfg c) ++ dyn (call_envelope c).

Definition encode_anchor (a : Anchor) : bytes :=
  num (an_partition a) ++ num 224 ++ an_shard_conf_hash a ++ an_expected_state_root a ++ an_expected_ir_hash a
  ++ num (224 + zlen (dyn (an_shard a))) ++ num (224 + zlen (dyn (an_shard a)) + zlen (dyn (an_uc a)))
  ++ dyn (an_shard a) ++ dyn (an_uc a) ++ dyn (an_input_record a).

Definition encode_leaf_proof (p : LeafProof) : bytes :=
  num (lp_anchor_index p) ++ lp_bitmap p ++ num 96 ++ num (sibling_count p) ++ lp_siblings p.

(** The offsets of elements that follow one another from [next]. *)
Fixpoint offsets (next : Z) (l : list bytes) : bytes :=
  match l with
  | [] => []
  | x :: l => num next ++ offsets (next + zlen x) l
  end.
Definition encode_tuples (l : list bytes) : bytes :=
  num (zlen l) ++ offsets (32 * zlen l) l ++ concat l.

Definition encode_envelope (e : Envelope) : bytes :=
  let policy := dyn (ev_policy_body e) in
  let history := dyn (ev_history e) in
  let anchors := encode_tuples (map encode_anchor (ev_anchors e)) in
  num 128 ++ num (128 + zlen policy) ++ num (128 + zlen policy + zlen history)
  ++ num (128 + zlen policy + zlen history + zlen anchors)
  ++ policy ++ history ++ anchors ++ encode_tuples (map encode_leaf_proof (ev_leaf_proofs e)).

Definition anchor_ok (a : Anchor) : Prop :=
  0 <= an_partition a <= u32_max /\ is_word (an_shard_conf_hash a) /\ is_word (an_expected_state_root a) /\
  is_word (an_expected_ir_hash a).
Definition leaf_proof_ok (p : LeafProof) : Prop :=
  0 <= lp_anchor_index p <= u16_max /\ is_word (lp_bitmap p) /\ zlen (lp_siblings p) mod 32 = 0.
Definition envelope_ok (e : Envelope) : Prop :=
  Forall anchor_ok (ev_anchors e) /\ Forall leaf_proof_ok (ev_leaf_proofs e).

(** ** Positions *)

(** [x] occurs in [b] at the position [at_]. *)
Definition holds (b : bytes) (at_ : Z) (x : bytes) : Prop := get_range b at_ (at_ + zlen x) = Some x.

Lemma holds_get b a c x : get_range b a c = Some x <-> holds b a x /\ c = a + zlen x.
Proof.
  unfold holds. split.
  - intros H. pose proof H as (Ha & Hc & Hx)%get_range_some.
    assert (Hz : c = a + zlen x).
    { rewrite Hx. unfold zlen in *. rewrite length_take, length_drop. lia. }
    split; [by rewrite <- Hz | done].
  - by intros [H ->].
Qed.

Lemma holds_bound b a x : holds b a x -> 0 <= a /\ a + zlen x <= zlen b.
Proof. intros (? & ? & _)%get_range_some. lia. Qed.

Lemma holds_nil b a : 0 <= a <= zlen b -> holds b a [].
Proof. intros Ha. apply get_range_some. change (zlen []) with 0. split_and!; [lia..|]. by replace (a + 0 - a) with 0 by lia. Qed.

Lemma occurs_app b a x y : holds b a (x ++ y) <-> holds b a x /\ holds b (a + zlen x) y.
Proof.
  unfold holds. rewrite !get_range_some, zlen_app. pose proof (zlen_nonneg x). pose proof (zlen_nonneg y).
  assert (Hx : forall z : bytes, Z.to_nat (a + zlen z - a) = length z) by (intros; unfold zlen; lia).
  assert (Hxy : Z.to_nat (a + (zlen x + zlen y) - a) = (length x + length y)%nat) by (unfold zlen; lia).
  assert (Hy : Z.to_nat (a + zlen x + zlen y - (a + zlen x)) = length y) by (unfold zlen; lia).
  rewrite Hxy, Hx, Hy. split.
  - intros (Ha & Hb & Heq). rewrite <- take_take_drop in Heq.
    assert (Hl : length (take (length x) (drop (Z.to_nat a) b)) = length x).
    { rewrite length_take, length_drop. unfold zlen in *. lia. }
    apply app_inj_1 in Heq as [H1 H2]; [|done]. split_and!; try lia; [done|].
    rewrite H2 at 1. rewrite drop_drop. do 2 f_equal. unfold zlen. lia.
  - intros [(Ha & Hb & H1) (_ & Hc & H2)]. split_and!; try lia.
    rewrite <- take_take_drop, <- H1, drop_drop. f_equal. rewrite H2 at 1. do 2 f_equal. unfold zlen. lia.
Qed.

Lemma holds_all b x : holds b 0 x /\ zlen x = zlen b <-> b = x.
Proof.
  unfold holds. rewrite get_range_some. split.
  - intros [(_ & _ & Hx) Hz]. rewrite Hx. rewrite drop_0, take_ge; [done|]. unfold zlen in *. lia.
  - intros ->. pose proof (zlen_nonneg x). split; [|done]. split_and!; try lia.
    rewrite drop_0, take_ge; [done|]. unfold zlen. lia.
Qed.

Lemma zlen_replicate (n : nat) (x : byte) : zlen (replicate n x) = Z.of_nat n.
Proof. unfold zlen. by rewrite length_replicate. Qed.

Lemma num_word n : is_word (num n).
Proof. apply be_bytes_length. Qed.

Lemma num_zlen n : zlen (num n) = 32.
Proof. unfold zlen, num. by rewrite be_bytes_length. Qed.

Lemma nonzero_false l : nonzero l = false <-> l = replicate (length l) Byte.x00.
Proof.
  unfold nonzero. induction l as [|x l IH]; [done|]. cbn [existsb length replicate].
  case_bool_decide as Hx; simpl; [rewrite IH, Hx; split; [by intros Hl; f_equal | by intros [= Hl]] |].
  split; [done|]. by intros [= ? _].
Qed.

(** A 64-bit number as a word: twenty-four zero bytes and eight more. *)
Lemma num_split v : is_u64 v -> num v = replicate 24 Byte.x00 ++ be_bytes 8 v.
Proof.
  intros Hv. unfold num. change 32%nat with (24 + 8)%nat. rewrite be_bytes_split. f_equal.
  rewrite Z.div_small; [vm_compute; reflexivity|]. change (256 ^ Z.of_nat 8) with 18446744073709551616. ulia.
Qed.

Lemma word_num w v :
  is_word w -> nonzero (take 24 w) = false /\ be_val (drop 24 w) = v <-> w = num v /\ is_u64 v.
Proof.
  intros Hw. unfold is_word in Hw. split.
  - intros [Hz%nonzero_false Hv]. rewrite length_take, Hw in Hz. simpl in Hz.
    pose proof (be_val_range (drop 24 w)) as Hr. unfold zlen in Hr. rewrite length_drop, Hw in Hr.
    change (256 ^ Z.of_nat (32 - 24)) with 18446744073709551616 in Hr. assert (Hu : is_u64 v) by ulia.
    split; [|done]. rewrite num_split, <- (take_drop 24 w), Hz, <- Hv by done. f_equal.
    symmetry. apply be_bytes_val_n. by rewrite length_drop, Hw.
  - intros [-> Hv]. rewrite num_split by done. rewrite take_length_app, drop_length_app by done.
    split; [done|]. apply be_val_bytes. change (256 ^ Z.of_nat 8) with 18446744073709551616. ulia.
Qed.

Lemma pad32_bounds n : 0 <= n -> n <= pad32 n < n + 32 /\ pad32 n mod 32 = 0.
Proof.
  intros Hn. unfold pad32. pose proof (Z.div_mod (n + 31) 32 ltac:(lia)). pose proof (Z.mod_pos_bound (n + 31) 32 ltac:(lia)).
  split; [lia|]. apply Z.mod_mul. lia.
Qed.

Lemma dyn_zlen x : zlen (dyn x) = 32 + pad32 (zlen x).
Proof.
  unfold dyn. rewrite !zlen_app, num_zlen. pose proof (pad32_bounds (zlen x) (zlen_nonneg x)).
  rewrite zlen_replicate. lia.
Qed.

(** ** The readers *)

Section readers.
Context (b : bytes) (Hb : zlen b <= slice_max).

Lemma checked_add_some x y z : checked_add x y = Some z <-> z = x + y /\ x + y <= u64_max.
Proof. unfold checked_add. destruct (Z.leb_spec (x + y) u64_max); split; intuition (congruence || lia). Qed.

Lemma checked_add_ok x y : x + y <= u64_max -> checked_add x y = Some (x + y).
Proof. intros. by apply checked_add_some. Qed.

Lemma word_iff off v : word b off = Some v <-> holds b off (num v) /\ is_u64 v.
Proof.
  unfold word. split.
  - intros (stop & [-> _]%checked_add_some & (w & [Hh Hz]%holds_get & Hw)%bind_Some)%bind_Some.
    assert (Hl : is_word w) by ulia. destruct (nonzero _) eqn:Hn; [done|]. injection Hw as Hv.
    destruct (proj1 (word_num w v Hl) (conj Hn Hv)) as [-> Hu]. done.
  - intros [Hh Hv]. pose proof (holds_bound _ _ _ Hh) as [_ Hle]. rewrite num_zlen in Hle.
    rewrite checked_add_ok by ulia. cbn [mbind option_bind].
    unfold holds in Hh. rewrite num_zlen in Hh. rewrite Hh. cbn [mbind option_bind].
    destruct (proj2 (word_num (num v) v (num_word v)) (conj eq_refl Hv)) as [-> ->]. done.
Qed.

Lemma size_iff off v : size b off = Some v <-> holds b off (num v) /\ 0 <= v <= zlen b.
Proof.
  unfold size. split.
  - intros (w & [Hh Hw]%word_iff & Hv)%bind_Some. destruct (Z.leb_spec w (zlen b)); [|done].
    injection Hv as <-. split; [done|ulia].
  - intros [Hh Hv]. rewrite (proj2 (word_iff off v)) by (split; [done|ulia]). cbn [mbind option_bind].
    by rewrite (proj2 (Z.leb_le v (zlen b))) by lia.
Qed.

Lemma word32_iff off x : word32 b off = Some x <-> holds b off x /\ is_word x.
Proof.
  unfold word32. split.
  - intros (stop & [-> _]%checked_add_some & [Hh Hz]%holds_get)%bind_Some. split; [done|ulia].
  - intros [Hh Hw]. pose proof (holds_bound _ _ _ Hh) as [_ Hle]. assert (Hz : zlen x = 32) by ulia.
    rewrite checked_add_ok by ulia. cbn [mbind option_bind].
    apply holds_get. split; [done|lia].
Qed.

Lemma bytes_at_iff at_ x e : bytes_at b at_ = Some (x, e) <-> holds b at_ (dyn x) /\ e = at_ + zlen (dyn x).
Proof.
  rewrite dyn_zlen. unfold bytes_at. split.
  - intros (len & [Hn Hlen]%size_iff & (start & [-> _]%checked_add_some & (stop & [-> _]%checked_add_some & H)%bind_Some)%bind_Some)%bind_Some.
    apply bind_Some in H as (padded & [-> _]%checked_add_some & H). apply bind_Some in H as (data & [Hd Hz]%holds_get & H).
    apply bind_Some in H as (padding & [Hp Hpz]%holds_get & H). destruct (nonzero padding) eqn:Hnz; [done|]. injection H as <- <-.
    apply nonzero_false in Hnz. pose proof (pad32_bounds len ltac:(lia)). assert (len = zlen data) as -> by lia.
    split; [|lia]. unfold dyn. rewrite !occurs_app, num_zlen. split_and!; try done.
    replace (Z.to_nat (pad32 (zlen data) - zlen data)) with (length padding) by ulia. by rewrite <- Hnz.
  - intros [H ->]. pose proof (holds_bound _ _ _ H) as [Hat Hle]. rewrite dyn_zlen in Hle.
    pose proof (pad32_bounds (zlen x) (zlen_nonneg x)). pose proof (zlen_nonneg x).
    unfold dyn in H. rewrite !occurs_app, num_zlen in H. destruct H as (Hn & Hd & Hp).
    rewrite (proj2 (size_iff at_ (zlen x))) by (split; [done|lia]). cbn [mbind option_bind].
    rewrite checked_add_ok by ulia. cbn [mbind option_bind].
    rewrite checked_add_ok by ulia. cbn [mbind option_bind].
    rewrite checked_add_ok by ulia. cbn [mbind option_bind].
    rewrite (proj2 (holds_get b (at_ + 32) (at_ + 32 + zlen x) x) (conj Hd eq_refl)). cbn [mbind option_bind].
    erewrite (proj2 (holds_get b _ _ _)); [|split; [exact Hp|]]; [cbn [mbind option_bind]|].
    + rewrite (proj2 (nonzero_false _)) by (by rewrite length_replicate). do 2 f_equal. lia.
    + rewrite zlen_replicate. lia.
Qed.

Section tuple_readers.
Context {T : Type} (elem : bytes -> Z -> option (T * Z)) (enc : T -> bytes) (ok : T -> Prop).
Context (elem_iff : forall t x e, elem b t = Some (x, e) <-> holds b t (enc x) /\ ok x /\ e = t + zlen (enc x)).

Lemma tuple_elems_iff base n : forall i next xs e,
  0 <= base <= next -> 0 <= i -> (n = O -> base + 32 * i <= zlen b /\ next <= zlen b) ->
  tuple_elems elem b base n i next = Some (xs, e) <->
  length xs = n /\ Forall ok xs /\ holds b (base + 32 * i) (offsets (next - base) (map enc xs)) /\
  holds b next (concat (map enc xs)) /\ e = next + zlen (concat (map enc xs)).
Proof.
  induction n as [|n IH]; intros i next xs e Hbase Hi H0.
  - specialize (H0 eq_refl). cbn [tuple_elems]. split.
    + intros [= <- <-]. split_and!; [done|constructor|apply holds_nil; lia|apply holds_nil; lia|cbn; unfold zlen; simpl; lia].
    + intros (Hl & _ & _ & _ & ->). destruct xs; [|done]. cbn. unfold zlen. simpl. by rewrite Z.add_0_r.
  - cbn [tuple_elems]. split.
    + intros (off & [Ho Hr]%size_iff & H)%bind_Some. destruct (Z.eqb_spec off (next - base)) as [->|]; [|done]. cbn [negb] in H.
      apply bind_Some in H as ([v stop] & (Hv & Hok & ->)%elem_iff & H).
      apply bind_Some in H as ([out stop] & Hout & [= <- <-]).
      pose proof (holds_bound _ _ _ Ho). pose proof (holds_bound _ _ _ Hv). pose proof (zlen_nonneg (enc v)). rewrite num_zlen in *.
      apply IH in Hout as (Hl & HF & Hoffs & Hcat & ->); [|lia..]. cbn [map concat offsets length].
      rewrite !occurs_app, num_zlen, zlen_app. split_and!; [by rewrite Hl|by constructor|done| |done|done|lia].
      replace (base + 32 * i + 32) with (base + 32 * (i + 1)) by lia.
      by replace (next - base + zlen (enc v)) with (next + zlen (enc v) - base) by lia.
    + intros (Hl & HF & Hoffs & Hcat & ->). destruct xs as [|x xs]; [done|]. cbn [map concat offsets length] in *.
      rewrite occurs_app, num_zlen in Hoffs. rewrite occurs_app in Hcat. destruct Hoffs as [Ho Hoffs], Hcat as [Hv Hcat].
      pose proof (holds_bound _ _ _ Ho). pose proof (holds_bound _ _ _ Hv). pose proof (zlen_nonneg (enc x)). rewrite num_zlen in *.
      apply Forall_cons in HF as [Hok HF].
      rewrite (proj2 (size_iff (base + 32 * i) (next - base))) by (split; [done|lia]). cbn [mbind option_bind].
      rewrite Z.eqb_refl. cbn [negb]. rewrite (proj2 (elem_iff next x _)) by (split_and!; done). cbn [mbind option_bind].
      rewrite (proj2 (IH (i + 1) (next + zlen (enc x)) xs (next + zlen (enc x) + zlen (concat (map enc xs))) ltac:(lia) ltac:(lia) ltac:(lia))).
      * cbn [mbind option_bind]. do 2 f_equal. rewrite zlen_app. lia.
      * split_and!; [lia|done| |done|done]. replace (base + 32 * (i + 1)) with (base + 32 * i + 32) by lia.
        by replace (next + zlen (enc x) - base) with (next - base + zlen (enc x)) by lia.
Qed.

Lemma offsets_zlen next l : zlen (offsets next l) = 32 * zlen l.
Proof.
  revert next. induction l as [|x l IH]; intros next; [done|]. cbn [offsets]. rewrite zlen_app, num_zlen, IH, zlen_cons. lia.
Qed.

Lemma encode_tuples_zlen l : zlen (encode_tuples l) = 32 + 32 * zlen l + zlen (concat l).
Proof. unfold encode_tuples. rewrite !zlen_app, num_zlen, offsets_zlen. lia. Qed.

Lemma tuple_array_iff at_ xs e :
  tuple_array elem b at_ = Some (xs, e) <->
  holds b at_ (encode_tuples (map enc xs)) /\ Forall ok xs /\ e = at_ + zlen (encode_tuples (map enc xs)).
Proof.
  assert (Hz : zlen (map enc xs) = zlen xs) by (unfold zlen; by rewrite length_map).
  rewrite encode_tuples_zlen. unfold tuple_array, encode_tuples. rewrite Hz, !occurs_app, num_zlen, offsets_zlen, Hz. split.
  - intros (n & [Hn Hr]%size_iff & (base & [-> _]%checked_add_some & (words & Hw & H)%bind_Some)%bind_Some)%bind_Some.
    unfold checked_mul in Hw. destruct (_ <=? _); [|done]. injection Hw as <-.
    apply bind_Some in H as (next & [-> _]%checked_add_some & H). pose proof (holds_bound _ _ _ Hn). rewrite num_zlen in *.
    apply tuple_elems_iff in H as (Hl & HF & Ho & Hc & ->); [|lia..].
    assert (n = zlen xs) as -> by ulia. rewrite Z.mul_0_r, Z.add_0_r in Ho.
    replace (at_ + 32 + zlen xs * 32 - (at_ + 32)) with (32 * zlen xs) in Ho by lia.
    replace (at_ + 32 + zlen xs * 32) with (at_ + 32 + 32 * zlen xs) in * by lia. split_and!; try done; lia.
  - intros ((Hn & Ho & Hc) & HF & ->). pose proof (holds_bound _ _ _ Hn). pose proof (holds_bound _ _ _ Ho).
    pose proof (holds_bound _ _ _ Hc). rewrite num_zlen, offsets_zlen, Hz in *. pose proof (zlen_nonneg xs).
    rewrite (proj2 (size_iff at_ (zlen xs))) by (split; [done|lia]). cbn [mbind option_bind].
    rewrite checked_add_ok by ulia. cbn [mbind option_bind]. unfold checked_mul.
    rewrite (proj2 (Z.leb_le (zlen xs * 32) u64_max)) by ulia. cbn [mbind option_bind].
    rewrite checked_add_ok by ulia. cbn [mbind option_bind].
    apply tuple_elems_iff; [lia..|]. replace (at_ + 32 + zlen xs * 32) with (at_ + 32 + 32 * zlen xs) by lia.
    rewrite Z.mul_0_r, Z.add_0_r. replace (at_ + 32 + 32 * zlen xs - (at_ + 32)) with (32 * zlen xs) by lia.
    split_and!; try done; [unfold zlen; lia|lia].
Qed.

End tuple_readers.

Lemma abi_word_zlen w : is_word w -> zlen w = 32.
Proof. unfold is_word, zlen. lia. Qed.

Lemma dyn_nonneg x : 0 <= zlen (dyn x).
Proof. apply zlen_nonneg. Qed.

(** The fields of an anchor at their positions. *)
Lemma anchor_holds t a :
  anchor_ok a ->
  holds b t (encode_anchor a) <->
  holds b t (num (an_partition a)) /\ holds b (t + 32) (num 224) /\ holds b (t + 64) (an_shard_conf_hash a) /\
  holds b (t + 96) (an_expected_state_root a) /\ holds b (t + 128) (an_expected_ir_hash a) /\
  holds b (t + 160) (num (224 + zlen (dyn (an_shard a)))) /\
  holds b (t + 192) (num (224 + zlen (dyn (an_shard a)) + zlen (dyn (an_uc a)))) /\
  holds b (t + 224) (dyn (an_shard a)) /\ holds b (t + 224 + zlen (dyn (an_shard a))) (dyn (an_uc a)) /\
  holds b (t + 224 + zlen (dyn (an_shard a)) + zlen (dyn (an_uc a))) (dyn (an_input_record a)).
Proof.
  intros (_ & H1%abi_word_zlen & H2%abi_word_zlen & H3%abi_word_zlen). unfold encode_anchor.
  rewrite !occurs_app, !num_zlen, H1, H2, H3.
  replace (t + 32 + 32) with (t + 64) by lia. replace (t + 64 + 32) with (t + 96) by lia.
  replace (t + 96 + 32) with (t + 128) by lia. replace (t + 128 + 32) with (t + 160) by lia.
  replace (t + 160 + 32) with (t + 192) by lia. replace (t + 192 + 32) with (t + 224) by lia. done.
Qed.

Lemma encode_anchor_zlen a : anchor_ok a ->
  zlen (encode_anchor a) = 224 + zlen (dyn (an_shard a)) + zlen (dyn (an_uc a)) + zlen (dyn (an_input_record a)).
Proof.
  intros (_ & H1%abi_word_zlen & H2%abi_word_zlen & H3%abi_word_zlen). unfold encode_anchor.
  rewrite !zlen_app, !num_zlen, H1, H2, H3. lia.
Qed.

Lemma anchor_at_sound t a e :
  anchor_at b t = Some (a, e) -> holds b t (encode_anchor a) /\ anchor_ok a /\ e = t + zlen (encode_anchor a).
Proof.
  unfold anchor_at.
  intros (partition & [Hp Hpr]%word_iff & H)%bind_Some. destruct (Z.ltb_spec u32_max partition); [done|].
  apply bind_Some in H as (off & [H224 _]%size_iff & H). destruct (Z.eqb_spec off 224) as [->|]; [|done]. cbn [negb] in H.
  apply bind_Some in H as ([shard after_shard] & [Hs ->]%bytes_at_iff & H).
  apply bind_Some in H as (off & [Ho1 _]%size_iff & H).
  destruct (Z.eqb_spec off (t + 224 + zlen (dyn shard) - t)) as [->|]; [|done]. cbn [negb] in H.
  apply bind_Some in H as ([uc after_uc] & [Hu ->]%bytes_at_iff & H).
  apply bind_Some in H as (off & [Ho2 _]%size_iff & H).
  destruct (Z.eqb_spec off (t + 224 + zlen (dyn shard) + zlen (dyn uc) - t)) as [->|]; [|done]. cbn [negb] in H.
  apply bind_Some in H as ([ir stop] & [Hi ->]%bytes_at_iff & H).
  apply bind_Some in H as (conf & [Hc Hcw]%word32_iff & H). apply bind_Some in H as (state & [Hst Hstw]%word32_iff & H).
  apply bind_Some in H as (irh & [Hir Hirw]%word32_iff & [= <- <-]).
  match goal with |- holds b t (encode_anchor ?a) /\ _ => assert (Hok : anchor_ok a) by (split_and!; simpl; try done; ulia) end.
  split; [|split; [done|rewrite encode_anchor_zlen by done; simpl; lia]]. apply anchor_holds; [done|]. simpl.
  replace (t + 224 + zlen (dyn shard) - t) with (224 + zlen (dyn shard)) in Ho1 by lia.
  replace (t + 224 + zlen (dyn shard) + zlen (dyn uc) - t) with (224 + zlen (dyn shard) + zlen (dyn uc)) in Ho2 by lia. done.
Qed.

Lemma anchor_at_complete t a :
  holds b t (encode_anchor a) -> anchor_ok a -> anchor_at b t = Some (a, t + zlen (encode_anchor a)).
Proof.
  unfold anchor_at.
  intros H Hok. rewrite encode_anchor_zlen by done. apply anchor_holds in H; [|done].
  destruct H as (Hp & H224 & Hc & Hst & Hir & Ho1 & Ho2 & Hs & Hu & Hi). destruct Hok as (Hpr & Hcw & Hstw & Hirw).
  pose proof (holds_bound _ _ _ Hp) as [Ht _]. pose proof (holds_bound _ _ _ Hi) as [_ Hend].
  pose proof (dyn_nonneg (an_shard a)). pose proof (dyn_nonneg (an_uc a)). pose proof (dyn_nonneg (an_input_record a)).
  rewrite (proj2 (word_iff t (an_partition a))) by (split; [done|ulia]). cbn [mbind option_bind].
  rewrite (proj2 (Z.ltb_ge _ _)) by lia.
  rewrite (proj2 (size_iff (t + 32) 224)) by (split; [done|lia]). cbn [mbind option_bind].
  change (negb (224 =? 224)) with false. cbv iota.
  rewrite (proj2 (bytes_at_iff _ _ _) (conj Hs eq_refl)). cbn [mbind option_bind].
  rewrite (proj2 (size_iff (t + 160) (224 + zlen (dyn (an_shard a))))) by (split; [done|lia]). cbn [mbind option_bind].
  rewrite (proj2 (Z.eqb_eq (224 + zlen (dyn (an_shard a))) (t + 224 + zlen (dyn (an_shard a)) - t))) by lia. cbn [negb].
  rewrite (proj2 (bytes_at_iff _ _ _) (conj Hu eq_refl)). cbn [mbind option_bind].
  rewrite (proj2 (size_iff (t + 192) _)) by (split; [exact Ho2|lia]). cbn [mbind option_bind].
  rewrite (proj2 (Z.eqb_eq _ _)) by lia. cbn [negb].
  rewrite (proj2 (bytes_at_iff _ _ _) (conj Hi eq_refl)). cbn [mbind option_bind].
  rewrite (proj2 (word32_iff _ _) (conj Hc Hcw)), (proj2 (word32_iff _ _) (conj Hst Hstw)),
    (proj2 (word32_iff _ _) (conj Hir Hirw)). cbn [mbind option_bind].
  destruct a; simpl. do 2 f_equal. lia.
Qed.

Lemma anchor_at_iff t a e :
  anchor_at b t = Some (a, e) <-> holds b t (encode_anchor a) /\ anchor_ok a /\ e = t + zlen (encode_anchor a).
Proof. split; [apply anchor_at_sound|]. intros (H & Hok & ->). by apply anchor_at_complete. Qed.

(** A leaf proof at its position. *)
Lemma siblings_zlen p : leaf_proof_ok p -> zlen (lp_siblings p) = 32 * sibling_count p.
Proof. intros (_ & _ & Hm). unfold sibling_count. pose proof (Z.div_mod (zlen (lp_siblings p)) 32 ltac:(lia)). lia. Qed.

Lemma leaf_holds t p :
  leaf_proof_ok p ->
  holds b t (encode_leaf_proof p) <->
  holds b t (num (lp_anchor_index p)) /\ holds b (t + 32) (lp_bitmap p) /\ holds b (t + 64) (num 96) /\
  holds b (t + 96) (num (sibling_count p)) /\ holds b (t + 128) (lp_siblings p).
Proof.
  intros (_ & Hw%abi_word_zlen & _). unfold encode_leaf_proof. rewrite !occurs_app, !num_zlen, Hw.
  replace (t + 32 + 32) with (t + 64) by lia. replace (t + 64 + 32) with (t + 96) by lia.
  replace (t + 96 + 32) with (t + 128) by lia. done.
Qed.

Lemma encode_leaf_zlen p : leaf_proof_ok p -> zlen (encode_leaf_proof p) = 128 + zlen (lp_siblings p).
Proof. intros (_ & Hw%abi_word_zlen & _). unfold encode_leaf_proof. rewrite !zlen_app, !num_zlen, Hw. lia. Qed.

Lemma leaf_at_iff t p e :
  leaf_at b t = Some (p, e) <->
  holds b t (encode_leaf_proof p) /\ leaf_proof_ok p /\ e = t + zlen (encode_leaf_proof p).
Proof.
  unfold leaf_at. split.
  - intros (idx & [Hi Hir]%word_iff & H)%bind_Some. destruct (Z.ltb_spec u16_max idx); [done|].
    apply bind_Some in H as (off & [H96 _]%size_iff & H). destruct (Z.eqb_spec off 96) as [->|]; [|done]. cbn [negb] in H.
    apply bind_Some in H as (n & [Hn Hnr]%size_iff & H). apply bind_Some in H as (len & Hlen & H).
    unfold checked_mul in Hlen. destruct (_ <=? _); [|done]. injection Hlen as <-.
    apply bind_Some in H as (stop & [-> _]%checked_add_some & H). apply bind_Some in H as (bm & [Hbm Hbw]%word32_iff & H).
    apply bind_Some in H as (sib & [Hs Hz]%holds_get & [= <- <-]). assert (Hlen : zlen sib = n * 32) by lia.
    match goal with |- holds b t (encode_leaf_proof ?p) /\ _ =>
      assert (Hok : leaf_proof_ok p) by (split_and!; simpl; [ulia|ulia|done|rewrite Hlen; apply Z.mod_mul; lia]) end.
    split; [|split; [done|rewrite encode_leaf_zlen by done; simpl; lia]]. apply leaf_holds; [done|]. simpl.
    unfold sibling_count. simpl. rewrite Hlen, Z.div_mul by lia. done.
  - intros (H & Hok & ->). rewrite encode_leaf_zlen by done. pose proof (siblings_zlen p Hok) as Hz.
    apply leaf_holds in H as (Hi & Hbm & H96 & Hn & Hs); [|done]. destruct Hok as (Hir & Hbw & Hm).
    pose proof (holds_bound _ _ _ Hi) as [Ht _]. pose proof (holds_bound _ _ _ Hs) as [_ Hend].
    pose proof (zlen_nonneg (lp_siblings p)).
    rewrite (proj2 (word_iff t (lp_anchor_index p))) by (split; [done|ulia]). cbn [mbind option_bind].
    rewrite (proj2 (Z.ltb_ge _ _)) by lia.
    rewrite (proj2 (size_iff (t + 64) 96)) by (split; [done|lia]). cbn [mbind option_bind].
    change (negb (96 =? 96)) with false. cbv iota.
    rewrite (proj2 (size_iff (t + 96) (sibling_count p))) by (split; [done|lia]). cbn [mbind option_bind]. unfold checked_mul.
    rewrite (proj2 (Z.leb_le (sibling_count p * 32) u64_max)) by ulia. cbn [mbind option_bind].
    rewrite checked_add_ok by ulia. cbn [mbind option_bind].
    rewrite (proj2 (word32_iff _ _) (conj Hbm Hbw)). cbn [mbind option_bind].
    rewrite (proj2 (holds_get b (t + 128) (t + 128 + sibling_count p * 32) (lp_siblings p))) by (split; [done|lia]).
    cbn [mbind option_bind]. destruct p; simpl in *. do 2 f_equal. lia.
Qed.

Lemma if_none_inv {A} (c : bool) (o : option A) x : (if c then None else o) = Some x -> c = false /\ o = Some x.
Proof. by destruct c. Qed.

(** The call's parts at their positions. *)
Lemma call_holds c :
  b = encode_call c <->
  (holds b 0 (num (call_op c)) /\ holds b 32 (num 96) /\ holds b 64 (num (96 + zlen (dyn (call_cfg c)))) /\
   holds b 96 (dyn (call_cfg c)) /\ holds b (96 + zlen (dyn (call_cfg c))) (dyn (call_envelope c))) /\
  96 + zlen (dyn (call_cfg c)) + zlen (dyn (call_envelope c)) = zlen b.
Proof.
  rewrite <- holds_all. unfold encode_call. rewrite !occurs_app, !num_zlen, !zlen_app, !num_zlen.
  replace (0 + 32) with 32 by lia. replace (32 + 32) with 64 by lia. replace (64 + 32) with 96 by lia.
  split; intros [H Hz]; (split; [exact H|lia]).
Qed.

(** The whole call input. *)
Lemma decode_call_sound c : decode_call b = Some c -> b = encode_call c /\ 0 <= call_op c <= u8_max.
Proof.
  rewrite call_holds. unfold decode_call.
  intros (op & [Hop Hopr]%word_iff & H)%bind_Some. apply bind_Some in H as (off & [H96 _]%word_iff & H).
  apply if_none_inv in H as [Hc1 H]. assert (off = 96) as -> by lia.
  apply bind_Some in H as ([cfg after] & [Hc ->]%bytes_at_iff & H). apply bind_Some in H as (off & [Ho _]%size_iff & H).
  apply if_none_inv in H as [Hc2 H]. assert (off = 96 + zlen (dyn cfg)) as -> by lia.
  apply bind_Some in H as ([env stop] & [He ->]%bytes_at_iff & H).
  destruct (Z.eqb_spec (96 + zlen (dyn cfg) + zlen (dyn env)) (zlen b)); [|done]. injection H as <-.
  cbn [call_op call_cfg call_envelope]. split; [|unfold is_u64 in Hopr; lia]. split; [split_and!; assumption|assumption].
Qed.

Lemma decode_call_complete c : b = encode_call c -> 0 <= call_op c <= u8_max -> decode_call b = Some c.
Proof.
  rewrite call_holds. unfold decode_call.
  intros [(Hop & H96 & Ho & Hc & He) Hz] Hr. pose proof (dyn_nonneg (call_cfg c)). pose proof (dyn_nonneg (call_envelope c)).
  assert (Hu : is_u64 (call_op c)) by (unfold is_u64, u8_max, u64_max in *; lia). 
  assert (Hu' : is_u64 96) by done.
  rewrite (proj2 (word_iff 0 (call_op c)) (conj Hop Hu)). cbn [mbind option_bind].
  rewrite (proj2 (word_iff 32 96) (conj H96 Hu')). cbn [mbind option_bind].
  rewrite (proj2 (Z.ltb_ge u8_max (call_op c))) by lia. change (false || negb (96 =? 96)) with false. cbv iota.
  rewrite (proj2 (bytes_at_iff _ _ _) (conj Hc eq_refl)). cbn [mbind option_bind].
  rewrite (proj2 (size_iff 64 _)) by (split; [exact Ho|lia]). cbn [mbind option_bind]. rewrite Z.eqb_refl. cbn [negb].
  rewrite (proj2 (bytes_at_iff _ _ _) (conj He eq_refl)). cbn [mbind option_bind].
  rewrite (proj2 (Z.eqb_eq _ _)) by lia. by destruct c.
Qed.

(** The envelope's parts at their positions. *)
Lemma envelope_holds e :
  let policy := dyn (ev_policy_body e) in
  let history := dyn (ev_history e) in
  let anchors := encode_tuples (map encode_anchor (ev_anchors e)) in
  let leaves := encode_tuples (map encode_leaf_proof (ev_leaf_proofs e)) in
  b = encode_envelope e <->
  (holds b 0 (num 128) /\ holds b 32 (num (128 + zlen policy)) /\ holds b 64 (num (128 + zlen policy + zlen history)) /\
   holds b 96 (num (128 + zlen policy + zlen history + zlen anchors)) /\ holds b 128 policy /\
   holds b (128 + zlen policy) history /\ holds b (128 + zlen policy + zlen history) anchors /\
   holds b (128 + zlen policy + zlen history + zlen anchors) leaves) /\
  128 + zlen policy + zlen history + zlen anchors + zlen leaves = zlen b.
Proof.
  cbv zeta. rewrite <- holds_all. unfold encode_envelope. rewrite !occurs_app, !num_zlen, !zlen_app, !num_zlen.
  replace (0 + 32) with 32 by lia. replace (32 + 32) with 64 by lia. replace (64 + 32) with 96 by lia.
  replace (96 + 32) with 128 by lia. split; intros [H Hz]; (split; [exact H|lia]).
Qed.

Lemma layout_sound e : layout b = Some e -> b = encode_envelope e /\ envelope_ok e.
Proof.
  rewrite envelope_holds. cbv zeta. unfold layout, anchor_array, leaf_array, envelope_ok.
  intros (off & [H0 _]%size_iff & H)%bind_Some. apply if_none_inv in H as [Hc0 H]. assert (off = 128) as -> by lia.
  apply bind_Some in H as ([policy at1] & [Hp ->]%bytes_at_iff & H). apply bind_Some in H as (off & [H1 _]%size_iff & H).
  apply if_none_inv in H as [Hc1 H]. assert (off = 128 + zlen (dyn policy)) as -> by lia.
  apply bind_Some in H as ([history at2] & [Hh ->]%bytes_at_iff & H). apply bind_Some in H as (off & [H2 _]%size_iff & H).
  apply if_none_inv in H as [Hc2 H]. assert (off = 128 + zlen (dyn policy) + zlen (dyn history)) as -> by lia.
  apply bind_Some in H as ([anchors at3] & (Ha & HFa & ->)%(tuple_array_iff _ _ _ anchor_at_iff) & H).
  apply bind_Some in H as (off & [H3 _]%size_iff & H). apply if_none_inv in H as [Hc3 H].
  match type of Hc3 with negb (off =? ?p) = false => assert (off = p) as -> by lia end.
  apply bind_Some in H as ([leaves stop] & (Hl & HFl & ->)%(tuple_array_iff _ _ _ leaf_at_iff) & H).
  match type of H with (if ?p =? _ then _ else _) = _ => destruct (Z.eqb_spec p (zlen b)) as [Hz|]; [|done] end.
  injection H as <-. cbn [ev_policy_body ev_history ev_anchors ev_leaf_proofs]. split_and!; assumption.
Qed.

Lemma layout_complete e : b = encode_envelope e -> envelope_ok e -> layout b = Some e.
Proof.
  rewrite envelope_holds. cbv zeta. unfold layout, anchor_array, leaf_array, envelope_ok.
  intros [(H0 & H1 & H2 & H3 & Hp & Hh & Ha & Hl) Hz] [HFa HFl].
  pose proof (dyn_nonneg (ev_policy_body e)). pose proof (dyn_nonneg (ev_history e)).
  pose proof (zlen_nonneg (encode_tuples (map encode_anchor (ev_anchors e)))).
  pose proof (zlen_nonneg (encode_tuples (map encode_leaf_proof (ev_leaf_proofs e)))).
  rewrite (proj2 (size_iff 0 128)) by (split; [exact H0|lia]). cbn [mbind option_bind].
  rewrite Z.eqb_refl. cbn [negb].
  rewrite (proj2 (bytes_at_iff _ _ _) (conj Hp eq_refl)). cbn [mbind option_bind].
  rewrite (proj2 (size_iff 32 _)) by (split; [exact H1|lia]). cbn [mbind option_bind]. rewrite Z.eqb_refl. cbn [negb].
  rewrite (proj2 (bytes_at_iff _ _ _) (conj Hh eq_refl)). cbn [mbind option_bind].
  rewrite (proj2 (size_iff 64 _)) by (split; [exact H2|lia]). cbn [mbind option_bind]. rewrite Z.eqb_refl. cbn [negb].
  rewrite (proj2 (tuple_array_iff _ _ _ anchor_at_iff _ _ _) (conj Ha (conj HFa eq_refl))). cbn [mbind option_bind].
  rewrite (proj2 (size_iff 96 _)) by (split; [exact H3|lia]). cbn [mbind option_bind]. rewrite Z.eqb_refl. cbn [negb].
  rewrite (proj2 (tuple_array_iff _ _ _ leaf_at_iff _ _ _) (conj Hl (conj HFl eq_refl))). cbn [mbind option_bind].
  rewrite (proj2 (Z.eqb_eq _ _)) by lia. by destruct e.
Qed.

(** ** The counts *)

Lemma read_word_ok off v : holds b off (num v) -> is_u64 v -> w_ b off = Ok v.
Proof. intros Hh Hv. unfold w_. by rewrite (proj2 (word_iff off v) (conj Hh Hv)). Qed.

Lemma add_ok x y : x + y <= u64_max -> add_ x y = Ok (x + y).
Proof. intros Hle. unfold add_. by rewrite checked_add_ok. Qed.

Lemma word_agrees off v v' : w_ b off = Ok v' -> holds b off (num v) -> is_u64 v -> v' = v.
Proof. intros Hw Hh Hv. rewrite (read_word_ok off v Hh Hv) in Hw. by injection Hw. Qed.

(** The declared siblings of well-formed leaf proofs never exceed the words of the envelope. *)
Lemma bound_leaves_ok off_leaves ls : forall i next steps,
  0 <= i -> 0 <= off_leaves -> 0 <= 32 * steps <= next -> Forall leaf_proof_ok ls ->
  holds b (off_leaves + 32 + 32 * i) (offsets next (map encode_leaf_proof ls)) ->
  holds b (off_leaves + 32 + next) (concat (map encode_leaf_proof ls)) ->
  bound_leaves b off_leaves (zlen b / 32) (length ls) i steps = Ok ().
Proof.
  induction ls as [|p ls IH]; intros i next steps Hi Hoff Hsteps HF Ho Hc; [done|]. cbn [map concat offsets length] in *.
  rewrite occurs_app in Ho, Hc. rewrite num_zlen in Ho. destruct Ho as [Hnum Ho], Hc as [Hp Hc].
  apply Forall_cons in HF as [Hok HF]. pose proof (siblings_zlen p Hok) as Hz. pose proof (encode_leaf_zlen p Hok) as Hez.
  pose proof (holds_bound _ _ _ Hnum) as Hb1. pose proof (holds_bound _ _ _ Hp) as Hb2. rewrite num_zlen in Hb1.
  pose proof (zlen_nonneg (lp_siblings p)) as Hsib. apply leaf_holds in Hp as (_ & _ & H96 & Hn & _); [|done].
  cbn [bound_leaves]. rewrite add_ok by ulia. cbn [rbind].
  replace (off_leaves + (32 + 32 * i)) with (off_leaves + 32 + 32 * i) by lia.
  rewrite (read_word_ok _ _ Hnum) by ulia. cbn [rbind]. rewrite add_ok by ulia. cbn [rbind]. rewrite add_ok by ulia. cbn [rbind].
  rewrite (read_word_ok _ _ H96) by ulia. cbn [rbind]. rewrite add_ok by ulia. cbn [rbind].
  rewrite (read_word_ok _ _ Hn) by ulia. cbn [rbind].
  assert (Hroom : steps + sibling_count p <= zlen b / 32) by (apply Z.div_le_lower_bound; lia).
  rewrite (proj2 (Z.ltb_ge _ _)) by lia. apply (IH (i + 1) (next + zlen (encode_leaf_proof p))); [lia|lia|lia|done| |].
  - by replace (off_leaves + 32 + 32 * (i + 1)) with (off_leaves + 32 + 32 * i + 32) by lia.
  - by replace (off_leaves + 32 + (next + zlen (encode_leaf_proof p))) with (off_leaves + 32 + next + zlen (encode_leaf_proof p)) by lia.
Qed.

Lemma map_zlen {A B} (f : A -> B) l : zlen (map f l) = zlen l.
Proof. unfold zlen. by rewrite length_map. Qed.

(** On a canonical envelope the counts are refused exactly when there are too many anchors. *)
Lemma bound_counts_iff e :
  b = encode_envelope e -> envelope_ok e -> bound_counts b = Ok () <-> zlen (ev_anchors e) <= MAX_ANCHORS.
Proof.
  intros Hb0%envelope_holds [HFa HFl]. cbv zeta in Hb0. destruct Hb0 as [(_ & _ & H2 & H3 & _ & _ & Ha & Hl) Hz].
  set (off_a := 128 + zlen (dyn (ev_policy_body e)) + zlen (dyn (ev_history e))) in *.
  set (off_l := off_a + zlen (encode_tuples (map encode_anchor (ev_anchors e)))) in *.
  pose proof (holds_bound _ _ _ Ha) as Hba. pose proof (holds_bound _ _ _ Hl) as Hbl.
  rewrite encode_tuples_zlen, map_zlen in Hba. rewrite (encode_tuples_zlen (map encode_leaf_proof _)), map_zlen in Hbl. pose proof (zlen_nonneg (ev_anchors e)). pose proof (zlen_nonneg (ev_leaf_proofs e)).
  pose proof (zlen_nonneg (concat (map encode_anchor (ev_anchors e)))).
  pose proof (zlen_nonneg (concat (map encode_leaf_proof (ev_leaf_proofs e)))).
  unfold encode_tuples in Ha, Hl. rewrite map_zlen, !occurs_app, num_zlen in Ha. rewrite map_zlen, !occurs_app, num_zlen in Hl.
  rewrite offsets_zlen, map_zlen in Hl. destruct Ha as (Hna & _ & _), Hl as (Hnl & Hoffs & Hcat).
  unfold bound_counts. cbv zeta. rewrite (read_word_ok _ _ H2) by ulia. cbn [rbind]. rewrite (read_word_ok _ _ H3) by ulia. cbn [rbind].
  rewrite !(proj2 (Z.ltb_ge (zlen b) _)) by lia. cbn [orb]. rewrite (read_word_ok _ _ Hna) by ulia. cbn [rbind].
  rewrite (proj2 (Z.ltb_ge (zlen b) _)) by lia. destruct (Z.ltb_spec MAX_ANCHORS (zlen (ev_anchors e))); [split; [done|lia]|].
  split; [done|intros _]. rewrite (read_word_ok _ _ Hnl) by ulia. cbn [rbind]. rewrite (proj2 (Z.ltb_ge (zlen b) _)) by lia.
  replace (Z.to_nat (zlen (ev_leaf_proofs e))) with (length (ev_leaf_proofs e)) by (unfold zlen; lia).
  apply (bound_leaves_ok off_l (ev_leaf_proofs e) 0 (32 * zlen (ev_leaf_proofs e)) 0); try lia; [done| |done].
  by rewrite Z.mul_0_r, Z.add_0_r.
Qed.

End readers.

Lemma concat_words (l : list bytes) : Forall (fun x => zlen x mod 32 = 0) l -> zlen (concat l) mod 32 = 0.
Proof.
  induction 1 as [|x l Hx HF IH]; [done|]. cbn [concat]. rewrite zlen_app, Z.add_mod, Hx, IH by lia. done.
Qed.

Lemma dyn_words x : zlen (dyn x) mod 32 = 0.
Proof.
  rewrite dyn_zlen, Z.add_mod by lia. destruct (pad32_bounds (zlen x) (zlen_nonneg x)) as [_ ->]. done.
Qed.

Lemma tuples_words l : Forall (fun x => zlen x mod 32 = 0) l -> zlen (encode_tuples l) mod 32 = 0.
Proof.
  intros HF%concat_words. rewrite encode_tuples_zlen, Z.add_mod, HF by lia.
  replace (32 + 32 * zlen l) with ((1 + zlen l) * 32) by lia. by rewrite Z.mod_mul by lia.
Qed.

Lemma envelope_words e : envelope_ok e -> zlen (encode_envelope e) mod 32 = 0 /\ 128 <= zlen (encode_envelope e).
Proof.
  intros [HFa HFl]. unfold encode_envelope. cbv zeta. rewrite !zlen_app, !num_zlen.
  assert (Ha : zlen (encode_tuples (map encode_anchor (ev_anchors e))) mod 32 = 0).
  { apply tuples_words, Forall_map. eapply Forall_impl; [exact HFa|]. intros a Hok. simpl. rewrite encode_anchor_zlen by done.
    pose proof (dyn_words (an_shard a)). pose proof (dyn_words (an_uc a)). pose proof (dyn_words (an_input_record a)). Z.div_mod_to_equations; lia. }
  assert (Hl : zlen (encode_tuples (map encode_leaf_proof (ev_leaf_proofs e))) mod 32 = 0).
  { apply tuples_words, Forall_map. eapply Forall_impl; [exact HFl|]. intros p Hok. simpl. rewrite encode_leaf_zlen by done.
    destruct Hok as (_ & _ & Hm). Z.div_mod_to_equations; lia. }
  pose proof (dyn_words (ev_policy_body e)). pose proof (dyn_words (ev_history e)).
  pose proof (dyn_nonneg (ev_policy_body e)). pose proof (dyn_nonneg (ev_history e)).
  pose proof (zlen_nonneg (encode_tuples (map encode_anchor (ev_anchors e)))).
  pose proof (zlen_nonneg (encode_tuples (map encode_leaf_proof (ev_leaf_proofs e)))). split; [Z.div_mod_to_equations|]; lia.
Qed.

Lemma decode_envelope_iff b e :
  decode_envelope b = Ok e <->
  b = encode_envelope e /\ envelope_ok e /\ zlen b <= MAX_ENVELOPE_BYTES /\ zlen (ev_anchors e) <= MAX_ANCHORS.
Proof.
  unfold decode_envelope. destruct (Z.ltb_spec MAX_ENVELOPE_BYTES (zlen b)) as [Hlt|Hle]; [split; [done|lia]|].
  assert (Hb : zlen b <= slice_max) by (unfold MAX_ENVELOPE_BYTES in Hle; ulia). split.
  - destruct (_ || _); [done|]. intros (? & Hc & H%ok_or_inv)%rbind_ok_inv. destruct x.
    apply layout_sound in H as [He Hok]; [|done]. split_and!; try done. by apply (bound_counts_iff b Hb e He Hok).
  - intros (He & Hok & _ & Ha). destruct (envelope_words e Hok) as [Hm Hlo]. rewrite <- He in Hm, Hlo.
    rewrite (proj2 (Z.eqb_eq _ _) Hm), (proj2 (Z.ltb_ge _ _)) by lia. cbn [negb orb].
    rewrite (proj2 (bound_counts_iff b Hb e He Hok) Ha). cbn [rbind]. by rewrite (layout_complete b Hb e He Hok).
Qed.

(** C30: The bridge's input has one encoding.  A call input is accepted exactly when it is the
    canonical encoding of an operation of one byte, a configuration and an envelope, and an envelope
    exactly when it is the canonical encoding of a policy body, a history, anchors and leaf proofs
    whose integers are in range and whose hashes are words, within the size and anchor limits.  In
    particular no offset, padding byte or trailing byte of an accepted input is free. *)
Theorem bridge_input_canonical b c e :
  (decode_call b = Some c /\ zlen b <= slice_max <->
   b = encode_call c /\ 0 <= call_op c <= u8_max /\ zlen b <= slice_max) /\
  (decode_envelope b = Ok e <->
   b = encode_envelope e /\ envelope_ok e /\ zlen b <= MAX_ENVELOPE_BYTES /\ zlen (ev_anchors e) <= MAX_ANCHORS).
Proof.
  split; [|apply decode_envelope_iff]. split.
  - intros [Hd Hb]. by destruct (decode_call_sound b Hb c Hd).
  - intros (He & Hr & Hb). split; [by apply decode_call_complete | done].
Qed.

End BridgeAbi.
