(* ===== verification/Bridge.v ===== *)
(** The bridge composition, [crates/unicity/bridge/src]: the configuration ([cfg.rs]), the composed
    relation of one redemption ([compose.rs]), the metered call and its output ([lib.rs]) and the
    precompile provider ([provider.rs]).

    The composition joins the token relations of [B2Semantics] and [B2Lineage] to the certificate
    batch of [B1Batch] and the memberships of [B1Membership].  A stage threads the meter and the
    state of the batch verdict; a panic of the source, an overflow of its unchecked arithmetic
    included, is a value of [Stop]. *)
From S2P Require Import Prelude Crypto CborCodec B1Cbor B1Membership B1Registry B1Certificate B1Batch.
From S2P Require Import B2Cbor B2Semantics B2Lineage BridgeAbi.
Import B1Cbor B2Cbor B2Semantics B2Lineage BridgeAbi.

Module Bridge.

Definition MAX_CFG_BYTES : Z := 1024.
Definition MAX_POLICY_BYTES : Z := 512.
Definition MAX_ANCHOR_UC_BYTES : Z := 8192.
Definition MAX_INPUT_RECORD_BYTES : Z := 512.
Definition MAX_RSMT_SIBLINGS : Z := 32.
Definition MAX_SUMMARY_BYTES : Z := 256.
Definition MAX_INPUT_BYTES : Z := 5 * 32 + MAX_CFG_BYTES + MAX_ENVELOPE_BYTES.

(** ** Refusals, halts and panics *)

(** [status_of_b2]; [None] is its [unreachable!]. *)
Definition status_of_b2 (e : Error) : option Status.t :=
  match e with
  | Deadline => Some Status.Deadline
  | DeadlineMismatch => Some Status.DeadlineMismatch
  | LockProofShape => Some Status.LockProofShape
  | LockProofTooLarge => Some Status.LockProofTooLarge
  | JustificationTooLarge => Some Status.JustificationTooLarge
  | ABIFraming => Some Status.ABIFraming
  | BadOperation => Some Status.BadOperation
  | Truncated => Some Status.Truncated
  | Trailing => Some Status.Trailing
  | NonCanonical => Some Status.NonCanonical
  | ForbiddenCBOR => Some Status.ForbiddenCBOR
  | Shape => Some Status.Shape
  | Tag => Some Status.Tag
  | Version => Some Status.Version
  | Length => Some Status.Length
  | IntRange => Some Status.IntRange
  | InputTooLarge | ProofTooLarge => Some Status.InputTooLarge
  | TooManyTx => Some Status.TooManyTx
  | TooManyItems => Some Status.TooManyItems
  | TooDeep => Some Status.TooDeep
  | CfgMismatch => Some Status.CfgMismatch
  | Predicate => Some Status.Predicate
  | MintShape => Some Status.MintShape
  | MintJustif => Some Status.MintJustif
  | MintSalt => Some Status.MintSalt
  | MintType => Some Status.MintType
  | MintData => Some Status.MintData
  | TransferData => Some Status.TransferData
  | CDMismatch => Some Status.CDMismatch
  | Unlock => Some Status.Unlock
  | UnlockLength => Some Status.UnlockLength
  | UnlockScalars => Some Status.UnlockScalars
  | UnlockRecovery => Some Status.UnlockRecovery
  | UnlockKey => Some Status.UnlockKey
  | MinterKey => Some Status.MinterKey
  | RepeatedSID => Some Status.RepeatedSID
  | NoTransfers => Some Status.NoTransfers
  | HasTransfers => Some Status.HasTransfers
  | BurnNotFinal => Some Status.BurnNotFinal
  | NotBurn => Some Status.NotBurn
  | BurnReason => Some Status.BurnReason
  | ReturnData => Some Status.ReturnData
  | ReturnAmount => Some Status.ReturnAmount
  | ReturnRecip => Some Status.ReturnRecip
  | LockInput => Some Status.LockInput
  | ZeroDigest => Some Status.ZeroDigest
  | DeadlineExpired => Some Status.DeadlineExpired
  | LockProofCfg => Some Status.LockProofCfg
  | SplitJustif => Some Status.SplitJustif
  | SplitProofCount => Some Status.SplitProofCount
  | SplitProofShape => Some Status.SplitProofShape
  | SplitManifest => Some Status.SplitManifest
  | SplitBurn => Some Status.SplitBurn
  | SplitProof => Some Status.SplitProof
  | SplitSum => Some Status.SplitSum
  | CertScan => Some Status.CertScan
  | CertSigLength => Some Status.CertSigLength
  | OutOfGas => None
  end.

Inductive Halt (E : Type) :=
| HOutOfGas | HMalformed | HHost (e : E) | HRegistry.
Arguments HOutOfGas {E}.
Arguments HMalformed {E}.
Arguments HHost {E} e.
Arguments HRegistry {E}.

(** A check refuses with a status; the second constructor is a panic. *)
Inductive Refusal := Refuse (s : Status.t) | Broken.
Abbreviation check := (result Refusal).
Definition refuse {A} (s : Status.t) : check A := Err (Refuse s).

(** [.map_err(status_of_b2)]. *)
Definition of_b2 {A} (r : kernel A) : check A :=
  map_err (fun f => match f with
    | Failed e => match status_of_b2 e with Some s => Refuse s | None => Broken end
    | Panicked => Broken end) r.
(** [.map_err(|_| s)]. *)
Definition or_status {A} (s : Status.t) (r : kernel A) : check A :=
  map_err (fun f => match f with Failed _ => Refuse s | Panicked => Broken end) r.
Definition sound {A} (o : option A) : check A := ok_or o Broken.

(** ** The configuration *)

Record Fields := {
  fd_network : Z; fd_root_genesis : bytes; fd_chain : Z; fd_execution_genesis : bytes;
  fd_evm_partition : Z; fd_rest : list bytes }.
Record BridgeCfg := { bc_evm_partition : Z; bc_aggregator_policy_hash : bytes }.

Definition fixed (it : Item) (n : Z) : check bytes := of_b2 (bytes_of it n).

(** The loop over the last nine fields, from item [i]. *)
Fixpoint rest_fields (k : list Item) (i : nat) (sizes : list Z) : check (list bytes) :=
  match sizes with
  | [] => Ok []
  | n :: sizes =>
      let? b := fixed (at_ k i) n in
      let? l := rest_fields k (S i) sizes in
      Ok (b :: l)
  end.

Section composition.
Context `{Crypto} `{K256}.

Definition fields (b : bytes) : check Fields :=
  if MAX_CFG_BYTES <? zlen b then refuse Status.InputTooLarge else
  let? root := of_b2 (one b default_items) in
  let? k := or_status Status.Shape (array_of 16 root) in
  if negb (it_major (at_ k 0) =? 2) || bytes_neq (it_data (at_ k 0)) CFG_DOMAIN then refuse Status.Shape else
  let? network := of_b2 (uint (at_ k 1) 65535) in
  if network =? 0 then refuse Status.IntRange else
  let? root_genesis := fixed (at_ k 2) 32 in
  let? chain := of_b2 (uint (at_ k 3) u64_max) in
  let? execution_genesis := fixed (at_ k 4) 32 in
  let? evm_partition := of_b2 (uint (at_ k 5) u32_max) in
  if negb (it_major (at_ k 6) =? 2) then refuse Status.Shape else
  let? rest := rest_fields k 7 [20; 20; 32; 32; 32; 20; 32; 32; 32] in
  Ok {| fd_network := network; fd_root_genesis := root_genesis; fd_chain := chain;
        fd_execution_genesis := execution_genesis; fd_evm_partition := evm_partition; fd_rest := rest |}.

Definition decode (b : bytes) : check BridgeCfg :=
  let? f := fields b in
  let? last := sound (nth_error (fd_rest f) 8) in
  if zlen last =? 32
  then Ok {| bc_evm_partition := fd_evm_partition f; bc_aggregator_policy_hash := last |}
  else Err Broken.

(** [D = network:rootGenesisHex:executionGenesisHex:chainId:zeroAddressHex]. *)
Definition cfg_identity (network : Z) (root_genesis execution_genesis : bytes) (chain : Z) : bytes :=
  decimal network ++ ascii ":" ++ hex root_genesis ++ ascii ":" ++ hex execution_genesis
  ++ ascii ":" ++ decimal chain ++ ascii ":0000000000000000000000000000000000000000".

Definition validate (b : bytes) : check () :=
  let? f := fields b in
  match fd_rest f with
  | vault :: zero :: ty :: aid :: _ =>
      let d := cfg_identity (fd_network f) (fd_root_genesis f) (fd_execution_genesis f) (fd_chain f) in
      if bytes_neq ty (hash (ascii "unicity-bridge:unicity-native:" ++ d))
         || bytes_neq aid (hash (ascii "unicity-bridge-coin:unicity-native:" ++ d))
         || nonzero zero || negb (nonzero vault)
      then refuse Status.CfgMismatch else Ok ()
  | _ => Err Broken
  end.

(** ** The checks of the composition *)

(** [BridgeItems]: an object's item heads under the native scan, zero if it does not scan. *)
Definition items (b : bytes) : Z :=
  match one_loose b 0 MAX_ITEMS with Ok (_, n) => n | Err _ => 0 end.

Definition history_scan (history : bytes) : option (Item * Z) :=
  match one_loose history 0 usize_max with Ok r => Some r | Err _ => None end.
Definition history_items (history : bytes) : Z :=
  match history_scan history with Some (_, n) => n | None => 0 end.
Definition history_leaves (history : bytes) : check Z :=
  match history_scan history with
  | None => Ok 0
  | Some (root, _) =>
      match item_array 2 root with
      | None => Err Broken
      | Some (Err _) => Ok 0
      | Some (Ok l) => Ok (if it_major (at_ l 1) =? 4 then 1 + it_arg (at_ l 1) else 0)
      end
  end.

Definition POLICY_DOMAIN : bytes := ascii "UNICITY_BR_AGG_PARTITION".

Definition check_policy (cfg : BridgeCfg) (env : Envelope) : check Z :=
  let body := ev_policy_body env in
  if MAX_POLICY_BYTES <? zlen body then refuse Status.InputTooLarge else
  if bytes_neq (hash body) (bc_aggregator_policy_hash cfg) then refuse Status.PolicyHash else
  let? root := of_b2 (one body default_items) in
  let? k := or_status Status.Shape (array_of 3 root) in
  if negb (it_major (at_ k 0) =? 2) || bytes_neq (it_data (at_ k 0)) POLICY_DOMAIN then refuse Status.Shape else
  let? version := of_b2 (uint (at_ k 1) u64_max) in
  if negb (version =? 2) then refuse Status.Version else
  let? partition := of_b2 (uint (at_ k 2) u32_max) in
  if partition =? 0 then refuse Status.IntRange else
  if partition =? bc_evm_partition cfg then refuse Status.PolicyPartition else
  if MAX_ANCHORS <? zlen (ev_anchors env) then refuse Status.TooManyPaths else
  if zlen (ev_anchors env) =? 0 then refuse Status.PolicyAnchors else Ok partition.

(** The depth of a canonical native shard identifier. *)
Definition shard_depth (shard : bytes) : option Z :=
  match last shard with
  | None => None
  | Some l =>
      if bool_decide (l = Byte.x00) || (33 <? zlen shard) then None else
      let d := 8 * zlen shard - B1Certificate.byte_trailing_zeros l - 1 in
      if d <=? 256 then Some d else None
  end.

(** Bit [i] of a byte string, from the high end; the positions read are within both strings. *)
Definition in_shard (shard sid : bytes) : bool :=
  match shard_depth shard with
  | None => false
  | Some d => forallb (fun i => Bool.eqb (B1Membership.bit shard i) (B1Membership.bit sid i)) (seq 0 (Z.to_nat d))
  end.

(** The first loop of [plan_anchors]: every anchor in the partition, no certificate twice. *)
Fixpoint plan_table (partition : Z) (digests : list bytes) (anchors : list Anchor) : check () :=
  match anchors with
  | [] => Ok ()
  | a :: anchors =>
      if bool_decide (shard_depth (an_shard a) = None) || negb (an_partition a =? partition)
      then refuse Status.PolicyTuple else
      let d := hash (an_uc a) in
      if bool_decide (d ∈ digests) then refuse Status.PolicyAnchors else
      plan_table partition (d :: digests) anchors
  end.

(** The second loop: the anchor of each leaf, and the number of anchors in use. *)
Fixpoint plan_leaves (anchors : list Anchor) (l : list (Leaf * LeafProof)) (next : Z) : check (list Z * Z) :=
  match l with
  | [] => Ok ([], next)
  | (leaf, p) :: l =>
      let idx := lp_anchor_index p in
      if zlen anchors <=? idx then refuse Status.PolicyLeafIndex else
      if next <? idx then refuse Status.PolicyLeafIndex else
      let? a := sound (nth_error anchors (Z.to_nat idx)) in
      if negb (in_shard (an_shard a) (lf_sid leaf)) then refuse Status.PolicyLeafIndex else
      let? (plan, next) := plan_leaves anchors l (if idx =? next then next + 1 else next) in
      Ok (idx :: plan, next)
  end.

Definition plan_anchors (partition : Z) (env : Envelope) (outcome : Outcome) : check (list Z) :=
  let leaves := oc_leaves outcome in
  let anchors := ev_anchors env in
  if negb (zlen (ev_leaf_proofs env) =? zlen leaves) then refuse Status.PolicyLeafCount else
  if MAX_ANCHORS <? zlen anchors then refuse Status.TooManyPaths else
  if (zlen anchors =? 0) || (zlen leaves <? zlen anchors) then refuse Status.PolicyAnchors else
  let? _ := plan_table partition [] anchors in
  let? (plan, next) := plan_leaves anchors (combine leaves (ev_leaf_proofs env)) 0 in
  if negb (next =? zlen anchors) then refuse Status.PolicyAnchors else Ok plan.

(** A certificate function of [b1], any error of it [AnchorAuth]. *)
Definition of_b1 {A} (s : Status.t) (r : result B1Certificate.Fault A) : check A :=
  map_err (fun f => match f with B1Certificate.Bad _ => Refuse s | B1Certificate.Panic => Broken end) r.

Definition scan_anchor (a : Anchor) : check () :=
  if (MAX_ANCHOR_UC_BYTES <? zlen (an_uc a)) || (MAX_INPUT_RECORD_BYTES <? zlen (an_input_record a))
  then refuse Status.InputTooLarge else
  let? _ := of_b1 Status.AnchorAuth (B1Certificate.certificate_shape (an_uc a)) in
  let? shard := of_b1 Status.AnchorAuth (B1Certificate.certificate_shard (an_uc a)) in
  if bytes_neq shard (an_shard a) then refuse Status.AnchorAuth else Ok ().

Definition native_scan (b : bytes) (malformed : Status.t) : check () :=
  match one_loose b 0 MAX_ITEMS with
  | Ok _ => Ok ()
  | Err Limit => refuse Status.TooManyItems
  | Err _ => refuse malformed
  end.

Definition bridge_j (cfg : bytes) (env : Envelope) : check () :=
  let? _ := native_scan cfg Status.Shape in
  let? _ := native_scan (ev_policy_body env) Status.Shape in
  each (fun a =>
    let? _ := native_scan (an_uc a) Status.AnchorAuth in
    native_scan (an_input_record a) Status.IRShape) (ev_anchors env).

Definition leaf_path (p : LeafProof) : check Z :=
  let pop := sum_z (map B1Membership.ones (lp_bitmap p)) in
  if negb (pop =? sibling_count p) then refuse Status.PathBitmap else
  if MAX_RSMT_SIBLINGS <? pop then refuse Status.TooManyPaths else Ok pop.

Fixpoint leaf_paths (l : list LeafProof) : check (list Z) :=
  match l with
  | [] => Ok []
  | p :: l => let? n := leaf_path p in let? steps := leaf_paths l in Ok (n :: steps)
  end.

(** [x as u16], [x as u32]. *)
Definition pack_anchor (a : Anchor) : bytes :=
  be_bytes 4 (an_partition a) ++ be_bytes 2 (zlen (an_shard a)) ++ an_shard a
  ++ an_shard_conf_hash a ++ an_expected_state_root a ++ an_expected_ir_hash a
  ++ be_bytes 4 (zlen (an_uc a)) ++ an_uc a.
Definition batch_request (anchors : list Anchor) : bytes :=
  [Byte.x02; Byte.x00] ++ be_bytes 2 (zlen anchors) ++ concat (map pack_anchor anchors).

(** The opened input record: its timestamp and state. *)
Definition record_shape (raw : bytes) : kernel (Z * bytes) :=
  let? root := one raw default_items in
  if negb (it_major root =? 6) || negb (it_arg root =? 39002) then raise Shape else
  let? inner := one (it_data root) default_items in
  let? k := array_of 10 inner in
  let? v := uint (at_ k 0) u64_max in
  if negb (v =? 1) then raise Shape else
  let? _ := each (fun i => let? _ := uint (at_ k i) u64_max in Ok ()) [1; 2; 6; 8]%nat in
  let? _ := each (fun i => if null (at_ k i) then Ok () else let? _ := bytes_of (at_ k i) 32 in Ok ()) [3; 7; 9]%nat in
  let? state := bytes_of (at_ k 4) 32 in
  let? _ := (if null (at_ k 5) then Ok () else let? _ := blob (at_ k 5) MAX_SUMMARY_BYTES in Ok ()) in
  Ok (it_arg (at_ k 6), state).

Definition open_anchor (a : Anchor) : check Z :=
  let raw := an_input_record a in
  if (zlen raw =? 0) || (MAX_INPUT_RECORD_BYTES <? zlen raw) then refuse Status.IRShape else
  if bytes_neq (hash raw) (an_expected_ir_hash a) then refuse Status.IROpening else
  let? (timestamp, state) := or_status Status.IRShape (record_shape raw) in
  if bytes_neq state (an_expected_state_root a) then refuse Status.IRState else Ok timestamp.

Fixpoint open_anchors (l : list Anchor) : check (list Z) :=
  match l with
  | [] => Ok []
  | a :: l => let? t := open_anchor a in let? times := open_anchors l in Ok (t :: times)
  end.

(** No leaf is referenced after the time of its anchor. *)
Fixpoint leaf_times (times : list Z) (l : list (Leaf * Z)) : check () :=
  match l with
  | [] => Ok ()
  | (leaf, j) :: l =>
      let? t := sound (nth_error times (Z.to_nat j)) in
      if t <? lf_reference_time leaf then refuse Status.IRTime else leaf_times times l
  end.

Definition member_input (root key value : bytes) (p : LeafProof) : bytes :=
  [Byte.x01; Byte.x00; Byte.x00; Byte.x01] ++ root ++ key ++ be_bytes 4 32 ++ value ++ lp_bitmap p ++ lp_siblings p.

Definition is_member (input : bytes) : bool :=
  match B1Membership.membership (E := Empty_set) input u64_max with
  | Ok out => b2z (nth 63 (B1Membership.out_bytes out) Byte.x00) =? 1
  | Err _ => false
  end.

End composition.

(** ** The meter and the stages *)

Definition BASE : Z := 100000.
Definition PER_BYTE : Z := 2.
Definition METER_PER_ITEM : Z := 20.
Definition METER_PER_LEAF : Z := 16000.
Definition PER_SIGNATURE : Z := 7200.
Definition PER_EPOCH : Z := 29900.
Definition PER_CLAIM : Z := 2000.
Definition PER_STEP : Z := 250.
Definition PER_GROUPING : Z := 50.

(** [Meter::charge] on the gas used so far. *)
Definition meter_charge (limit used gas : Z) : option Z :=
  match checked_add used gas with
  | Some used => if used <=? limit then Some used else None
  | None => None
  end.

(** [u64::leading_zeros]. *)
Definition leading_zeros (x : Z) : Z := if x =? 0 then 64 else 63 - Z.log2 x.

Definition meter_batch (d : B1Batch.Dimensions) : Z :=
  let log2 := if B1Batch.dm_k d <=? 1 then 0 else 64 - leading_zeros (B1Batch.dm_k d - 1) in
  PER_SIGNATURE * B1Batch.dm_q d + PER_EPOCH * B1Batch.dm_e d + PER_CLAIM * B1Batch.dm_a d
  + PER_STEP * B1Batch.dm_p d + PER_GROUPING * B1Batch.dm_k d * log2.

(** The trait [Verdict]: one certificate batch, over the state of its implementation; [Err None] is
    a panic. *)
Class Verdict := {
  VState : Type;
  VError : Type;
  verdict_batch : bytes -> VState -> result (option (Halt VError)) bool * VState }.

Inductive Stop (E : Type) := StopStatus (s : Status.t) | StopHalt (h : Halt E) | StopPanic.
Arguments StopStatus {E} s.
Arguments StopHalt {E} h.
Arguments StopPanic {E}.

Section stages.
Context `{Crypto} `{K256} `{Verdict} (limit : Z).

Definition state : Type := Z * VState.
Definition stage (A : Type) : Type := state -> result (Stop VError) A * state.

Definition gret {A} (a : A) : stage A := fun s => (Ok a, s).
Definition gbind {A B} (c : stage A) (k : A -> stage B) : stage B := fun s =>
  match c s with
  | (Ok a, s) => k a s
  | (Err e, s) => (Err e, s)
  end.
#[local] Notation "'let!' x ':=' c 'in' k" := (gbind c (fun x => k))
  (at level 10, x pattern, c at level 200, k at level 200) : unicity_scope.

Definition checked {A} (r : check A) : stage A := fun s =>
  (map_err (fun f => match f with Refuse s => StopStatus s | Broken => StopPanic end) r, s).

(** A payment; an amount that does not fit its type is an overflow of the expression that computed it. *)
Definition pay (gas : Z) : stage () := fun s =>
  if u64_max <? gas then (Err StopPanic, s) else
  match meter_charge limit s.1 gas with
  | Some used => (Ok (), (used, s.2))
  | None => (Err (StopHalt HOutOfGas), s)
  end.

(** The charge the lineage relation pays through. *)
Definition lineage_charge (gas : Z) (s : state) : kernel () * state :=
  match meter_charge limit s.1 gas with
  | Some used => (Ok (), (used, s.2))
  | None => (raise OutOfGas, s)
  end.

Definition lineage_stage (cfg history : bytes) : stage Outcome := fun s =>
  match lineage_relation lineage_charge cfg history s with
  | (Ok o, s) => (Ok o, s)
  | (Err (Failed OutOfGas), s) => (Err (StopHalt HOutOfGas), s)
  | (Err f, s) => checked (of_b2 (Err f)) s
  end.

Definition batch_stage (request : bytes) : stage bool := fun s =>
  match verdict_batch request s.2 with
  | (Ok b, v) => (Ok b, (s.1, v))
  | (Err (Some h), v) => (Err (StopHalt h), (s.1, v))
  | (Err None, v) => (Err StopPanic, (s.1, v))
  end.

(** The last loop: each leaf's membership in the state of its anchor. *)
Fixpoint members (anchors : list Anchor) (l : list (Leaf * Z * LeafProof * Z)) : stage () :=
  match l with
  | [] => gret ()
  | (leaf, j, p, n) :: l =>
      let! _ := pay (PER_STEP * n) in
      let! a := checked (sound (nth_error anchors (Z.to_nat j))) in
      if is_member (member_input (an_expected_state_root a) (lf_sid leaf) (lf_value leaf) p)
      then members anchors l
      else checked (refuse Status.LeafProof)
  end.

Definition compose_outcome (call : Call) (lineage : bool) : stage Outcome :=
  if negb (call_op call =? 1) && negb (call_op call =? 2) then checked (refuse Status.BadOperation) else
  let! cfg := checked (decode (call_cfg call)) in
  let! _ := pay (METER_PER_ITEM * items (call_cfg call)) in
  let! _ := checked (validate (call_cfg call)) in
  let! env := checked (map_err Refuse (decode_envelope (call_envelope call))) in
  let! partition := checked (check_policy cfg env) in
  let! _ := pay (METER_PER_ITEM * items (ev_policy_body env)) in
  let! leaves := checked (history_leaves (ev_history env)) in
  let! _ := pay (METER_PER_ITEM * history_items (ev_history env) + METER_PER_LEAF * leaves) in
  let! outcome :=
    (if lineage && (call_op call =? 2) then lineage_stage (call_cfg call) (ev_history env)
     else checked (of_b2 (relation (call_op call) (call_cfg call) (ev_history env) (fun _ => Ok ())))) in
  let! leaf_anchor := checked (plan_anchors partition env outcome) in
  let! _ := checked (each scan_anchor (ev_anchors env)) in
  let! _ := checked (bridge_j (call_cfg call) env) in
  let! _ := pay (METER_PER_ITEM *
    sum_z (map (fun a => items (an_uc a) + items (an_input_record a)) (ev_anchors env))) in
  let request := batch_request (ev_anchors env) in
  let! dims := checked
    (match B1Batch.dimensions_with request B1Batch.COMPOSED with
     | Some (Ok d) => Ok d
     | Some (Err _) => refuse Status.AnchorAuth
     | None => Err Broken
     end) in
  let! _ := pay (meter_batch dims) in
  let! steps := checked (leaf_paths (ev_leaf_proofs env)) in
  let! valid := batch_stage request in
  if negb valid then checked (refuse Status.AnchorAuth) else
  let! times := checked (open_anchors (ev_anchors env)) in
  let! _ := checked (leaf_times times (combine (oc_leaves outcome) leaf_anchor)) in
  let! _ := members (ev_anchors env)
    (combine (combine (combine (oc_leaves outcome) leaf_anchor) (ev_leaf_proofs env)) steps) in
  gret outcome.

(** ** The call *)

Definition MARKER : bytes := ascii "UNICITY_BRIDGE_COMPOSE_V1" ++ replicate 7 Byte.x00.
Definition MARKER_V2 : bytes := ascii "UNICITY_BRIDGE_COMPOSE_V2" ++ replicate 7 Byte.x00.
Definition OUTPUT_BYTES : nat := 384.
Definition OUTPUT_BYTES_V2 : nat := 480.

Record Fixed := {
  fx_cfg : bytes; fx_nonce : Z; fx_amount : bytes; fx_token_id : bytes; fx_salt : bytes;
  fx_first_predicate_hash : bytes; fx_lock_digest : bytes; fx_release_to : bytes; fx_nullifier : bytes;
  fx_leaf_count : Z }.
Definition fixed_of (o : Outcome) : Fixed := {|
  fx_cfg := oc_cfg o; fx_nonce := oc_nonce o; fx_amount := oc_amount o; fx_token_id := oc_token_id o;
  fx_salt := oc_salt o; fx_first_predicate_hash := oc_first_predicate_hash o;
  fx_lock_digest := oc_lock_digest o; fx_release_to := oc_release_to o; fx_nullifier := oc_nullifier o;
  fx_leaf_count := zlen (oc_leaves o) |}.
Definition default_fixed : Fixed := {|
  fx_cfg := ZERO32; fx_nonce := 0; fx_amount := ZERO32; fx_token_id := ZERO32; fx_salt := ZERO32;
  fx_first_predicate_hash := ZERO32; fx_lock_digest := ZERO32; fx_release_to := ZERO20;
  fx_nullifier := ZERO32; fx_leaf_count := 0 |}.

(** [out[pos..pos + x.len()].copy_from_slice(x)]. *)
Definition copy_at (pos : nat) (x out : bytes) : bytes := take pos out ++ x ++ drop (pos + length x) out.

Definition fixed_encode (f : Fixed) (status : Z) : bytes :=
  let out := copy_at 0 MARKER (replicate OUTPUT_BYTES Byte.x00) in
  let out := copy_at 56 (be_bytes 8 status) out in
  if negb (status =? 0) then out else
  let out := copy_at 64 (fx_cfg f) out in
  let out := copy_at 120 (be_bytes 8 (fx_nonce f)) out in
  let out := copy_at 128 (fx_amount f) out in
  let out := copy_at 160 (fx_token_id f) out in
  let out := copy_at 192 (fx_salt f) out in
  let out := copy_at 224 (fx_first_predicate_hash f) out in
  let out := copy_at 256 (fx_lock_digest f) out in
  let out := copy_at 300 (fx_release_to f) out in
  let out := copy_at 320 (fx_nullifier f) out in
  copy_at 376 (be_bytes 8 (fx_leaf_count f)) out.

Record FixedV2 := { f2_root : Fixed; f2_part_token_id : bytes; f2_part_amount : bytes; f2_depth : Z }.
Definition fixed_v2_of (o : Outcome) : FixedV2 := {|
  f2_root := fixed_of o; f2_part_token_id := oc_part_token_id o; f2_part_amount := oc_part_amount o;
  f2_depth := oc_depth o |}.
Definition default_fixed_v2 : FixedV2 := {|
  f2_root := default_fixed; f2_part_token_id := ZERO32; f2_part_amount := ZERO32; f2_depth := 0 |}.
Definition fixed_v2_encode (f : FixedV2) (status : Z) : bytes :=
  let out := copy_at 0 (fixed_encode (f2_root f) status) (replicate OUTPUT_BYTES_V2 Byte.x00) in
  let out := copy_at 0 MARKER_V2 out in
  if status =? 0 then
    let out := copy_at 384 (f2_part_token_id f) out in
    let out := copy_at 416 (f2_part_amount f) out in
    copy_at 472 (be_bytes 8 (f2_depth f)) out
  else out.

Definition compose (call : Call) : stage Fixed :=
  let! o := compose_outcome call false in gret (fixed_of o).

(** The part of a mint is the whole token. *)
Definition compose_v2 (call : Call) : stage FixedV2 :=
  let! o := compose_outcome call true in
  gret (fixed_v2_of (if call_op call =? 1 then as_part o else o)).

(** The closure of [run]: the entry charge, the size, the call, the composition. *)
Definition entry {A} (relation : Call -> stage A) (input : bytes) : stage A :=
  let! _ := (fun s =>
    match meter_charge limit s.1 (saturating_add BASE (saturating_mul PER_BYTE (zlen input))) with
    | Some used => (Ok (), (used, s.2))
    | None => (Err (StopHalt HOutOfGas), s)
    end) in
  if MAX_INPUT_BYTES <? zlen input then checked (refuse Status.InputTooLarge) else
  match decode_call input with
  | None => fun s => (Err (StopHalt HMalformed), s)
  | Some call => relation call
  end.

Record Output := { ot_gas : Z; ot_bytes : bytes; ot_status : Status.t }.

(** The output of a call from the end of its closure; [Err None] is a panic. *)
Definition finish {A} (encode : A -> Z -> bytes) (default : A) (r : result (Stop VError) A * state)
    : result (option (Halt VError)) Output * VState :=
  match r with
  | (Ok f, (used, v)) =>
      (Ok {| ot_gas := used; ot_bytes := encode f (Status.code Status.Ok); ot_status := Status.Ok |}, v)
  | (Err (StopStatus s), (used, v)) =>
      (Ok {| ot_gas := used; ot_bytes := encode default (Status.code s); ot_status := s |}, v)
  | (Err (StopHalt h), (_, v)) => (Err (Some h), v)
  | (Err StopPanic, (_, v)) => (Err None, v)
  end.

Definition run (input : bytes) (v : VState) : result (option (Halt VError)) Output * VState :=
  finish fixed_encode default_fixed (entry compose input (0, v)).
Definition run_v2 (input : bytes) (v : VState) : result (option (Halt VError)) Output * VState :=
  finish fixed_v2_encode default_fixed_v2 (entry compose_v2 input (0, v)).

End stages.

(** ** The provider *)

Section provider.
Context `{Crypto} `{K256} `{B1Registry.RegistryRead} (pins : B1Registry.Pins).

(** The verdict of the registry in the journal: a malformed request is false, and reads nothing. *)
Definition registry_batch (request : bytes) (j : B1Registry.Journal) : result (option (Halt B1Registry.HostError)) bool * B1Registry.Journal :=
  match B1Batch.run_with request u64_max pins B1Batch.COMPOSED j with
  | Ok ((out, _), j) => (Ok (b2z (nth 63 (B1Membership.out_bytes out) Byte.x00) =? 1), j)
  | Err (B1Batch.Refused (B1Membership.BadRequest _)) => (Ok false, j)
  | Err (B1Batch.Refused B1Membership.OutOfGas) => (Err (Some HOutOfGas), j)
  | Err (B1Batch.Refused (B1Membership.Host e)) => (Err (Some (HHost e)), j)
  | Err (B1Batch.Refused B1Membership.Registry) => (Err (Some HRegistry), j)
  | Err B1Batch.Crash => (Err None, j)
  end.

#[global] Instance registry_verdict : Verdict :=
  {| VState := B1Registry.Journal; VError := B1Registry.HostError; verdict_batch := registry_batch |}.

(** [ComposePrecompile::call]; [None] is a panic. *)
Definition compose_call (v2 : bool) (data : bytes) (gas : Z) (j : B1Registry.Journal) : option B1Batch.PrecompileOutcome :=
  match (if v2 then run_v2 gas data j else run gas data j) with
  | (Ok out, _) => Some (B1Batch.Returned (ot_gas out) (ot_bytes out))
  | (Err (Some HOutOfGas), _) => Some B1Batch.HaltOutOfGas
  | (Err (Some HMalformed), _) => Some (B1Batch.HaltOther "malformed bridge compose input")
  | (Err (Some (HHost _)), _) => Some B1Batch.Fatal
  | (Err (Some HRegistry), _) => Some B1Batch.Fatal
  | (Err None, _) => None
  end.

End provider.

End Bridge.
