(* ===== verification/BridgeSafety.v ===== *)
(** The bridge composition always ends in an answer: no check of it panics, no payment overflows,
    the gas used never exceeds the gas forwarded, and a refused redemption still pays. *)
From S2P Require Import Prelude Crypto CborCodec B1Cbor B1Membership B1Registry B1Certificate B1Batch.
From S2P Require Import B2Cbor B2Semantics B2Quiet B2Lineage BridgeAbi Bridge.
Import B1Cbor B2Cbor B2Semantics B2Lineage BridgeAbi Bridge.

Module BridgeSafety.

(** ** Checks *)

(** A check that does not panic, refuses with a reason, and whose value satisfies [P]. *)
Definition csafe {A} (P : A -> Prop) (r : check A) : Prop :=
  match r with Ok a => P a | Err (Refuse s) => s <> Status.Ok | Err Broken => False end.

Section csafe.
Context {A B : Type}.

Lemma csafe_refuse (P : A -> Prop) s : s <> Status.Ok -> csafe P (refuse s).
Proof. done. Qed.
Lemma csafe_bind (P : A -> Prop) (Q : B -> Prop) r k :
  csafe P r -> (forall a, r = Ok a -> P a -> csafe Q (k a)) -> csafe Q (rbind r k).
Proof. destruct r as [a|[]]; simpl; auto. Qed.
Lemma csafe_if (P : A -> Prop) (b : bool) r q :
  (b = true -> csafe P r) -> (b = false -> csafe P q) -> csafe P (if b then r else q).
Proof. destruct b; auto. Qed.
Lemma csafe_mono (P Q : A -> Prop) r : csafe P r -> (forall a, r = Ok a -> P a -> Q a) -> csafe Q r.
Proof. destruct r as [a|[]]; simpl; auto. Qed.
Lemma csafe_value (P : A -> Prop) r a : csafe P r -> r = Ok a -> P a.
Proof. by intros Hr ->. Qed.

(** The kernel's results, as the composition reads them. *)
Lemma csafe_or_status (P : A -> Prop) s r : s <> Status.Ok -> safe P r -> csafe P (or_status s r).
Proof. by destruct r as [a|[]]. Qed.
Lemma csafe_of_b2 (P : A -> Prop) r : safe P r -> B2Quiet.quiet r -> csafe P (of_b2 r).
Proof.
  destruct r as [a|[e|]]; simpl; try done. intros _ Hq. unfold of_b2. simpl.
  destruct e; simpl; try done.
Qed.
End csafe.

Lemma csafe_each {A} (f : A -> check ()) l : (forall a, a ∈ l -> csafe (fun _ => True) (f a)) -> csafe (fun _ => True) (each f l).
Proof.
  induction l as [|a l IH]; intros Hf; cbn [each]; [done|]. eapply csafe_bind; [apply Hf; left|].
  intros _ _ _. apply IH. intros x Hx. apply Hf. by right.
Qed.

(** Follows a check down to its calls, and keeps what each returned. *)
Ltac csafe_go :=
  repeat first
    [ apply csafe_refuse; discriminate
    | apply csafe_if; intros
    | match goal with
      | |- csafe _ (rbind (of_b2 (uint _ _)) _) =>
          eapply csafe_bind; [apply csafe_of_b2; [apply safe_uint; eauto with b2 | apply B2Quiet.uint_quiet]|]; intros
      | |- csafe _ (rbind (of_b2 (one _ default_items)) _) =>
          eapply csafe_bind; [apply csafe_of_b2; [apply (safe_one _ default_items); done | apply B2Quiet.one_quiet]|]; intros
      | |- csafe _ (rbind (or_status _ (array_of _ _)) _) =>
          eapply csafe_bind; [apply csafe_or_status; [discriminate|apply safe_array_of; assumption]|]; intros
      | |- csafe _ (rbind (fixed _ _) _) =>
          eapply csafe_bind; [apply csafe_of_b2; [apply safe_bytes_of; eauto with b2 | apply B2Quiet.bytes_of_quiet]|]; intros
      end ].

Lemma nth_error_lookup_eq {A} (l : list A) i : nth_error l i = l !! i.
Proof. revert i. induction l as [|x l IH]; intros [|i]; simpl; done || apply IH. Qed.

Section checks.
Context `{Crypto} `{K256}.

Lemma rest_fields_safe k i sizes :
  items_ok 16 k -> (i + length sizes <= 16)%nat ->
  csafe (fun l => Forall2 (fun x n => zlen x = n) l sizes) (rest_fields k i sizes).
Proof.
  intros Hk. revert i. induction sizes as [|n sizes IH]; intros i Hi; cbn [rest_fields]; [constructor|]. simpl in Hi.
  eapply csafe_bind; [apply csafe_of_b2; [apply safe_bytes_of, (at_scanned 16); [done|lia] | apply B2Quiet.bytes_of_quiet]|].
  intros b _ (_ & Hb & _). eapply csafe_bind; [apply IH; lia|]. intros l _ Hl. by constructor.
Qed.

Definition field_sizes : list Z := [20; 20; 32; 32; 32; 20; 32; 32; 32].

Lemma fields_safe b : csafe (fun f => Forall2 (fun x n => zlen x = n) (fd_rest f) field_sizes) (fields b).
Proof.
  unfold fields. csafe_go. eapply csafe_bind; [apply (rest_fields_safe _ 7 field_sizes); [eassumption|simpl; lia]|].
  intros l _ Hl. exact Hl.
Qed.

Lemma decode_safe b : csafe (fun c => zlen (bc_aggregator_policy_hash c) = 32) (decode b).
Proof.
  unfold decode. eapply csafe_bind; [apply fields_safe|]. intros f _ Hf.
  destruct (Forall2_lookup_r _ _ _ 8%nat 32 Hf eq_refl) as (x & Hx & Hz).
  rewrite nth_error_lookup_eq, Hx. cbn [sound ok_or rbind]. by rewrite Hz.
Qed.

Lemma validate_safe b : csafe (fun _ => True) (validate b).
Proof.
  unfold validate. eapply csafe_bind; [apply fields_safe|]. intros f _ Hf%Forall2_length.
  destruct (fd_rest f) as [|vault [|zero [|ty [|aid l]]]]; try done. cbv zeta. by apply csafe_if.
Qed.

Lemma check_policy_safe cfg env :
  csafe (fun p => 0 <= zlen (ev_anchors env) <= MAX_ANCHORS) (check_policy cfg env).
Proof.
  unfold check_policy. cbv zeta. csafe_go. split; [apply zlen_nonneg|lia].
Qed.

(** ** The scans *)

Lemma sizes_encs l : Forall (fun t => Z.of_nat (B1Cbor.size t) <= zlen (enc t)) l ->
  Z.of_nat (sum_list_with B1Cbor.size l) <= zlen (encs l).
Proof.
  induction 1 as [|t l Ht HF IH]; [done|]. unfold encs in *. cbn [sum_list_with map concat].
  rewrite zlen_app, Nat2Z.inj_add. lia.
Qed.

(** An item takes at least a byte. *)
Lemma size_enc t : Z.of_nat (B1Cbor.size t) <= zlen (enc t).
Proof.
  assert (Hn : forall n t, (B1Cbor.size t <= n)%nat -> Z.of_nat (B1Cbor.size t) <= zlen (enc t)); [|by eapply Hn].
  clear t. induction n as [|n IH]; intros t Ht; rewrite size_view in *; [lia|].
  rewrite enc_view, zlen_app. pose proof (major_nonempty (kind t) (arg t)). pose proof (zlen_nonneg (payload t)).
  destruct (subtrees t) as [|x l] eqn:Hs; [simpl; lia|].
  assert (Hp : payload t = encs (x :: l)) by (by destruct t; simpl in *; rewrite ?Hs).
  rewrite Hp. pose proof (sizes_encs (x :: l)) as He. rewrite Nat2Z.inj_succ. apply Z.le_trans with (1 + zlen (encs (x :: l))); [|lia].
  enough (Z.of_nat (sum_list_with B1Cbor.size (x :: l)) <= zlen (encs (x :: l))) by lia. apply He.
  apply Forall_forall. intros y Hy. apply IH. apply (sum_list_with_in _ B1Cbor.size) in Hy. lia.
Qed.

Lemma items_range b : 0 <= items b <= MAX_ITEMS.
Proof.
  unfold items. destruct (one_loose b 0 MAX_ITEMS) as [[it n]|] eqn:Hr; [|done].
  apply run_scan_iff in Hr as (t & _ & _ & _ & -> & Hc). lia.
Qed.

Lemma history_scan_tree history it n :
  history_scan history = Some (it, n) ->
  exists t, it = view t /\ history = enc t /\ child_ok t /\ n = Z.of_nat (B1Cbor.size t).
Proof.
  unfold history_scan. destruct (one_loose history 0 usize_max) as [[x m]|] eqn:Hr; [|done]. intros [= -> ->].
  apply run_scan_iff in Hr as (t & Hg & -> & -> & -> & Hc). exists t. split_and!; try done; lia.
Qed.

Lemma history_items_range history : 0 <= history_items history <= zlen history.
Proof.
  unfold history_items. destruct (history_scan history) as [[it n]|] eqn:Hs; [|pose proof (zlen_nonneg history); lia].
  apply history_scan_tree in Hs as (t & _ & -> & _ & ->). pose proof (size_enc t). lia.
Qed.

Lemma zlen_sizes l : zlen l <= Z.of_nat (sum_list_with B1Cbor.size l).
Proof.
  induction l as [|t l IH]; [done|]. rewrite zlen_cons. cbn [sum_list_with]. rewrite (size_view t). lia.
Qed.

Lemma history_leaves_safe history : csafe (fun n => 0 <= n <= 1 + zlen history) (history_leaves history).
Proof.
  unfold history_leaves. pose proof (zlen_nonneg history). destruct (history_scan history) as [[it n]|] eqn:Hs; [|simpl; lia].
  apply history_scan_tree in Hs as (t & -> & -> & Hc & ->).
  rewrite native_array by (apply scanned_child_ok; by exists t).
  rewrite array_of_view by done. destruct t as [| | |l| | |]; try (cbn [raise csafe]; lia).
  case_bool_decide as Hl; [|cbn [raise csafe]; lia]. destruct l as [|t1 [|t2 [|]]]; try discriminate Hl. cbn [map at_ nth csafe].
  destruct (Z.eqb_spec (it_major (view t2)) 4) as [H4|]; [|lia]. destruct t2 as [| | |l2| | |]; try discriminate H4.
  cbn [view it_arg arg]. pose proof (zlen_nonneg l2). pose proof (zlen_sizes l2).
  pose proof (size_enc (TArray [t1; TArray l2])) as Hz. cbn [B1Cbor.size sum_list_with] in Hz. lia.
Qed.

(** ** The plan *)

Lemma plan_table_safe partition digests anchors : csafe (fun _ => True) (plan_table partition digests anchors).
Proof.
  revert digests. induction anchors as [|a anchors IH]; intros digests; cbn [plan_table]; [done|]. cbv zeta.
  repeat (apply csafe_if; intros; [done|]). apply IH.
Qed.

Lemma plan_leaves_safe anchors l next :
  Forall (fun x => 0 <= lp_anchor_index x.2) l ->
  csafe (fun r => Forall (fun j => 0 <= j < zlen anchors) r.1 /\ length r.1 = length l) (plan_leaves anchors l next).
Proof.
  intros HF. revert next. induction HF as [|[leaf p] l Hx HF IH]; intros next; cbn [plan_leaves]; [done|]. simpl in Hx. cbv zeta.
  apply csafe_if; intros Hlt; [done|]. apply csafe_if; intros _; [done|].
  destruct (lookup_lt_is_Some_2 anchors (Z.to_nat (lp_anchor_index p))) as [a Ha]; [unfold zlen in Hlt; lia|].
  rewrite nth_error_lookup_eq, Ha. cbn [sound ok_or rbind]. apply csafe_if; intros _; [done|].
  eapply csafe_bind; [apply IH|]. intros [plan next'] _ [Hpl Hlen]. simpl in Hpl, Hlen |- *.
  split; [constructor; [lia|done] | by rewrite Hlen].
Qed.

Lemma plan_anchors_safe partition env outcome :
  envelope_ok env ->
  csafe (fun plan => Forall (fun j => 0 <= j < zlen (ev_anchors env)) plan /\
    length plan = length (oc_leaves outcome) /\ length (ev_leaf_proofs env) = length (oc_leaves outcome))
    (plan_anchors partition env outcome).
Proof.
  intros [_ Hl]. unfold plan_anchors. cbv zeta. apply csafe_if; intros Hcount; [done|].
  repeat (apply csafe_if; intros; [done|]). eapply csafe_bind; [apply plan_table_safe|]. intros _ _ _.
  eapply csafe_bind; [apply plan_leaves_safe|].
  { apply Forall_forall. intros [leaf p] Hin. apply list_elem_of_In, in_combine_r, list_elem_of_In in Hin.
    rewrite Forall_forall in Hl. by destruct (Hl p Hin) as [[? _] _]. }
  intros [plan next] _ [HF Hlen]. simpl in HF, Hlen. apply csafe_if; intros _; [done|]. simpl.
  assert (length (ev_leaf_proofs env) = length (oc_leaves outcome)) as He by (unfold zlen in Hcount; lia).
  rewrite length_combine, He, Nat.min_id in Hlen. done.
Qed.

(** ** The anchors *)

Lemma scan_anchor_safe a : csafe (fun _ => True) (scan_anchor a).
Proof.
  unfold scan_anchor. apply csafe_if; intros _; [done|].
  pose proof (B1Certificate.np_certificate_shape (an_uc a)) as Hn.
  destruct (B1Certificate.certificate_shape (an_uc a)) as [[]|[m|]] eqn:Hc; [|done|done].
  destruct (B1Certificate.certificate_shard_total _ Hc) as [sh ->]. cbn [of_b1 map_err rbind]. by apply csafe_if.
Qed.

Lemma native_scan_safe b s : s <> Status.Ok -> csafe (fun _ => True) (native_scan b s).
Proof. intros Hs. unfold native_scan. destruct (one_loose _ _ _) as [|[]]; done. Qed.

Lemma bridge_j_safe cfg env : csafe (fun _ => True) (bridge_j cfg env).
Proof.
  unfold bridge_j. eapply csafe_bind; [by apply native_scan_safe|]. intros _ _ _.
  eapply csafe_bind; [by apply native_scan_safe|]. intros _ _ _. apply csafe_each. intros a _.
  eapply csafe_bind; [by apply native_scan_safe|]. intros _ _ _. by apply native_scan_safe.
Qed.

Lemma leaf_paths_safe l :
  csafe (fun steps => length steps = length l /\ Forall (fun n => 0 <= n <= MAX_RSMT_SIBLINGS) steps) (leaf_paths l).
Proof.
  induction l as [|p l IH]; cbn [leaf_paths]; [done|].
  apply (csafe_bind (fun n => 0 <= n <= MAX_RSMT_SIBLINGS)).
  { unfold leaf_path. cbv zeta. repeat (apply csafe_if; intros; [done|]). simpl.
    rewrite <- B1Membership.bits_count in *. pose proof (zlen_nonneg (B1Membership.bits (lp_bitmap p))). lia. }
  intros n _ Hn. eapply csafe_bind; [exact IH|]. intros steps _ [Hl HF]. simpl. split; [lia | by constructor].
Qed.

Lemma safe_each {A} (f : A -> kernel ()) l :
  (forall a, a ∈ l -> safe (fun _ => True) (f a)) -> safe (fun _ => True) (each f l).
Proof.
  induction l as [|a l IH]; intros Hf; cbn [each]; [done|]. eapply safe_bind; [apply Hf; left|].
  intros _ _. apply IH. intros x Hx. apply Hf. by right.
Qed.

Lemma record_shape_safe raw : safe (fun _ => True) (record_shape raw).
Proof.
  unfold record_shape. eapply safe_bind; [apply (safe_one _ default_items); done|]. intros root _. apply safe_if; [done|]. intros _.
  eapply safe_bind; [apply (safe_one _ default_items); done|]. intros inner Hi.
  eapply safe_bind; [by apply safe_array_of|]. intros k Hk. eapply safe_bind; [apply safe_uint|]. intros v _.
  apply safe_if; [done|]. intros _. eapply safe_bind; [apply safe_each|].
  { intros i _. eapply safe_bind; [apply safe_uint|]. intros; exact I. }
  intros _ _. eapply safe_bind; [apply safe_each|].
  { intros i Hin. apply safe_if; [done|]. intros _. eapply safe_bind; [apply safe_bytes_of, (at_scanned 10); [exact Hk|]|intros; exact I].
    rewrite !elem_of_cons, elem_of_nil in Hin. lia. }
  intros _ _. eapply safe_bind; [apply safe_bytes_of, (at_scanned 10); [exact Hk|lia]|]. intros state _.
  eapply (safe_bind (fun _ => True)); [|intros; exact I]. apply safe_if; [done|]. intros _.
  eapply safe_bind; [apply safe_blob|]. intros; exact I.
Qed.

Lemma open_anchors_safe l : csafe (fun times => length times = length l) (open_anchors l).
Proof.
  induction l as [|a l IH]; cbn [open_anchors]; [done|]. apply (csafe_bind (fun _ => True)).
  { unfold open_anchor. cbv zeta. repeat (apply csafe_if; intros; [done|]).
    eapply csafe_bind; [apply csafe_or_status; [done|apply record_shape_safe]|]. intros [t state] _ _. by apply csafe_if. }
  intros t _ _. eapply csafe_bind; [exact IH|]. intros times _ Hl. exact (f_equal S Hl).
Qed.

Lemma leaf_times_safe times l :
  Forall (fun x => 0 <= x.2 < zlen times) l -> csafe (fun _ => True) (leaf_times times l).
Proof.
  induction 1 as [|[leaf j] l Hj HF IH]; cbn [leaf_times]; [done|]. simpl in Hj.
  destruct (lookup_lt_is_Some_2 times (Z.to_nat j)) as [t Ht]; [unfold zlen in Hj; lia|].
  rewrite nth_error_lookup_eq, Ht. cbn [sound ok_or rbind]. by apply csafe_if.
Qed.

End checks.

(** ** The certificate batch *)

Lemma batch_scan_gas_u64 c k : B1Batch.batch_scan_gas c k <= u64_max.
Proof.
  unfold B1Batch.batch_scan_gas, wrap64, u64_max.
  match goal with |- ?x mod _ <= _ => pose proof (Z.mod_pos_bound x 18446744073709551616 ltac:(lia)) end. lia.
Qed.

(** The dimensions the composition pays for are decided, and bounded by the anchor count. *)
Lemma dimensions_composed request :
  exists r, B1Batch.dimensions_with request B1Batch.COMPOSED = Some r /\
    match r with
    | Ok d => 0 <= meter_batch d <= u64_max
    | Err _ => True
    end.
Proof.
  unfold B1Batch.dimensions_with. destruct (_ <? _); [by eexists|].
  destruct (B1Batch.batch_scan _ _ _) as [s|e] eqn:Hs.
  - exists (Ok (B1Batch.sn_dims s)). split; [done|]. apply B1Batch.batch_scan_ok in Hs as [Hok _].
    destruct Hok as (HF & _ & Hk & Hkr & He & _ & Hq & Ha & Hp & _).
    pose proof (B1Batch.group_bounds _ HF) as Hg. cbv zeta in Hg. rewrite <- He, <- Hq, <- Ha, <- Hp, <- Hk in Hg.
    destruct Hg as (Hge & _ & Hgq & Hga & Hgp). cbn [B1Batch.COMPOSED B1Batch.lim_claims] in Hkr.
    unfold meter_batch. cbv zeta.
    assert (Hlog : 0 <= (if B1Batch.dm_k (B1Batch.sn_dims s) <=? 1 then 0
      else 64 - leading_zeros (B1Batch.dm_k (B1Batch.sn_dims s) - 1)) <= 64).
    { destruct (Z.leb_spec (B1Batch.dm_k (B1Batch.sn_dims s)) 1); [lia|]. unfold leading_zeros.
      destruct (Z.eqb_spec (B1Batch.dm_k (B1Batch.sn_dims s) - 1) 0); [lia|].
      pose proof (Z.log2_nonneg (B1Batch.dm_k (B1Batch.sn_dims s) - 1)).
      pose proof (Z.log2_le_mono (B1Batch.dm_k (B1Batch.sn_dims s) - 1) 65535 ltac:(unfold u16_max in *; lia)) as Hm.
      change (Z.log2 65535) with 15 in Hm. lia. }
    match type of Hlog with 0 <= ?x <= _ => set (lg := x) in * end. clearbody lg.
    assert (0 <= B1Batch.dm_k (B1Batch.sn_dims s) * lg <= 65535 * 64) by (unfold u16_max in *; nia).
    unfold PER_SIGNATURE, PER_EPOCH, PER_CLAIM, PER_STEP, PER_GROUPING, u16_max, u64_max in *. lia.
  - apply B1Batch.batch_scan_err in Hs as [[m ->] | (_ & k & _ & Hg)]; [by exists (Err m)|].
    pose proof (batch_scan_gas_u64 (zlen request) k). lia.
Qed.

Section registry.
Context `{Crypto} `{B1Registry.RegistryRead} (pins : B1Registry.Pins).

(** What the registry's verdict is: false on a request that does not scan, else the verdict of the
    batch on the request's claims. *)
Lemma registry_batch_cases request j :
  match (registry_batch pins request j).1 with
  | Ok b => b = false \/ exists s, B1Batch.batch_scan (E := B1Registry.HostError) request u64_max B1Batch.COMPOSED = Ok s /\
      B1Batch.scanned_ok B1Batch.COMPOSED request s /\ B1Batch.verdict (B1Batch.sn_claims s) pins j b
  | Err None => False
  | Err (Some h) => h = HRegistry \/ exists e, h = HHost e
  end.
Proof.
  unfold registry_batch, B1Batch.run_with. destruct (B1Batch.lim_bytes _ <? _); [by left|].
  rewrite (proj2 (Z.ltb_ge _ _)) by (unfold saturating_add; lia). unfold sbind, lift.
  destruct (B1Batch.batch_scan request u64_max B1Batch.COMPOSED) as [s|e] eqn:Hs.
  - pose proof (B1Batch.batch_scan_ok _ _ _ _ Hs) as [Hok _].
    rewrite (proj2 (Z.ltb_ge _ _)).
    2:{ unfold B1Batch.dimensions_gas, B1Batch.batch_gas, wrap64, u64_max.
        match goal with |- ?x mod _ <= _ => pose proof (Z.mod_pos_bound x 18446744073709551616 ltac:(lia)) end. lia. }
    destruct (B1Batch.evaluate s pins j) as [[[b work] j']|e] eqn:He.
    + unfold sret. cbn [fst]. apply B1Batch.evaluate_ok in He as [Hv _]; [|apply Hok]. destruct b; [right|by left].
      exists s. split_and!; done.
    + apply B1Batch.errs_evaluate in He as (r & -> & Hr); [|apply Hok].
      destruct Hr as [-> | [h ->]]; cbn [fst]; eauto.
  - apply B1Batch.batch_scan_err in Hs as [[m ->] | (_ & k & _ & Hg)]; [by left|].
    pose proof (batch_scan_gas_u64 (zlen request) k). lia.
Qed.

End registry.

(** ** The lineage, paying through the meter *)

Section keeps.
Context `{Crypto} `{K256} {S : Type} (charge : Z -> S -> kernel () * S) (J : S -> Prop).
Hypothesis charge_keeps : forall n s, 0 <= n -> J s -> J (charge n s).2.

(** A metered computation keeps [J]. *)
Definition keeps {A} (c : paying A) : Prop := forall s : S, J s -> J (c s).2.

Lemma keeps_pure {A} (r : kernel A) : keeps (pure r).
Proof. by intros s. Qed.
Lemma keeps_ret {A} (a : A) : keeps (pret a).
Proof. by intros s. Qed.
Lemma keeps_bind {A B} (c : paying A) (k : A -> paying B) : keeps c -> (forall a, keeps (k a)) -> keeps (pbind c k).
Proof.
  intros Hc Hk s Hs. unfold pbind. pose proof (Hc s Hs) as Hj. destruct (c s) as [[a|e] s']; [by apply Hk | done].
Qed.
Lemma keeps_call {A B} (r : kernel A) (k : A -> paying B) : (forall a, r = Ok a -> keeps (k a)) -> keeps (pbind (pure r) k).
Proof. intros Hk s Hs. unfold pbind, pure. destruct r as [a|e]; [by apply Hk | done]. Qed.
Lemma keeps_charge {A} n (k : () -> paying A) : 0 <= n -> (forall u, keeps (k u)) -> keeps (pbind (charge n) k).
Proof. intros Hn Hk. apply keeps_bind; [|done]. intros s Hs. by apply charge_keeps. Qed.

Lemma open_split_items j token proof n : open_split j = Ok (token, proof, n) -> 0 <= n.
Proof.
  unfold open_split. cbv zeta. intros Ho. apply rbind_ok_inv in Ho as ([sj items] & Hs & Ho).
  apply map_err_ok_inv, run_scan_iff in Hs as (t & _ & _ & _ & -> & _). inv_ok Ho. subst. lia.
Qed.

Lemma project_leaves token proj n : project token = Ok (proj, n) -> 0 <= n.
Proof.
  unfold project. intros Hp. inv_ok Hp. subst. match goal with |- context [zlen ?l] => pose proof (zlen_nonneg l) end. lia.
Qed.

Lemma walk_keeps fuel cur : keeps (walk charge fuel cur).
Proof.
  revert cur. induction fuel as [|fuel IH]; intros cur; cbn [walk]; [apply keeps_pure|].
  apply keeps_call. intros j _. case_bool_decide; [apply keeps_ret|]. destruct (negb _); [apply keeps_pure|].
  apply keeps_charge; [pose proof (zlen_nonneg j); unfold SPLIT_PER_BYTE; lia|]. intros _.
  apply keeps_call. intros [[token proof] items] Ho%open_split_items.
  apply keeps_charge; [unfold PER_ITEM; lia|]. intros _.
  apply keeps_call. intros [proj leaves] Hp%project_leaves.
  apply keeps_charge; [unfold PER_LEAF; lia|]. intros _. apply keeps_bind; [apply IH|]. intros rest. apply keeps_ret.
Qed.

Lemma edge_keeps parent lv proof : keeps (edge charge parent lv proof).
Proof.
  unfold edge. destruct proof as [proof|]; [|apply keeps_ret]. apply keeps_call. intros p _.
  apply keeps_charge; [pose proof (zlen_nonneg proof); unfold EDGE_BASE, EDGE_PER_STEP; lia|]. intros _.
  destruct (verify _ _ _ _ _) as [sum|]; [|apply keeps_pure]. destruct (bytes_neq _ _); [apply keeps_pure | apply keeps_ret].
Qed.

Lemma climb_keeps cfg levels parent seen out : keeps (climb charge cfg levels parent seen out).
Proof.
  revert parent seen out. induction levels as [|[proj proof] levels IH]; intros parent seen out; cbn [climb]; [apply keeps_ret|].
  cbv zeta. apply keeps_call. intros [lv seen'] _. apply keeps_bind; [apply edge_keeps|]. intros _.
  apply keeps_call. intros tx _. apply keeps_bind; [by destruct levels; apply keeps_pure|]. intros [o r].
  apply keeps_bind; [destruct proof; [apply keeps_ret|apply keeps_pure]|]. intros o2. apply IH.
Qed.

Lemma lineage_keeps cfg_bytes history : keeps (lineage_relation charge cfg_bytes history).
Proof.
  unfold lineage_relation. apply keeps_call. intros ci _. apply keeps_call. intros _ _. apply keeps_call. intros cfg _.
  apply keeps_call. intros _ _. apply keeps_call. intros payload _. apply keeps_call. intros top _.
  apply keeps_call. intros c _. destruct (c =? 0); [apply keeps_pure|]. apply keeps_call. intros g _.
  apply keeps_charge; [unfold SPLIT_PER_BYTE; pose proof (zlen_nonneg (it_raw (at_ g 0))); lia|]. intros _.
  apply keeps_bind; [apply walk_keeps|]. intros levels. apply climb_keeps.
Qed.

End keeps.

(** What the composition relies on: the verdict does not panic. *)
Class VerdictLaws `{Verdict} := {
  verdict_total : forall request v, (verdict_batch request v).1 <> Err None }.

#[global] Instance registry_verdict_laws `{Crypto} `{B1Registry.RegistryRead} (pins : B1Registry.Pins) :
  VerdictLaws (H := registry_verdict pins).
Proof.
  constructor. intros request j Hb. pose proof (registry_batch_cases pins request j) as Hc.
  change (registry_batch pins request j).1 with (verdict_batch (Verdict := registry_verdict pins) request j).1 in Hc.
  by rewrite Hb in Hc.
Qed.

(** ** Stages *)

Section stages.
Context `{Crypto} `{K256} `{VerdictLaws} (limit : Z) (Hlimit : 0 <= limit <= u64_max).

(** The gas used is within the limit and only grows. *)
Definition paid_up (s s' : state) : Prop := s.1 <= s'.1 <= limit.

(** A stage that does not panic and whose value satisfies [P], from every state within the limit. *)
Definition gsafe {A} (P : A -> Prop) (c : stage A) : Prop :=
  forall s, 0 <= s.1 <= limit ->
    paid_up s (c s).2 /\
    match (c s).1 with
    | Ok a => P a
    | Err (StopStatus st) => st <> Status.Ok
    | Err (StopHalt _) => True
    | Err StopPanic => False
    end.

Lemma gsafe_ret {A} (P : A -> Prop) a : P a -> gsafe P (gret a).
Proof. intros Ha s Hs. split; [unfold paid_up; simpl; lia | done]. Qed.

Lemma gsafe_bind {A B} (P : A -> Prop) (Q : B -> Prop) c k :
  gsafe P c -> (forall a, P a -> gsafe Q (k a)) -> gsafe Q (gbind c k).
Proof.
  intros Hc Hk s Hs. unfold gbind. destruct (Hc s Hs) as [Hp Hr]. destruct (c s) as [[a|e] s'].
  - unfold paid_up in Hp. simpl in Hp, Hr. destruct (Hk a Hr s' ltac:(lia)) as [Hp' Hr']. split; [|done].
    unfold paid_up in *. lia.
  - done.
Qed.

Lemma gsafe_checked {A} (P : A -> Prop) r : csafe P r -> gsafe P (checked r).
Proof.
  intros Hr s Hs. unfold checked. split; [unfold paid_up; simpl; lia|]. destruct r as [a|[]]; done.
Qed.

Lemma gsafe_check {A B} (P : A -> Prop) (Q : B -> Prop) r (k : A -> stage B) :
  csafe P r -> (forall a, r = Ok a -> P a -> gsafe Q (k a)) -> gsafe Q (gbind (checked r) k).
Proof.
  intros Hr Hk s Hs. unfold gbind, checked. destruct r as [a|[]]; cbn [map_err].
  - by apply Hk.
  - split; [unfold paid_up; simpl; lia | done].
  - done.
Qed.

Lemma charge_paid (s : state) gas used : 0 <= s.1 -> 0 <= gas -> meter_charge limit s.1 gas = Some used -> s.1 <= used <= limit.
Proof.
  intros Hs Hg. unfold meter_charge, checked_add. destruct (_ <=? u64_max); [|done].
  destruct (Z.leb_spec (s.1 + gas) limit); [|done]. intros [= <-]. lia.
Qed.

Lemma gsafe_pay gas : 0 <= gas <= u64_max -> gsafe (fun _ => True) (pay limit gas).
Proof.
  intros Hg s Hs. unfold pay. rewrite (proj2 (Z.ltb_ge _ _)) by lia.
  destruct (meter_charge limit s.1 gas) as [used|] eqn:Hm.
  - apply charge_paid in Hm; [|lia..]. done.
  - split; [unfold paid_up; simpl; lia | done].
Qed.

Lemma gsafe_batch request : gsafe (fun _ => True) (batch_stage request).
Proof.
  intros s Hs. unfold batch_stage. pose proof (verdict_total request s.2) as Hv.
  destruct (verdict_batch request s.2) as [[b|[h|]] v]; (split; [unfold paid_up; simpl; lia|]); done.
Qed.

Lemma gsafe_members anchors l :
  Forall (fun x : Leaf * Z * LeafProof * Z => 0 <= x.1.1.2 < zlen anchors /\ 0 <= x.2 <= MAX_RSMT_SIBLINGS) l ->
  gsafe (fun _ => True) (members limit anchors l).
Proof.
  induction 1 as [|[[[leaf j] p] n] l [Hj Hn] HF IH]; cbn [members]; [by apply gsafe_ret|]. simpl in Hj, Hn.
  eapply gsafe_bind; [apply gsafe_pay; unfold PER_STEP, MAX_RSMT_SIBLINGS, u64_max in *; lia|]. intros _ _.
  destruct (lookup_lt_is_Some_2 anchors (Z.to_nat j)) as [a Ha]; [unfold zlen in Hj; lia|].
  rewrite nth_error_lookup_eq, Ha. apply (gsafe_check (fun _ => True)); [done|]. intros a' _ _.
  destruct (is_member _); [done|]. by apply gsafe_checked.
Qed.

Lemma lineage_charge_total n s : (lineage_charge limit n s).1 <> Err Panicked.
Proof. unfold lineage_charge. by destruct (meter_charge _ _ _). Qed.

Lemma gsafe_lineage cfg history : gsafe part_ok (lineage_stage limit cfg history).
Proof.
  intros s Hs. unfold lineage_stage.
  pose proof (lineage_safe (lineage_charge limit) lineage_charge_total cfg history s) as Hsafe.
  assert (Hk : paid_up s (lineage_relation (lineage_charge limit) cfg history s).2).
  { apply (lineage_keeps (lineage_charge limit) (paid_up s)); [|unfold paid_up; lia].
    intros n s' Hn Hp. unfold lineage_charge, paid_up in *. destruct (meter_charge limit s'.1 n) as [used|] eqn:Hm; [|simpl; lia].
    apply charge_paid in Hm; [|lia..]. simpl. lia. }
  destruct (lineage_relation (lineage_charge limit) cfg history s) as [[o|[e|]] s']; [done| |done]. cbn [fst snd] in *.
  by destruct e.
Qed.

Lemma relation_safe op cfg history :
  safe outcome_ok (relation op cfg history (fun _ => Ok ())).
Proof.
  unfold relation. cbv zeta. eapply safe_bind; [apply (safe_one _ (per_object ITEMS_MAX)); done|]. intros ci Hci.
  eapply safe_bind; [by apply check_cfg_network_safe|]. intros _ _.
  eapply safe_bind; [apply (safe_one _ (per_object usize_max)); done|]. intros p Hp.
  eapply safe_bind; [by apply leaf_count_safe|]. intros m _. cbn [rbind].
  eapply safe_mono; [by apply evaluate_safe|]. by intros o [Ho _].
Qed.

Lemma envelope_history env b :
  decode_envelope b = Ok env -> envelope_ok env /\ zlen (ev_history env) <= MAX_ENVELOPE_BYTES.
Proof.
  intros (Hb & Hok & Hlen & _)%decode_envelope_iff. split; [done|].
  apply envelope_holds in Hb as [_ Hz].
  rewrite !dyn_zlen in Hz. pose proof (pad32_bounds (zlen (ev_history env)) (zlen_nonneg _)).
  pose proof (pad32_bounds (zlen (ev_policy_body env)) (zlen_nonneg _)). pose proof (zlen_nonneg (ev_policy_body env)).
  pose proof (zlen_nonneg (encode_tuples (map encode_anchor (ev_anchors env)))).
  pose proof (zlen_nonneg (encode_tuples (map encode_leaf_proof (ev_leaf_proofs env)))). lia.
Qed.

Lemma anchor_items_range anchors :
  0 <= sum_z (map (fun a => items (an_uc a) + items (an_input_record a)) anchors) <= 2 * MAX_ITEMS * zlen anchors.
Proof.
  induction anchors as [|a l IH]; [done|]. cbn [map sum_z fold_right]. fold (sum_z (map (fun a => items (an_uc a) + items (an_input_record a)) l)).
  rewrite zlen_cons. pose proof (items_range (an_uc a)). pose proof (items_range (an_input_record a)). lia.
Qed.

(** The envelope is refused with a reason. *)
Lemma bound_leaves_reason b off room n i steps : bound_leaves b off room n i steps <> Err Status.Ok.
Proof.
  revert i steps. induction n as [|n IH]; intros i steps; cbn [bound_leaves]; [done|]. unfold w_, add_.
  repeat (match goal with |- rbind (ok_or ?o _) _ <> _ => destruct o; cbn [ok_or rbind]; [|done] end).
  destruct (_ <? _); [done | apply IH].
Qed.

Lemma envelope_reason b : decode_envelope b <> Err Status.Ok.
Proof.
  unfold decode_envelope, bound_counts, w_. cbv zeta. destruct (_ <? _); [done|]. destruct (_ || _); [done|].
  assert (Hc : forall r : result Status.t (), r <> Err Status.Ok -> rbind r (fun _ => ok_or (layout b) Status.ABIFraming) <> Err Status.Ok).
  { intros [[]|e] Hr; cbn [rbind]; [by destruct (layout b)|]. intros [= ->]. done. }
  apply Hc. repeat first
    [ apply bound_leaves_reason
    | match goal with
      | |- rbind (ok_or ?o _) _ <> _ => destruct o; cbn [ok_or rbind]; [|done]
      | |- (if ?c then _ else _) <> _ => destruct c; [done|]
      end ].
Qed.

(** Pays in the source: [pay] under the bounds of [u64]. *)
Ltac pays := apply gsafe_pay; unfold METER_PER_ITEM, METER_PER_LEAF, MAX_ITEMS, MAX_ANCHORS, MAX_ENVELOPE_BYTES, u16_max, u64_max in *; lia.

Lemma combine_snd {A B} (P : B -> Prop) (a : list A) (b : list B) : Forall P b -> Forall (fun x => P x.2) (combine a b).
Proof.
  intros HF. apply Forall_forall. intros [x y] Hin. apply list_elem_of_In, in_combine_r, list_elem_of_In in Hin.
  rewrite Forall_forall in HF. by apply HF.
Qed.

Lemma members_ready (leaves : list Leaf) (plan : list Z) (proofs : list LeafProof) (steps : list Z) n :
  Forall (fun j => 0 <= j < n) plan -> Forall (fun k => 0 <= k <= MAX_RSMT_SIBLINGS) steps ->
  Forall (fun x : Leaf * Z * LeafProof * Z => 0 <= x.1.1.2 < n /\ 0 <= x.2 <= MAX_RSMT_SIBLINGS)
    (combine (combine (combine leaves plan) proofs) steps).
Proof.
  intros Hp Hs. apply Forall_forall. intros [[[leaf j] p] k] Hin. apply list_elem_of_In in Hin.
  pose proof (in_combine_r _ _ _ _ Hin) as Hk%list_elem_of_In. apply in_combine_l, in_combine_l, in_combine_r, list_elem_of_In in Hin.
  rewrite Forall_forall in Hp, Hs. split; [by apply Hp | by apply Hs].
Qed.

(** After the outcome: the plan, the anchors, the batch and the memberships. *)
Lemma gsafe_compose call lineage :
  gsafe (fun o => outcome_ok o /\ (lineage = true -> part_ok (if call_op call =? 1 then as_part o else o))) (compose_outcome limit call lineage).
Proof.
  unfold compose_outcome. destruct (negb _ && negb _) eqn:Hop; [by apply gsafe_checked|].
  eapply gsafe_check; [apply decode_safe|]. intros cfg _ _. pose proof (items_range (call_cfg call)).
  eapply gsafe_bind; [pays|]. intros _ _. eapply gsafe_check; [apply validate_safe|]. intros _ _ _.
  eapply (gsafe_check (fun _ => True)).
  { pose proof (envelope_reason (call_envelope call)) as Hr. destruct (decode_envelope _); [done|]. intros ->. by apply Hr. }
  intros env Henv%map_err_ok_inv _.
  apply envelope_history in Henv as [Hok Hhist]. eapply gsafe_check; [apply check_policy_safe|]. intros partition _ Hanch. cbv beta in Hanch.
  pose proof (items_range (ev_policy_body env)). eapply gsafe_bind; [pays|]. intros _ _.
  eapply gsafe_check; [apply history_leaves_safe|]. intros leaves _ Hleaves. cbv beta in Hleaves.
  pose proof (history_items_range (ev_history env)). eapply gsafe_bind; [pays|]. intros _ _.
  apply (gsafe_bind (fun o => outcome_ok o /\ (lineage = true -> part_ok (if call_op call =? 1 then as_part o else o)))).
  { destruct (lineage && (call_op call =? 2)) eqn:Hlin.
    - apply andb_true_iff in Hlin as [_ Htwo%Z.eqb_eq]. rewrite Htwo. change (2 =? 1) with false.
      intros s Hs. destruct (gsafe_lineage (call_cfg call) (ev_history env) s Hs) as [Hp Hr]. split; [done|].
      destruct (lineage_stage _ _ _ s) as [[o|[]] s']; try done. split; [apply Hr | done].
    - apply gsafe_checked. eapply csafe_mono; [apply csafe_of_b2; [apply relation_safe | apply B2Quiet.relation_quiet]|].
      intros o _ Ho. split; [done|]. intros ->. destruct (call_op call =? 2); [done|].
      destruct (call_op call =? 1); [|done]. split; [|split; apply Ho]. destruct Ho. by constructor. }
  intros outcome Hout. eapply gsafe_check; [by apply plan_anchors_safe|]. intros plan _ (Hplan & Hlen & Hproofs).
  eapply gsafe_check; [apply csafe_each; intros; apply scan_anchor_safe|]. intros _ _ _.
  eapply gsafe_check; [apply bridge_j_safe|]. intros _ _ _.
  pose proof (anchor_items_range (ev_anchors env)). eapply gsafe_bind; [pays|]. intros _ _. cbv zeta.
  destruct (dimensions_composed (batch_request (ev_anchors env))) as (r & -> & Hr).
  destruct r as [d|m]; [|by apply (gsafe_check (fun _ => True))].
  apply (gsafe_check (fun d' => d' = d)); [done|]. intros d' _ ->. eapply gsafe_bind; [apply gsafe_pay; exact Hr|]. intros _ _.
  eapply gsafe_check; [apply leaf_paths_safe|]. intros steps _ [_ Hsteps].
  eapply gsafe_bind; [apply gsafe_batch|]. intros valid _. destruct (negb valid); [by apply gsafe_checked|].
  eapply gsafe_check; [apply open_anchors_safe|]. intros times _ Htimes. cbv beta in Htimes.
  eapply gsafe_check; [apply leaf_times_safe|].
  { apply (combine_snd (fun j => 0 <= j < zlen times)). unfold zlen in *. by rewrite Htimes. }
  intros _ _ _. eapply gsafe_bind; [apply gsafe_members, members_ready; done|]. intros _ _. by apply gsafe_ret.
Qed.

(** ** The output *)

Lemma copy_at_length pos x out : (pos + length x <= length out)%nat -> length (copy_at pos x out) = length out.
Proof. intros Hl. unfold copy_at. rewrite !length_app, length_take, length_drop. lia. Qed.

Lemma copy_at_take k pos x out : (k <= pos)%nat -> (pos <= length out)%nat -> take k (copy_at pos x out) = take k out.
Proof. intros Hk Hp. unfold copy_at. rewrite take_app_le by (rewrite length_take; lia). rewrite take_take. f_equal. lia. Qed.

(** The size of an output, its marker and its status; nothing follows the status of a refusal. *)
Record shaped (n : nat) (marker : bytes) (status : Status.t) (out : bytes) : Prop := {
  sh_size : length out = n;
  sh_head : take 64 out = marker ++ replicate 24 Byte.x00 ++ be_bytes 8 (Status.code status);
  sh_rest : status <> Status.Ok -> drop 64 out = replicate (n - 64) Byte.x00 }.

Lemma copy_at_shaped n marker status pos x out :
  shaped n marker status out -> status = Status.Ok -> (64 <= pos)%nat -> (pos + length x <= n)%nat ->
  shaped n marker status (copy_at pos x out).
Proof.
  intros [Hn Hh Hr] Hs Hp Hx. constructor; [by rewrite copy_at_length by lia|by rewrite copy_at_take by lia|done].
Qed.

Lemma position_ge s l n : n <= Status.position s l n.
Proof. revert n. induction l as [|x l IH]; intros n; cbn [Status.position]; [lia|]. case_bool_decide; [lia|]. specialize (IH (n + 1)). lia. Qed.

Lemma code_ok s : Status.code s = 0 <-> s = Status.Ok.
Proof.
  split; [|by intros ->]. unfold Status.code.
  change (Status.position s Status.all 0)
    with (if bool_decide (Status.Ok = s) then 0 else Status.position s (tail Status.all) 1).
  case_bool_decide as Hb; [by subst|]. pose proof (position_ge s (tail Status.all) 1). lia.
Qed.

Definition head_of (status : Status.t) : bytes :=
  copy_at 56 (be_bytes 8 (Status.code status)) (copy_at 0 MARKER (replicate OUTPUT_BYTES Byte.x00)).

Lemma head_shaped status : shaped OUTPUT_BYTES MARKER status (head_of status).
Proof.
  assert (Hh : head_of status = MARKER ++ replicate 24 Byte.x00 ++ be_bytes 8 (Status.code status) ++ replicate 320 Byte.x00).
  { unfold head_of, copy_at. rewrite be_bytes_length. reflexivity. }
  rewrite Hh. constructor.
  - by rewrite !length_app, be_bytes_length, !length_replicate.
  - rewrite !app_assoc. apply take_length_app. by rewrite !length_app, be_bytes_length.
  - intros _. rewrite !app_assoc. rewrite drop_length_app by (by rewrite !length_app, be_bytes_length). done.
Qed.

Lemma fixed_encode_shaped f status :
  (status = Status.Ok -> is_word (fx_cfg f) /\ is_word (fx_amount f) /\ is_word (fx_token_id f) /\ is_word (fx_salt f) /\
    is_word (fx_first_predicate_hash f) /\ is_word (fx_lock_digest f) /\ length (fx_release_to f) = 20%nat /\
    is_word (fx_nullifier f)) ->
  shaped OUTPUT_BYTES MARKER status (fixed_encode f (Status.code status)).
Proof.
  intros Hf. unfold fixed_encode. cbv zeta. fold (head_of status). pose proof (head_shaped status) as Hh.
  destruct (Z.eqb_spec (Status.code status) 0) as [Hc|]; [|done]. cbn [negb]. apply code_ok in Hc.
  destruct (Hf Hc) as (? & ? & ? & ? & ? & ? & Hto & ?). unfold is_word in *.
  repeat (apply copy_at_shaped; [|done|lia|rewrite ?be_bytes_length; unfold OUTPUT_BYTES in *; lia]). done.
Qed.

Lemma fixed_v2_encode_shaped f status :
  shaped OUTPUT_BYTES MARKER status (fixed_encode (f2_root f) (Status.code status)) ->
  (status = Status.Ok -> is_word (f2_part_token_id f) /\ is_word (f2_part_amount f)) ->
  shaped OUTPUT_BYTES_V2 MARKER_V2 status (fixed_v2_encode f (Status.code status)).
Proof.
  intros [Hn Hh Hr] Hf. unfold fixed_v2_encode. cbv zeta.
  set (out := copy_at 0 MARKER_V2 (copy_at 0 (fixed_encode (f2_root f) (Status.code status)) (replicate OUTPUT_BYTES_V2 Byte.x00))).
  assert (Ho : shaped OUTPUT_BYTES_V2 MARKER_V2 status out).
  { assert (He : out = MARKER_V2 ++ drop 32 (fixed_encode (f2_root f) (Status.code status)) ++ replicate 96 Byte.x00).
    { unfold out, copy_at. rewrite Hn. rewrite !take_0. cbn [app]. change (length MARKER_V2) with 32%nat. cbn [Nat.add].
      rewrite drop_app_le by (rewrite Hn; unfold OUTPUT_BYTES; lia). do 2 f_equal. }
    rewrite He. set (enc := fixed_encode _ _) in *. unfold OUTPUT_BYTES in *. constructor.
    - rewrite !length_app, length_drop, Hn, length_replicate. done.
    - rewrite take_app_ge by (by change (length MARKER_V2) with 32%nat; lia). f_equal.
      change (64 - length MARKER_V2)%nat with 32%nat. rewrite take_app_le by (rewrite length_drop, Hn; lia).
      replace (take 32 (drop 32 enc)) with (drop 32 (take 64 enc)) by (by rewrite take_drop_commute).
      rewrite Hh. by rewrite drop_length_app.
    - intros Hs. rewrite drop_app_ge by (by change (length MARKER_V2) with 32%nat; lia).
      change (64 - length MARKER_V2)%nat with 32%nat. rewrite drop_app_le by (rewrite length_drop, Hn; lia).
      rewrite drop_drop. cbn [Nat.add]. rewrite Hr by done. by rewrite <- replicate_add. }
  destruct (Z.eqb_spec (Status.code status) 0) as [Hc|]; [|done]. apply code_ok in Hc. destruct (Hf Hc) as [? ?]. unfold is_word in *.
  repeat (apply copy_at_shaped; [|done|lia|rewrite ?be_bytes_length; unfold OUTPUT_BYTES_V2 in *; lia]). done.
Qed.

(** ** The call *)

(** The entry charge. *)
Definition entry_gas (input : bytes) : Z := saturating_add BASE (saturating_mul PER_BYTE (zlen input)).

Lemma entry_safe {A} (P : A -> Prop) (relation : Call -> stage A) input v :
  (forall call, gsafe P (relation call)) ->
  let r := entry limit relation input (0, v) in
  (exists h, r.1 = Err (StopHalt h)) \/
  (entry_gas input <= r.2.1 <= limit /\ match r.1 with Ok a => P a | Err (StopStatus st) => st <> Status.Ok | _ => False end).
Proof.
  intros Hrel. unfold entry. cbv zeta. unfold gbind at 1 2 3 4. cbn [fst snd]. fold (entry_gas input).
  destruct (meter_charge limit 0 (entry_gas input)) as [used|] eqn:Hm; [|left; by eexists].
  assert (Hu : used = entry_gas input /\ 0 <= used <= limit).
  { unfold meter_charge, checked_add in Hm. destruct (_ <=? u64_max); [|done].
    destruct (Z.leb_spec (0 + entry_gas input) limit); [|done]. injection Hm as <-.
    unfold entry_gas, saturating_add, saturating_mul, BASE, PER_BYTE, u64_max in *. pose proof (zlen_nonneg input). lia. }
  destruct Hu as [-> Hu].
  set (k := if MAX_INPUT_BYTES <? zlen input then _ else _).
  assert (Hk : (exists h, forall s, k s = (Err (StopHalt h), s)) \/ gsafe P k).
  { unfold k. destruct (MAX_INPUT_BYTES <? zlen input); [right; by apply gsafe_checked|].
    destruct (decode_call input); [by right; apply Hrel | left; by exists HMalformed]. }
  destruct Hk as [[h Hk] | Hk]; [left; exists h; by rewrite Hk|].
  destruct (Hk (entry_gas input, v) Hu) as [Hp Hr]. unfold paid_up in Hp. cbn [fst] in Hp.
  destruct (k (entry_gas input, v)) as [[a|[st|h|]] s']; cbn [fst snd] in *; [by right|by right|left; by exists h|done].
Qed.

(** What a call returns, with [n] bytes after [marker]. *)
Definition answered (n : nat) (marker input : bytes) (r : result (option (Halt VError)) Output * VState) : Prop :=
  match r.1 with
  | Ok out => entry_gas input <= ot_gas out <= limit /\ shaped n marker (ot_status out) (ot_bytes out)
  | Err (Some _) => True
  | Err None => False
  end.

Lemma finish_answered {A} (P : A -> Prop) encode default n marker relation input v :
  (forall call, gsafe P (relation call)) ->
  (forall f, P f -> shaped n marker Status.Ok (encode f (Status.code Status.Ok))) ->
  (forall st, shaped n marker st (encode default (Status.code st))) ->
  answered n marker input (finish encode default (entry (A := A) limit relation input (0, v))).
Proof.
  intros Hrel Henc Hdef. pose proof (entry_safe P relation input v Hrel) as He. cbv zeta in He.
  destruct (entry limit relation input (0, v)) as [[a|[st|h|]] [used v']]; cbn [fst snd finish answered] in *;
    (destruct He as [[h' He] | [Hg Hr]]; [done|]); try done; split; cbn [ot_status ot_bytes]; auto.
Qed.

Lemma fixed_of_shaped o : outcome_ok o -> shaped OUTPUT_BYTES MARKER Status.Ok (fixed_encode (fixed_of o) 0).
Proof. intros []. by apply (fixed_encode_shaped (fixed_of o) Status.Ok). Qed.

Lemma run_answered input v : answered OUTPUT_BYTES MARKER input (run limit input v).
Proof.
  apply (finish_answered (fun f => exists o, outcome_ok o /\ f = fixed_of o)).
  - intros call. eapply gsafe_bind; [apply gsafe_compose|]. intros o [Ho _]. apply gsafe_ret. by exists o.
  - intros f (o & Ho & ->). by apply fixed_of_shaped.
  - intros st. by apply fixed_encode_shaped.
Qed.

Lemma run_v2_answered input v : answered OUTPUT_BYTES_V2 MARKER_V2 input (run_v2 limit input v).
Proof.
  apply (finish_answered (fun f => exists o, part_ok o /\ f = fixed_v2_of o)).
  - intros call. eapply gsafe_bind; [apply gsafe_compose|]. intros o [_ Ho]. apply gsafe_ret. eexists. split; [by apply Ho | done].
  - intros f (o & [Ho [? ?]] & ->). apply (fixed_v2_encode_shaped (fixed_v2_of o) Status.Ok); [by apply fixed_of_shaped | done].
  - intros st. apply fixed_v2_encode_shaped; [by apply fixed_encode_shaped | done].
Qed.

End stages.

(** ** Properties *)

Section properties.
Context `{Crypto} `{K256} `{B1Registry.RegistryRead}.

(** C28: A call of the bridge precompile always ends, without a panic.  Whatever its input, with the
    registry's verdict, it halts (out of gas, or a call that is not the canonical encoding), fails
    because the registry is unreadable or inconsistent, or returns.  What it returns is charged at
    least the price of entry and at most the gas forwarded, no payment overflowing on the way, and
    its output has the fixed size of its version, starts with the version's marker and the code of
    one status, and carries nothing else when that status is a refusal. *)
Theorem bridge_call_total pins v2 data gas j :
  is_u64 gas ->
  exists r, compose_call pins v2 data gas j = Some r /\
    match r with
    | B1Batch.Returned used out =>
        entry_gas data <= used <= gas /\
        exists st, shaped (if v2 then OUTPUT_BYTES_V2 else OUTPUT_BYTES) (if v2 then MARKER_V2 else MARKER) st out
    | B1Batch.HaltOutOfGas | B1Batch.Fatal => True
    | B1Batch.HaltOther why => why = "malformed bridge compose input"%string
    end.
Proof.
  intros Hgas. unfold compose_call.
  pose (V := registry_verdict pins).
  assert (Ha : answered (H1 := V) gas (if v2 then OUTPUT_BYTES_V2 else OUTPUT_BYTES) (if v2 then MARKER_V2 else MARKER) data
    (if v2 then run_v2 (H1 := V) gas data j else run (H1 := V) gas data j)).
  { destruct v2; [apply (run_v2_answered (H1 := V)) | apply (run_answered (H1 := V))]; done. }
  unfold answered in Ha. fold V. destruct (if v2 then _ else _) as [[out|[h|]] j']; cbn [fst] in Ha; [|destruct h|done]; eexists;
    (split; [reflexivity|]); cbv beta iota; try done.
  destruct Ha as [Hg Hs]. split; [done|]. by exists (ot_status out).
Qed.

End properties.

End BridgeSafety.
