(* ===== verification/BridgeSound.v ===== *)
(** What an accepted bridge redemption proves: the token kernel accepted the history, every leaf of
    it is a member of the state of a certified input record, inside the record's shard and no later
    than its time, and every record was sealed by a quorum of the registered committees. *)
From S2P Require Import Prelude Crypto CborCodec B1Cbor B1Membership B1Registry B1Certificate B1Batch.
From S2P Require Import B2Cbor B2Semantics B2Quiet B2Lineage BridgeAbi Bridge BridgeSafety.
Import B1Cbor B2Cbor B2Semantics B2Lineage BridgeAbi Bridge BridgeSafety.

Module BridgeSound.

Section stages.
Context `{Crypto} `{K256} `{Verdict} (limit : Z).

Lemma gbind_ok_inv {A B} (c : stage A) (k : A -> stage B) s b :
  (gbind c k s).1 = Ok b -> exists a s', c s = (Ok a, s') /\ (k a s').1 = Ok b.
Proof. unfold gbind. destruct (c s) as [[a|e] s']; [|done]. by exists a, s'. Qed.

Lemma checked_ok_inv {A B} (r : check A) (k : A -> stage B) s b :
  (gbind (checked r) k s).1 = Ok b -> exists a, r = Ok a /\ (k a s).1 = Ok b.
Proof. unfold gbind, checked. destruct r as [a|e]; [|done]. by exists a. Qed.

Lemma pay_ok_inv {B} gas (k : () -> stage B) s b :
  (gbind (pay limit gas) k s).1 = Ok b -> exists s', s'.2 = s.2 /\ (k () s').1 = Ok b.
Proof.
  unfold gbind, pay. destruct (u64_max <? gas); [done|]. destruct (meter_charge limit s.1 gas) as [used|]; [|done].
  by exists (used, s.2).
Qed.

(** The token kernel accepted the history. *)
Definition kernel_accepts (lineage : bool) (call : Call) (history : bytes) (o : Outcome) : Prop :=
  if lineage && (call_op call =? 2)
  then exists s, (lineage_relation (lineage_charge limit) (call_cfg call) history s).1 = Ok o
  else relation (call_op call) (call_cfg call) history (fun _ => Ok ()) = Ok o.

Lemma kernel_ok_inv {B} lineage call history (k : Outcome -> stage B) s b :
  (gbind (if lineage && (call_op call =? 2) then lineage_stage limit (call_cfg call) history
     else checked (of_b2 (relation (call_op call) (call_cfg call) history (fun _ => Ok ())))) k s).1 = Ok b ->
  exists o s', kernel_accepts lineage call history o /\ s'.2 = s.2 /\ (k o s').1 = Ok b.
Proof.
  unfold kernel_accepts. destruct (lineage && _).
  - intros (o & s' & Hl & Hk)%gbind_ok_inv. unfold lineage_stage in Hl.
    pose proof (lineage_keeps (lineage_charge limit) (fun x => x.2 = s.2)) as Hkeep.
    specialize (Hkeep ltac:(intros n x _ Hx; unfold lineage_charge; by destruct (meter_charge _ _ _)) (call_cfg call) history s eq_refl).
    destruct (lineage_relation (lineage_charge limit) (call_cfg call) history s) as [[o'|[e|]] s1] eqn:Hr; [|by destruct e|done].
    injection Hl as -> ->. exists o, s'. split; [exists s; by rewrite Hr|]. done.
  - intros (o & Ho%map_err_ok_inv & Hk)%checked_ok_inv. by exists o, s.
Qed.

(** The successful run of a composition, stage by stage. *)
Lemma compose_inv call lineage s o :
  (compose_outcome limit call lineage s).1 = Ok o ->
  exists cfg env partition plan steps times s1 v',
    decode (call_cfg call) = Ok cfg /\ validate (call_cfg call) = Ok () /\
    decode_envelope (call_envelope call) = Ok env /\ check_policy cfg env = Ok partition /\
    kernel_accepts lineage call (ev_history env) o /\ plan_anchors partition env o = Ok plan /\
    each scan_anchor (ev_anchors env) = Ok () /\ leaf_paths (ev_leaf_proofs env) = Ok steps /\
    verdict_batch (batch_request (ev_anchors env)) s.2 = (Ok true, v') /\
    open_anchors (ev_anchors env) = Ok times /\ leaf_times times (combine (oc_leaves o) plan) = Ok () /\
    (members limit (ev_anchors env)
      (combine (combine (combine (oc_leaves o) plan) (ev_leaf_proofs env)) steps) s1).1 = Ok ().
Proof.
  unfold compose_outcome. destruct (negb _ && negb _); [done|]. cbv zeta.
  intros (cfg & Hcfg & Hr)%checked_ok_inv. apply pay_ok_inv in Hr as (s1 & E1 & Hr).
  apply checked_ok_inv in Hr as ([] & Hval & Hr). apply checked_ok_inv in Hr as (env & Henv%map_err_ok_inv & Hr).
  apply checked_ok_inv in Hr as (partition & Hpol & Hr). apply pay_ok_inv in Hr as (s2 & E2 & Hr).
  apply checked_ok_inv in Hr as (n & _ & Hr). apply pay_ok_inv in Hr as (s3 & E3 & Hr).
  apply kernel_ok_inv in Hr as (o' & s4 & Hker & E4 & Hr). apply checked_ok_inv in Hr as (plan & Hplan & Hr).
  apply checked_ok_inv in Hr as ([] & Hscan & Hr). apply checked_ok_inv in Hr as ([] & _ & Hr).
  apply pay_ok_inv in Hr as (s5 & E5 & Hr). apply checked_ok_inv in Hr as (d & _ & Hr).
  apply pay_ok_inv in Hr as (s6 & E6 & Hr). apply checked_ok_inv in Hr as (steps & Hsteps & Hr).
  apply gbind_ok_inv in Hr as (valid & s7 & Hb & Hr). destruct valid; [|done]. cbn [negb] in Hr.
  apply checked_ok_inv in Hr as (times & Htimes & Hr). apply checked_ok_inv in Hr as ([] & Hlt & Hr).
  apply gbind_ok_inv in Hr as ([] & s8 & Hm & [= <-]).
  unfold batch_stage in Hb. assert (Es : s6.2 = s.2) by congruence. rewrite Es in Hb.
  destruct (verdict_batch _ s.2) as [[b|[h|]] v'] eqn:Hv; [|done|done]. injection Hb as -> _.
  exists cfg, env, partition, plan, steps, times, s7, v'. split_and!; try assumption. by rewrite Hm.
Qed.

(** ** Every leaf *)

(** The objects the composition opens, as trees: the configuration with the EVM's partition and the
    policy hash, the policy body with the aggregator's partition, an input record with its state
    and its time. *)
Definition cfg_tree (l : list tree) (evm_partition : Z) (policy_hash : bytes) : Prop :=
  length l = 16%nat /\ nth 0 l TNull = TBytes CFG_DOMAIN /\ nth 5 l TNull = TUint evm_partition /\ nth 15 l TNull = TBytes policy_hash.
Definition policy_tree (partition : Z) : tree := TArray [TBytes POLICY_DOMAIN; TUint 2; TUint partition].
Definition record_tree (l : list tree) (time : Z) (state : bytes) : Prop :=
  length l = 10%nat /\ nth 0 l TNull = TUint 1 /\ nth 4 l TNull = TBytes state /\ nth 6 l TNull = TUint time.

(** A leaf proven under one of the anchors: the anchor is of the partition [partition], the leaf's
    state identifier starts with its shard's bits, its input record hashes to the anchor's and is
    the encoding of a record with the anchor's state and with a time the leaf does not pass, and
    the leaf's value is in that state under its identifier, along the siblings of its proof. *)
Definition leaf_proven (partition : Z) (anchors : list Anchor) (leaf : Leaf) (p : LeafProof) : Prop :=
  exists a l time, anchors !! Z.to_nat (lp_anchor_index p) = Some a /\ an_partition a = partition /\
    in_shard (an_shard a) (lf_sid leaf) = true /\
    hash (an_input_record a) = an_expected_ir_hash a /\
    an_input_record a = enc (TTag 39002 (TArray l)) /\ record_tree l time (an_expected_state_root a) /\
    lf_reference_time leaf <= time /\
    exists r, B1Membership.request_ok r /\ B1Membership.request_valid r = true /\
      B1Membership.req_root r = an_expected_state_root a /\ B1Membership.req_key r = lf_sid leaf /\
      B1Membership.req_value r = lf_value leaf /\ B1Membership.req_bitmap r = lp_bitmap p /\
      concat (B1Membership.req_siblings r) = lp_siblings p.

Lemma bytes_item t b : negb (it_major (view t) =? 2) || bytes_neq (it_data (view t)) b = false -> t = TBytes b.
Proof.
  intros [Hm%negb_false_iff%Z.eqb_eq Hd%bytes_neq_false]%orb_false_iff. destruct t; try discriminate Hm. cbn in Hd. congruence.
Qed.

Lemma record_shape_inv raw time state :
  record_shape raw = Ok (time, state) -> exists l, raw = enc (TTag 39002 (TArray l)) /\ record_tree l time state.
Proof.
  unfold record_shape. intros (root & (t & -> & -> & Ht)%one_tree & Hr)%rbind_ok_inv.
  destruct (_ || _) eqn:Hb; [done|].
  apply orb_false_iff in Hb as [Hm Ha]. apply negb_false_iff, Z.eqb_eq in Hm, Ha.
  destruct t as [| | | | |n t|]; try discriminate Hm. cbn in Ha. subst n.
  apply rbind_ok_inv in Hr as (inner & (t' & He & -> & Hc)%one_tree & Hr). cbn [view it_data] in He.
  apply rbind_ok_inv in Hr as (k & (l & -> & Hl & ->)%array_view & Hr); [|done]. exists l. split.
  { change (major 6 39002 ++ enc t = major 6 39002 ++ enc (TArray l)). f_equal.
    by rewrite <- He, <- (app_nil_r (enc t)). }
  apply rbind_ok_inv in Hr as (v & Hv & Hr). destruct (Z.eqb_spec v 1) as [->|]; [|done]. cbn [negb] in Hr.
  apply rbind_ok_inv in Hr as ([] & Hu & Hr). apply rbind_ok_inv in Hr as ([] & _ & Hr).
  apply rbind_ok_inv in Hr as (st & Hst & Hr). apply rbind_ok_inv in Hr as ([] & _ & [= <- ->]).
  cbn [each] in Hu. apply rbind_ok_inv in Hu as ([] & _ & Hu). apply rbind_ok_inv in Hu as ([] & _ & Hu).
  apply rbind_ok_inv in Hu as ([] & (u & Hu & _)%rbind_ok_inv & _).
  rewrite at_view in Hv, Hst, Hu by lia. apply uint_view in Hv as [Hv _], Hu as [Hu _]. apply bytes_of_view in Hst as [Hst _].
  split_and!; try done. rewrite at_view, Hu by lia. done.
Qed.

Lemma combine_lookup {A B} (a : list A) (b : list B) i x y :
  a !! i = Some x -> b !! i = Some y -> combine a b !! i = Some (x, y).
Proof.
  revert b i. induction a as [|z a IH]; intros [|w b] [|i] Ha Hb; try done; simpl in *; [congruence|]. by apply IH.
Qed.

Lemma plan_table_inv partition digests anchors :
  plan_table partition digests anchors = Ok () ->
  Forall (fun a => an_partition a = partition /\ exists d, shard_depth (an_shard a) = Some d) anchors.
Proof.
  revert digests. induction anchors as [|a l IH]; intros digests Hp; cbn [plan_table] in Hp; [constructor|]. cbv zeta in Hp.
  destruct (bool_decide _ || _) eqn:Hb; [done|]. apply orb_false_iff in Hb as [Hd%bool_decide_eq_false Hpa].
  destruct (bool_decide (hash (an_uc a) ∈ digests)); [done|]. constructor; [|by eapply IH].
  split; [lia|]. destruct (shard_depth (an_shard a)) as [d|]; [by exists d | done].
Qed.

Lemma plan_leaves_inv anchors l next plan next' :
  plan_leaves anchors l next = Ok (plan, next') ->
  plan = map (fun x => lp_anchor_index x.2) l /\
  Forall (fun x => exists a, anchors !! Z.to_nat (lp_anchor_index x.2) = Some a /\ in_shard (an_shard a) (lf_sid x.1) = true) l.
Proof.
  revert next plan. induction l as [|[leaf p] l IH]; intros next plan Hp; cbn [plan_leaves] in Hp; [by injection Hp as <- _|].
  cbv zeta in Hp. destruct (_ <=? _); [done|]. destruct (next <? _); [done|].
  apply rbind_ok_inv in Hp as (a & Ha & Hp). unfold sound in Ha. apply ok_or_inv in Ha. rewrite nth_error_lookup_eq in Ha.
  destruct (in_shard (an_shard a) (lf_sid leaf)) eqn:Hin; [|done]. cbn [negb] in Hp.
  apply rbind_ok_inv in Hp as ([pl nx] & Hr & [= <- ->]). apply IH in Hr as [-> HF]. split; [done|].
  constructor; [by exists a | done].
Qed.

Lemma leaf_times_inv times l :
  leaf_times times l = Ok () -> Forall (fun x => exists t, times !! Z.to_nat x.2 = Some t /\ lf_reference_time x.1 <= t) l.
Proof.
  induction l as [|[leaf j] l IH]; cbn [leaf_times]; [constructor|]. intros (t & Ht & Hr)%rbind_ok_inv.
  unfold sound in Ht. apply ok_or_inv in Ht. rewrite nth_error_lookup_eq in Ht.
  destruct (Z.ltb_spec t (lf_reference_time leaf)); [done|]. constructor; [by exists t | by apply IH].
Qed.

Lemma open_anchors_inv l times : open_anchors l = Ok times -> Forall2 (fun a t => open_anchor a = Ok t) l times.
Proof.
  revert times. induction l as [|a l IH]; intros times Ho; cbn [open_anchors] in Ho; [by injection Ho as <-; constructor|].
  apply rbind_ok_inv in Ho as (t & Ht & Ho). apply rbind_ok_inv in Ho as (ts & Hts & [= <-]). constructor; [done | by apply IH].
Qed.

Lemma open_anchor_inv a t :
  open_anchor a = Ok t -> hash (an_input_record a) = an_expected_ir_hash a /\
    exists l, an_input_record a = enc (TTag 39002 (TArray l)) /\ record_tree l t (an_expected_state_root a).
Proof.
  unfold open_anchor. cbv zeta. destruct (_ || _); [done|]. destruct (bytes_neq _ _) eqn:Hh; [done|].
  apply bytes_neq_false in Hh. intros ([ts st] & Hs%map_err_ok_inv & Hr)%rbind_ok_inv.
  destruct (bytes_neq st _) eqn:Hn; [done|]. apply bytes_neq_false in Hn as ->. injection Hr as ->. split; [done|].
  by apply record_shape_inv.
Qed.

Lemma members_inv anchors l s :
  (members limit anchors l s).1 = Ok () ->
  Forall (fun x : Leaf * Z * LeafProof * Z => exists a, anchors !! Z.to_nat x.1.1.2 = Some a /\
    is_member (member_input (an_expected_state_root a) (lf_sid x.1.1.1) (lf_value x.1.1.1) x.1.2) = true) l.
Proof.
  revert s. induction l as [|[[[leaf j] p] n] l IH]; intros s; cbn [members]; [constructor|].
  intros (s1 & _ & Hr)%pay_ok_inv. apply checked_ok_inv in Hr as (a & Ha & Hr). unfold sound in Ha. apply ok_or_inv in Ha.
  rewrite nth_error_lookup_eq in Ha. destruct (is_member _) eqn:Hm; [|done]. constructor; [by exists a | by eapply IH].
Qed.

(** The membership run on a leaf is on the request of the leaf's proof. *)
Lemma is_member_inv root key value p :
  is_word root -> is_word key -> is_word value -> leaf_proof_ok p -> is_member (member_input root key value p) = true ->
  exists r, B1Membership.request_ok r /\ B1Membership.request_valid r = true /\
    B1Membership.req_root r = root /\ B1Membership.req_key r = key /\ B1Membership.req_value r = value /\
    B1Membership.req_bitmap r = lp_bitmap p /\ concat (B1Membership.req_siblings r) = lp_siblings p.
Proof.
  intros Hroot Hkey Hvalue (_ & Hbits & _) Hm. unfold is_member in Hm.
  destruct (B1Membership.membership _ u64_max) as [out|] eqn:Ho; [|done].
  apply B1Membership.membership_iff in Ho as (r & Hr & Heq & _ & ->). exists r. split; [done|].
  split; [by destruct (B1Membership.request_valid r)|]. destruct Hr as (Hr1 & Hr2 & Hr3 & Hr4 & _).
  unfold member_input, B1Membership.encode_request in Heq. unfold is_word in *. apply app_inv_head in Heq.
  apply app_inj_1 in Heq as [-> Heq]; [|congruence]. apply app_inj_1 in Heq as [-> Heq]; [|congruence].
  apply app_inj_1 in Heq as [Hn Heq]; [|by rewrite !be_bytes_length].
  apply (be_bytes_inj 4) in Hn; [|lia|pose proof (zlen_nonneg (B1Membership.req_value r)); lia].
  apply app_inj_1 in Heq as [-> Heq]; [|ulia]. apply app_inj_1 in Heq as [-> Heq]; [|congruence]. done.
Qed.

(** The kernel's outcome is well formed. *)
Lemma kernel_outcome lineage call history o : kernel_accepts lineage call history o -> outcome_ok o.
Proof.
  unfold kernel_accepts. destruct (lineage && _).
  - intros [s Hs]. pose proof (lineage_safe (lineage_charge limit) ltac:(intros; apply lineage_charge_total) (call_cfg call) history s) as Hsafe.
    unfold safe in Hsafe. rewrite Hs in Hsafe. by destruct Hsafe.
  - intros Hr. pose proof (relation_safe (call_op call) (call_cfg call) history) as Hsafe. by rewrite Hr in Hsafe.
Qed.

Lemma leaf_paths_length l steps : leaf_paths l = Ok steps -> length steps = length l.
Proof.
  revert steps. induction l as [|p l IH]; intros steps Hs; cbn [leaf_paths] in Hs; [by injection Hs as <-|].
  apply rbind_ok_inv in Hs as (n & _ & Hs). apply rbind_ok_inv in Hs as (r & Hr & [= <-]). simpl. f_equal. by apply IH.
Qed.

Lemma leaves_proven partition env o plan steps times s :
  envelope_ok env -> outcome_ok o -> plan_anchors partition env o = Ok plan -> leaf_paths (ev_leaf_proofs env) = Ok steps ->
  open_anchors (ev_anchors env) = Ok times -> leaf_times times (combine (oc_leaves o) plan) = Ok () ->
  (members limit (ev_anchors env) (combine (combine (combine (oc_leaves o) plan) (ev_leaf_proofs env)) steps) s).1 = Ok () ->
  Forall2 (leaf_proven partition (ev_anchors env)) (oc_leaves o) (ev_leaf_proofs env).
Proof.
  intros [HFa HFp] Ho Hplan Hsteps%leaf_paths_length Hopen%open_anchors_inv Htimes%leaf_times_inv Hmem%members_inv.
  unfold plan_anchors in Hplan. cbv zeta in Hplan. destruct (negb _) eqn:Hlen; [done|].
  destruct (_ <? _); [done|]. destruct (_ || _); [done|]. apply rbind_ok_inv in Hplan as ([] & Htab%plan_table_inv & Hplan).
  apply rbind_ok_inv in Hplan as ([pl nx] & [-> Hin]%plan_leaves_inv & Hplan). destruct (negb (nx =? _)); [done|]. injection Hplan as <-.
  assert (Hl : length (oc_leaves o) = length (ev_leaf_proofs env)) by ulia.
  apply Forall2_same_length_lookup. split; [done|]. intros i leaf p Hleaf Hp.
  assert (Hc : combine (oc_leaves o) (ev_leaf_proofs env) !! i = Some (leaf, p)) by by apply combine_lookup.
  assert (Hpi : map (fun x : Leaf * LeafProof => lp_anchor_index x.2) (combine (oc_leaves o) (ev_leaf_proofs env)) !! i = Some (lp_anchor_index p))
    by (rewrite list_lookup_fmap, Hc; done).
  destruct (lookup_lt_is_Some_2 steps i) as [n Hn]; [rewrite Hsteps; by eapply lookup_lt_Some|].
  pose proof (combine_lookup _ _ _ _ _ Hleaf Hpi) as Hlp.
  pose proof (combine_lookup _ _ _ _ _ (combine_lookup _ _ _ _ _ Hlp Hp) Hn) as Hall.
  apply (Forall_lookup_1 _ _ _ _ Hin) in Hc as (a & Ha & Hsh). cbn [fst snd] in *.
  apply (Forall_lookup_1 _ _ _ _ Htimes) in Hlp as (t & Ht & Hle). cbn [fst snd] in *.
  apply (Forall_lookup_1 _ _ _ _ Hmem) in Hall as (a' & Ha' & Hm). cbn [fst snd] in *.
  rewrite Ha in Ha'. injection Ha' as <-.
  pose proof (Forall2_lookup_lr _ _ _ _ _ _ Hopen Ha Ht) as (Hh & l & Hrec & Hshape)%open_anchor_inv.
  pose proof (Forall_lookup_1 _ _ _ _ Htab Ha) as [Hpart _].
  pose proof (Forall_lookup_1 _ _ _ _ HFa Ha) as (_ & _ & Hroot & _).
  pose proof (Forall_lookup_1 _ _ _ _ HFp Hp) as Hpok.
  pose proof (Forall_lookup_1 _ _ _ _ (ok_leaves o Ho) Hleaf) as (Hsid & _ & Hval).
  exists a, l, t. split_and!; try assumption. by apply is_member_inv.
Qed.

End stages.

(** ** Every anchor *)

(** The claim the registry judged is the anchor's. *)
Record claim_of_anchor (a : Anchor) (o : B1Batch.Occurrence) : Prop := {
  ca_packed : B1Batch.oc_packed o = pack_anchor a;
  ca_partition : B1Certificate.cl_partition (B1Batch.oc_claim o) = an_partition a;
  ca_shard : B1Certificate.cl_shard (B1Batch.oc_claim o) = an_shard a;
  ca_config : B1Certificate.cl_config (B1Batch.oc_claim o) = an_shard_conf_hash a;
  ca_state : B1Certificate.cl_state (B1Batch.oc_claim o) = an_expected_state_root a;
  ca_ir_hash : B1Certificate.cl_ir_hash (B1Batch.oc_claim o) = an_expected_ir_hash a }.

(** An anchor that the packed request carries unchanged: its lengths fit their fields. *)
Definition packable (a : Anchor) : Prop := anchor_ok a /\ zlen (an_shard a) < 256 ^ 2 /\ zlen (an_uc a) < 256 ^ 4.

Lemma pack_anchor_inj a c raw r r' :
  packable a -> is_word (B1Certificate.cl_config c) -> is_word (B1Certificate.cl_state c) -> is_word (B1Certificate.cl_ir_hash c) ->
  0 <= B1Certificate.cl_partition c < 256 ^ 4 -> zlen (B1Certificate.cl_shard c) < 256 ^ 2 -> zlen raw < 256 ^ 4 ->
  pack_anchor a ++ r = B1Certificate.packed_claim c raw ++ r' ->
  B1Certificate.cl_partition c = an_partition a /\ B1Certificate.cl_shard c = an_shard a /\
  B1Certificate.cl_config c = an_shard_conf_hash a /\ B1Certificate.cl_state c = an_expected_state_root a /\
  B1Certificate.cl_ir_hash c = an_expected_ir_hash a /\ raw = an_uc a /\ r = r'.
Proof.
  unfold packable, anchor_ok, pack_anchor, B1Certificate.packed_claim, is_word.
  intros ((Hpa & Hca & Hsa & Hia) & Hza & Hua) Hc Hs Hi Hp Hz Hr Heq. rewrite <- !app_assoc in Heq.
  pose proof (zlen_nonneg (an_shard a)). pose proof (zlen_nonneg (B1Certificate.cl_shard c)).
  pose proof (zlen_nonneg (an_uc a)). pose proof (zlen_nonneg raw).
  apply app_inj_1 in Heq as [Ep Heq]; [|by rewrite !be_bytes_length].
  apply app_inj_1 in Heq as [Ez Heq]; [|by rewrite !be_bytes_length].
  apply (be_bytes_inj 4) in Ep; [|unfold u32_max in *; lia|done].
  apply (be_bytes_inj 2) in Ez; [|split; [lia | done]..].
  apply app_inj_1 in Heq as [-> Heq]; [|ulia]. apply app_inj_1 in Heq as [-> Heq]; [|congruence].
  apply app_inj_1 in Heq as [-> Heq]; [|congruence]. apply app_inj_1 in Heq as [-> Heq]; [|congruence].
  apply app_inj_1 in Heq as [Eu Heq]; [|by rewrite !be_bytes_length].
  apply (be_bytes_inj 4) in Eu; [|split; [lia | done]..].
  apply app_inj_1 in Heq as [-> ->]; [|ulia]. done.
Qed.

Lemma scan_anchors anchors : forall raw_paths s l s',
  Forall packable anchors -> 0 <= sc_tokens s -> sc_data s = concat (map pack_anchor anchors) ->
  B1Batch.scan_claims B1Batch.COMPOSED (length anchors) raw_paths s = Ok (l, s') -> Forall2 claim_of_anchor anchors l.
Proof.
  induction anchors as [|a anchors IH]; intros raw_paths s l s' HF Ht Hd Hs; cbn [length B1Batch.scan_claims] in Hs.
  { injection Hs as <- _. constructor. }
  apply Forall_cons in HF as [Ha HF]. cbn [B1Batch.COMPOSED B1Batch.lim_per_uc_items] in Hs.
  apply rbind_ok_inv in Hs as ([p s1] & Hp & Hs).
  assert (Ht1 : 0 <= sc_tokens s1) by (apply B1Certificate.parse_claim_ok in Hp as [_ ?]; [lia|done]).
  pose proof (B1Batch.parse_claim_prefix _ _ _ Hp) as Hpre.
  apply B1Certificate.parse_claim_packed in Hp as (raw & _ & _ & _ & Hd1 & ? & ? & ? & ? & ? & ? & _).
  cbn [sc_data] in Hd1, Hpre, Hs. pose proof Hd1 as Heq. rewrite Hd in Heq. cbn [map concat] in Heq.
  apply pack_anchor_inj in Heq as (Ep & Esh & Ec & Est & Ei & -> & Er); [|done..].
  destruct (_ || _); [done|]. apply rbind_ok_inv in Hs as (depth & _ & Hs). apply rbind_ok_inv in Hs as (count & _ & Hs).
  destruct (negb _); [done|]. apply rbind_ok_inv in Hs as ([l1 s2] & Hl & [= <- <-]).
  constructor; [|by eapply IH].
  constructor; cbn [B1Batch.oc_claim B1Batch.oc_packed]; try assumption.
  rewrite Hd1 in Hpre at 1. apply app_inv_tail in Hpre. rewrite <- Hpre.
  unfold B1Certificate.packed_claim, pack_anchor. by rewrite Ep, Esh, Ec, Est, Ei.
Qed.

Lemma batch_header_request anchors k rest :
  zlen anchors <= u16_max ->
  B1Batch.batch_header B1Batch.COMPOSED (batch_request anchors) = Ok (k, rest) ->
  k = zlen anchors /\ rest = concat (map pack_anchor anchors).
Proof.
  intros Hn Hh. unfold B1Batch.batch_header, batch_request in Hh. inv_ok Hh. subst.
  apply (uint_n_be 1) in Hok as [Hd _]; [|lia]. apply (uint_n_be 1) in Hok0 as [Hd0 _]; [|lia].
  apply (uint_n_be 2) in Hok1 as [Hd1 Hk]; [|lia]. rewrite Hd0, Hd1 in Hd.
  pose proof (zlen_nonneg anchors). rewrite (app_assoc (be_bytes 1 a)) in Hd.
  apply app_inj_1 in Hd as [_ Hd]; [|by rewrite length_app, !be_bytes_length].
  apply app_inj_1 in Hd as [Hz ->]; [|by rewrite !be_bytes_length].
  apply (be_bytes_inj 2) in Hz; [done|unfold u16_max in *; lia|done].
Qed.

(** The anchors as the registry certified them: each is a claim of an accepted batch, judged with
    the committees of the epochs its claims name. *)
Definition certified `{Crypto} `{B1Registry.RegistryRead} (pins : B1Registry.Pins) (j : B1Registry.Journal)
    (anchors : list Anchor) : Prop :=
  exists claims common loaded work j1 j2,
    Forall2 claim_of_anchor anchors claims /\ B1Registry.common_v2 pins j = Ok (common, j1) /\
    B1Registry.cm_phase common <> 1 /\ B1Registry.cm_ready common = true /\
    B1Batch.load_epochs common (B1Batch.epochs_of claims) ∅ (B1Batch.add_work B1Batch.no_work B1Batch.common_reads) j1
      = Ok ((loaded, work), j2) /\
    B1Batch.loaded_ok common loaded /\ B1Batch.accepted common loaded claims.

Section registry.
Context `{Crypto} `{K256} `{B1Registry.RegistryRead} (pins : B1Registry.Pins).

Lemma batch_certified anchors j j' :
  Forall packable anchors -> zlen anchors <= u16_max ->
  registry_batch pins (batch_request anchors) j = (Ok true, j') -> certified pins j anchors.
Proof.
  intros HF Hn Hr. pose proof (registry_batch_cases pins (batch_request anchors) j) as Hc. rewrite Hr in Hc. cbn [fst] in Hc.
  destruct Hc as [? | (s & Hs & _ & common & j1 & Hcom & Hv)]; [done|].
  destruct Hv as [[? _] | (loaded & work & j2 & Hl & Hok & _ & Hph & Hrd & [Hacc _])]; [done|].
  exists (B1Batch.sn_claims s), common, loaded, work, j1, j2. split_and!; try assumption; [|by apply Hacc].
  unfold B1Batch.batch_scan in Hs. apply rbind_ok_inv in Hs as ([k rest] & Hh%map_err_ok_inv & Hs).
  apply batch_header_request in Hh as [-> ->]; [|done]. destruct (_ <? _); [done|].
  apply rbind_ok_inv in Hs as ([l s1] & Hl1%map_err_ok_inv & Hs). destruct (negb _); [done|].
  destruct (_ <? _); [done|]. injection Hs as <-. cbn [B1Batch.sn_claims].
  unfold zlen in Hl1. rewrite Nat2Z.id in Hl1. by eapply scan_anchors, Hl1.
Qed.

Lemma packable_anchors partition env o plan :
  envelope_ok env -> plan_anchors partition env o = Ok plan -> each scan_anchor (ev_anchors env) = Ok () ->
  Forall packable (ev_anchors env) /\ Forall (fun a => an_partition a = partition) (ev_anchors env) /\
  zlen (ev_anchors env) <= u16_max.
Proof.
  intros [HFa _] Hp Hs. unfold plan_anchors in Hp. cbv zeta in Hp. destruct (negb _); [done|].
  destruct (Z.ltb_spec MAX_ANCHORS (zlen (ev_anchors env))); [done|]. destruct (_ || _); [done|].
  apply rbind_ok_inv in Hp as ([] & Htab%plan_table_inv & _). split_and!; [|by eapply Forall_impl; [exact Htab|intros a [? _]]|done].
  rewrite Forall_forall in *. intros a Ha. split; [by apply HFa|]. apply Htab in Ha as Hd. destruct Hd as [_ [d Hd]]. split.
  - unfold shard_depth in Hd. destruct (last (an_shard a)); [|done]. destruct (_ || _) eqn:Hb; [done|]. apply orb_false_iff in Hb as [_ Hb]. lia.
  - assert (Hsa : scan_anchor a = Ok ()).
    { revert Hs Ha. clear. induction (ev_anchors env) as [|b l IH]; [by intros _ ?%not_elem_of_nil|].
      cbn [each]. intros ([] & Hb & Hl)%rbind_ok_inv [-> | Hin]%elem_of_cons; [done | by apply IH]. }
    unfold scan_anchor in Hsa. destruct (_ || _) eqn:Hb; [done|]. apply orb_false_iff in Hb as [Hb _].
    unfold MAX_ANCHOR_UC_BYTES in Hb. lia.
Qed.

Lemma rest_fields_nth k sizes i l j b :
  rest_fields k i sizes = Ok l -> nth_error l j = Some b -> exists n, bytes_of (at_ k (i + j)) n = Ok b.
Proof.
  revert i l j. induction sizes as [|n sizes IH]; intros i l j; cbn [rest_fields]; [by intros [= <-]; destruct j|].
  intros (x & Hx%map_err_ok_inv & (l' & Hl & [= <-])%rbind_ok_inv)%rbind_ok_inv. destruct j as [|j]; cbn [nth_error].
  - intros [= ->]. exists n. by rewrite Nat.add_0_r.
  - intros Hj. rewrite <- Nat.add_succ_comm. by eapply IH.
Qed.

Lemma decode_inv b cfg :
  decode b = Ok cfg -> exists l, b = enc (TArray l) /\ cfg_tree l (bc_evm_partition cfg) (bc_aggregator_policy_hash cfg).
Proof.
  unfold decode. intros (f & Hf & (last & Hlast%ok_or_inv & Hr)%rbind_ok_inv)%rbind_ok_inv.
  destruct (_ =? 32); [|done]. injection Hr as <-. unfold fields in Hf. destruct (_ <? _); [done|].
  apply rbind_ok_inv in Hf as (root & Ho%map_err_ok_inv & Hf). apply one_tree in Ho as (t & -> & -> & Hc).
  apply rbind_ok_inv in Hf as (k & Hk%map_err_ok_inv & Hf). apply array_view in Hk as (l & -> & Hl & ->); [|done].
  destruct (_ || _) eqn:Hd; [done|]. rewrite at_view in Hd by lia. apply bytes_item in Hd.
  apply rbind_ok_inv in Hf as (network & _ & Hf). destruct (network =? 0); [done|].
  apply rbind_ok_inv in Hf as (rg & _ & Hf). apply rbind_ok_inv in Hf as (chain & _ & Hf). apply rbind_ok_inv in Hf as (eg & _ & Hf).
  apply rbind_ok_inv in Hf as (ep & He%map_err_ok_inv & Hf). destruct (negb _); [done|].
  apply rbind_ok_inv in Hf as (rest & Hrest & [= <-]). cbn [fd_rest fd_evm_partition] in *.
  destruct (rest_fields_nth _ _ _ _ _ _ Hrest Hlast) as [n Hn]. cbn in Hn.
  rewrite at_view in He, Hn by lia. apply uint_view in He as [He _]. apply bytes_of_view in Hn as [Hn _].
  exists l. by split_and!.
Qed.

Lemma check_policy_inv cfg env partition :
  check_policy cfg env = Ok partition ->
  hash (ev_policy_body env) = bc_aggregator_policy_hash cfg /\ ev_policy_body env = enc (policy_tree partition) /\
  partition <> 0 /\ partition <> bc_evm_partition cfg /\ ev_anchors env <> [].
Proof.
  unfold check_policy. cbv zeta. destruct (_ <? _); [done|]. destruct (bytes_neq _ _) eqn:Hh; [done|]. apply bytes_neq_false in Hh.
  intros (root & Ho%map_err_ok_inv & Hr)%rbind_ok_inv. apply one_tree in Ho as (t & Hb & -> & Hc).
  apply rbind_ok_inv in Hr as (k & Hk%map_err_ok_inv & Hr). apply array_view in Hk as (l & -> & Hl & ->); [|done].
  explode l Hl. destruct (_ || _) eqn:Hd; [done|]. apply bytes_item in Hd as ->.
  apply rbind_ok_inv in Hr as (v & Hv%map_err_ok_inv & Hr). apply uint_view in Hv as [-> _].
  destruct (Z.eqb_spec v 2) as [->|]; [|done]. cbn [negb] in Hr.
  apply rbind_ok_inv in Hr as (q & Hq%map_err_ok_inv & Hr). apply uint_view in Hq as [-> _].
  destruct (Z.eqb_spec q 0); [done|]. destruct (Z.eqb_spec q (bc_evm_partition cfg)); [done|]. destruct (_ <? _); [done|].
  destruct (Z.eqb_spec (zlen (ev_anchors env)) 0) as [|Hz]; [done|]. injection Hr as <-. split_and!; try assumption.
  intros He. by rewrite He in Hz.
Qed.

(** What an accepted composition of [call] with the outcome [o] rests on: the policy the
    configuration commits to, the kernel's verdict on the history, a proof for every leaf the kernel
    asks for, and the registry's verdict on every anchor. *)
Record composed (limit : Z) (v2 : bool) (call : Call) (j : B1Registry.Journal) (o : Outcome) : Prop := {
  cp_evidence : exists l evm_partition env partition,
    call_cfg call = enc (TArray l) /\ cfg_tree l evm_partition (hash (ev_policy_body env)) /\ validate (call_cfg call) = Ok () /\
    decode_envelope (call_envelope call) = Ok env /\
    ev_policy_body env = enc (policy_tree partition) /\ partition <> 0 /\ partition <> evm_partition /\
    kernel_accepts (H1 := registry_verdict pins) limit v2 call (ev_history env) o /\
    Forall2 (leaf_proven partition (ev_anchors env)) (oc_leaves o) (ev_leaf_proofs env) /\
    ev_anchors env <> [] /\ Forall (fun a => an_partition a = partition) (ev_anchors env) /\
    certified pins j (ev_anchors env) }.

Lemma compose_composed limit v2 call used j o :
  (compose_outcome (H1 := registry_verdict pins) limit call v2 (used, j)).1 = Ok o -> composed limit v2 call j o.
Proof.
  intros (cfg & env & partition & plan & steps & times & s1 & v' & Hcfg & Hval & Henv & Hpol & Hker & Hplan & Hscan & Hsteps &
    Hbatch & Hopen & Htimes & Hmem)%compose_inv.
  apply check_policy_inv in Hpol as (Hph & Hbody & Hp0 & Hpe & Hne).
  apply decode_inv in Hcfg as (l & Hcfg & Ht). rewrite <- Hph in Ht. pose proof (envelope_history _ _ Henv) as [Hok _].
  destruct (packable_anchors _ _ _ _ Hok Hplan Hscan) as (Hpack & Hparts & Hn).
  constructor. exists l, (bc_evm_partition cfg), env, partition. split_and!; try assumption.
  - eapply leaves_proven; try done. by eapply kernel_outcome.
  - by eapply batch_certified.
Qed.

Lemma code_bound st : 0 <= Status.code st < 256 ^ 8.
Proof. destruct st; vm_compute; split; congruence. Qed.

Lemma shaped_status n marker st st' out : shaped n marker st out -> shaped n marker st' out -> Status.code st = Status.code st'.
Proof.
  intros [_ Hh _] [_ Hh' _]. rewrite Hh in Hh'. do 2 apply app_inv_head in Hh'.
  by apply (be_bytes_inj 8) in Hh'; [|apply code_bound..].
Qed.

(** A closure that returns has decoded the call and run its composition. *)
Lemma entry_inv {A} `{Verdict} limit (relation : Call -> stage A) input v f s' :
  entry limit relation input (0, v) = (Ok f, s') ->
  exists call used, decode_call input = Some call /\ relation call (used, v) = (Ok f, s').
Proof.
  unfold entry. unfold gbind at 1. destruct (meter_charge _ _ _) as [used|]; [|done]. cbn [fst snd].
  destruct (_ <? _); [done|]. destruct (decode_call input) as [call|]; [|done]. by exists call, used.
Qed.

(** The output of an accepted call. *)
Definition success (v2 : bool) (call : Call) (o : Outcome) : bytes :=
  if v2 then fixed_v2_encode (fixed_v2_of (if call_op call =? 1 then as_part o else o)) 0 else fixed_encode (fixed_of o) 0.

Lemma finish_inv {A} `{VerdictLaws} limit (P : A -> Prop) encode default n marker relation input v out v' :
  (forall call, gsafe limit P (relation call)) -> (forall st, shaped n marker st (encode default (Status.code st))) ->
  finish encode default (entry (A := A) limit relation input (0, v)) = (Ok out, v') ->
  shaped n marker Status.Ok (ot_bytes out) ->
  exists call used f s', decode_call input = Some call /\ relation call (used, v) = (Ok f, s') /\ ot_bytes out = encode f 0.
Proof.
  intros Hrel Hdef Hf Hout. pose proof (entry_safe limit P relation input v Hrel) as He. cbv zeta in He.
  destruct (entry limit relation input (0, v)) as [[f|[st|h|]] [used v1]] eqn:Hr; cbn [finish fst snd] in *; [| |done|done].
  - injection Hf as <- _. apply entry_inv in Hr as (call & u & Hc & Hr). by exists call, u, f, (used, v1).
  - injection Hf as <- _. cbn [ot_bytes] in Hout. exfalso. destruct He as [[? ?] | [_ Hne]]; [done|].
    apply Hne, code_ok. by eapply (shaped_status _ _ st Status.Ok).
Qed.

Lemma run_inv limit (v2 : bool) input j out j' :
  0 <= limit <= u64_max ->
  (if v2 then run_v2 (H1 := registry_verdict pins) limit input j else run (H1 := registry_verdict pins) limit input j) = (Ok out, j') ->
  shaped (if v2 then OUTPUT_BYTES_V2 else OUTPUT_BYTES) (if v2 then MARKER_V2 else MARKER) Status.Ok (ot_bytes out) ->
  exists call o, decode_call input = Some call /\ ot_bytes out = success v2 call o /\ composed limit v2 call j o.
Proof.
  intros Hl Hr Hs. pose (V := registry_verdict pins). destruct v2.
  - assert (Hg : forall call, gsafe (H1 := V) limit (fun _ => True) (compose_v2 (H1 := V) limit call)).
    { intros call. eapply gsafe_bind; [by apply gsafe_compose|]. intros. by apply gsafe_ret. }
    assert (Hd : forall st, shaped OUTPUT_BYTES_V2 MARKER_V2 st (fixed_v2_encode default_fixed_v2 (Status.code st))).
    { intros st. apply fixed_v2_encode_shaped; [by apply fixed_encode_shaped | done]. }
    destruct (finish_inv (H2 := V) limit _ _ _ _ _ _ _ _ _ _ Hg Hd Hr Hs) as (call & used & f & s' & Hc & Hrel & Ho).
    apply (f_equal fst), gbind_ok_inv in Hrel as (o & s1 & Hcomp & [= <-]).
    exists call, o. split_and!; [done|done|]. apply (compose_composed limit true call used). exact (f_equal fst Hcomp).
  - assert (Hg : forall call, gsafe (H1 := V) limit (fun _ => True) (compose (H1 := V) limit call)).
    { intros call. eapply gsafe_bind; [by apply gsafe_compose|]. intros. by apply gsafe_ret. }
    assert (Hd : forall st, shaped OUTPUT_BYTES MARKER st (fixed_encode default_fixed (Status.code st)))
      by (intros st; by apply fixed_encode_shaped).
    destruct (finish_inv (H2 := V) limit _ _ _ _ _ _ _ _ _ _ Hg Hd Hr Hs) as (call & used & f & s' & Hc & Hrel & Ho).
    apply (f_equal fst), gbind_ok_inv in Hrel as (o & s1 & Hcomp & [= <-]).
    exists call, o. split_and!; [done|done|]. apply (compose_composed limit false call used). exact (f_equal fst Hcomp).
Qed.

(** C8: What an accepted bridge call rests on.  If the precompile returns with the status for
    success, the input was a canonical call and the output is the one of an outcome [o] for which:
    the configuration is the encoding of a record that commits to the hash of the envelope's policy
    body; that body is the encoding of the policy of one partition, not zero and not the EVM's
    partition of the configuration, and every anchor is of that partition; the token kernel (the
    lineage relation in the second version) accepted the history with the outcome [o]; every leaf
    of [o] is a member, under its state identifier and along the siblings of its proof, of the state
    opened from the input record of one of the anchors, in the policy's partition, inside the
    anchor's shard and no later than its time; and every anchor is a claim of a batch the registry
    accepted, each claim folding to the root of a seal that a quorum of its epoch's committee
    signed. *)
Theorem bridge_redeems (v2 : bool) data gas j used out :
  is_u64 gas -> compose_call pins v2 data gas j = Some (B1Batch.Returned used out) ->
  shaped (if v2 then OUTPUT_BYTES_V2 else OUTPUT_BYTES) (if v2 then MARKER_V2 else MARKER) Status.Ok out ->
  exists call o, decode_call data = Some call /\ out = success v2 call o /\ composed gas v2 call j o.
Proof.
  intros Hgas Hc Hs. unfold compose_call in Hc.
  destruct (if v2 then _ else _) as [[r|[[]|]] j'] eqn:Hr; try done. injection Hc as <- <-.
  by eapply run_inv.
Qed.

End registry.

End BridgeSound.
