(* ===== verification/BridgeSamples.v ===== *)
(** A concrete call of the bridge, accepted by the registry of the certificate batch's sample.

    A token of one hundred units is minted against a lock.  Its one leaf is the whole state of an
    input record, which the committee of the sample registry has sealed; the call carries the
    configuration, the policy, the mint, the anchor and an empty path.  The witnesses of the
    bridge's statements are evaluated on it. *)
From S2P Require Import Prelude Crypto B1Cbor B1Membership B1Registry B1Certificate B1Batch.
From S2P Require Import B2Cbor B2Semantics B2Lineage B2Samples BridgeAbi Bridge BridgeSafety BridgeSound.
Import B1Cbor B2Cbor B2Semantics B2Lineage BridgeAbi Bridge BridgeSafety BridgeSound.

Module BridgeSamples.

#[local] Existing Instances toy_crypto B2Samples.toy_k256 B1Batch.batch_registry.

Definition word (n : Z) : bytes := be_bytes 32 n.
Definition network : Z := 3.
Definition chain : Z := 5.
Definition partition : Z := 7.
Definition vault : bytes := replicate 20 Byte.x77.
Definition id_string : bytes := identity network (word 1) (word 2) chain.
Definition policy_body : bytes := enc (TArray [TBytes POLICY_DOMAIN; TUint 2; TUint partition]).
Definition cfg_bytes : bytes :=
  enc (TArray [TBytes CFG_DOMAIN; TUint network; TBytes (word 1); TUint chain; TBytes (word 2); TUint 8;
    TBytes [Byte.x80]; TBytes vault; TBytes ZERO20; TBytes (type_id id_string); TBytes (asset_id id_string);
    TBytes (word 3); TBytes vault; TBytes (word 4); TBytes (word 5); TBytes (hash policy_body)]).

(** The mint and its certification by the universal minter. *)
Definition salt : bytes := mint_salt (hash cfg_bytes) 1.
Definition token_id : bytes := hash_array [enc_bytes salt; enc_uint network].
Definition lock_tree : tree :=
  TTag 39049 (TArray [TUint 2; TUint chain; TBytes vault; TBytes ZERO20; TUint 1;
    TArray [TUint 1; TBytes (hash cfg_bytes); TBytes (word 9); TBytes [Byte.x01]; TBytes [Byte.x01];
      TBytes [Byte.x01]; TArray [TBytes [Byte.x01]]; TArray [TBytes [Byte.x01]]]]).
Definition mint_tree : tree :=
  TTag 39041 (TArray [TUint 2; TUint network; pred_tree 1 (B2Samples.key_of 20); TBytes salt;
    TBytes (type_id id_string); TBytes (enc lock_tree);
    TBytes (enc (mint_data_tree (asset_id id_string) [z2b 100])); TNull]).
Definition minter : bytes :=
  Byte.x02 :: hash_array [enc_bytes (ascii "I_AM_UNIVERSAL_MINTER_FOR_"); enc_bytes token_id].
Definition cd_tree : tree :=
  TTag 39031 (TArray [TUint 2; pred_tree 1 minter; TBytes (mint_source token_id); TBytes (hash (enc mint_tree));
    TNull; TBytes (B2Samples.signed minter)]).
Definition history : bytes := enc (TArray [TArray [mint_tree; cd_tree; TUint 10]; TArray []]).

Definition outcome : Outcome :=
  B2Samples.unwrap default_outcome (relation 1 cfg_bytes history (fun _ => Ok ())).
Definition leaf : Leaf := last_leaf (oc_leaves outcome).

(** The input record with the leaf as its whole state, and its certificate: a shard of depth zero,
    one step of the unicity tree, and a seal signed by two members of the sample committee. *)
Definition state_root : bytes := B1Membership.path_hash (lf_sid leaf) (lf_value leaf) [].
Definition ir : tree :=
  TTag 39002 (TArray [TUint 1; TUint 5; TUint 0; TBytes (word 11); TBytes state_root; TBytes (word 13);
    TUint 1700000000; TBytes (word 14); TUint 0; TNull]).
Definition shard : bytes := [Byte.x80].
Definition root : bytes :=
  B1Certificate.tree_root partition
    (sha256 (B1Certificate.tree_leaf partition (sha256 ([Byte.x58; Byte.x20]
      ++ sha256 (enc ir ++ enc (TBytes (word 31)) ++ enc (TBytes (word 32))))))) [(9, word 22)].
Definition uc : tree :=
  TTag 39001 (TArray [TUint 1; ir; TBytes (word 31); TBytes (word 32);
    TTag 39003 (TArray [TUint 1; TBytes shard; TArray []]); B1Certificate.sample_tc;
    TTag 39005 (TArray [TUint 1; TUint network; TUint 100; TUint 3; TUint 1700000000;
      TBytes (word 41); TBytes root; TMap B1Batch.quorum_sigs])]).

Definition anchor : Anchor := {|
  an_uc := enc uc; an_input_record := enc ir; an_partition := partition; an_shard := shard;
  an_shard_conf_hash := word 32; an_expected_state_root := state_root; an_expected_ir_hash := hash (enc ir) |}.
Definition envelope : Envelope := {|
  ev_policy_body := policy_body; ev_history := history; ev_anchors := [anchor];
  ev_leaf_proofs := [{| lp_anchor_index := 0; lp_bitmap := ZERO32; lp_siblings := [] |}] |}.
Definition call (op : Z) : Call := {| call_op := op; call_cfg := cfg_bytes; call_envelope := encode_envelope envelope |}.
Definition input : bytes := encode_call (call 1).

Definition answer (v2 : bool) : option B1Batch.PrecompileOutcome :=
  compose_call B1Batch.sample_pins v2 input 10000000 B1Batch.batch_journal.

(** The answer is a success of the second version. *)
Definition succeeded (r : option B1Batch.PrecompileOutcome) : bool :=
  match r with
  | Some (B1Batch.Returned _ out) =>
      bool_decide (length out = OUTPUT_BYTES_V2) &&
      bool_decide (take 64 out = MARKER_V2 ++ replicate 24 Byte.x00 ++ be_bytes 8 (Status.code Status.Ok))
  | _ => false
  end.

Lemma sample_succeeds : succeeded (answer true) = true.
Proof. vm_compute. reflexivity. Qed.

#[local] Strategy opaque [input].
#[local] Strategy expand [answer].

Lemma bridge_redeems_witness :
  exists used out call o, answer true = Some (B1Batch.Returned used out) /\ decode_call input = Some call /\
    out = success true call o /\ composed B1Batch.sample_pins 10000000 true call B1Batch.batch_journal o.
Proof.
  pose proof sample_succeeds as Hs. destruct (answer true) as [[used out| | |]|] eqn:Ha; try discriminate Hs.
  unfold succeeded in Hs. apply andb_true_iff in Hs as [Hn%bool_decide_eq_true Hh%bool_decide_eq_true].
  destruct (bridge_redeems B1Batch.sample_pins true input 10000000 B1Batch.batch_journal used out) as (c & o & Hc & Ho & Hcomp).
  - split; discriminate.
  - exact Ha.
  - constructor; [exact Hn | exact Hh | congruence].
  - exists used, out, c, o. split; [reflexivity|]. split; [exact Hc|]. split; [exact Ho | exact Hcomp].
Defined.

Lemma bridge_call_total_witness :
  exists r, compose_call B1Batch.sample_pins true input 10000000 B1Batch.batch_journal = Some r /\
    match r with
    | B1Batch.Returned used out => entry_gas input <= used <= 10000000 /\ exists st, shaped OUTPUT_BYTES_V2 MARKER_V2 st out
    | B1Batch.HaltOutOfGas | B1Batch.Fatal => True
    | B1Batch.HaltOther why => why = "malformed bridge compose input"%string
    end.
Proof. apply (bridge_call_total B1Batch.sample_pins true input 10000000 B1Batch.batch_journal). split; discriminate. Defined.

End BridgeSamples.
